(* ===== verification/_CoqProject ===== *)
-Q . S2P
Prelude.v
Text.v
Url.v
UrlProofs.v
Collectors.v
FS.v
Sha256.v
Heap.v
Profile.v
Pipeline.v
PipelineProofs.v
PipelineTheorems.v
Wire.v
Varint.v
WireTheorems.v
Broker.v
BrokerTheorems.v
BrokerPanics.v
Logging.v
LoggingProofs.v
LoggingTheorems.v
LoggingFaults.v
Upload.v
UploadNames.v
UploadProofs.v
UploadTheorems.v
UploadServe.v
Addr.v
Lane.v
Proxy.v
ProxyProofs.v
ProxyInv.v
ProxyRelay.v
ProxyTheorems.v
Roles.v
RolesTheorems.v
ClientPubSub.v
ClientPubSubTheorems.v
SharedConn.v
SharedConnTheorems.v
ClientHTTP.v
ClientHTTPTheorems.v
Certs.v
CertsTheorems.v
Config.v
Flags.v
FlagsTheorems.v
ClientCmd.v
ProxyCmd.v
ServerCmd.v
Server.v
CollectorsTheorems.v
CommandsTheorems.v
UploadCap.v
Fleet.v
FleetTheorems.v
Ctl.v
CtlTheorems.v
CertsLoad.v
ClientConnect.v
ClientConnectTheorems.v
ClientNew.v
ClientNewTheorems.v
Lifecycle.v
LifecycleProofs.v
ServerRun.v
ProxyRun.v
ClientRun.v
RunsTheorems.v
ServerHTTP.v
ServerHTTPTheorems.v
