(* ===== verification/Prelude.v ===== *)
(** * quixiot: a verification development

    quixiot is a workload for HTTP/3 and WebTransport over an impaired network: a
    server with a small HTTP API, uploads and a pub/sub broker; clients that poll,
    upload, publish and subscribe; a UDP proxy between them that drops, duplicates,
    reorders, delays and shapes packets; and commands that configure, start and check
    all of it. This library models the code under [src/] and proves what its parts
    promise. File and function names below are those of [src/].

    ** Parts and files

    - Foundations. [Prelude]: outcomes of Go calls ([Ok], [Err], [Panic]), 64-bit
      wrap-around, slices, tactics and hints. [Text]: strings, runes, [strings].
      [FS]: the file system as [os] and [path/filepath] show it, with a schedule of
      faults from which any call may fail. [Sha256], [Varint], [Heap]: SHA-256, the
      QUIC integers as an instance of the interface of [Wire], [container/heap].
    - Impairment ([internal/impair]). [Profile]: profiles, validation, built-in
      table. [Pipeline]: [Enqueue], [Flush], [ReleaseReady], [NextWake] and
      [schedule]; [PipelineProofs], [PipelineTheorems].
    - Frames ([internal/wire]). [Wire], [WireTheorems]: [Encode], [Decode] and the
      framing on streams.
    - Metrics ([internal/metrics]). [Collectors], [CollectorsTheorems]: the collectors
      of the commands, their registries, and the label values that they take.
    - Broker ([internal/broker]). [Broker], [BrokerTheorems]: topics and gauges
      ([broker.go]), and the goroutines of all sessions ([session.go]) as a step
      relation on one state. [BrokerPanics]: what of the input of clients ends it.
    - Uploads ([internal/upload]). [Upload]: names, the handler, pruning;
      [UploadNames], [UploadProofs], [UploadTheorems], [UploadServe]; [UploadCap]
      interleaves the phases of concurrent requests on a server.
    - Logs ([internal/logging]). [Logging]: the rotating file; [LoggingProofs] and
      [LoggingTheorems] without failing calls, [LoggingFaults] with them.
    - Proxy ([internal/proxy]). [Addr]: addresses and seeds. [Lane]: [applyLoop] with
      its timer, one goroutine for each direction. [Proxy]: sessions, [Serve],
      [Close] and the sweeper, one step per critical section, channel operation or
      network call; [ProxyProofs], [ProxyInv], [ProxyRelay], [ProxyTheorems].
    - Clients. [Roles], [RolesTheorems] ([internal/roles]): the four workloads over
      type classes that state what they use of a client, and [Mixed].
      [ClientPubSub] ([pubsub.go]), [SharedConn] ([shared_conn.go]), [ClientHTTP]
      ([client.go]) in [internal/client], each with its theorems: the session, the
      connection that is shared under a mutex, and the HTTP calls. [ClientConnect],
      [ClientConnectTheorems]: how a session is opened, and its request stream.
      [Url], [UrlProofs]: package [net/url], as far as the client uses it.
      [ClientNew], [ClientNewTheorems]: [New] with the base URL, the URLs of the calls,
      and the configurations of a connection.
    - Server. [Server] ([internal/server]): [New], handlers, instrumentation, [Close].
      [ServerHTTP], [ServerHTTPTheorems]: its routes, the counting of connections and
      the wrapper of response writers. [Certs], [CertsLoad] ([internal/tlsutil]).
    - Commands. [Config] ([internal/config]): defaults, file and flags as the class
      [Configuration]; [Flags], [FlagsTheorems]: package [flag] and the class
      [CommandLine] of what is made of a command line; instances of both in
      [ClientCmd], [ProxyCmd], [ServerCmd] ([cmd/*/main.go]). [Lifecycle],
      [LifecycleProofs]: commands that acquire and release; [ServerRun], [ProxyRun],
      [ClientRun]: [run] of the binaries in these terms. [Fleet] ([cmd/fleet]); [Ctl] ([scripts/quixiotctl.go]).
      Theorems are in [CertsTheorems], [CommandsTheorems], [RunsTheorems],
      [FleetTheorems], [CtlTheorems].

    Components meet at type classes ([Wire.Varint], [Pipeline.Rand], [Labels],
    [UploaderClient], [PublisherSession], [RandSource], [HostParser], [Configuration],
    [CommandLine], with their
    laws) or by calling each other's definitions: [Server.New] makes the handler of [Upload] and prunes
    with it, the proxy runs the pipelines of [Pipeline] in its lanes, broker and
    client exchange the frames of [Wire], the uploader of [Roles] sends through
    [ClientHTTP] to [Upload], [Ctl] checks what is stored, the URLs of [ClientNew] are
    routed by [ServerHTTP], the runs of the commands load what [Certs] generates, and a
    fleet starts clients by command lines that [Flags] reads.

    ** State and steps

    Sequential code is a function on its state with the errors of the code as values;
    calls of the file system thread an [FS], whose fault schedule makes the theorems
    that do not assume it empty hold whatever calls fail. Concurrent code (broker,
    proxy, client session, shared connection, mixed role, uploads) is a step function
    or relation on the whole state, with the position of every goroutine in it; what
    the network, timers and the scheduler do is input of the steps, and theorems
    quantify over all interleavings. Integers wrap at 64 bits where the code computes
    with [int64] or [int]; probabilities are binary64 numbers.

    ** What is shown

    - Conservation and timing of packets: nothing is lost or made up by a pipeline,
      the rate limit and the release order hold, wake-ups are exact.
    - Round trips of frames, alone and on streams; decoding never panics.
    - Invariants of the concurrent parts under every interleaving: broker, proxy,
      client session, shared connection; what is relayed and delivered, in which
      order, and when goroutines can get stuck.
    - Uploads: names are safe, a request by itself stores exactly what it
      acknowledges, refusals leave nothing behind, pruning is oldest first, the cap
      holds; end to end from the generated body to the stored file and to the script
      that checks it.
    - Files under faults: the log within its size and a refinement of a bounded list
      of records, certificates and targets never partial; what is generated loads.
    - URLs: printing and parsing agree, a base URL is a fixpoint of its normalization,
      and what a client calls reaches its handler with its name.
    - Commands: flags over file over defaults for a whole command line, the topics and
      roles of clients, the children of a fleet and what their command lines mean,
      profiles that are valid, stated on the numbers; what a run acquires it releases,
      but for the log file, which nothing closes, and the metrics endpoint, which a
      goroutine shuts down that nothing waits for; and the defaults of the commands
      fit together.
    - Defects, as theorems about reachable states: topics that end the server or a
      client because they are no label values, sizes of frames that do, a deadlock after a failed
      handshake, a session that outlives [Close], a send that races the closing of its
      channel, an overlapping upload that is lost though acknowledged, time stamps cut
      short, a request stream that is never closed, the validity of the authority
      wrapping around, ports out of range, base URLs that lose their path, names that no
      route takes.

    ** Fuel and bounds

    Recursion is structural but for [io.Copy] of generated bodies, which takes fuel
    and is shown to need one unit per 32 KiB and no more, and the scanning of runes,
    whose fuel is the length of the text. Theorems that bound sums by [int64] say so
    in their hypotheses.

    ** Not modelled

    QUIC, HTTP/3, WebTransport, TLS and X.509, the Prometheus client library, the parsing
    of YAML, of hosts and of durations, and JSON decoding are outside the repository or
    its concern: they are arguments of the definitions, with hypotheses where something
    is relied on. What sockets and processes answer is input; signals and log records
    without an outcome are left out. Of the multiplexer of [net/http] only what its
    routes need is there. The interleaving of
    uploads is by the two phases of a request, not by single calls. A run ends at a
    panic; whether something above recovers from it is not modelled. Paths are resolved
    lexically, without symbolic links; file modes are not modelled. *)

From stdpp Require Export base gmap sets list strings numbers fin_maps sorting pretty.
From Stdlib Require Export ZArith Lia.
From Stdlib Require Export Strings.Byte.

#[global] Open Scope Z_scope.

(** ** Outcomes of Go calls

    A call returns a value, returns an error value, or panics. *)
Inductive outcome (E A : Type) : Type :=
| Ok (a : A)
| Err (e : E)
| Panic.
Arguments Ok {E A} a.
Arguments Err {E A} e.
Arguments Panic {E A}.

(** Calls that return no error value: they return or panic. *)
Abbreviation exec := (outcome Empty_set).

Definition obind {E A B} (m : outcome E A) (k : A → outcome E B) : outcome E B :=
  match m with
  | Ok a => k a
  | Err e => Err e
  | Panic => Panic
  end.

(** Re-raise the error of a callee wrapped by the caller ([fmt.Errorf] with %w). *)
Definition owrap {E E' A} (f : E → E') (m : outcome E A) : outcome E' A :=
  match m with
  | Ok a => Ok a
  | Err e => Err (f e)
  | Panic => Panic
  end.

Declare Scope go_scope.
Delimit Scope go_scope with go.
Notation "'let!' x ':=' m 'in' k" := (obind m (λ x, k))
  (at level 10, x pattern, m at level 100, k at level 200) : go_scope.
Notation "'let!' x ':=' m 'else' f 'in' k" := (obind (owrap f m) (λ x, k))
  (at level 10, x pattern, m at level 100, f at level 100, k at level 200) : go_scope.
#[global] Open Scope go_scope.

Definition is_ok {E A} (m : outcome E A) : bool :=
  match m with Ok _ => true | _ => false end.

Lemma obind_ok {E A B} (m : outcome E A) (k : A → outcome E B) b :
  obind m k = Ok b ↔ ∃ a, m = Ok a ∧ k a = Ok b.
Proof.
  split.
  - destruct m as [a|e|]; [by eauto|discriminate..].
  - by intros (a & -> & H).
Qed.

Lemma owrap_ok {E E' A} (f : E → E') (m : outcome E A) a :
  owrap f m = Ok a ↔ m = Ok a.
Proof. destruct m; split; intros H; by inversion H. Qed.

(** ** Machine integers *)

Definition max_int64 : Z := 2 ^ 63 - 1.
Definition min_int64 : Z := - 2 ^ 63.

(** [int64] (and [int], on the 64-bit targets the program is built for). *)
Definition wrap64 (z : Z) : Z := (z + 2 ^ 63) `mod` 2 ^ 64 - 2 ^ 63.
(** [uint64]. *)
Definition wrapu64 (z : Z) : Z := z `mod` 2 ^ 64.
(** [uint16]. *)
Definition wrapu16 (z : Z) : Z := z `mod` 2 ^ 16.

Lemma wrap64_small z : min_int64 ≤ z ≤ max_int64 → wrap64 z = z.
Proof.
  unfold wrap64, min_int64, max_int64. intros H.
  rewrite Z.mod_small; lia.
Qed.

Lemma wrap64_range z : min_int64 ≤ wrap64 z ≤ max_int64.
Proof.
  unfold wrap64, min_int64, max_int64.
  pose proof (Z.mod_pos_bound (z + 2 ^ 63) (2 ^ 64)). lia.
Qed.

Lemma wrapu64_small z : 0 ≤ z < 2 ^ 64 → wrapu64 z = z.
Proof. intros. unfold wrapu64. by apply Z.mod_small. Qed.

(** ** Lengths and slices *)

(** [len(x)] as a Go [int]. *)
Definition zlen {A} (l : list A) : Z := Z.of_nat (length l).

Lemma zlen_nonneg {A} (l : list A) : 0 ≤ zlen l.
Proof. unfold zlen. lia. Qed.

Lemma zlen_app {A} (l k : list A) : zlen (l ++ k) = zlen l + zlen k.
Proof. unfold zlen. rewrite length_app. lia. Qed.

Lemma zlen_nil {A} : zlen ([] : list A) = 0.
Proof. done. Qed.

Lemma zlen_cons {A} (x : A) l : zlen (x :: l) = 1 + zlen l.
Proof. unfold zlen. simpl. lia. Qed.

Lemma zlen_0_nil {A} (l : list A) : zlen l = 0 → l = [].
Proof. unfold zlen. destruct l; [done|simpl; lia]. Qed.

(** The slice expression [l[lo:hi]] of a slice whose capacity is its length:
    it panics unless [0 <= lo <= hi <= len(l)]. *)
Definition slice {E A} (l : list A) (lo hi : Z) : outcome E (list A) :=
  if (0 <=? lo) && (lo <=? hi) && (hi <=? zlen l)
  then Ok (take (Z.to_nat (hi - lo)) (drop (Z.to_nat lo) l))
  else Panic.

Lemma slice_ok {E A} (l : list A) lo hi :
  0 ≤ lo ≤ hi → hi ≤ zlen l →
  slice (E:=E) l lo hi = Ok (take (Z.to_nat (hi - lo)) (drop (Z.to_nat lo) l)).
Proof.
  intros ??. unfold slice.
  destruct (0 <=? lo) eqn:?, (lo <=? hi) eqn:?, (hi <=? zlen l) eqn:?; simpl; try done; lia.
Qed.

(** The last [n] elements of a list. *)
Definition lastn {A} (n : nat) (l : list A) : list A := drop (length l - n) l.

Lemma length_lastn {A} n (l : list A) : length (lastn n l) = Nat.min n (length l).
Proof. unfold lastn. rewrite length_drop. lia. Qed.

Lemma lastn_suffix {A} n (l : list A) : lastn n l `suffix_of` l.
Proof. exists (take (length l - n) l). symmetry. apply take_drop. Qed.

Lemma lastn_all {A} n (l : list A) : (length l ≤ n)%nat → lastn n l = l.
Proof. intros. unfold lastn. replace (length l - n)%nat with 0%nat by lia. done. Qed.

(** Two members of a sorted list are related one way or the other. *)
Lemma StronglySorted_total {A} (R : relation A) l x y :
  StronglySorted R l → x ∈ l → y ∈ l → x = y ∨ R x y ∨ R y x.
Proof.
  induction 1 as [|z l _ IH Hz]; [by intros ?%elem_of_nil|].
  rewrite Forall_forall in Hz. intros [->|Hx]%elem_of_cons [->|Hy]%elem_of_cons; auto.
Qed.

(** ** Bytes and strings: a Go string is a sequence of bytes *)

#[global] Instance byte_eq_dec : EqDecision byte := Byte.byte_eq_dec.

Definition bytes_of_string : string → list byte := String.list_byte_of_string.
Definition string_of_bytes : list byte → string := String.string_of_list_byte.

Lemma string_of_bytes_of_string s : string_of_bytes (bytes_of_string s) = s.
Proof. apply String.string_of_list_byte_of_string. Qed.

Lemma bytes_of_string_of_bytes l : bytes_of_string (string_of_bytes l) = l.
Proof. apply String.list_byte_of_string_of_list_byte. Qed.

Lemma bytes_of_string_length s : length (bytes_of_string s) = String.length s.
Proof.
  unfold bytes_of_string, String.list_byte_of_string. rewrite length_map.
  induction s; simpl; congruence.
Qed.

Lemma string_of_bytes_empty l : string_of_bytes l = ""%string ↔ l = [].
Proof.
  split; [|by intros ->].
  intros H. apply (f_equal bytes_of_string) in H.
  by rewrite bytes_of_string_of_bytes in H.
Qed.

(** ** Automation *)

Create HintDb go.
Create Rewrite HintDb go_len.
#[export] Hint Rewrite @zlen_app @zlen_nil @zlen_cons : go_len.
#[export] Hint Resolve zlen_nonneg wrap64_range : go.

(** A decidable proposition without variables. *)
Ltac by_computation := apply (bool_decide_unpack _); vm_compute; exact I.

(** Split the conjunctions and invert the monadic equations in the context. *)
Ltac inv_ok :=
  repeat match goal with
  | H : obind _ _ = Ok _ |- _ =>
      apply obind_ok in H; let x := fresh "x" in let E := fresh "E" in
      destruct H as (x & E & H)
  | H : owrap _ _ = Ok _ |- _ => apply owrap_ok in H
  | H : Ok _ = Ok _ |- _ => injection H as H
  | H : Err _ = Ok _ |- _ => discriminate H
  | H : Panic = Ok _ |- _ => discriminate H
  end; simplify_eq.

(** Case analysis on every boolean comparison of integers in sight. *)
Ltac bdestruct_all :=
  repeat match goal with
  | |- context [ (?a <? ?b)%Z ] => destruct (Z.ltb_spec a b)
  | |- context [ (?a <=? ?b)%Z ] => destruct (Z.leb_spec a b)
  | |- context [ (?a =? ?b)%Z ] => destruct (Z.eqb_spec a b)
  | H : context [ (?a <? ?b)%Z ] |- _ => destruct (Z.ltb_spec a b)
  | H : context [ (?a <=? ?b)%Z ] |- _ => destruct (Z.leb_spec a b)
  | H : context [ (?a =? ?b)%Z ] |- _ => destruct (Z.eqb_spec a b)
  end; cbn [negb andb orb] in *.
