(* ===== verification/Text.v ===== *)
(** * Text: strings, runes and paths of the Go standard library

    What the program uses of packages [strings], [unicode/utf8] and
    [path/filepath] (on Unix), as functions on byte strings. *)

From S2P Require Import Prelude.

(** ** Bytes as numbers, splitting *)

Definition byte_Z (b : byte) : Z := Z.of_N (Byte.to_N b).
(** The byte of a number modulo 256. *)
Definition byte_of_Z (z : Z) : byte :=
  match Byte.of_N (Z.to_N (z `mod` 256)) with Some b => b | None => x00 end.

Section split.
Context {A : Type} `{EqDecision A}.

(** [strings.Split(s, c)] for a one-byte separator: never empty. *)
Fixpoint split_on (c : A) (l : list A) : list (list A) :=
  match l with
  | [] => [[]]
  | b :: l =>
      if decide (b = c) then [] :: split_on c l
      else match split_on c l with
           | s :: ss => (b :: s) :: ss
           | [] => [[b]]
           end
  end.

(** [strings.Join(ss, c)] *)
Fixpoint join_with (c : A) (ss : list (list A)) : list A :=
  match ss with
  | [] => []
  | [s] => s
  | s :: ss => s ++ c :: join_with c ss
  end.

Lemma split_on_ne c l : split_on c l ≠ [].
Proof. destruct l as [|b l]; simpl; [done|]. case_decide; [done|]. by destruct (split_on c l). Qed.

Lemma split_on_none c l : c ∉ l → split_on c l = [l].
Proof.
  induction l as [|b l IH]; simpl; [done|]. rewrite not_elem_of_cons. intros [Hb Hl].
  rewrite decide_False by done. by rewrite IH.
Qed.

Lemma split_on_app c l k : split_on c (l ++ c :: k) = split_on c l ++ split_on c k.
Proof.
  induction l as [|b l IH]; simpl; [by rewrite decide_True|].
  case_decide; [by rewrite IH|]. rewrite IH.
  destruct (split_on c l) eqn:E; [by apply split_on_ne in E|done].
Qed.

(** A piece without separator extends the last segment. *)
Lemma split_on_snoc c l k : c ∉ k →
  ∃ ss s, split_on c l = ss ++ [s] ∧ split_on c (l ++ k) = ss ++ [s ++ k].
Proof.
  intros Hk. induction l as [|b l (ss & s & E1 & E2)]; simpl.
  - exists [], []. split; [done|]. by rewrite split_on_none.
  - case_decide.
    + exists ([] :: ss), s. by rewrite E1, E2.
    + rewrite E1, E2. destruct ss as [|s0 ss]; simpl.
      * by exists [], (b :: s).
      * by exists ((b :: s0) :: ss), s.
Qed.

Lemma split_on_segments c l s : s ∈ split_on c l → c ∉ s.
Proof.
  revert s. induction l as [|b l IH]; intros s; simpl.
  - intros ->%list_elem_of_singleton. by intros ?%elem_of_nil.
  - case_decide as Hb.
    + intros [->|Hs]%elem_of_cons; [by intros ?%elem_of_nil|auto].
    + destruct (split_on c l) as [|s0 ss]; intros [->|Hs]%elem_of_cons.
      * intros [?|?%elem_of_nil]%elem_of_cons; [congruence|done].
      * by apply elem_of_nil in Hs.
      * intros [?|?]%elem_of_cons; [congruence|]. by eapply IH; [left|].
      * apply IH. by right.
Qed.

Lemma join_split c l : join_with c (split_on c l) = l.
Proof.
  induction l as [|b l IH]; simpl; [done|]. case_decide.
  - subst. destruct (split_on c l) eqn:E; [by apply split_on_ne in E|]. simpl in *. by rewrite IH.
  - destruct (split_on c l) as [|s [|s' ss]] eqn:E; simpl in *; by rewrite <-IH.
Qed.

Lemma split_join c ss : ss ≠ [] → Forall (λ s, c ∉ s) ss → split_on c (join_with c ss) = ss.
Proof.
  induction ss as [|s ss IH]; [done|]. intros _ [Hs Hss]%Forall_cons.
  destruct ss as [|s' ss]; [by apply split_on_none|].
  change (join_with c (s :: s' :: ss)) with (s ++ c :: join_with c (s' :: ss)).
  rewrite split_on_app, split_on_none, IH by done. done.
Qed.

End split.

(** [strings.Split] on strings *)
Definition Split (c : byte) (s : string) : list string :=
  map string_of_bytes (split_on c (bytes_of_string s)).

(** ** UTF-8 *)

Definition RuneError : Z := 0xFFFD.

Definition is_cont (lo hi : Z) (b : byte) : bool := (lo <=? byte_Z b) && (byte_Z b <=? hi).

(** [utf8.DecodeRune] on a non-empty input: the rune and its width in bytes. *)
Definition DecodeRune (l : list byte) : Z * nat :=
  match l with
  | [] => (RuneError, 0%nat)
  | b0 :: l =>
      let x := byte_Z b0 in
      let cont2 lo hi :=
        match l with
        | b1 :: _ => if is_cont lo hi b1 then Some (Z.land (byte_Z b1) 63) else None
        | [] => None
        end in
      let cont (k : nat) :=
        match drop k l with
        | b :: _ => if is_cont 0x80 0xBF b then Some (Z.land (byte_Z b) 63) else None
        | [] => None
        end in
      let bad := (RuneError, 1%nat) in
      if x <? 0x80 then (x, 1%nat)
      else if (0xC2 <=? x) && (x <=? 0xDF) then
        match cont2 0x80 0xBF with
        | Some y => (Z.lor (Z.shiftl (Z.land x 31) 6) y, 2%nat)
        | None => bad
        end
      else if (0xE0 <=? x) && (x <=? 0xEF) then
        match cont2 (if x =? 0xE0 then 0xA0 else 0x80) (if x =? 0xED then 0x9F else 0xBF), cont 1%nat with
        | Some y, Some z => (Z.lor (Z.shiftl (Z.land x 15) 12) (Z.lor (Z.shiftl y 6) z), 3%nat)
        | _, _ => bad
        end
      else if (0xF0 <=? x) && (x <=? 0xF4) then
        match cont2 (if x =? 0xF0 then 0x90 else 0x80) (if x =? 0xF4 then 0x8F else 0xBF),
              cont 1%nat, cont 2%nat with
        | Some y, Some z, Some w =>
            (Z.lor (Z.shiftl (Z.land x 7) 18) (Z.lor (Z.shiftl y 12) (Z.lor (Z.shiftl z 6) w)), 4%nat)
        | _, _, _ => bad
        end
      else bad
  end.

(** [for _, r := range s]: the runes with the bytes each stands for. Every step
    consumes at least one byte, so the length bounds the loop. *)
Fixpoint runes_loop (fuel : nat) (l : list byte) : list (Z * list byte) :=
  match fuel, l with
  | S fuel, _ :: _ =>
      let '(r, n) := DecodeRune l in (r, take n l) :: runes_loop fuel (drop n l)
  | _, _ => []
  end.
Definition runes (s : string) : list (Z * list byte) :=
  let l := bytes_of_string s in runes_loop (length l) l.

(** [utf8.ValidString]: no rune is an error; an encoded U+FFFD has three bytes. *)
Definition ValidString (s : string) : bool :=
  forallb (λ x : Z * list byte, negb ((x.1 =? RuneError) && (length x.2 =? 1)%nat)) (runes s).

(** [unicode.IsSpace] *)
Definition IsSpace (r : Z) : bool :=
  bool_decide (r ∈ [9; 10; 11; 12; 13; 32; 0x85; 0xA0; 0x1680; 0x2028; 0x2029; 0x202F; 0x205F; 0x3000])
  || ((0x2000 <=? r) && (r <=? 0x200A)).

Fixpoint drop_while {A} (p : A → bool) (l : list A) : list A :=
  match l with
  | [] => []
  | x :: l' => if p x then drop_while p l' else l
  end.

(** [strings.TrimSpace] *)
Definition TrimSpace (s : string) : string :=
  let sp (x : Z * list byte) := IsSpace x.1 in
  string_of_bytes (concat (map snd (reverse (drop_while sp (reverse (drop_while sp (runes s))))))).

(** [strings.ToLower], up to runes that are neither ASCII nor lowered to ASCII:
    those are left unchanged. The two non-ASCII runes lowered to ASCII are U+0130
    and U+212A. *)
Definition lower_rune (x : Z * list byte) : list byte :=
  let '(r, bs) := x in
  if (65 <=? r) && (r <=? 90) then
    match Byte.of_N (Z.to_N (r + 32)) with Some b => [b] | None => bs end
  else if r =? 0x130 then bytes_of_string "i"
  else if r =? 0x212A then bytes_of_string "k"
  else bs.
Definition ToLower (s : string) : string := string_of_bytes (concat (map lower_rune (runes s))).

(** [strings.HasPrefix], [TrimPrefix], [HasSuffix], [TrimSuffix] *)
Fixpoint strip_prefix (p l : list byte) : option (list byte) :=
  match p, l with
  | [], _ => Some l
  | x :: p, y :: l => if decide (x = y) then strip_prefix p l else None
  | _ :: _, [] => None
  end.
Definition HasPrefix (s p : string) : bool :=
  match strip_prefix (bytes_of_string p) (bytes_of_string s) with Some _ => true | None => false end.
Definition TrimPrefix (s p : string) : string :=
  match strip_prefix (bytes_of_string p) (bytes_of_string s) with
  | Some l => string_of_bytes l
  | None => s
  end.
Definition strip_suffix (p l : list byte) : option (list byte) :=
  reverse <$> strip_prefix (reverse p) (reverse l).
Definition HasSuffix (s p : string) : bool :=
  match strip_suffix (bytes_of_string p) (bytes_of_string s) with Some _ => true | None => false end.
Definition TrimSuffix (s p : string) : string :=
  match strip_suffix (bytes_of_string p) (bytes_of_string s) with
  | Some l => string_of_bytes l
  | None => s
  end.

Lemma strip_prefix_spec p l k : strip_prefix p l = Some k ↔ l = p ++ k.
Proof.
  revert l. induction p as [|x p IH]; intros l; simpl; [naive_solver|].
  destruct l as [|y l]; [naive_solver|]. case_decide; [subst; rewrite IH; naive_solver|naive_solver].
Qed.

(** ** Facts about runes *)

Lemma DecodeRune_width l : l ≠ [] → (1 ≤ (DecodeRune l).2)%nat.
Proof.
  destruct l as [|b l]; [done|]. intros _. unfold DecodeRune.
  repeat case_match; simplify_eq/=; lia.
Qed.

Lemma runes_loop_concat fuel l :
  (length l ≤ fuel)%nat → concat (map snd (runes_loop fuel l)) = l.
Proof.
  revert l. induction fuel as [|fuel IH]; intros l Hl; simpl.
  { destruct l; [done|simpl in Hl; lia]. }
  destruct l as [|b l]; [done|].
  pose proof (DecodeRune_width (b :: l) ltac:(done)) as Hw.
  destruct (DecodeRune (b :: l)) as [r n] eqn:E. simpl in *.
  destruct n as [|n]; [lia|]. simpl. rewrite IH; [by rewrite take_drop|].
  rewrite length_drop. lia.
Qed.

(** Ranging over a string visits all its bytes. *)
Lemma runes_concat s : concat (map snd (runes s)) = bytes_of_string s.
Proof. apply runes_loop_concat. done. Qed.

(** ASCII text: every byte is its own rune. *)
Definition is_ascii (b : byte) : Prop := byte_Z b < 0x80.

Lemma runes_loop_ascii fuel l :
  (length l ≤ fuel)%nat → Forall is_ascii l → runes_loop fuel l = map (λ b, (byte_Z b, [b])) l.
Proof.
  revert l. induction fuel as [|fuel IH]; intros l Hl Ha; simpl.
  { destruct l; [done|simpl in Hl; lia]. }
  destruct Ha as [|b l Hb Ha]; [done|]. unfold DecodeRune. unfold is_ascii in Hb.
  destruct (Z.ltb_spec (byte_Z b) 0x80); [|lia]. simpl in *. f_equal. apply IH; [lia|done].
Qed.

Lemma runes_ascii s : Forall is_ascii (bytes_of_string s) →
  runes s = map (λ b, (byte_Z b, [b])) (bytes_of_string s).
Proof. apply runes_loop_ascii. done. Qed.

Lemma ValidString_ascii s : Forall is_ascii (bytes_of_string s) → ValidString s = true.
Proof.
  intros Ha. unfold ValidString. rewrite runes_ascii by done.
  rewrite forallb_forall. intros x. rewrite in_map_iff. intros (b & <- & Hb%list_elem_of_In).
  rewrite Forall_forall in Ha. specialize (Ha b Hb). unfold is_ascii, RuneError in *. simpl.
  destruct (Z.eqb_spec (byte_Z b) 0xFFFD); [lia|done].
Qed.

Lemma drop_while_id {A} (p : A → bool) l : Forall (λ x, p x = false) l → drop_while p l = l.
Proof. destruct 1 as [|x l Hx _]; simpl; [done|]. by rewrite Hx. Qed.

Lemma drop_while_suffix {A} (p : A → bool) l : drop_while p l `suffix_of` l.
Proof.
  induction l as [|x l IH]; simpl; [done|]. destruct (p x); [|done].
  by apply suffix_cons_r.
Qed.

Lemma drop_while_head {A} (p : A → bool) l x k : drop_while p l = x :: k → p x = false.
Proof. induction l as [|y l IH]; simpl; [done|]. destruct (p y) eqn:E; [done|]. by intros [= <- _]. Qed.

(** Trimming leaves a string without spaces as it is. *)
Lemma TrimSpace_id s :
  Forall (λ x : Z * list byte, IsSpace x.1 = false) (runes s) → TrimSpace s = s.
Proof.
  intros H. unfold TrimSpace. rewrite (drop_while_id _ (runes s)) by done.
  rewrite drop_while_id by (by apply Forall_reverse). rewrite reverse_involutive, runes_concat.
  apply string_of_bytes_of_string.
Qed.

(** ** Decimal numerals *)

Definition is_digit (b : byte) : bool := (48 <=? byte_Z b) && (byte_Z b <=? 57).

Lemma bytes_of_string_cons c s : bytes_of_string (String c s) = Ascii.byte_of_ascii c :: bytes_of_string s.
Proof. done. Qed.

Lemma pretty_N_go_digits x s :
  Forall is_digit (bytes_of_string s) → Forall is_digit (bytes_of_string (pretty_N_go x s)) ∧
  (String.length s ≤ String.length (pretty_N_go x s))%nat.
Proof.
  revert s. induction (N.lt_wf_0 x) as [x _ IH]; intros s Hs.
  destruct (decide (x = 0)%N) as [->|Hx]; [by rewrite pretty_N_go_0|].
  rewrite pretty_N_go_step by lia. destruct (IH (x `div` 10)%N) with (s := String (pretty_N_char (x `mod` 10)) s)
    as [H1 H2].
  - apply N.div_lt; lia.
  - rewrite bytes_of_string_cons. constructor; [|done].
    unfold pretty_N_char. by repeat case_match.
  - split; [done|]. simpl in H2. lia.
Qed.

Lemma pretty_N_digits (n : N) :
  Forall is_digit (bytes_of_string (pretty n)) ∧ (1 ≤ String.length (pretty n))%nat.
Proof.
  unfold pretty, pretty_N. case_decide as Hn; [split; [by repeat constructor|simpl; lia]|].
  rewrite pretty_N_go_step by lia.
  destruct (pretty_N_go_digits (n `div` 10) (String (pretty_N_char (n `mod` 10)) "")) as [H1 H2].
  - constructor; [|done]. unfold pretty_N_char. by repeat case_match.
  - split; [done|]. simpl in H2. lia.
Qed.

Lemma pretty_Z_digits (z : Z) : 0 ≤ z →
  Forall is_digit (bytes_of_string (pretty z)) ∧ (1 ≤ String.length (pretty z))%nat.
Proof.
  intros Hz. destruct z as [|p|p]; [|apply (pretty_N_digits (N.pos p))|lia].
  split; [by repeat constructor|]. simpl. lia.
Qed.

Lemma digits_not_in (b : byte) l : is_digit b = false → Forall is_digit l → b ∉ l.
Proof.
  intros Hb Hl Hin. rewrite Forall_forall in Hl. apply Hl in Hin. by rewrite Hb in Hin.
Qed.

(** ** Lists of names: trimmed, and without the empty ones *)

Fixpoint trim_nonempty (sans : list string) : list string :=
  match sans with
  | [] => []
  | san :: sans =>
      let san := TrimSpace san in
      if String.eqb san "" then trim_nonempty sans else san :: trim_nonempty sans
  end.

Lemma trim_nonempty_spec sans :
  trim_nonempty sans = filter (λ s, s ≠ ""%string) (map TrimSpace sans).
Proof.
  induction sans as [|s sans IH]; [done|]. cbn [trim_nonempty map]. rewrite filter_cons.
  destruct (String.eqb_spec (TrimSpace s) "") as [E|E].
  - rewrite decide_False by tauto. done.
  - rewrite decide_True by done. by f_equal.
Qed.
