(* ===== verification/Url.v ===== *)
(** * Url: URLs as package [net/url] reads and writes them

    [Parse] and [URL.String] with the escaping of their parts, on bytes, as far as the
    program uses them: queries are kept as they are. What a host may look like has
    changed between versions of the library, and is a parameter: reading a host that
    was written as one gives it again. *)

From S2P Require Import Prelude Text.

Abbreviation text := (list byte).
Definition lit (s : string) : text := bytes_of_string s.

(** ** Escaping *)

(** The encodings of the parts of a URL. *)
Inductive encoding := encodePath | encodePathSegment | encodeHost | encodeUserPassword | encodeFragment.
#[global] Instance encoding_eq_dec : EqDecision encoding.
Proof. solve_decision. Defined.

Definition is_letter (b : byte) : bool :=
  let z := byte_Z b in ((97 <=? z) && (z <=? 122)) || ((65 <=? z) && (z <=? 90)).
Definition one_of (s : string) (b : byte) : bool := bool_decide (b ∈ lit s).

Definition shouldEscape (mode : encoding) (c : byte) : bool :=
  if is_letter c || is_digit c then false
  else if bool_decide (mode = encodeHost) && (one_of "!$&'()*+,;=:[]<>" c || bool_decide (c = x22)) then false
  else if one_of "-_.~" c then false
  else if one_of "$&+,/:;=?@" c then
    match mode with
    | encodePath => one_of "?" c
    | encodePathSegment => one_of "/;,?" c
    | encodeUserPassword => one_of "@/?:" c
    | encodeFragment => false
    | encodeHost => true
    end
  else negb (bool_decide (mode = encodeFragment) && one_of "!()*" c).

Definition upper_hex (n : Z) : byte := byte_of_Z (if n <? 10 then 48 + n else 55 + n).
Definition unhex (b : byte) : option Z :=
  let z := byte_Z b in
  if is_digit b then Some (z - 48)
  else if (97 <=? z) && (z <=? 102) then Some (z - 87)
  else if (65 <=? z) && (z <=? 70) then Some (z - 55)
  else None.

Definition escape_byte (mode : encoding) (c : byte) : text :=
  if shouldEscape mode c then [x25; upper_hex (Z.shiftr (byte_Z c) 4); upper_hex (Z.land (byte_Z c) 15)] else [c].
Definition escape (mode : encoding) (s : text) : text := concat (map (escape_byte mode) s).

Inductive url_error :=
| ErrEscape
| ErrInvalidHost
| ErrControl
| ErrMissingScheme
| ErrFirstSegment
| ErrHost (e : string)
| ErrUserinfo.
#[global] Instance url_error_eq_dec : EqDecision url_error.
Proof. solve_decision. Defined.

(** In a host only bytes that are not ASCII are escaped, and the percent sign. *)
Fixpoint unescape (mode : encoding) (s : text) : url_error + text :=
  match s with
  | [] => inr []
  | c :: s =>
      if bool_decide (c = x25) then
        match s with
        | a :: b :: s =>
            match unhex a, unhex b with
            | Some x, Some y =>
                if bool_decide (mode = encodeHost) && (x <? 8) && negb (16 * x + y =? 0x25) then inl ErrEscape
                else match unescape mode s with
                     | inl e => inl e
                     | inr t => inr (byte_of_Z (16 * x + y) :: t)
                     end
            | _, _ => inl ErrEscape
            end
        | _ => inl ErrEscape
        end
      else if bool_decide (mode = encodeHost) && (byte_Z c <? 0x80) && shouldEscape mode c
      then inl ErrInvalidHost
      else match unescape mode s with inl e => inl e | inr t => inr (c :: t) end
  end.

(** ** Cutting *)

(** [strings.Cut]: before and, if there is one, after the first [c]. *)
Fixpoint Cut (c : byte) (s : text) : text * option text :=
  match s with
  | [] => ([], None)
  | b :: s => if decide (b = c) then ([], Some s) else let '(x, y) := Cut c s in (b :: x, y)
  end.
(** At the last [c], if there is one. *)
Fixpoint CutLast (c : byte) (s : text) : option (text * text) :=
  match s with
  | [] => None
  | b :: s =>
      match CutLast c s with
      | Some (x, y) => Some (b :: x, y)
      | None => if decide (b = c) then Some ([], s) else None
      end
  end.
(** [strings.TrimRight(s, c)] *)
Definition TrimRight (c : byte) (s : text) : text := reverse (drop_while (λ b, bool_decide (b = c)) (reverse s)).
Definition count_byte (c : byte) (s : text) : nat := length (filter (λ b, b = c) s).

(** ** URLs *)

(** The user and, if there is one, the password. *)
Definition Userinfo : Type := text * option text.

Record URL := mkURL {
  Scheme : text;
  Opaque : text;
  User : option Userinfo;
  Host : text;
  Path : text;
  RawPath : text;
  OmitHost : bool;
  ForceQuery : bool;
  RawQuery : text;
  Fragment : text;
}.

Definition set_query (u : URL) (force : bool) (q : text) : URL :=
  mkURL (Scheme u) (Opaque u) (User u) (Host u) (Path u) (RawPath u) (OmitHost u) force q (Fragment u).
Definition set_Fragment (u : URL) (f : text) : URL :=
  mkURL (Scheme u) (Opaque u) (User u) (Host u) (Path u) (RawPath u) (OmitHost u) (ForceQuery u) (RawQuery u) f.

(** [url.setPath]: the path, and its form in the URL if that is not the default. *)
Definition setPath (p : text) : url_error + (text * text) :=
  match unescape encodePath p with
  | inl e => inl e
  | inr path => inr (path, if decide (p = escape encodePath path) then [] else p)
  end.

Definition validEncoded (s : text) : bool :=
  forallb (λ c, one_of "!$&'()*+,;=:@[]%" c || negb (shouldEscape encodePath c)) s.

Definition EscapedPath (u : URL) : text :=
  if negb (bool_decide (RawPath u = [])) && validEncoded (RawPath u) &&
     bool_decide (unescape encodePath (RawPath u) = inr (Path u))
  then RawPath u
  else if decide (Path u = lit "*") then lit "*" else escape encodePath (Path u).

(** ** Parsing *)

Inductive scheme_result := NoScheme | MissingScheme | SchemeIs (s rest : text).
Definition scheme_cons (c : byte) (r : scheme_result) : scheme_result :=
  match r with SchemeIs s rest => SchemeIs (c :: s) rest | r => r end.
Fixpoint getScheme (first : bool) (s : text) : scheme_result :=
  match s with
  | [] => NoScheme
  | c :: s =>
      if is_letter c then scheme_cons c (getScheme false s)
      else if is_digit c || one_of "+-." c then if first then NoScheme else scheme_cons c (getScheme false s)
      else if bool_decide (c = x3a) then if first then MissingScheme else SchemeIs [] s
      else NoScheme
  end.

Definition is_control (b : byte) : bool := (byte_Z b <? 32) || (byte_Z b =? 127).
Definition validUserinfo (s : text) : bool :=
  forallb (λ c, is_letter c || is_digit c || one_of "-._:~!$&'()*+,;=%@" c) s.

Class HostParser := parseHost : text → url_error + text.
Class HostParserLaws `{HostParser} :=
  parseHost_print raw h : parseHost raw = inr h → parseHost (escape encodeHost h) = inr h.

Section url.
Context `{HostParser}.

Definition parseUserinfo (s : text) : url_error + Userinfo :=
  if negb (validUserinfo s) then inl ErrUserinfo
  else
    let '(name, pw) := Cut x3a s in
    match unescape encodeUserPassword name, pw with
    | inl e, _ => inl e
    | inr name, None => inr (name, None)
    | inr name, Some pw =>
        match unescape encodeUserPassword pw with inl e => inl e | inr pw => inr (name, Some pw) end
    end.

Definition parseAuthority (authority : text) : url_error + (option Userinfo * text) :=
  match CutLast x40 authority with
  | None => match parseHost authority with inl e => inl e | inr h => inr (None, h) end
  | Some (ui, host) =>
      match parseHost host with
      | inl e => inl e
      | inr h => match parseUserinfo ui with inl e => inl e | inr u => inr (Some u, h) end
      end
  end.

(** The part after scheme and query of a URL that has no opaque part. *)
Definition parse_hierarchy (scheme : text) (force : bool) (query rest : text) : url_error + URL :=
  let with_path (user : option Userinfo) (host : text) (omit : bool) (p : text) :=
    match setPath p with
    | inl e => inl e
    | inr (path, raw) => inr (mkURL scheme [] user host path raw omit force query [])
    end in
  match rest with
  | x2f :: x2f :: rest' =>
      if negb (bool_decide (scheme = [])) || negb (bool_decide (head rest' = Some x2f)) then
        let '(authority, tail) := Cut x2f rest' in
        match parseAuthority authority with
        | inl e => inl e
        | inr (user, host) =>
            with_path user host false (match tail with Some p => x2f :: p | None => [] end)
        end
      else with_path None [] (negb (bool_decide (scheme = []))) rest
  | x2f :: _ => with_path None [] (negb (bool_decide (scheme = []))) rest
  | _ => with_path None [] false rest
  end.

(** What is behind the scheme: the query is cut off first. *)
Definition cut_query (rest : text) : text * bool * text :=
  if bool_decide (last rest = Some x3f) && (count_byte x3f rest =? 1)%nat
  then (removelast rest, true, [])
  else let '(r, q) := Cut x3f rest in (r, false, default [] q).

Definition parse_body (scheme rest : text) : url_error + URL :=
  let scheme := lit (ToLower (string_of_bytes scheme)) in
  let '(rest, force, query) := cut_query rest in
  if bool_decide (head rest = Some x2f) then parse_hierarchy scheme force query rest
  else if negb (bool_decide (scheme = [])) then inr (mkURL scheme rest None [] [] [] false force query [])
  else if bool_decide (x3a ∈ (Cut x2f rest).1) then inl ErrFirstSegment
  else parse_hierarchy scheme force query rest.

(** [url.parse], for what is not a request URI. *)
Definition parse (raw : text) : url_error + URL :=
  if existsb is_control raw then inl ErrControl
  else if decide (raw = lit "*") then inr (mkURL [] [] None [] (lit "*") [] false false [] [])
  else
    match getScheme true raw with
    | MissingScheme => inl ErrMissingScheme
    | NoScheme => parse_body [] raw
    | SchemeIs s rest => parse_body s rest
    end.

Definition Parse (raw : text) : url_error + URL :=
  let '(u, frag) := Cut x23 raw in
  match parse u with
  | inl e => inl e
  | inr url =>
      match default [] frag with
      | [] => inr url
      | frag =>
          match unescape encodeFragment frag with
          | inl e => inl e
          | inr f => inr (set_Fragment url f)
          end
      end
  end.
End url.

(** ** Printing *)

Definition Userinfo_String (u : Userinfo) : text :=
  escape encodeUserPassword u.1 ++
  match u.2 with Some pw => x3a :: escape encodeUserPassword pw | None => [] end.

(** The authority with the slashes before it. *)
Definition authority_String (u : URL) : text :=
  if bool_decide (Scheme u = []) && bool_decide (Host u = []) && negb (bool_decide (is_Some (User u))) then []
  else if OmitHost u && bool_decide (Host u = []) && negb (bool_decide (is_Some (User u))) then []
  else
    (if bool_decide (Host u = []) && bool_decide (Path u = []) && negb (bool_decide (is_Some (User u)))
     then [] else lit "//") ++
    match User u with Some ui => Userinfo_String ui ++ [x40] | None => [] end ++
    escape encodeHost (Host u).

(** A fragment is printed in its default encoding: the program prints none. *)
Definition URL_String (u : URL) : text :=
  let scheme := if decide (Scheme u = []) then [] else Scheme u ++ [x3a] in
  (if decide (Opaque u = []) then
     let path := EscapedPath u in
     let buf := scheme ++ authority_String u in
     let buf := if negb (bool_decide (path = [])) && negb (bool_decide (head path = Some x2f)) &&
                   negb (bool_decide (Host u = [])) then buf ++ [x2f] else buf in
     (if bool_decide (buf = []) && bool_decide (x3a ∈ (Cut x2f path).1) then lit "./" else buf) ++ path
   else scheme ++ Opaque u) ++
  (if ForceQuery u || negb (bool_decide (RawQuery u = [])) then x3f :: RawQuery u else []) ++
  (if decide (Fragment u = []) then [] else x23 :: escape encodeFragment (Fragment u)).
