(* ===== verification/UrlProofs.v ===== *)
(** * UrlProofs: a URL that was printed is read as it was

    Escaped text decodes to what it was and has none of the bytes that separate the
    parts of a URL; from this, reading a printed URL of the form the client keeps gives
    the URL again, and a path put behind it becomes part of its path, or of its query
    if the URL ends in a question mark. *)

From S2P Require Import Prelude Text Url.

(** ** Bytes *)

Lemma byte_Z_of_byte b : byte_of_Z (byte_Z b) = b.
Proof. by destruct b. Qed.

(** Two digits stand for the byte that was escaped. *)
Lemma hex_digits b :
  ∃ x y, unhex (upper_hex (Z.shiftr (byte_Z b) 4)) = Some x ∧ unhex (upper_hex (Z.land (byte_Z b) 15)) = Some y ∧
    16 * x + y = byte_Z b.
Proof. destruct b; by do 2 eexists. Qed.

Lemma upper_hex_plain mode b c :
  c ∈ [upper_hex (Z.shiftr (byte_Z b) 4); upper_hex (Z.land (byte_Z b) 15)] → shouldEscape mode c = false.
Proof.
  assert (∀ x, x ∈ [upper_hex (Z.shiftr (byte_Z b) 4); upper_hex (Z.land (byte_Z b) 15)] →
    is_letter x || is_digit x = true) as Hx.
  { intros x. rewrite !elem_of_cons, elem_of_nil. by destruct b; intros [->|[->|[]]]. }
  intros Hc. unfold shouldEscape. by rewrite (Hx c Hc).
Qed.

(** ** Escaping *)

Lemma escape_app mode s t : escape mode (s ++ t) = escape mode s ++ escape mode t.
Proof. unfold escape. by rewrite map_app, concat_app. Qed.

Lemma escape_cons mode c s : escape mode (c :: s) = escape_byte mode c ++ escape mode s.
Proof. done. Qed.

Lemma escape_nil_inv mode s : escape mode s = [] → s = [].
Proof. destruct s as [|c s]; [done|]. rewrite escape_cons. unfold escape_byte. by case_match. Qed.

(** What escaped text is made of. *)
Lemma escape_elem mode s c : c ∈ escape mode s → c = x25 ∨ shouldEscape mode c = false.
Proof.
  induction s as [|b s IH]; [by intros ?%elem_of_nil|]. rewrite escape_cons, elem_of_app. intros [Hc|]; [|auto].
  unfold escape_byte in Hc. destruct (shouldEscape mode b) eqn:E.
  - apply elem_of_cons in Hc as [->|Hc]; [by left|]. right. by eapply upper_hex_plain.
  - apply list_elem_of_singleton in Hc as ->. by right.
Qed.

Lemma escape_not_in mode s c : c ≠ x25 → shouldEscape mode c = true → c ∉ escape mode s.
Proof. intros Hc He [?|H]%escape_elem; congruence. Qed.

Lemma percent_escaped mode : shouldEscape mode x25 = true.
Proof. by destruct mode. Qed.

(** An escaped byte in front. *)
Lemma unescape_escaped mode b s :
  mode ≠ encodeHost →
  unescape mode (x25 :: upper_hex (Z.shiftr (byte_Z b) 4) :: upper_hex (Z.land (byte_Z b) 15) :: s) =
  match unescape mode s with inl e => inl e | inr t => inr (b :: t) end.
Proof.
  intros Hm. destruct (hex_digits b) as (x & y & Hx & Hy & Hb). cbn [unescape].
  rewrite bool_decide_true, Hx, Hy, Hb, bool_decide_false, byte_Z_of_byte by done. done.
Qed.

(** A byte that is not escaped in front. *)
Lemma unescape_plain mode c s :
  c ≠ x25 → mode ≠ encodeHost →
  unescape mode (c :: s) = match unescape mode s with inl e => inl e | inr t => inr (c :: t) end.
Proof. intros Hc Hm. cbn [unescape]. by rewrite (bool_decide_false (c = x25)), bool_decide_false. Qed.

Lemma unescape_escape_app mode s t : mode ≠ encodeHost →
  unescape mode (escape mode s ++ t) = match unescape mode t with inl e => inl e | inr t => inr (s ++ t) end.
Proof.
  intros Hm. induction s as [|c s IH]; [simpl; by case_match|].
  rewrite escape_cons, <- app_assoc. unfold escape_byte. destruct (shouldEscape mode c) eqn:E.
  - cbn [app]. rewrite unescape_escaped, IH by done. by case_match.
  - cbn [app]. rewrite unescape_plain, IH; [by case_match| |done].
    intros ->. by rewrite percent_escaped in E.
Qed.

Lemma unescape_escape mode s : mode ≠ encodeHost → unescape mode (escape mode s) = inr s.
Proof.
  intros Hm. rewrite <- (app_nil_r (escape mode s)), unescape_escape_app by done. simpl. by rewrite app_nil_r.
Qed.

(** Induction along the steps of [unescape]. *)
Lemma escape_steps (P : text → Prop) :
  P [] → (∀ c s, c ≠ x25 → P s → P (c :: s)) → (∀ a b s, P s → P (x25 :: a :: b :: s)) →
  (∀ a, P [x25; a]) → P [x25] → ∀ s, P s.
Proof.
  intros H0 Hc Hp Ha H1 s. induction s as [s IH] using (induction_ltof1 _ (length (A:=byte))).
  unfold ltof in IH. destruct s as [|c s]; [done|]. destruct (decide (c = x25)) as [->|Hne].
  - destruct s as [|a [|b s]]; [done..|]. apply Hp, IH. simpl. lia.
  - apply Hc; [done|]. apply IH. simpl. lia.
Qed.

(** Decoding goes through text from left to right. *)
Lemma unescape_app mode s t : mode ≠ encodeHost → ∀ s', unescape mode s = inr s' →
  unescape mode (s ++ t) = match unescape mode t with inl e => inl e | inr t' => inr (s' ++ t') end.
Proof.
  intros Hm. induction s as [|c s Hc IH|a b s IH|a|] using escape_steps; intros s'; try done.
  - intros [= <-]. simpl. by case_match.
  - cbn [app]. rewrite !unescape_plain by done. destruct (unescape mode s) as [|s0]; [done|]. intros [= <-].
    rewrite (IH s0) by done. by case_match.
  - cbn [app unescape]. rewrite bool_decide_true by done. rewrite (bool_decide_false (mode = encodeHost)) by done. cbn [andb].
    destruct (unhex a), (unhex b); try done. destruct (unescape mode s) as [|s0]; [done|]. intros [= <-].
    rewrite (IH s0) by done. by case_match.
Qed.

(** A last byte that is no digit of an escape stands for itself. *)
Lemma unescape_snoc_inv mode s c : mode ≠ encodeHost → c ≠ x25 → unhex c = None → ∀ t,
  unescape mode (s ++ [c]) = inr t → ∃ s', t = s' ++ [c].
Proof.
  intros Hm Hc Hx. induction s as [|c' s Hc' IH|a b s IH|a|] using escape_steps; intros t; cbn [app].
  - rewrite unescape_plain by done. intros [= <-]. by exists [].
  - rewrite unescape_plain by done. destruct (unescape mode (s ++ [c])) as [|t0]; [done|]. intros [= <-].
    destruct (IH t0 eq_refl) as [s' ->]. by exists (c' :: s').
  - cbn [unescape]. rewrite bool_decide_true by done. rewrite (bool_decide_false (mode = encodeHost)) by done. cbn [andb].
    destruct (unhex a), (unhex b); try done. destruct (unescape mode (s ++ [c])) as [|t0]; [done|]. intros [= <-].
    destruct (IH t0 eq_refl) as [s' ->]. by eexists (_ :: s').
  - cbn [unescape]. rewrite bool_decide_true, Hx by done. by destruct (unhex a).
  - cbn [unescape]. by rewrite bool_decide_true by done.
Qed.

(** ** Cutting *)

Lemma Cut_none c s : c ∉ s → Cut c s = (s, None).
Proof.
  induction s as [|b s IH]; [done|]. rewrite not_elem_of_cons. intros [Hb Hs]. simpl.
  rewrite decide_False by done. by rewrite IH.
Qed.

Lemma Cut_app c s t : c ∉ s → Cut c (s ++ c :: t) = (s, Some t).
Proof.
  induction s as [|b s IH]; simpl; [by rewrite decide_True|].
  rewrite not_elem_of_cons. intros [Hb Hs]. rewrite decide_False by done. by rewrite IH.
Qed.

Lemma CutLast_none c s : c ∉ s → CutLast c s = None.
Proof.
  induction s as [|b s IH]; [done|]. rewrite not_elem_of_cons. intros [Hb Hs]. simpl.
  rewrite IH by done. by rewrite decide_False.
Qed.

Lemma CutLast_app c s t : c ∉ t → CutLast c (s ++ c :: t) = Some (s, t).
Proof.
  intros Ht. induction s as [|b s IH]; simpl; [by rewrite CutLast_none, decide_True|]. by rewrite IH.
Qed.

Lemma count_byte_none c s : c ∉ s → count_byte c s = 0%nat.
Proof.
  unfold count_byte. induction s as [|b s IH]; [done|]. rewrite not_elem_of_cons. intros [Hb Hs].
  rewrite filter_cons_False by done. auto.
Qed.

Lemma TrimRight_id c s : last s ≠ Some c → TrimRight c s = s.
Proof.
  intros Hs. unfold TrimRight. destruct (reverse s) as [|b r] eqn:E.
  - apply (f_equal reverse) in E. rewrite reverse_involutive in E. by subst.
  - assert (s = reverse r ++ [b]) as ->
      by (apply (f_equal reverse) in E; by rewrite reverse_involutive, reverse_cons in E).
    rewrite last_snoc in Hs. simpl. rewrite bool_decide_false by congruence.
    by rewrite reverse_cons.
Qed.

Lemma TrimRight_last c s : last (TrimRight c s) ≠ Some c.
Proof.
  unfold TrimRight. destruct (drop_while _ (reverse s)) as [|b r] eqn:E; [done|].
  apply drop_while_head in E. rewrite reverse_cons, last_snoc. intros [= ->].
  by rewrite bool_decide_true in E.
Qed.

Lemma TrimRight_head c s : head s = Some c → TrimRight c s = [] ∨ head (TrimRight c s) = Some c.
Proof.
  intros Hs. unfold TrimRight. destruct (drop_while_suffix (λ b, bool_decide (b = c)) (reverse s)) as [k Hk].
  apply (f_equal reverse) in Hk. rewrite reverse_involutive, reverse_app in Hk.
  destruct (reverse (drop_while _ (reverse s))) as [|b r]; [by left|right].
  rewrite Hk in Hs. by injection Hs as ->.
Qed.

(** ** The parts of a printed URL *)

(** Bytes that do not end an authority, or a path. *)
Definition in_path (c : byte) : bool :=
  negb (bool_decide (c = x3f)) && negb (bool_decide (c = x23)) && negb (is_control c).
Definition in_authority (c : byte) : bool := in_path c && negb (bool_decide (c = x2f)).

Lemma escaped_in_authority mode c :
  mode = encodeHost ∨ mode = encodeUserPassword → c = x25 ∨ shouldEscape mode c = false → in_authority c.
Proof. intros [-> | ->] [-> |H]; try exact I; revert H; destruct c; vm_compute; done. Qed.

Lemma escape_in_authority mode s :
  mode = encodeHost ∨ mode = encodeUserPassword → Forall in_authority (escape mode s).
Proof.
  intros Hm. apply Forall_forall. intros c Hc. apply escape_elem in Hc. by eapply escaped_in_authority.
Qed.

Lemma path_byte c : c = x25 ∨ one_of "!$&'()*+,;=:@[]%" c || negb (shouldEscape encodePath c) = true → in_path c.
Proof. intros [-> |H]; [exact I|]. revert H. destruct c; vm_compute; done. Qed.

Lemma EscapedPath_in_path u : Forall in_path (EscapedPath u).
Proof.
  unfold EscapedPath. destruct (_ && _) eqn:E.
  - apply andb_true_iff in E as [E _]. apply andb_true_iff in E as [_ E]. unfold validEncoded in E.
    rewrite forallb_forall in E. apply Forall_forall. intros c Hc. apply path_byte. right. apply E. by apply list_elem_of_In.
  - clear E. destruct (decide (Path u = lit "*")); [repeat constructor|]. apply Forall_forall. intros c Hc.
    apply path_byte. apply escape_elem in Hc as [->|Hc]; [by left|right]. rewrite Hc. by rewrite orb_true_r.
Qed.

(** What the client keeps of a base URL. *)
Record kept `{HostParser} (u : URL) : Prop := {
  k_scheme : Scheme u = lit "https";
  k_opaque : Opaque u = [];
  k_host : Host u ≠ [];
  k_parsed : parseHost (escape encodeHost (Host u)) = inr (Host u);
  k_path : Path u = [] ∨ head (Path u) = Some x2f;
  k_raw : RawPath u = [] ∨ head (RawPath u) = Some x2f;
  k_trimmed : last (Path u) ≠ Some x2f;
  k_query : RawQuery u = [];
  k_fragment : Fragment u = [];
}.

Lemma EscapedPath_decodes u : Path u ≠ lit "*" → unescape encodePath (EscapedPath u) = inr (Path u).
Proof.
  intros Hp. unfold EscapedPath. destruct (_ && _) eqn:E.
  - apply andb_true_iff in E as [_ E]. by apply bool_decide_eq_true in E.
  - rewrite decide_False by done. by apply unescape_escape.
Qed.

Lemma rooted_escape s : head s = Some x2f → head (escape encodePath s) = Some x2f.
Proof. by destruct s as [|c s]; [|intros [= ->]]. Qed.

Section printed.
Context `{HostParserLaws}.

Lemma kept_path_star u : kept u → Path u ≠ lit "*".
Proof. intros Hu E. destruct (k_path u Hu) as [Hp|Hp]; by rewrite E in Hp. Qed.

Lemma kept_rooted u : kept u → EscapedPath u = [] ∨ head (EscapedPath u) = Some x2f.
Proof.
  intros Hu. unfold EscapedPath. destruct (_ && _) eqn:E; [by apply k_raw|].
  rewrite decide_False by by apply kept_path_star.
  destruct (k_path u Hu) as [->|Hp]; [by left|right; by apply rooted_escape].
Qed.

Lemma kept_no_slash_end u : kept u → last (EscapedPath u) ≠ Some x2f.
Proof.
  intros Hu Hl. apply last_Some in Hl as [s Hs].
  pose proof (EscapedPath_decodes u (kept_path_star u Hu)) as Hd. rewrite Hs in Hd.
  apply unescape_snoc_inv in Hd as [t Ht]; [|done..]. apply (k_trimmed u Hu). by rewrite Ht, last_snoc.
Qed.

Definition authority (u : URL) : text :=
  match User u with Some ui => Userinfo_String ui ++ [x40] | None => [] end ++ escape encodeHost (Host u).

Lemma Userinfo_in_authority ui : Forall in_authority (Userinfo_String ui).
Proof.
  unfold Userinfo_String. apply Forall_app. split; [apply escape_in_authority; auto|].
  destruct (ui.2); [|done]. constructor; [done|]. apply escape_in_authority. auto.
Qed.

Lemma authority_in_authority u : Forall in_authority (authority u).
Proof.
  unfold authority. apply Forall_app. split; [|apply escape_in_authority; auto].
  destruct (User u); [|done]. apply Forall_app. split; [apply Userinfo_in_authority|repeat constructor].
Qed.

Lemma Userinfo_parse ui : parseUserinfo (Userinfo_String ui) = inr ui.
Proof.
  destruct ui as [name pw]. unfold parseUserinfo, Userinfo_String. cbn [fst snd].
  assert (∀ s, forallb (λ c, is_letter c || is_digit c || one_of "-._:~!$&'()*+,;=%@" c)
    (escape encodeUserPassword s) = true) as Hv.
  { intros s. apply forallb_forall. intros c Hc%list_elem_of_In%escape_elem. revert Hc. by destruct c; intros [?|?]. }
  assert (x3a ∉ escape encodeUserPassword name) as Hcolon by (by apply escape_not_in).
  unfold validUserinfo. destruct pw as [pw|].
  - rewrite forallb_app, Hv. cbn [forallb]. rewrite Hv. cbn [negb].
    rewrite Cut_app by done. by rewrite !unescape_escape by done.
  - rewrite app_nil_r, Hv. cbn [negb]. rewrite Cut_none by done. by rewrite unescape_escape by done.
Qed.

Lemma authority_parse u : kept u → parseAuthority (authority u) = inr (User u, Host u).
Proof.
  intros Hu. unfold parseAuthority, authority.
  assert (x40 ∉ escape encodeHost (Host u)) as Hat by (by apply escape_not_in).
  destruct (User u) as [ui|].
  - rewrite <- app_assoc. cbn [app]. rewrite CutLast_app by done. rewrite (k_parsed u Hu). by rewrite Userinfo_parse.
  - cbn [app]. rewrite CutLast_none by done. by rewrite (k_parsed u Hu).
Qed.

(** The part of a URL that starts the query. *)
Definition query_text (t : option text) : text := match t with Some q => x3f :: q | None => [] end.

Lemma query_split (b : text) t : x3f ∉ b → x3f ∉ default [] t →
  cut_query (b ++ query_text t) =
  (b, bool_decide (t = Some []), default [] t).
Proof.
  intros Hb Ht. unfold cut_query. destruct t as [[|c q]|]; cbn [query_text default] in *.
  - rewrite last_snoc, bool_decide_true, removelast_last, bool_decide_true by done.
    unfold count_byte. rewrite filter_app, length_app. fold (count_byte x3f b). by rewrite count_byte_none.
  - rewrite (bool_decide_false (Some (c :: q) = _)) by done. rewrite bool_decide_false; [by rewrite Cut_app|].
    rewrite last_app_cons, last_cons_cons. intros Hl. apply Ht. by apply last_Some_elem_of.
  - rewrite app_nil_r, (bool_decide_false (None = _)) by done. rewrite bool_decide_false; [by rewrite Cut_none|].
    intros Hl. apply Hb. by apply last_Some_elem_of.
Qed.

Lemma in_path_not s c : in_path c = false → Forall in_path s → c ∉ s.
Proof. intros Hc Hs Hin. rewrite Forall_forall in Hs. specialize (Hs c Hin). by rewrite Hc in Hs. Qed.

Lemma in_authority_not s c : in_authority c = false → Forall in_authority s → c ∉ s.
Proof. intros Hc Hs Hin. rewrite Forall_forall in Hs. specialize (Hs c Hin). by rewrite Hc in Hs. Qed.

Lemma in_authority_in_path s : Forall in_authority s → Forall in_path s.
Proof. intros Hs. eapply Forall_impl; [exact Hs|]. unfold in_authority. intros c. rewrite andb_True. tauto. Qed.

Lemma in_path_no_control s : Forall in_path s → existsb is_control s = false.
Proof.
  induction 1 as [|c s Hc _ IH]; [done|]. simpl. rewrite IH, orb_false_r. revert Hc. destruct c; vm_compute; done.
Qed.

Lemma existsb_control_query t : Forall in_path (default [] t) → existsb is_control (query_text t) = false.
Proof. destruct t; [|done]. exact (in_path_no_control _). Qed.

Lemma parse_hierarchy_authority force q rest :
  parse_hierarchy (lit "https") force q (lit "//" ++ rest) =
  let '(a, tail) := Cut x2f rest in
  match parseAuthority a with
  | inl e => inl e
  | inr (user, host) =>
      match setPath (match tail with Some p => x2f :: p | None => [] end) with
      | inl e => inl e
      | inr (path, raw) => inr (mkURL (lit "https") [] user host path raw false force q [])
      end
  end.
Proof. reflexivity. Qed.

(** The authority, a path and a query behind the scheme the client keeps. *)
Lemma Parse_parts u p path t :
  kept u → p = [] ∨ head p = Some x2f → Forall in_path p → unescape encodePath p = inr path →
  Forall in_path (default [] t) →
  Parse (lit "https://" ++ authority u ++ p ++ query_text t) =
  inr (mkURL (lit "https") [] (User u) (Host u) path (if decide (p = escape encodePath path) then [] else p)
         false (bool_decide (t = Some [])) (default [] t) []).
Proof.
  intros Hu Hp Hin Hd Ht. pose proof (authority_in_authority u) as Ha. pose proof (in_authority_in_path _ Ha) as Hap.
  assert (∀ c, in_path c = false → c ≠ x3f → c ∉ lit "https://" ++ authority u ++ p ++ query_text t) as Hno.
  { intros c Hc Hq. rewrite !not_elem_of_app. split; [|split; [by apply in_path_not|split; [by apply in_path_not|]]].
    - apply in_path_not; [done|]. repeat constructor.
    - destruct t; [|apply not_elem_of_nil]. apply not_elem_of_cons. split; [done|]. by apply in_path_not. }
  unfold Parse. rewrite Cut_none by (by apply Hno). unfold parse.
  rewrite !existsb_app, (in_path_no_control (authority u)), (in_path_no_control p), existsb_control_query by done.
  change (existsb is_control (lit "https://")) with false. cbn [orb].
  rewrite decide_False by by intros.
  change (getScheme true (lit "https://" ++ authority u ++ p ++ query_text t))
    with (SchemeIs (lit "https") (lit "//" ++ authority u ++ p ++ query_text t)). cbv iota beta. unfold parse_body.
  change (lit (ToLower (string_of_bytes (lit "https")))) with (lit "https").
  rewrite (app_assoc (authority u)), (app_assoc (lit "//")), query_split;
    [|rewrite !not_elem_of_app; split; [|split]; apply in_path_not; first [done|repeat constructor]|by apply in_path_not].
  cbv iota beta. change (head (lit "//" ++ authority u ++ p)) with (Some x2f).
  rewrite bool_decide_true by done. rewrite parse_hierarchy_authority.
  destruct Hp as [->|Hp].
  - rewrite app_nil_r, Cut_none by (by apply in_authority_not). rewrite authority_parse by done.
    unfold setPath. by rewrite Hd.
  - destruct p as [|c p]; [done|]. injection Hp as ->.
    rewrite Cut_app by (by apply in_authority_not). rewrite authority_parse by done.
    unfold setPath. by rewrite Hd.
Qed.

(** ** Printing *)

Definition base_text (u : URL) : text :=
  lit "https://" ++ authority u ++ EscapedPath u ++ query_text (if ForceQuery u then Some [] else None).

Lemma authority_String_kept u : kept u → authority_String u = lit "//" ++ authority u.
Proof.
  intros Hu. unfold authority_String, authority. rewrite (k_scheme u Hu).
  rewrite (bool_decide_false (Host u = [])) by apply (k_host u Hu). by rewrite !andb_false_r.
Qed.

Lemma URL_String_kept u : kept u → URL_String u = base_text u.
Proof.
  intros Hu. unfold URL_String, base_text.
  rewrite (k_scheme u Hu), (k_opaque u Hu), (k_query u Hu), (k_fragment u Hu), authority_String_kept by done.
  rewrite (decide_True (P := [] = [])) by done. rewrite (decide_True (P := [] = [])) by done.
  rewrite (decide_False (P := lit "https" = [])) by done.
  rewrite (bool_decide_true ([] = [])), orb_false_r by done.
  replace (negb (bool_decide (EscapedPath u = [])) && negb (bool_decide (head (EscapedPath u) = Some x2f)))
    with false.
  2: { destruct (kept_rooted u Hu) as [->|Hh]; [done|]. rewrite (bool_decide_true (head _ = _)) by done.
       by rewrite andb_false_r. }
  cbn [andb]. rewrite bool_decide_false by done. cbn [andb].
  rewrite <- !app_assoc, app_nil_r. by destruct (ForceQuery u).
Qed.

Lemma last_not_slash s t : last t ≠ Some x2f → t ≠ [] → last (s ++ t) ≠ Some x2f.
Proof. intros Ht Hne. rewrite last_app. by destruct (last t) eqn:E; [|apply last_None in E]. Qed.

Lemma authority_not_nil u : kept u → authority u ≠ [].
Proof.
  intros Hu [_ Ha%escape_nil_inv]%app_nil. by apply (k_host u Hu).
Qed.

Lemma base_text_trimmed u : kept u → TrimRight x2f (base_text u) = base_text u.
Proof.
  intros Hu. apply TrimRight_id. unfold base_text. apply last_not_slash; [|by intros [? _]%app_nil; apply authority_not_nil in Hu].
  destruct (ForceQuery u); cbn [query_text]; [by rewrite !app_assoc, last_snoc|]. rewrite app_nil_r.
  destruct (decide (EscapedPath u = [])) as [->|Hp].
  - rewrite app_nil_r. intros Hl%last_Some_elem_of. by eapply in_authority_not, Hl; [|apply authority_in_authority].
  - apply last_not_slash; [by apply kept_no_slash_end|done].
Qed.

(** ** The form of a path in a URL *)

Lemma validEncoded_app s t : validEncoded (s ++ t) = validEncoded s && validEncoded t.
Proof. apply forallb_app. Qed.

Lemma validEncoded_escape s : validEncoded (escape encodePath s) = true.
Proof.
  apply forallb_forall. intros c [->|Hc]%list_elem_of_In%escape_elem; [done|].
  by rewrite Hc, orb_true_r.
Qed.

Lemma EscapedPath_valid u : Path u ≠ lit "*" → validEncoded (EscapedPath u) = true.
Proof.
  intros Hs. unfold EscapedPath. destruct (_ && _) eqn:E.
  - by apply andb_true_iff in E as [[_ E]%andb_true_iff _].
  - rewrite decide_False by done. apply validEncoded_escape.
Qed.

(** The path that was read is written as it was read. *)
Lemma EscapedPath_read s o user host p path omit force q f :
  validEncoded p = true → unescape encodePath p = inr path → path ≠ lit "*" →
  EscapedPath (mkURL s o user host path (if decide (p = escape encodePath path) then [] else p) omit force q f) = p.
Proof.
  intros Hv Hd Hs. unfold EscapedPath. cbn [RawPath Path]. destruct (decide (p = _)) as [->|Hne].
  - cbn. by rewrite decide_False.
  - rewrite Hv, Hd. rewrite (bool_decide_true (inr path = _)) by done. destruct p; [|done].
    by injection Hd as <-.
Qed.

(** Behind a printed URL: the URL again with a path, or a query if it ends in a question mark. *)
Definition read_back (u : URL) (p path : text) (force : bool) (q : text) : URL :=
  mkURL (lit "https") [] (User u) (Host u) path (if decide (p = escape encodePath path) then [] else p) false force q [].

Lemma Parse_base u : kept u →
  Parse (base_text u) = inr (read_back u (EscapedPath u) (Path u) (ForceQuery u) []).
Proof.
  intros Hu. unfold base_text. rewrite (Parse_parts u _ (Path u)); unfold read_back.
  - by destruct (ForceQuery u).
  - done.
  - by apply kept_rooted.
  - apply EscapedPath_in_path.
  - by apply EscapedPath_decodes, kept_path_star.
  - by destruct (ForceQuery u).
Qed.

Lemma Parse_base_path u p path : kept u → ForceQuery u = false →
  head p = Some x2f → Forall in_path p → unescape encodePath p = inr path →
  Parse (base_text u ++ p) = inr (read_back u (EscapedPath u ++ p) (Path u ++ path) false []).
Proof.
  intros Hu Hf Hp Hin Hd. unfold base_text. rewrite Hf. cbn [query_text]. rewrite app_nil_r, <- !app_assoc.
  pose proof (Parse_parts u (EscapedPath u ++ p) (Path u ++ path) None Hu) as Hparse.
  cbn [query_text] in Hparse. rewrite app_nil_r in Hparse. apply Hparse.
  - right. destruct (kept_rooted u Hu) as [->|Hr]; [done|]. by destruct (EscapedPath u).
  - apply Forall_app. split; [apply EscapedPath_in_path|done].
  - rewrite (unescape_app encodePath _ p) with (s' := Path u); [by rewrite Hd|done|].
    by apply EscapedPath_decodes, kept_path_star.
  - done.
Qed.

Lemma Parse_base_query u c p : kept u → ForceQuery u = true → Forall in_path (c :: p) →
  Parse (base_text u ++ c :: p) = inr (read_back u (EscapedPath u) (Path u) false (c :: p)).
Proof.
  intros Hu Hf Hin. unfold base_text. rewrite Hf, <- !app_assoc.
  apply (Parse_parts u (EscapedPath u) (Path u) (Some (c :: p)) Hu).
  - by apply kept_rooted.
  - apply EscapedPath_in_path.
  - by apply EscapedPath_decodes, kept_path_star.
  - done.
Qed.

(** ** What is kept of a URL that was read *)

(** The host is one that was read; a path next to a host is rooted. *)
Record rooted (u : URL) : Prop := {
  r_opaque : Opaque u = [];
  r_parsed : parseHost (escape encodeHost (Host u)) = inr (Host u);
  r_path : Path u = [] ∨ head (Path u) = Some x2f;
  r_raw : RawPath u = [] ∨ head (RawPath u) = Some x2f;
}.

Lemma parseAuthority_parsed a user host :
  parseAuthority a = inr (user, host) → parseHost (escape encodeHost host) = inr host.
Proof.
  unfold parseAuthority. destruct (CutLast _ _) as [[ui h]|].
  - destruct (parseHost h) as [|h'] eqn:E; [done|]. destruct (parseUserinfo ui); [done|]. intros [= _ <-].
    by eapply parseHost_print.
  - destruct (parseHost a) as [|h'] eqn:E; [done|]. intros [= _ <-]. by eapply parseHost_print.
Qed.

Lemma setPath_rooted p path raw : setPath p = inr (path, raw) → p = [] ∨ head p = Some x2f →
  (path = [] ∨ head path = Some x2f) ∧ (raw = [] ∨ head raw = Some x2f).
Proof.
  unfold setPath. destruct (unescape encodePath p) as [|t] eqn:E; [done|]. intros [= <- <-] Hp.
  split; [|destruct (decide _); auto]. destruct Hp as [->|Hp]; [injection E as <-; auto|].
  destruct p as [|c p]; [done|]. injection Hp as ->. rewrite unescape_plain in E by done.
  destruct (unescape encodePath p); [done|]. injection E as <-. auto.
Qed.

(** A hierarchy with a host begins with two slashes. *)
Lemma parse_hierarchy_rooted s force q rest u :
  parse_hierarchy s force q rest = inr u → Host u ≠ [] → rooted u.
Proof.
  assert (∀ omit p, match setPath p with inl e => inl e | inr (path, raw) =>
    inr (mkURL s [] None [] path raw omit force q []) end = inr u → Host u ≠ [] → rooted u) as Hnone.
  { intros omit p. destruct (setPath p) as [|[path raw]]; [done|]. by intros [= <-]. }
  intros Hparse Hhost.
  assert ((∃ omit p, match setPath p with inl e => inl e | inr (path, raw) =>
      inr (mkURL s [] None [] path raw omit force q []) end = inr u) ∨
    ∃ rest', (let '(a, tail) := Cut x2f rest' in
      match parseAuthority a with
      | inl e => inl e
      | inr (user, host) =>
          match setPath (match tail with Some p => x2f :: p | None => [] end) with
          | inl e => inl e
          | inr (path, raw) => inr (mkURL s [] user host path raw false force q [])
          end
      end) = inr u) as [(omit & p & Hn)|[rest' Ha]].
  { unfold parse_hierarchy in Hparse. destruct rest as [|c [|c' rest']]; [eauto| |].
    - destruct c; eauto.
    - destruct (decide (c = x2f)) as [->|Hc]; [|destruct c; eauto; done].
      destruct (decide (c' = x2f)) as [->|Hc']; [|destruct c'; eauto; done].
      destruct (_ || _); [eauto|eauto]. }
  { by eapply Hnone. }
  destruct (Cut x2f rest') as [a tail]. destruct (parseAuthority a) as [|[user host]] eqn:E; [done|].
  destruct (setPath _) as [|[path raw]] eqn:Es; [done|]. injection Ha as <-.
  apply setPath_rooted in Es as [Hp Hr]; [|destruct tail; auto].
  split; try done. by eapply parseAuthority_parsed.
Qed.

Lemma parse_rooted raw u : parse raw = inr u → Host u ≠ [] → rooted u.
Proof.
  unfold parse. destruct (existsb _ _); [done|]. destruct (decide _); [by intros [= <-]|].
  assert (∀ s r, parse_body s r = inr u → Host u ≠ [] → rooted u) as Hbody.
  { intros s r. unfold parse_body. set (l := lit _). destruct (cut_query r) as [[rest force] q].
    destruct (bool_decide (head rest = _)); [by apply parse_hierarchy_rooted|].
    destruct (negb _); [by intros [= <-]|]. destruct (bool_decide _); [done|]. by apply parse_hierarchy_rooted. }
  destruct (getScheme true raw); eauto. done.
Qed.

Lemma Parse_rooted raw u : Parse raw = inr u → Host u ≠ [] → rooted u.
Proof.
  unfold Parse. destruct (Cut x23 raw) as [r frag]. destruct (parse r) as [|u'] eqn:E; [done|].
  intros Hu Hh. assert (∃ f, u = set_Fragment u' f) as [f ->].
  { destruct (default [] frag); [injection Hu as <-; exists (Fragment u'); by destruct u'|].
    destruct (unescape encodeFragment _); [done|]. injection Hu as <-. eauto. }
  destruct (parse_rooted r u' E Hh) as [? ? ? ?]. by split.
Qed.
End printed.
