(* ===== verification/Collectors.v ===== *)
(** * Collectors: the metrics of the program ([internal/metrics/metrics.go])

    The collectors of server, client and proxy with their names and labels, and the
    registries they are put in. The Prometheus client library is not part of the
    program: a registry, and whether a vector takes given label values, are parameters
    with the library's documented behaviour as laws. Both panic on what they refuse:
    a name that is registered already, a wrong number of labels, or a label value that
    is not UTF-8. *)

From S2P Require Import Prelude Text.

Definition namespace : string := "quixiot".

(** ** Collectors *)

Inductive Buckets := DefBuckets | ExponentialBuckets (start factor count : Z).
Inductive metric_kind := Gauge | Counter | Histogram (b : Buckets).

(** What the constructors of the library are given: the options, and the label names
    of a vector. Every collector is in [namespace]. *)
Record collector := mkCollector {
  c_kind : metric_kind;
  c_Name : string;
  c_Help : string;
  c_labels : option (list string);
}.
Definition NewGauge (n h : string) : collector := mkCollector Gauge n h None.
Definition NewCounter (n h : string) : collector := mkCollector Counter n h None.
Definition NewHistogram (n h : string) (b : Buckets) : collector := mkCollector (Histogram b) n h None.
Definition NewGaugeVec (n h : string) (ls : list string) : collector := mkCollector Gauge n h (Some ls).
Definition NewCounterVec (n h : string) (ls : list string) : collector := mkCollector Counter n h (Some ls).
Definition NewHistogramVec (n h : string) (b : Buckets) (ls : list string) : collector :=
  mkCollector (Histogram b) n h (Some ls).

Record ServerMetrics := mkServerMetrics {
  sm_ConnectionsActive : collector;
  sm_ConnectionsTotal : collector;
  sm_HandshakeDuration : collector;
  sm_HTTPDuration : collector;
  sm_Bytes : collector;
  sm_PubSubSubscribers : collector;
  sm_PubSubDrops : collector;
  sm_Streams : collector;
  sm_UploadBytes : collector;
  sm_UploadDuration : collector;
}.

Record ClientMetrics := mkClientMetrics {
  cm_Reconnects : collector;
  cm_HandshakeDuration : collector;
  cm_RTT : collector;
  cm_Datagrams : collector;
  cm_PublishLatency : collector;
  cm_UploadDuration : collector;
  cm_PollDuration : collector;
}.

Record ProxyMetrics := mkProxyMetrics {
  pm_SessionsActive : collector;
  pm_SessionsTotal : collector;
  pm_Packets : collector;
  pm_Bytes : collector;
  pm_Drops : collector;
  pm_Duplicates : collector;
  pm_Reorders : collector;
  pm_EnforcedDelay : collector;
  pm_ProfileInfo : collector;
}.

Definition serverMetrics : ServerMetrics := {|
  sm_ConnectionsActive := NewGauge "server_connections_active"
    "Current number of active QUIC connections on the server.";
  sm_ConnectionsTotal := NewCounter "server_connections_total"
    "Total QUIC connections accepted by the server.";
  sm_HandshakeDuration := NewHistogram "server_handshake_duration_seconds"
    "Observed QUIC handshake duration on the server side." DefBuckets;
  sm_HTTPDuration := NewHistogramVec "server_http_request_duration_seconds"
    "HTTP/3 handler latency by method, path, and status." DefBuckets ["method"; "path"; "status"];
  sm_Bytes := NewCounterVec "server_bytes_total"
    "Bytes processed by the server, partitioned by surface and direction." ["surface"; "direction"];
  sm_PubSubSubscribers := NewGaugeVec "server_pubsub_subscribers"
    "Current pubsub subscriber count by topic." ["topic"];
  sm_PubSubDrops := NewCounterVec "server_pubsub_drops_total"
    "Dropped pubsub messages by surface, topic, and reason." ["surface"; "topic"; "reason"];
  sm_Streams := NewCounterVec "server_streams_total"
    "Count of pubsub control and delivery stream events by kind and direction." ["kind"; "direction"];
  sm_UploadBytes := NewHistogram "server_upload_bytes"
    "Observed upload payload sizes in bytes." (ExponentialBuckets 256 4 8);
  sm_UploadDuration := NewHistogram "server_upload_duration_seconds"
    "Observed upload handler duration in seconds." DefBuckets;
|}%string.

Definition clientMetrics : ClientMetrics := {|
  cm_Reconnects := NewCounter "client_reconnects_total"
    "Number of pubsub reconnect attempts performed by the client.";
  cm_HandshakeDuration := NewHistogram "client_handshake_duration_seconds"
    "Observed QUIC handshake duration on the client side." DefBuckets;
  cm_RTT := NewGauge "client_rtt_seconds"
    "Most recently observed smoothed RTT from the active QUIC connection.";
  cm_Datagrams := NewCounterVec "client_datagrams_total"
    "Datagrams sent or received by the client, partitioned by direction and topic." ["direction"; "topic"];
  cm_PublishLatency := NewHistogram "client_publish_latency_seconds"
    "Observed publish-to-receive latency for stamped pubsub payloads." DefBuckets;
  cm_UploadDuration := NewHistogram "client_upload_duration_seconds"
    "Observed uploader role latency in seconds." DefBuckets;
  cm_PollDuration := NewHistogram "client_poll_duration_seconds"
    "Observed poller role latency in seconds." DefBuckets;
|}%string.

Definition proxyMetrics : ProxyMetrics := {|
  pm_SessionsActive := NewGauge "proxy_sessions_active" "Current active proxy NAT sessions.";
  pm_SessionsTotal := NewCounter "proxy_sessions_total" "Total proxy sessions opened.";
  pm_Packets := NewCounterVec "proxy_packets_total" "Observed packets by proxy direction." ["direction"];
  pm_Bytes := NewCounterVec "proxy_bytes_total" "Observed bytes by proxy direction." ["direction"];
  pm_Drops := NewCounterVec "proxy_dropped_total"
    "Packets dropped by impairments by direction." ["direction"];
  pm_Duplicates := NewCounterVec "proxy_duplicated_total"
    "Packets duplicated by impairments by direction." ["direction"];
  pm_Reorders := NewCounterVec "proxy_reordered_total"
    "Packets reordered by impairments by direction." ["direction"];
  pm_EnforcedDelay := NewHistogramVec "proxy_enforced_delay_seconds"
    "Enforced impairment delay in seconds by direction." DefBuckets ["direction"];
  pm_ProfileInfo := NewGaugeVec "proxy_profile_info"
    "Static info metric with the name of the impairment profile currently loaded by the proxy. Always 1 for the active profile; missing for unloaded profiles. Use with label_values() or for annotations on profile swaps."
    ["name"];
|}%string.

(** ** Registries *)

(** What can be registered: the two collectors of the library, or one of the program. *)
Inductive registrable := GoCollector | ProcessCollector | Own (c : collector).

Class Registerer (R : Type) := {
  NewRegistry : R;
  (** The fully qualified names that something registers. *)
  describe : registrable → list string;
  registered : R → gset string;
  MustRegister : list registrable → R → exec R;
}.

Section constructors.
Context `{Registerer R}.

Definition newRegistry : exec R :=
  let! r := MustRegister [GoCollector] NewRegistry in
  MustRegister [ProcessCollector] r.

Definition register (r : R) (cs : list collector) : exec R := MustRegister (map Own cs) r.

Definition NewServer : exec (ServerMetrics * R) :=
  let! reg := newRegistry in
  let m := serverMetrics in
  let! reg := register reg
    [sm_ConnectionsActive m; sm_ConnectionsTotal m; sm_HandshakeDuration m; sm_HTTPDuration m; sm_Bytes m;
     sm_PubSubSubscribers m; sm_PubSubDrops m; sm_Streams m; sm_UploadBytes m; sm_UploadDuration m] in
  Ok (m, reg).

Definition NewClient : exec (ClientMetrics * R) :=
  let! reg := newRegistry in
  let m := clientMetrics in
  let! reg := register reg
    [cm_Reconnects m; cm_HandshakeDuration m; cm_RTT m; cm_Datagrams m; cm_PublishLatency m;
     cm_UploadDuration m; cm_PollDuration m] in
  Ok (m, reg).

Definition NewProxy : exec (ProxyMetrics * R) :=
  let! reg := newRegistry in
  let m := proxyMetrics in
  let! reg := register reg
    [pm_SessionsActive m; pm_SessionsTotal m; pm_Packets m; pm_Bytes m; pm_Drops m; pm_Duplicates m;
     pm_Reorders m; pm_EnforcedDelay m; pm_ProfileInfo m] in
  Ok (m, reg).
End constructors.

(** ** Label values *)

(** [c.WithLabelValues(ls...)]: whether the call returns; if not it panics. *)
Class Labels := WithLabelValues : collector → list string → bool.

(** A vector takes as many values as it has labels, of UTF-8 text. *)
Definition takes (c : collector) (ls : list string) : Prop :=
  (∃ vars, c_labels c = Some vars ∧ length ls = length vars) ∧ Forall ValidString ls.
Class LabelsLaws `{Labels} := WithLabelValues_spec : ∀ c ls, WithLabelValues c ls = true ↔ takes c ls.

(** An implementation, for the instances of the theorems. *)
Definition prometheus_Labels : Labels := λ c ls,
  match c_labels c with
  | Some vars => (length ls =? length vars)%nat && forallb ValidString ls
  | None => false
  end.
Lemma prometheus_LabelsLaws : @LabelsLaws prometheus_Labels.
Proof.
  intros c ls. unfold WithLabelValues, prometheus_Labels, takes.
  assert (forallb ValidString ls = true ↔ Forall ValidString ls) as Hf.
  { rewrite <- forallb_True. symmetry. apply Is_true_true. }
  destruct (c_labels c) as [vars|].
  - rewrite andb_true_iff, Nat.eqb_eq, Hf. naive_solver.
  - naive_solver.
Qed.

Lemma WithLabelValues_takes `{LabelsLaws} c ls : takes c ls → WithLabelValues c ls = true.
Proof. apply WithLabelValues_spec. Qed.

