(* ===== verification/FS.v ===== *)
(** * FS: the file system seen through packages [os] and [path/filepath]

    Files, directories and special files in a tree, with the calls of package [os]
    that the program makes. Paths are resolved lexically, as [filepath.Clean] does
    (no symbolic links are followed).

    Every call first consumes one element of the schedule [faults]: [Some] makes it
    fail with the given error, [None] and the end of the schedule leave it alone.
    An open file is named by its path: nothing else renames or removes it while it
    is open. *)

From S2P Require Import Prelude Text.

(** ** Paths *)

(** A path is rooted or relative to the working directory. *)
Abbreviation path := (bool * list string)%type (only parsing).

Definition slash : byte := x2f.

(** One segment of a path, on the reversed stack of the segments before it. *)
Definition push_seg (rooted : bool) (st : list string) (seg : string) : list string :=
  if String.eqb seg "" || String.eqb seg "." then st
  else if String.eqb seg ".." then
    match st with
    | top :: below => if String.eqb top ".." then ".."%string :: st else below
    | [] => if rooted then [] else [".."%string]
    end
  else seg :: st.

Definition is_rooted (s : string) : bool :=
  match bytes_of_string s with b :: _ => bool_decide (b = slash) | [] => false end.

Definition resolve (s : string) : path :=
  (is_rooted s, reverse (foldl (push_seg (is_rooted s)) [] (Split slash s))).

Definition render_segs (segs : list string) : string :=
  string_of_bytes (join_with slash (map bytes_of_string segs)).
Definition render (p : path) : string :=
  match p with
  | (true, segs) => ("/" +:+ render_segs segs)%string
  | (false, []) => "."
  | (false, segs) => render_segs segs
  end.

Definition Clean (s : string) : string := render (resolve s).

(** [filepath.Join] of two elements *)
Definition Join (a b : string) : string :=
  if String.eqb a "" then (if String.eqb b "" then "" else Clean b)
  else Clean (a +:+ "/" +:+ b).

(** The path up to and including its last separator. *)
Definition dir_part (s : string) : string :=
  match reverse (split_on slash (bytes_of_string s)) with
  | _ :: y :: r => string_of_bytes (join_with slash (reverse ([] :: y :: r)))
  | _ => ""
  end.
Definition filepath_Dir (s : string) : string := Clean (dir_part s).

Definition parent (p : path) : path := (p.1, take (length p.2 - 1) p.2).
Definition child (p : path) (x : string) : path := (p.1, p.2 ++ [x]).
(** [x], if [p] is [child d x]. *)
Definition child_name (d p : path) : option string :=
  match reverse p.2 with
  | x :: _ => if bool_decide (p = child d x) then Some x else None
  | [] => None
  end.

(** ** The tree *)

Inductive os_error :=
| ErrNotExist
| ErrExist
| ErrInvalid
| ErrClosed
| ENOTDIR
| EISDIR
| ENOTEMPTY
| ErrOther (code : Z).
#[global] Instance os_error_eq_dec : EqDecision os_error.
Proof. solve_decision. Defined.

Definition IsNotExist (e : os_error) : bool := bool_decide (e = ErrNotExist).

Inductive node :=
| File (content : list byte) (mtime : Z)
| Dir
| Special.
#[global] Instance node_eq_dec : EqDecision node.
Proof. solve_decision. Defined.

(** An injected fault: the error, and for a write the bytes written before it. *)
Record fault := mkFault { fault_error : os_error; fault_written : nat }.

Record FS := mkFS {
  nodes : gmap path node;
  clock : Z;
  faults : list (option fault);
}.
Definition set_nodes (fs : FS) (m : gmap path node) : FS := mkFS m (clock fs) (faults fs).

(** The working directory and the root exist. *)
Definition node_at (fs : FS) (p : path) : option node :=
  match p with (_, []) => Some Dir | _ => nodes fs !! p end.

(** A call returns an error or a value, and the tree may have changed even when it
    fails. *)
Definition io (A : Type) : Type := FS → (os_error + A) * FS.

Definition next_fault (fs : FS) : option fault * FS :=
  match faults fs with
  | f :: fl => (f, mkFS (nodes fs) (clock fs) fl)
  | [] => (None, fs)
  end.
Definition syscall {A} (op : io A) : io A := λ fs,
  match next_fault fs with
  | (Some f, fs) => (inl (fault_error f), fs)
  | (None, fs) => op fs
  end.

(** Creates the directories of [segs] under [p]. *)
Fixpoint mkdirs (p : path) (segs : list string) (fs : FS) : (os_error + unit) * FS :=
  match segs with
  | [] => (inr tt, fs)
  | x :: segs =>
      let q := child p x in
      match node_at fs q with
      | Some Dir => mkdirs q segs fs
      | Some _ => (inl ENOTDIR, fs)
      | None => mkdirs q segs (set_nodes fs (<[q := Dir]> (nodes fs)))
      end
  end.
Definition MkdirAll (s : string) : io unit :=
  syscall (λ fs, mkdirs ((resolve s).1, []) (resolve s).2 fs).

(** The error of using [p] as a directory. *)
Definition not_dir {A} (fs : FS) (p : path) : os_error + A :=
  match node_at fs p with Some _ => inl ENOTDIR | None => inl ErrNotExist end.

(** [os.OpenFile] with [O_CREATE|O_WRONLY|O_APPEND]; the handle is the path.
    Opening a special file is not modelled: it fails. *)
Definition OpenAppend (s : string) : io path :=
  syscall (λ fs,
    let p := resolve s in
    match node_at fs p with
    | Some (File _ _) => (inr p, fs)
    | Some Dir => (inl EISDIR, fs)
    | Some Special => (inl ErrInvalid, fs)
    | None =>
        if bool_decide (node_at fs (parent p) = Some Dir)
        then (inr p, set_nodes fs (<[p := File [] (clock fs)]> (nodes fs)))
        else (not_dir fs (parent p), fs)
    end).

(** [file.Stat] then [Size] *)
Definition FileSize (p : path) : io Z :=
  syscall (λ fs,
    match node_at fs p with
    | Some (File c _) => (inr (zlen c), fs)
    | _ => (inl ErrInvalid, fs)
    end).

(** [file.Write]: appends; the number of bytes written and the error. *)
Definition FileWrite (p : path) (d : list byte) : FS → (Z * option os_error) * FS := λ fs,
  let '(f, fs) := next_fault fs in
  match node_at fs p with
  | Some (File c _) =>
      match f with
      | None => ((zlen d, None), set_nodes fs (<[p := File (c ++ d) (clock fs)]> (nodes fs)))
      | Some f =>
          let w := take (fault_written f) d in
          ((zlen w, Some (fault_error f)), set_nodes fs (<[p := File (c ++ w) (clock fs)]> (nodes fs)))
      end
  | _ => ((0, Some ErrInvalid), fs)
  end.

(** [file.Close] of an open file: the descriptor is released even when it fails. *)
Definition FileClose : io unit := syscall (λ fs, (inr tt, fs)).

Definition no_children (fs : FS) (p : path) : bool :=
  bool_decide (map_Forall (λ q _, parent q ≠ p ∨ q = p) (nodes fs)).

(** [os.Remove] *)
Definition Remove (s : string) : io unit :=
  syscall (λ fs,
    let p := resolve s in
    match nodes fs !! p with
    | None => (match p with (_, []) => inl ErrInvalid | _ => inl ErrNotExist end, fs)
    | Some Dir =>
        if no_children fs p then (inr tt, set_nodes fs (delete p (nodes fs)))
        else (inl ENOTEMPTY, fs)
    | Some _ => (inr tt, set_nodes fs (delete p (nodes fs)))
    end).

(** A directory moves with everything below it. *)
Definition move_key (old new p : path) : path :=
  if bool_decide (old.1 = p.1 ∧ old.2 `prefix_of` p.2)
  then (new.1, new.2 ++ drop (length old.2) p.2) else p.
Definition move_tree (old new : path) (m : gmap path node) : gmap path node :=
  list_to_map (map (λ '(p, n), (move_key old new p, n)) (map_to_list m)).

(** [os.Rename] *)
Definition Rename (olds news : string) : io unit :=
  syscall (λ fs,
    let old := resolve olds in
    let new := resolve news in
    match nodes fs !! old with
    | None => (inl ErrNotExist, fs)
    | Some n =>
        if bool_decide (node_at fs new = Some Dir) then (inl ErrExist, fs)
        else if negb (bool_decide (node_at fs (parent new) = Some Dir)) then (not_dir fs (parent new), fs)
        else match n with
             | Dir =>
                 if bool_decide (nodes fs !! new ≠ None) then (inl ENOTDIR, fs)
                 else if bool_decide (old.1 = new.1 ∧ old.2 `prefix_of` new.2) then (inl ErrInvalid, fs)
                 else (inr tt, set_nodes fs (move_tree old new (nodes fs)))
             | _ => (inr tt, set_nodes fs (<[new := n]> (delete old (nodes fs))))
             end
    end).

(** [os.ReadDir]: the names in the directory, sorted, and whether each is a
    directory. *)
Definition dir_names (fs : FS) (d : path) : list string :=
  merge_sort String.le (omap (child_name d) (elements (dom (nodes fs)))).
Definition ReadDir (s : string) : io (list (string * bool)) :=
  syscall (λ fs,
    let d := resolve s in
    if bool_decide (node_at fs d = Some Dir)
    then (inr (map (λ x, (x, bool_decide (node_at fs (child d x) = Some Dir))) (dir_names fs d)), fs)
    else (not_dir fs d, fs)).

(** [os.Lstat] *)
Definition Lstat (s : string) : io node :=
  syscall (λ fs,
    match node_at fs (resolve s) with
    | Some n => (inr n, fs)
    | None => (inl ErrNotExist, fs)
    end).

(** [os.CreateTemp(dir, prefix + "*")]: the first of the random names that does not
    exist yet is created; the result is its name. *)
Definition CreateTemp (dir prefix : string) (randoms : list string) : io string :=
  syscall (λ fs,
    if bool_decide (node_at fs (resolve dir) = Some Dir) then
      let names := map (λ r, (dir +:+ "/" +:+ prefix +:+ r)%string) randoms in
      match list_find (λ n, node_at fs (resolve n) = None) names with
      | Some (_, n) => (inr n, set_nodes fs (<[resolve n := File [] (clock fs)]> (nodes fs)))
      | None => (inl ErrExist, fs)
      end
    else (not_dir fs (resolve dir), fs)).

(** ** Facts about paths *)

#[global] Instance bytes_of_string_inj : Inj (=) (=) bytes_of_string.
Proof. intros a b H. rewrite <-(string_of_bytes_of_string a), H. apply string_of_bytes_of_string. Qed.

(** A name that is neither empty nor one of the special segments. *)
Definition ordinary (x : string) : Prop := x ≠ "" ∧ x ≠ "." ∧ x ≠ "..".
Definition no_slash (x : string) : Prop := slash ∉ bytes_of_string x.

Lemma bytes_of_string_app a b :
  bytes_of_string (a +:+ b) = bytes_of_string a ++ bytes_of_string b.
Proof.
  unfold bytes_of_string, String.list_byte_of_string. rewrite <-map_app. f_equal.
  induction a as [|c a IH]; [done|].
  change (String c a +:+ b) with (String c (a +:+ b)). simpl. by rewrite IH.
Qed.

Lemma string_of_bytes_app a b :
  string_of_bytes (a ++ b) = string_of_bytes a +:+ string_of_bytes b.
Proof.
  apply (inj bytes_of_string). by rewrite bytes_of_string_app, !bytes_of_string_of_bytes.
Qed.

Lemma string_app_inj_l a b c : a +:+ b = a +:+ c → b = c.
Proof.
  intros H. apply (inj bytes_of_string). apply (f_equal bytes_of_string) in H.
  rewrite !bytes_of_string_app in H. by simplify_list_eq.
Qed.

Lemma push_seg_ordinary r st x : ordinary x → push_seg r st x = x :: st.
Proof.
  intros (H1 & H2 & H3). unfold push_seg.
  apply String.eqb_neq in H1, H2, H3. by rewrite H1, H2, H3.
Qed.

Lemma is_rooted_app a b : a ≠ ""%string → is_rooted (a +:+ b) = is_rooted a.
Proof.
  intros Ha. unfold is_rooted. rewrite bytes_of_string_app.
  destruct (bytes_of_string a) eqn:E; [|done].
  destruct Ha. apply (inj bytes_of_string). by rewrite E.
Qed.

Lemma Split_snoc d x : no_slash x → Split slash (d +:+ "/" +:+ x) = Split slash d ++ [x].
Proof.
  intros Hx. unfold Split. rewrite !bytes_of_string_app. simpl.
  rewrite split_on_app, (split_on_none _ (bytes_of_string x)), map_app by done. simpl. by rewrite string_of_bytes_of_string.
Qed.

(** An entry of a directory. *)
Lemma resolve_child d x :
  d ≠ ""%string → ordinary x → no_slash x → resolve (d +:+ "/" +:+ x) = child (resolve d) x.
Proof.
  intros Hd Hx Hs. unfold resolve, child. rewrite is_rooted_app by done. simpl.
  rewrite Split_snoc, foldl_app by done. simpl. by rewrite push_seg_ordinary, reverse_cons.
Qed.

(** What can be on the stack of [push_seg]. *)
Fixpoint stack_ok (r : bool) (st : list string) : Prop :=
  match st with
  | [] => True
  | x :: st =>
      no_slash x ∧ x ≠ "" ∧ x ≠ "." ∧
      (x = ".." → r = false ∧ Forall (λ y, y = "..") st) ∧ stack_ok r st
  end.

Lemma push_seg_ok r st x : no_slash x → stack_ok r st → stack_ok r (push_seg r st x).
Proof.
  intros Hx Hst. unfold push_seg.
  destruct (String.eqb_spec x ""); [done|]. destruct (String.eqb_spec x "."); [done|]. simpl.
  destruct (String.eqb_spec x "..") as [->|]; [|by simpl].
  destruct st as [|top st]; [by destruct r|].
  destruct (String.eqb_spec top "..") as [->|]; [|apply Hst].
  destruct Hst as (? & ? & ? & Hup & ?). destruct Hup as [-> ?]; [done|].
  split_and!; try done. intros _. split; [done|]. by constructor.
Qed.

Lemma foldl_push_ok r segs st :
  Forall no_slash segs → stack_ok r st → stack_ok r (foldl (push_seg r) st segs).
Proof.
  revert st. induction segs as [|x segs IH]; intros st Hsegs; [done|].
  apply Forall_cons in Hsegs as [Hx Hsegs]. intros Hst. apply IH; [done|]. by apply push_seg_ok.
Qed.

Lemma foldl_push_stack r st : stack_ok r st → foldl (push_seg r) [] (reverse st) = st.
Proof.
  induction st as [|x st IH]; [done|]. simpl. intros (Hs & He & Hd & Hup & Hok).
  rewrite reverse_cons, foldl_app, IH by done. simpl. unfold push_seg.
  destruct (String.eqb_spec x ""); [done|]. destruct (String.eqb_spec x "."); [done|]. simpl.
  destruct (String.eqb_spec x "..") as [->|]; [|done]. destruct Hup as [-> Hall]; [done|].
  destruct Hall as [|y st -> _]; done.
Qed.

Lemma Split_no_slash s : Forall no_slash (Split slash s).
Proof.
  unfold Split. apply Forall_map, Forall_forall. intros l Hl. unfold no_slash. simpl.
  rewrite bytes_of_string_of_bytes. by eapply split_on_segments.
Qed.

Lemma resolve_ok s : stack_ok (resolve s).1 (reverse (resolve s).2).
Proof. simpl. rewrite reverse_involutive. apply foldl_push_ok; [apply Split_no_slash|done]. Qed.

Lemma render_segs_split segs : segs ≠ [] → Forall no_slash segs →
  Split slash (render_segs segs) = segs.
Proof.
  intros Hne Hs. unfold Split, render_segs. rewrite bytes_of_string_of_bytes, split_join.
  - rewrite map_map. rewrite <-(map_id segs) at 2. apply map_ext, string_of_bytes_of_string.
  - by destruct segs.
  - apply Forall_map. done.
Qed.

Lemma stack_no_slash r st : stack_ok r st → Forall no_slash st.
Proof. induction st as [|x st IH]; simpl; constructor; tauto. Qed.

(** Rendering a normal path and resolving it again gives it back. *)
Lemma resolve_render r segs : stack_ok r (reverse segs) → resolve (render (r, segs)) = (r, segs).
Proof.
  intros Hok. pose proof (stack_no_slash _ _ Hok) as Hs. rewrite Forall_reverse in Hs.
  assert (Hfold : foldl (push_seg r) [] segs = reverse segs).
  { rewrite <-(reverse_involutive segs) at 1. by apply foldl_push_stack. }
  destruct r; simpl.
  - unfold resolve. assert (is_rooted ("/" +:+ render_segs segs) = true) as -> by done.
    f_equal. destruct (decide (segs = [])) as [->|Hne]; [done|].
    assert (Split slash ("/" +:+ render_segs segs) = ""%string :: Split slash (render_segs segs)) as ->.
    { unfold Split. rewrite bytes_of_string_app. done. }
    rewrite render_segs_split by done. 
    change (foldl (push_seg true) [] (""%string :: segs)) with (foldl (push_seg true) [] segs).
    by rewrite Hfold, reverse_involutive.
  - destruct segs as [|x segs]; [done|].
    unfold resolve. assert (is_rooted (render_segs (x :: segs)) = false) as ->.
    { rewrite reverse_cons in Hok. apply Forall_cons in Hs as [Hx _].
      assert (x ≠ ""%string) as Hne.
      { clear -Hok. induction (reverse segs) as [|y st IH]; simpl in Hok; [tauto|]. apply IH. tauto. }
      unfold is_rooted, render_segs. rewrite bytes_of_string_of_bytes. simpl.
      assert (bytes_of_string x ≠ []) as Hb.
      { intros E. apply Hne, (inj bytes_of_string). by rewrite E. }
      unfold no_slash in Hx. destruct (bytes_of_string x) as [|b l]; [done|].
      apply not_elem_of_cons in Hx as [Hx _].
      assert (b ≠ slash) by congruence.
      destruct (map bytes_of_string segs); simpl; by rewrite bool_decide_false. }
    rewrite render_segs_split, Hfold by done. by rewrite reverse_involutive.
Qed.

Lemma resolve_Clean s : resolve (Clean s) = resolve s.
Proof.
  unfold Clean. pose proof (resolve_ok s) as Hok. destruct (resolve s) as [r segs].
  by apply resolve_render.
Qed.

(** Equal cleaned strings name equal paths, and conversely. *)
Lemma Clean_eq a b : Clean a = Clean b ↔ resolve a = resolve b.
Proof.
  split; [|unfold Clean; congruence]. intros H.
  by rewrite <-(resolve_Clean a), H, resolve_Clean.
Qed.

Lemma child_inj d x y : child d x = child d y → x = y.
Proof. unfold child. intros [= H]. by simplify_list_eq. Qed.

Lemma parent_of_child d x : parent (child d x) = d.
Proof.
  unfold parent, child. destruct d as [r segs]. simpl. f_equal.
  rewrite length_app. simpl. replace (length segs + 1 - 1)%nat with (length segs) by lia.
  apply take_app_length.
Qed.

Lemma child_name_child d x : child_name d (child d x) = Some x.
Proof.
  unfold child_name, child. simpl. rewrite reverse_app. simpl. by rewrite bool_decide_true.
Qed.

Lemma child_name_Some d p x : child_name d p = Some x → p = child d x.
Proof.
  unfold child_name. destruct (reverse p.2); [done|]. case_bool_decide; [|done]. by intros [= ->].
Qed.

Lemma child_ne d x : child d x ≠ d.
Proof.
  intros H. apply (f_equal (length ∘ snd)) in H. simpl in H. rewrite length_app in H. simpl in H. lia.
Qed.

Lemma node_at_child fs d x : node_at fs (child d x) = nodes fs !! child d x.
Proof. unfold node_at, child. destruct d as [r segs]. simpl. by destruct segs. Qed.

Lemma string_length_app a b : String.length (a +:+ b) = (String.length a + String.length b)%nat.
Proof.
  rewrite <-!bytes_of_string_length, bytes_of_string_app. apply length_app.
Qed.

(** ** Facts about calls without faults *)


Lemma syscall_no_fault {A} (op : io A) fs : faults fs = [] → syscall op fs = op fs.
Proof. intros H. unfold syscall, next_fault. by rewrite H. Qed.

(** The directory [d] and all those above it exist. *)
Definition dir_exists (fs : FS) (d : path) : Prop :=
  ∀ k, node_at fs (d.1, take k d.2) = Some Dir.

Lemma dir_exists_node fs d : dir_exists fs d → node_at fs d = Some Dir.
Proof.
  intros H. specialize (H (length d.2)). rewrite firstn_all in H. by destruct d.
Qed.

Lemma mkdirs_exists fs p segs :
  (∀ k, node_at fs (p.1, p.2 ++ take k segs) = Some Dir) → mkdirs p segs fs = (inr tt, fs).
Proof.
  revert p. induction segs as [|x segs IH]; intros p H; [done|]. simpl.
  pose proof (H 1%nat) as H1. simpl in H1. unfold child. rewrite take_0 in H1. rewrite H1.
  apply IH. intros k. simpl. specialize (H (S k)). simpl in H. by rewrite <-app_assoc.
Qed.

Lemma MkdirAll_exists fs s :
  faults fs = [] → dir_exists fs (resolve s) → MkdirAll s fs = (inr tt, fs).
Proof.
  intros Hf Hd. unfold MkdirAll. rewrite syscall_no_fault by done.
  apply mkdirs_exists. simpl. apply Hd.
Qed.

(** Changing entries of [d] does not change the directories above them. *)
Lemma dir_exists_agree fs fs' d :
  (∀ q, (∀ x, q ≠ child d x) → nodes fs' !! q = nodes fs !! q) →
  dir_exists fs d → dir_exists fs' d.
Proof.
  intros Hq Hd k. specialize (Hd k). unfold node_at in *.
  destruct (take k d.2) as [|y l] eqn:E; [done|]. rewrite Hq; [done|].
  intros x Hx. unfold child in Hx. injection Hx as Hx. apply (f_equal length) in Hx, E.
  rewrite length_app in Hx. rewrite length_take in E. simpl in *. lia.
Qed.

(** What is stored at a path: nothing, or a file with this content. *)
Definition holds (fs : FS) (q : path) (c : option (list byte)) : Prop :=
  match c with
  | None => nodes fs !! q = None
  | Some c => ∃ m, nodes fs !! q = Some (File c m)
  end.

Lemma holds_insert fs q q' c m c' :
  holds fs q' c' →
  holds (set_nodes fs (<[q := File c m]> (nodes fs))) q' (if decide (q' = q) then Some c else c').
Proof.
  intros H. unfold holds, set_nodes. simpl. case_decide as Hd.
  - subst. rewrite lookup_insert_eq. by eexists.
  - by rewrite lookup_insert_ne.
Qed.

Lemma holds_delete fs q q' c' :
  holds fs q' c' →
  holds (set_nodes fs (delete q (nodes fs))) q' (if decide (q' = q) then None else c').
Proof.
  intros H. unfold holds, set_nodes. simpl. case_decide as Hd.
  - subst. by rewrite lookup_delete_eq.
  - by rewrite lookup_delete_ne.
Qed.

Lemma holds_not_dir fs d x c : holds fs (child d x) c → node_at fs (child d x) ≠ Some Dir.
Proof. rewrite node_at_child. destruct c as [c|]; simpl; [intros [m ->]|intros ->]; done. Qed.

(** The calls on the entries of an existing directory. *)
Section entries.
Context (fs : FS) (d : path).
Hypothesis (Hf : faults fs = []) (Hd : node_at fs d = Some Dir).

Lemma Remove_missing s x :
  resolve s = child d x → holds fs (child d x) None → Remove s fs = (inl ErrNotExist, fs).
Proof.
  intros Hs Hx. unfold Remove. rewrite syscall_no_fault by done. cbv zeta. rewrite Hs.
  simpl in Hx. rewrite Hx. unfold child. by destruct (d.2).
Qed.

Lemma Remove_file s x c :
  resolve s = child d x → holds fs (child d x) (Some c) →
  Remove s fs = (inr tt, set_nodes fs (delete (child d x) (nodes fs))).
Proof.
  intros Hs [m Hx]. unfold Remove. rewrite syscall_no_fault by done. cbv zeta. by rewrite Hs, Hx.
Qed.

Lemma Rename_missing s t x :
  resolve s = child d x → holds fs (child d x) None → Rename s t fs = (inl ErrNotExist, fs).
Proof.
  intros Hs Hx. unfold Rename. rewrite syscall_no_fault by done. cbv zeta. rewrite Hs.
  simpl in Hx. by rewrite Hx.
Qed.

Lemma Rename_file s t p y n :
  resolve s = p → resolve t = child d y → nodes fs !! p = Some n → n ≠ Dir →
  node_at fs (child d y) ≠ Some Dir →
  Rename s t fs = (inr tt, set_nodes fs (<[child d y := n]> (delete p (nodes fs)))).
Proof.
  intros Hs Ht Hp Hn Hy. unfold Rename. rewrite syscall_no_fault by done. cbv zeta.
  rewrite Hs, Ht, Hp, parent_of_child. rewrite bool_decide_false by done.
  rewrite (bool_decide_true (node_at fs d = _)) by done. simpl. by destruct n.
Qed.

Lemma OpenAppend_entry s x c :
  resolve s = child d x → holds fs (child d x) c →
  ∃ m, OpenAppend s fs =
    (inr (child d x),
     match c with
     | Some _ => fs
     | None => set_nodes fs (<[child d x := File [] m]> (nodes fs))
     end).
Proof.
  intros Hs Hx. exists (clock fs). unfold OpenAppend. rewrite syscall_no_fault by done. cbv zeta.
  rewrite Hs, node_at_child, parent_of_child. destruct c as [c|]; simpl in Hx.
  - destruct Hx as [m ->]. done.
  - rewrite Hx. by rewrite bool_decide_true.
Qed.

Lemma FileSize_entry x c : holds fs (child d x) (Some c) → FileSize (child d x) fs = (inr (zlen c), fs).
Proof.
  intros [m Hx]. unfold FileSize. rewrite syscall_no_fault by done. by rewrite node_at_child, Hx.
Qed.

Lemma FileWrite_entry x c p : holds fs (child d x) (Some c) →
  ∃ m, FileWrite (child d x) p fs =
    ((zlen p, None), set_nodes fs (<[child d x := File (c ++ p) m]> (nodes fs))).
Proof.
  intros [m Hx]. exists (clock fs). unfold FileWrite, next_fault. rewrite Hf, node_at_child, Hx. done.
Qed.

End entries.

(** ** Facts about calls under an arbitrary schedule *)

(** No call fails with a made-up "does not exist", which would mean that the file is
    gone. *)
Definition honest_faults (fs : FS) : Prop :=
  ∀ f, Some f ∈ faults fs → fault_error f ≠ ErrNotExist.

Lemma next_fault_spec fs f fs' :
  next_fault fs = (f, fs') →
  nodes fs' = nodes fs ∧ clock fs' = clock fs ∧ (honest_faults fs → honest_faults fs') ∧
  (honest_faults fs → ∀ f', f = Some f' → fault_error f' ≠ ErrNotExist).
Proof.
  unfold next_fault, honest_faults. destruct (faults fs) as [|f0 fl] eqn:E; intros [= <- <-]; simpl.
  - rewrite E. split_and!; try done.
  - split_and!; try done.
    + intros H f Hf. apply H. by right.
    + intros H f ->. apply H. by left.
Qed.

(** A call under an arbitrary schedule: either an injected error, or the call itself. *)
Lemma syscall_inv {A} (op : io A) fs r fs' :
  syscall op fs = (r, fs') →
  ∃ fs1, nodes fs1 = nodes fs ∧ (honest_faults fs → honest_faults fs1) ∧
    ((∃ e, r = inl e ∧ fs' = fs1 ∧ (honest_faults fs → e ≠ ErrNotExist)) ∨ op fs1 = (r, fs')).
Proof.
  unfold syscall. destruct (next_fault fs) as [f fs1] eqn:E.
  apply next_fault_spec in E as (Hn & _ & Hh & Hf). intros Hr. exists fs1. split_and!; [done..|].
  destruct f as [f|]; [|by right]. left. injection Hr as <- <-. naive_solver.
Qed.

Lemma node_at_nodes fs fs' q : nodes fs = nodes fs' → node_at fs q = node_at fs' q.
Proof. intros H. unfold node_at. destruct q as [r [|y l]]; [done|]. by rewrite H. Qed.

(** A call that does not change the tree. *)
Lemma syscall_nodes {A} (op : io A) fs r fs' :
  syscall op fs = (r, fs') → (∀ fs1 r1 fs1', op fs1 = (r1, fs1') → fs1' = fs1) →
  nodes fs' = nodes fs ∧ ((∃ e, r = inl e) ∨ ∃ fs1, nodes fs1 = nodes fs ∧ op fs1 = (r, fs')).
Proof.
  intros H Hop. apply syscall_inv in H as (fs1 & Hn & _ & [(e & -> & -> & _)|H]).
  - split; [done|]. by left; exists e.
  - pose proof (Hop _ _ _ H) as ->. split; [done|]. right. by exists fs1.
Qed.

#[global] Arguments node_at : simpl never.
#[global] Arguments child : simpl never.

Lemma mkdirs_inv segs : ∀ q fs r fs',
  mkdirs q segs fs = (r, fs') →
  faults fs' = faults fs ∧
  (∀ z, node_at fs z = Some Dir → node_at fs' z = Some Dir) ∧
  (∀ z, (∀ k, z ≠ (q.1, q.2 ++ take k segs)) → nodes fs' !! z = nodes fs !! z) ∧
  (r = inr tt → node_at fs q = Some Dir → node_at fs' (q.1, q.2 ++ segs) = Some Dir).
Proof.
  induction segs as [|y segs IH]; intros q fs r fs'; cbn [mkdirs].
  { intros [= <- <-]. split_and!; try done. intros _. rewrite app_nil_r. by destruct q. }
  assert (Hk : ∀ z, (∀ k, z ≠ (q.1, q.2 ++ take k (y :: segs))) →
    z ≠ child q y ∧ ∀ k, z ≠ ((child q y).1, (child q y).2 ++ take k segs)).
  { intros z Hz. split.
    - intros ->. apply (Hz 1%nat). unfold child. simpl. by rewrite take_0.
    - intros k ->. apply (Hz (S k)). simpl. by rewrite <-app_assoc. }
  destruct (node_at fs (child q y)) as [[| |]|] eqn:E.
  - intros [= <- <-]. split_and!; done.
  - intros H. destruct (IH _ _ _ _ H) as (H1 & H2 & H3 & H4). split_and!; [done|done| |].
    + intros z Hz. apply H3, Hk, Hz.
    + intros Hr _. specialize (H4 Hr E). simpl in H4. by rewrite <-app_assoc in H4.
  - intros [= <- <-]. split_and!; done.
  - intros H. destruct (IH _ _ _ _ H) as (H1 & H2 & H3 & H4).
    assert (Hmono : ∀ z, node_at fs z = Some Dir →
      node_at (set_nodes fs (<[child q y := Dir]> (nodes fs))) z = Some Dir).
    { intros z Hz. destruct (decide (z = child q y)) as [->|Hne].
      - rewrite node_at_child. simpl. by rewrite lookup_insert_eq.
      - destruct z as [r0 [|z0 l]]; [done|]. unfold node_at in *. simpl. by rewrite lookup_insert_ne. }
    split_and!; [done|by auto| |].
    + intros z Hz. destruct (Hk z Hz) as [Hne Hz']. rewrite H3 by exact Hz'.
      by apply lookup_insert_ne.
    + intros Hr _. ospecialize (H4 Hr _); [rewrite node_at_child; apply lookup_insert_eq|].
      simpl in H4. by rewrite <-app_assoc in H4.
Qed.

(** [os.MkdirAll] only adds directories. *)
Definition grows (fs fs' : FS) : Prop :=
  (∀ q, nodes fs' !! q = nodes fs !! q ∨ (nodes fs !! q = None ∧ nodes fs' !! q = Some Dir)) ∧
  (faults fs = [] → faults fs' = []).

Lemma grows_refl fs fs' : nodes fs' = nodes fs → (faults fs = [] → faults fs' = []) → grows fs fs'.
Proof. intros Hn Hf. split; [|done]. intros q. left. by rewrite Hn. Qed.

Lemma grows_trans a b c : grows a b → grows b c → grows a c.
Proof.
  intros [H1 F1] [H2 F2]. split; [|auto]. intros q. destruct (H1 q) as [E1|[E1 E1']], (H2 q) as [E2|[E2 E2']].
  - left. congruence.
  - right. split; congruence.
  - right. split; congruence.
  - congruence.
Qed.

Lemma mkdirs_grows segs : ∀ q fs r fs', mkdirs q segs fs = (r, fs') → grows fs fs'.
Proof.
  induction segs as [|y segs IH]; intros q fs r fs'; cbn [mkdirs].
  { intros [= <- <-]. by apply grows_refl. }
  destruct (node_at fs (child q y)) as [[| |]|] eqn:E.
  - intros [= <- <-]. by apply grows_refl.
  - apply IH.
  - intros [= <- <-]. by apply grows_refl.
  - intros H. apply IH in H. eapply grows_trans; [|exact H]. split; [|done]. intros z. simpl.
    rewrite node_at_child in E. destruct (decide (z = child q y)) as [->|Hne].
    + right. by rewrite lookup_insert_eq.
    + left. by apply lookup_insert_ne.
Qed.

(** An injected fault leaves the rest of the schedule. *)
Lemma next_fault_nil fs f fs' : next_fault fs = (f, fs') → faults fs = [] → f = None ∧ fs' = fs.
Proof. unfold next_fault. intros H E. rewrite E in H. by simplify_eq. Qed.

Lemma syscall_cases {A} (op : io A) fs r fs' :
  syscall op fs = (r, fs') →
  ∃ fs1, nodes fs1 = nodes fs ∧ (faults fs = [] → faults fs1 = []) ∧
    ((∃ e, r = inl e ∧ fs' = fs1 ∧ faults fs ≠ []) ∨ op fs1 = (r, fs')).
Proof.
  unfold syscall. destruct (next_fault fs) as [f fs1] eqn:E. intros H. exists fs1.
  split; [by apply next_fault_spec in E as (? & _)|].
  split; [intros Hf; by destruct (next_fault_nil _ _ _ E Hf) as [_ ->]|].
  destruct f as [f|]; [|by right]. injection H as <- <-. left. exists (fault_error f).
  split_and!; [done|done|]. intros Hf. by destruct (next_fault_nil _ _ _ E Hf).
Qed.

Lemma MkdirAll_grows s fs r fs' : MkdirAll s fs = (r, fs') → grows fs fs'.
Proof.
  intros H. apply syscall_cases in H as (fs1 & Hn & Hf & [(e & -> & -> & _)|H]).
  - by apply grows_refl.
  - apply mkdirs_grows in H. eapply grows_trans; [by apply grows_refl|done].
Qed.

(** The only directories [os.MkdirAll] adds are on the way to its argument. *)
Lemma MkdirAll_on_path s fs r fs' q :
  MkdirAll s fs = (r, fs') → (∀ k, q ≠ ((resolve s).1, take k (resolve s).2)) →
  nodes fs' !! q = nodes fs !! q.
Proof.
  intros H Hq. apply syscall_cases in H as (fs1 & Hn & _ & [(e & -> & -> & _)|H]); rewrite <-Hn; [done|].
  apply mkdirs_inv in H as (_ & _ & H & _). apply H. simpl. done.
Qed.

Lemma FileClose_nodes fs r fs' : FileClose fs = (r, fs') →
  nodes fs' = nodes fs ∧ (faults fs = [] → faults fs' = []).
Proof.
  intros H. apply syscall_cases in H as (fs1 & Hn & Hf & [(e & -> & -> & _)|[= _ <-]]); done.
Qed.
