(* ===== verification/Sha256.v ===== *)
(** * Sha256: SHA-256 and its hexadecimal form

    The digest of package [crypto/sha256] printed by [encoding/hex], as a function
    on byte strings. *)

From S2P Require Import Prelude Text.

Definition w32 (z : Z) : Z := z `mod` 2 ^ 32.
Definition rotr (n x : Z) : Z := Z.lor (Z.shiftr x n) (w32 (Z.shiftl x (32 - n))).

(** The constants are the first 32 bits of the fractional parts of the cube roots
    and square roots of the first primes. *)
Definition is_prime (n : Z) : bool :=
  forallb (λ k, negb (n `mod` Z.of_nat k =? 0)) (seq 2 (Z.to_nat (Z.sqrt n) - 1)).
Definition primes (bound : nat) : list Z := filter is_prime (map Z.of_nat (seq 2 bound)).

(** The integer cube root below [2 ^ k], bit by bit. *)
Fixpoint cube_root (k : nat) (r n : Z) : Z :=
  match k with
  | O => r
  | S k =>
      let r' := r + 2 ^ Z.of_nat k in
      cube_root k (if r' * r' * r' <=? n then r' else r) n
  end.

Definition K256 : list Z :=
  Eval vm_compute in map (λ p, w32 (cube_root 36 0 (p * 2 ^ 96))) (primes 310).
Definition H256 : list Z :=
  Eval vm_compute in map (λ p, w32 (Z.sqrt (p * 2 ^ 64))) (take 8 (primes 310)).

(** The big-endian bytes of a [k]-byte number. *)
Fixpoint be_bytes (k : nat) (z : Z) : list Z :=
  match k with
  | O => []
  | S k => be_bytes k (Z.shiftr z 8) ++ [Z.land z 255]
  end.

Definition sha_pad (l : list byte) : list Z :=
  let n := length l in
  let zeros := ((119 - n mod 64) mod 64)%nat in
  map byte_Z l ++ [0x80] ++ replicate zeros 0 ++ be_bytes 8 (8 * Z.of_nat n).

Fixpoint be_words (fuel : nat) (l : list Z) : list Z :=
  match fuel, l with
  | S fuel, a :: b :: c :: d :: l =>
      Z.lor (Z.shiftl a 24) (Z.lor (Z.shiftl b 16) (Z.lor (Z.shiftl c 8) d)) :: be_words fuel l
  | _, _ => []
  end.

(** The message schedule, newest word first. *)
Fixpoint sha_schedule (n : nat) (ws : list Z) : list Z :=
  match n with
  | O => ws
  | S n =>
      let at_ i := nth i ws 0 in
      let s0 := Z.lxor (rotr 7 (at_ 14%nat)) (Z.lxor (rotr 18 (at_ 14%nat)) (Z.shiftr (at_ 14%nat) 3)) in
      let s1 := Z.lxor (rotr 17 (at_ 1%nat)) (Z.lxor (rotr 19 (at_ 1%nat)) (Z.shiftr (at_ 1%nat) 10)) in
      sha_schedule n (w32 (at_ 15%nat + s0 + at_ 6%nat + s1) :: ws)
  end.

Definition sha_round (st : list Z) (kw : Z * Z) : list Z :=
  match st with
  | [a; b; c; d; e; f; g; h] =>
      let s1 := Z.lxor (rotr 6 e) (Z.lxor (rotr 11 e) (rotr 25 e)) in
      let ch := Z.lxor (Z.land e f) (Z.land (Z.lxor e 0xffffffff) g) in
      let t1 := h + s1 + ch + kw.1 + kw.2 in
      let s0 := Z.lxor (rotr 2 a) (Z.lxor (rotr 13 a) (rotr 22 a)) in
      let maj := Z.lxor (Z.land a b) (Z.lxor (Z.land a c) (Z.land b c)) in
      [w32 (t1 + s0 + maj); a; b; c; w32 (d + t1); e; f; g]
  | _ => st
  end.

Definition sha_block (st : list Z) (block : list Z) : list Z :=
  let ws := reverse (sha_schedule 48 (reverse (be_words 16 block))) in
  zip_with (λ x y, w32 (x + y)) st (foldl sha_round st (zip K256 ws)).

Fixpoint sha_blocks (fuel : nat) (st : list Z) (l : list Z) : list Z :=
  match fuel, l with
  | S fuel, _ :: _ => sha_blocks fuel (sha_block st (take 64 l)) (drop 64 l)
  | _, _ => st
  end.

Definition sha256 (l : list byte) : list Z :=
  let p := sha_pad l in
  concat (map (be_bytes 4) (sha_blocks (length p) H256 p)).

(** [hex.EncodeToString] *)
Definition hex_digit (n : Z) : string :=
  match n with
  | 0 => "0" | 1 => "1" | 2 => "2" | 3 => "3" | 4 => "4" | 5 => "5" | 6 => "6" | 7 => "7" | 8 => "8"
  | 9 => "9" | 10 => "a" | 11 => "b" | 12 => "c" | 13 => "d" | 14 => "e" | _ => "f"
  end%string.
Definition EncodeToString (l : list Z) : string :=
  foldr (λ b s, hex_digit (Z.shiftr b 4) +:+ hex_digit (Z.land b 15) +:+ s) ""%string l.

(** The test vector of the standard. *)
Example sha256_abc :
  EncodeToString (sha256 (bytes_of_string "abc")) =
  "ba7816bf8f01cfea414140de5dae2223b00361a396177a9cb410ff61f20015ad"%string.
Proof. vm_compute. reflexivity. Qed.
