(* ===== verification/Heap.v ===== *)
(** * Heap: the [container/heap] binary heap over a slice

    [impair.Pipeline] keeps its scheduled packets in a [container/heap] heap.
    This file translates the standard library's [Push], [Pop], [up] and [down]
    over a list used as an array, for any [Less], and proves them correct when
    [Less] is a strict weak order: the heap order is kept, [Push] adds one
    element, [Pop] removes a minimal one. *)

From S2P Require Import Prelude.
From stdpp Require Import list.

#[local] Open Scope nat_scope.

Section heap.
Context {A : Type} (less : A → A → bool).

(** [h[i], h[j] = h[j], h[i]] *)
Definition swap (h : list A) (i j : nat) : list A :=
  match h !! i, h !! j with
  | Some x, Some y => <[i := y]> (<[j := x]> h)
  | _, _ => h
  end.

(** [h.Less(i, j)] *)
Definition less_at (h : list A) (i j : nat) : bool :=
  match h !! i, h !! j with
  | Some x, Some y => less x y
  | _, _ => false
  end.

Definition parent (j : nat) : nat := (j - 1) / 2.

(** [heap.up]: each iteration at least halves [j], so [j] iterations are enough. *)
Fixpoint up_loop (fuel : nat) (h : list A) (j : nat) : list A :=
  match fuel with
  | O => h
  | S fuel =>
      let i := parent j in
      if (i =? j) || negb (less_at h j i) then h
      else up_loop fuel (swap h i j) i
  end.
Definition up (h : list A) (j : nat) : list A := up_loop j h j.

(** [heap.down] on the first [n] elements: [i] grows, so [n] iterations are enough. *)
Fixpoint down_loop (fuel : nat) (h : list A) (i n : nat) : list A :=
  match fuel with
  | O => h
  | S fuel =>
      let j1 := 2 * i + 1 in
      if n <=? j1 then h
      else
        let j2 := j1 + 1 in
        let j := if (j2 <? n) && less_at h j2 j1 then j2 else j1 in
        if negb (less_at h j i) then h
        else down_loop fuel (swap h i j) j n
  end.
Definition down (h : list A) (i n : nat) : list A := down_loop n h i n.

(** [heap.Push]: the interface's own Push appends. *)
Definition push (h : list A) (x : A) : list A := up (h ++ [x]) (length h).

(** The interface's own Pop: it takes the last element off. *)
Definition pop_last (h : list A) : option (A * list A) :=
  match last h with
  | Some x => Some (x, take (length h - 1) h)
  | None => None
  end.

(** [heap.Pop]; [None] is the index panic on an empty heap. *)
Definition pop (h : list A) : option (A * list A) :=
  let n := length h - 1 in
  pop_last (down (swap h 0 n) 0 n).

(** ** Swaps *)

Lemma swap_length h i j : length (swap h i j) = length h.
Proof.
  unfold swap. destruct (h !! i), (h !! j); rewrite ?length_insert; done.
Qed.

Lemma insert_perm (l : list A) i x y : l !! i = Some x → x :: <[i := y]> l ≡ₚ y :: l.
Proof.
  revert i. induction l as [|a l IH]; intros [|i] Hi; simplify_eq/=.
  - apply Permutation_swap.
  - rewrite Permutation_swap, (IH i Hi). apply Permutation_swap.
Qed.

Lemma swap_perm (h : list A) i j : swap h i j ≡ₚ h.
Proof.
  unfold swap. destruct (h !! i) as [x|] eqn:Hi; [|done].
  destruct (h !! j) as [y|] eqn:Hj; [|done].
  apply (Permutation_cons_inv (a:=x)).
  assert (<[j := x]> h !! i = Some x) as Hx.
  { destruct (decide (i = j)) as [->|Hne].
    - apply list_lookup_insert_eq. by eapply lookup_lt_Some.
    - by rewrite list_lookup_insert_ne. }
  rewrite (insert_perm _ _ _ y Hx). by apply insert_perm.
Qed.

Lemma lookup_swap (h : list A) i j k :
  i < length h → j < length h →
  swap h i j !! k = if decide (k = i) then h !! j else if decide (k = j) then h !! i else h !! k.
Proof.
  intros Hi Hj. unfold swap.
  destruct (lookup_lt_is_Some_2 h i Hi) as [x Hx], (lookup_lt_is_Some_2 h j Hj) as [y Hy].
  rewrite Hx, Hy. repeat case_decide; subst.
  - rewrite list_lookup_insert_eq; [done|by rewrite length_insert].
  - rewrite list_lookup_insert_ne by done. by apply list_lookup_insert_eq.
  - rewrite !list_lookup_insert_ne by done. done.
Qed.

(** The index that position [k] of [swap h i j] comes from. *)
Definition swap_index (i j k : nat) : nat :=
  if decide (k = i) then j else if decide (k = j) then i else k.

Lemma less_at_swap (h : list A) i j a b :
  i < length h → j < length h →
  less_at (swap h i j) a b = less_at h (swap_index i j a) (swap_index i j b).
Proof.
  intros. unfold less_at, swap_index. rewrite !lookup_swap by done.
  repeat case_decide; done.
Qed.

Lemma lookup_down_ge fuel (h : list A) i n k : n ≤ k → n ≤ length h →
  i < n → down_loop fuel h i n !! k = h !! k.
Proof.
  revert h i. induction fuel as [|fuel IH]; intros h i Hk Hn Hi; [done|].
  cbn [down_loop]. destruct (Nat.leb_spec n (2 * i + 1)); [done|].
  set (j := if (_ && _) then _ else _).
  assert (j < n) by (unfold j; destruct (Nat.ltb_spec (2 * i + 1 + 1) n); simpl;
    [destruct (less_at _ _ _)|]; lia).
  destruct (less_at h j i); simpl; [|done].
  rewrite IH by (rewrite ?swap_length; lia).
  rewrite lookup_swap by lia. by repeat case_decide; subst; try lia.
Qed.

Lemma down_length fuel (h : list A) i n : length (down_loop fuel h i n) = length h.
Proof.
  revert h i. induction fuel as [|fuel IH]; intros h i; [done|].
  cbn [down_loop]. destruct (n <=? _); [done|].
  destruct (negb _); [done|]. by rewrite IH, swap_length.
Qed.

Lemma up_loop_perm fuel (h : list A) j : up_loop fuel h j ≡ₚ h.
Proof.
  revert h j. induction fuel as [|fuel IH]; intros h j; [done|].
  simpl. destruct (_ || _); [done|]. by rewrite IH, swap_perm.
Qed.

Lemma down_loop_perm fuel (h : list A) i n : down_loop fuel h i n ≡ₚ h.
Proof.
  revert h i. induction fuel as [|fuel IH]; intros h i; [done|].
  cbn [down_loop]. destruct (n <=? _); [done|].
  destruct (negb _); [done|]. by rewrite IH, swap_perm.
Qed.

Lemma push_perm (h : list A) x : push h x ≡ₚ x :: h.
Proof. unfold push, up. rewrite up_loop_perm. apply Permutation_app_comm. Qed.

(** ** The heap order *)

Context (less_asym : ∀ x y, less x y = true → less y x = false).
Context (less_co_trans : ∀ x y z, less y x = false → less z y = false → less z x = false).

(** Every element of the first [n] is not below its parent. *)
Definition heap_upto (n : nat) (h : list A) : Prop :=
  ∀ k, 0 < k < n → less_at h k (parent k) = false.
Definition heap_ok (h : list A) : Prop := heap_upto (length h) h.

Lemma less_at_asym h i j : less_at h i j = true → less_at h j i = false.
Proof. unfold less_at. destruct (h !! i), (h !! j); auto. Qed.

Lemma less_at_trans h i j k :
  j < length h → less_at h j i = false → less_at h k j = false → less_at h k i = false.
Proof.
  intros Hj. unfold less_at.
  destruct (lookup_lt_is_Some_2 h j Hj) as [y ->].
  destruct (h !! i), (h !! k); eauto.
Qed.

Lemma parent_lt k : 0 < k → parent k < k.
Proof. intros. unfold parent. apply Nat.Div0.div_lt_upper_bound; lia. Qed.

Lemma parent_child i k : 0 < k → parent k = i ↔ k = 2 * i + 1 ∨ k = 2 * i + 2.
Proof.
  intros Hk. unfold parent.
  pose proof (Nat.div_mod_eq (k - 1) 2). pose proof (Nat.mod_upper_bound (k - 1) 2). lia.
Qed.

(** A heap on the first [n] elements except possibly between [j] and its parent. *)
Definition up_inv (h : list A) (j : nat) : Prop :=
  (∀ k, 0 < k < length h → k ≠ j → less_at h k (parent k) = false) ∧
  (∀ k, 0 < k < length h → parent k = j → 0 < j → less_at h k (parent j) = false).

Lemma up_inv_step h j :
  0 < j < length h → up_inv h j → less_at h j (parent j) = true →
  up_inv (swap h (parent j) j) (parent j).
Proof.
  intros Hj [H1 H2] Hless. pose proof (parent_lt j ltac:(lia)) as Hp.
  assert (Hge : ∀ k, 0 < k < length h → k ≠ j → parent k = parent j → less_at h k j = false).
  { intros k Hk Hkj Hpk. apply (less_at_trans _ _ (parent j)); [lia|by apply less_at_asym|].
    rewrite <-Hpk. by apply H1. }
  split; rewrite swap_length; intros k Hk; [intros Hki|intros Hpk Hi];
    rewrite less_at_swap by lia; unfold swap_index.
  - rewrite decide_False by done. destruct (decide (k = j)) as [->|Hkj].
    { rewrite decide_True by done. by apply less_at_asym. }
    destruct (decide (parent k = parent j)); [by apply Hge|].
    destruct (decide (parent k = j)) as [Hpj|]; [by apply H2; lia|by apply H1].
  - pose proof (parent_lt (parent j) Hi). pose proof (parent_lt k ltac:(lia)).
    rewrite (decide_False (P := k = parent j)) by lia.
    rewrite (decide_False (P := parent (parent j) = parent j)) by lia.
    rewrite (decide_False (P := parent (parent j) = j)) by lia.
    destruct (decide (k = j)) as [->|Hkj].
    + apply H1; lia.
    + apply (less_at_trans _ _ (parent j)); [lia|apply H1; lia|].
      rewrite <-Hpk. apply H1; [lia|done].
Qed.

Lemma up_loop_heap fuel h j :
  j ≤ fuel → j < length h → up_inv h j → heap_ok (up_loop fuel h j).
Proof.
  revert h j. induction fuel as [|fuel IH]; intros h j Hf Hj Hinv.
  - assert (j = 0) as -> by lia. simpl. intros k Hk. apply Hinv; lia.
  - simpl. destruct (Nat.eqb_spec (parent j) j) as [He|He]; simpl.
    + intros k Hk. apply Hinv; [lia|]. intros ->. pose proof (parent_lt j ltac:(lia)). lia.
    + assert (0 < j) by (destruct j; [done|lia]).
      pose proof (parent_lt j ltac:(lia)).
      destruct (less_at h j (parent j)) eqn:Hl; simpl.
      * apply IH; [lia|rewrite swap_length; lia|]. by apply up_inv_step.
      * intros k Hk. destruct (decide (k = j)) as [->|]; [done|]. by apply Hinv.
Qed.

Lemma less_at_app_l h x a b : a < length h → b < length h →
  less_at (h ++ [x]) a b = less_at h a b.
Proof. intros. unfold less_at. by rewrite !lookup_app_l. Qed.

Lemma push_heap h x : heap_ok h → heap_ok (push h x).
Proof.
  intros Hh. unfold push, up. apply up_loop_heap; [lia|rewrite length_app; simpl; lia|].
  split; rewrite length_app; simpl; intros k Hk ?; pose proof (parent_lt k ltac:(lia)).
  - rewrite less_at_app_l by lia. apply Hh. lia.
  - lia.
Qed.

(** A heap on the first [n] elements except possibly between [i] and its children. *)
Definition down_inv (h : list A) (i n : nat) : Prop :=
  (∀ k, 0 < k < n → parent k ≠ i → less_at h k (parent k) = false) ∧
  (∀ k, 0 < k < n → parent k = i → 0 < i → less_at h k (parent i) = false).

Lemma down_inv_step h i j n :
  n ≤ length h → j < n → 0 < j → parent j = i →
  (∀ k, 0 < k < n → parent k = i → less_at h k j = false) →
  less_at h j i = true → down_inv h i n → down_inv (swap h i j) j n.
Proof.
  intros Hn Hj Hj0 Hpj Hmin Hless [H1 H2]. pose proof (parent_lt j Hj0) as Hp.
  split; intros k Hk Hpk; [|intros _]; rewrite less_at_swap by lia; unfold swap_index;
    pose proof (parent_lt k ltac:(lia)).
  - rewrite (decide_False (P := parent k = j)) by done.
    destruct (decide (k = i)) as [->|Hki].
    { rewrite decide_False by lia. apply H2; lia. }
    destruct (decide (k = j)) as [->|Hkj].
    { rewrite decide_True by done. by apply less_at_asym. }
    destruct (decide (parent k = i)); [by apply Hmin|by apply H1].
  - rewrite Hpj, !decide_False, decide_True by lia.
    rewrite <-Hpk. apply H1; lia.
Qed.

Lemma down_loop_heap fuel h i n :
  n ≤ length h → i < n → n ≤ fuel + i → down_inv h i n → heap_upto n (down_loop fuel h i n).
Proof.
  revert h i. induction fuel as [|fuel IH]; intros h i Hn Hi Hf Hinv; [lia|].
  cbn [down_loop]. destruct (Nat.leb_spec n (2 * i + 1)) as [Hc|Hc].
  { intros k Hk. apply Hinv; [done|]. rewrite parent_child; lia. }
  set (j := if (_ && _) then _ else _).
  assert (j < n ∧ (j = 2 * i + 1 ∨ j = 2 * i + 2) ∧
    ∀ k, 0 < k < n → parent k = i → less_at h k j = false) as (Hjn & Hj & Hmin).
  { assert (Hrefl : ∀ k, less_at h k k = false).
    { intros k. destruct (less_at h k k) eqn:E; [|done]. rewrite <-E. by apply less_at_asym. }
    unfold j. destruct (Nat.ltb_spec (2 * i + 1 + 1) n); cbn [andb];
      [destruct (less_at h (2 * i + 1 + 1) (2 * i + 1)) eqn:E|].
    - split_and!; [lia..|]. intros k Hk Hpk%parent_child; [|lia].
      destruct Hpk as [->| ->]; [by apply less_at_asym|].
      replace (2 * i + 2) with (2 * i + 1 + 1) by lia. apply Hrefl.
    - split_and!; [lia..|]. intros k Hk Hpk%parent_child; [|lia].
      destruct Hpk as [->| ->]; [apply Hrefl|].
      replace (2 * i + 2) with (2 * i + 1 + 1) by lia. done.
    - split_and!; [lia..|]. intros k Hk Hpk%parent_child; [|lia].
      destruct Hpk as [->| ->]; [apply Hrefl|lia]. }
  assert (parent j = i) as Hpj by (apply parent_child; lia).
  destruct (less_at h j i) eqn:Hl; simpl.
  - apply IH; rewrite ?swap_length; try lia. apply down_inv_step; auto; lia.
  - intros k Hk. destruct (decide (parent k = i)) as [Hpk|]; [|by apply Hinv].
    rewrite Hpk. apply (less_at_trans _ _ j); [lia|done|by apply Hmin].
Qed.

Lemma heap_top h k : heap_ok h → k < length h → less_at h k 0 = false.
Proof.
  intros Hh. induction k as [k IH] using lt_wf_ind. intros Hk.
  destruct (decide (k = 0)) as [->|Hne].
  - destruct (less_at h 0 0) eqn:E; [|done]. rewrite <-E. by apply less_at_asym.
  - pose proof (parent_lt k ltac:(lia)).
    apply (less_at_trans _ _ (parent k)); [lia|apply IH; lia|apply Hh; lia].
Qed.

(** [heap.Pop] on a non-empty heap takes the first element off, which is
    minimal, keeps the others and keeps the heap order. *)
Lemma pop_spec x h :
  h !! 0 = Some x → heap_ok h →
  ∃ h', pop h = Some (x, h') ∧ h ≡ₚ x :: h' ∧ heap_ok h' ∧
        ∀ y, y ∈ h → less y x = false.
Proof.
  intros Hx Hh. pose proof (lookup_lt_Some _ _ _ Hx) as Hpos.
  remember (length h - 1) as n eqn:Hnd.
  assert (n < length h) as Hn by lia.
  set (d := down_loop n (swap h 0 n) 0 n).
  assert (Hlen : length d = length h) by (unfold d; by rewrite down_length, swap_length).
  assert (Hlast : d !! n = Some x).
  { unfold d. destruct (decide (n = 0)) as [E|E].
    - rewrite E. simpl. rewrite lookup_swap by lia. done.
    - rewrite lookup_down_ge by (rewrite ?swap_length; lia).
      rewrite lookup_swap by lia. by repeat case_decide. }
  assert (Hd : d = take n d ++ [x]).
  { rewrite <-(take_drop_middle d n x Hlast) at 1. f_equal. f_equal.
    apply drop_ge. lia. }
  exists (take n d). split_and!.
  - unfold pop. rewrite <-Hnd. unfold down. fold d. unfold pop_last.
    rewrite Hd at 1. rewrite last_snoc. rewrite Hlen, <-Hnd. done.
  - rewrite <-(swap_perm h 0 n), <-(down_loop_perm n _ 0 n). fold d.
    rewrite Hd at 1. symmetry. apply Permutation_cons_append.
  - assert (Hu : heap_upto n d).
    { destruct (decide (n = 0)) as [E|E]; [intros ?; lia|].
      apply down_loop_heap; rewrite ?swap_length; try lia. split; [|lia].
      intros k Hk Hpk. pose proof (parent_lt k ltac:(lia)).
      rewrite less_at_swap by lia. unfold swap_index.
      rewrite !decide_False by lia. apply Hh. lia. }
    intros k Hk. rewrite length_take in Hk. pose proof (parent_lt k ltac:(lia)).
    rewrite <-(Hu k) by lia. unfold less_at. by rewrite !lookup_take_lt by lia.
  - intros y [k Hk]%list_elem_of_lookup.
    pose proof (heap_top h k Hh (lookup_lt_Some _ _ _ Hk)) as Ht.
    unfold less_at in Ht. by rewrite Hk, Hx in Ht.
Qed.

End heap.
