(* ===== verification/Profile.v ===== *)
(** * Profile: impairment profiles ([internal/impair/pipeline.go] lines 10-105
    and [internal/impair/profiles.go])

    The configuration of a proxy direction, its validation, and the table of
    built-in profiles. Probabilities are IEEE 754 binary64 numbers
    ([SpecFloat.spec_float]), with Go's comparisons (false on NaN); durations are
    [int64] nanoseconds. *)

From S2P Require Import Prelude.
From Corelib Require Import Floats.SpecFloat.

Abbreviation float64 := spec_float.

(** The binary64 number nearest to the constant [n/d]. *)
Definition f64 (n d : Z) : float64 :=
  SFdiv 53 1024 (binary_normalize 53 1024 n 0 false) (binary_normalize 53 1024 d 0 false).

Definition f64_0 : float64 := S754_zero false.
Definition f64_1 : float64 := f64 1 1.

Definition Microsecond : Z := 1000.
Definition Millisecond : Z := 1000 * Microsecond.
Definition Second : Z := 1000 * Millisecond.

Record DirectionConfig := mkDirectionConfig {
  DropProbability : float64;
  DuplicateProbability : float64;
  ReorderProbability : float64;
  ReorderHold : Z;
  Latency : Z;
  Jitter : Z;
  BandwidthBytesPerSec : Z;
}.

Record Profile := mkProfile {
  Name : string;
  Seed : Z;
  ToServer : DirectionConfig;
  ToClient : DirectionConfig;
}.

(** The zero values [DirectionConfig{}] and [Profile{}]. *)
Definition zero_DirectionConfig : DirectionConfig :=
  mkDirectionConfig f64_0 f64_0 f64_0 0 0 0 0.
Definition zero_Profile : Profile :=
  mkProfile "" 0 zero_DirectionConfig zero_DirectionConfig.

(** Go's [==] on these structs: field by field, floats with IEEE equality. *)
Definition DirectionConfig_eqb (a b : DirectionConfig) : bool :=
  SFeqb (DropProbability a) (DropProbability b) &&
  SFeqb (DuplicateProbability a) (DuplicateProbability b) &&
  SFeqb (ReorderProbability a) (ReorderProbability b) &&
  (ReorderHold a =? ReorderHold b) && (Latency a =? Latency b) &&
  (Jitter a =? Jitter b) && (BandwidthBytesPerSec a =? BandwidthBytesPerSec b).
Definition Profile_eqb (a b : Profile) : bool :=
  String.eqb (Name a) (Name b) && (Seed a =? Seed b) &&
  DirectionConfig_eqb (ToServer a) (ToServer b) &&
  DirectionConfig_eqb (ToClient a) (ToClient b).

(** An error is its message. *)
Abbreviation error := string.

Definition field_error (field what : string) : error :=
  ("impair: " +:+ field +:+ "." +:+ what)%string.

Definition out_of_unit (p : float64) : bool := SFltb p f64_0 || SFltb f64_1 p.

Definition DirectionConfig_Validate (c : DirectionConfig) (field : string) : outcome error unit :=
  if out_of_unit (DropProbability c)
  then Err (field_error field "drop_probability must be between 0 and 1")
  else if out_of_unit (DuplicateProbability c)
  then Err (field_error field "duplicate_probability must be between 0 and 1")
  else if out_of_unit (ReorderProbability c)
  then Err (field_error field "reorder_probability must be between 0 and 1")
  else if ReorderHold c <? 0
  then Err (field_error field "reorder_hold must be non-negative")
  else if Latency c <? 0
  then Err (field_error field "latency must be non-negative")
  else if Jitter c <? 0
  then Err (field_error field "jitter must be non-negative")
  else if BandwidthBytesPerSec c <? 0
  then Err (field_error field "bandwidth_bytes_per_sec must be non-negative")
  else Ok tt.

Definition Profile_Validate (p : Profile) : outcome error unit :=
  let! _ := DirectionConfig_Validate (ToServer p) "to_server" in
  let! _ := DirectionConfig_Validate (ToClient p) "to_client" in
  Ok tt.

Definition PassthroughProfile : Profile :=
  mkProfile "passthrough" 0 zero_DirectionConfig zero_DirectionConfig.

Definition NormalizeProfile (profile : Profile) : outcome error Profile :=
  let profile := if Profile_eqb profile zero_Profile then PassthroughProfile else profile in
  let profile := if String.eqb (Name profile) ""
                 then mkProfile "custom" (Seed profile) (ToServer profile) (ToClient profile)
                 else profile in
  let! _ := Profile_Validate profile in
  Ok profile.

(** ** The built-in profiles *)

Definition symmetric (name : string) (seed : Z) (c : DirectionConfig) : Profile :=
  mkProfile name seed c c.

Definition builtinProfiles : gmap string Profile := list_to_map [
  ("passthrough", PassthroughProfile);
  ("wifi-good", symmetric "wifi-good" 1001
     (mkDirectionConfig (f64 2 1000) f64_0 (f64 1 1000)
        (2 * Millisecond) (8 * Millisecond) (3 * Millisecond) 10000000));
  ("cellular-lte", symmetric "cellular-lte" 2002
     (mkDirectionConfig (f64 1 100) (f64 1 1000) (f64 1 100)
        (5 * Millisecond) (35 * Millisecond) (15 * Millisecond) 2500000));
  ("cellular-3g", symmetric "cellular-3g" 3003
     (mkDirectionConfig (f64 3 100) (f64 2 1000) (f64 2 100)
        (8 * Millisecond) (90 * Millisecond) (40 * Millisecond) 550000));
  ("satellite", symmetric "satellite" 4004
     (mkDirectionConfig (f64 5 1000) (f64 1 1000) (f64 1 100)
        (15 * Millisecond) (600 * Millisecond) (80 * Millisecond) 250000));
  ("flaky", symmetric "flaky" 5005
     (mkDirectionConfig (f64 15 100) (f64 1 100) (f64 4 100)
        (10 * Millisecond) (60 * Millisecond) (50 * Millisecond) 900000))
]%string.

Definition BuiltinProfile (name : string) : option Profile := builtinProfiles !! name.

(** ** Properties *)

(** *** Valid directions

    Stated on the numbers the fields stand for, not on the comparisons of the code.
    A finite [S754_finite s m e] is the number [m * 2^e] with the sign [s]. *)

(** The probability is a number of the interval from 0 to 1. *)
Definition unit_number (p : float64) : Prop :=
  match p with
  | S754_zero _ => True
  | S754_finite s m e => s = false ∧ Z.pos m * 2 ^ Z.max 0 e ≤ 2 ^ Z.max 0 (- e)
  | S754_infinity _ | S754_nan => False
  end.

(** Validation compares, and NaN compares false with both bounds: it is accepted. *)
Definition unit_probability (p : float64) : Prop := unit_number p ∨ p = S754_nan.

Definition nonneg_fields (c : DirectionConfig) : Prop :=
  0 ≤ ReorderHold c ∧ 0 ≤ Latency c ∧ 0 ≤ Jitter c ∧ 0 ≤ BandwidthBytesPerSec c.

Definition probabilities (c : DirectionConfig) : list float64 :=
  [DropProbability c; DuplicateProbability c; ReorderProbability c].

Definition valid_direction (c : DirectionConfig) : Prop :=
  Forall unit_probability (probabilities c) ∧ nonneg_fields c.

(** The floating-point fields of a Go struct are binary64 numbers: the mantissa has
    53 bits (fewer at the lowest exponent), the exponent is in range. *)
Definition binary64_direction (c : DirectionConfig) : Prop :=
  Forall (λ p, valid_binary 53 1024 p = true) (probabilities c).
Definition binary64_profile (p : Profile) : Prop :=
  binary64_direction (ToServer p) ∧ binary64_direction (ToClient p).

Lemma digits2_pos_bounds m :
  2 ^ (Z.pos (digits2_pos m) - 1) ≤ Z.pos m < 2 ^ Z.pos (digits2_pos m).
Proof.
  induction m as [m IH|m IH|]; simpl digits2_pos; [..|done];
    rewrite Pos2Z.inj_succ;
    (replace (Z.succ (Z.pos (digits2_pos m)) - 1) with (Z.succ (Z.pos (digits2_pos m) - 1)) by lia);
    rewrite !Z.pow_succ_r by lia; lia.
Qed.

Lemma SFltb_positive m1 e1 m2 e2 :
  SFltb (S754_finite false m1 e1) (S754_finite false m2 e2) = (e1 <? e2) || (e1 =? e2) && (m1 <? m2)%positive.
Proof.
  unfold SFltb, SFcompare. change (Pos.compare_cont Eq m1 m2) with (m1 ?= m2)%positive.
  destruct (Z.compare_spec e1 e2) as [->|He|He].
  - rewrite Z.ltb_irrefl, Z.eqb_refl. unfold Pos.ltb. by destruct (m1 ?= m2)%positive.
  - by apply Z.ltb_lt in He as ->.
  - replace (e1 <? e2) with false by lia. by replace (e1 =? e2) with false by lia.
Qed.

(** Against 1 a positive binary64 number is compared by its exponent first. *)
Lemma above_one_spec m e :
  valid_binary 53 1024 (S754_finite false m e) = true →
  SFltb f64_1 (S754_finite false m e) = false ↔ Z.pos m * 2 ^ Z.max 0 e ≤ 2 ^ Z.max 0 (- e).
Proof.
  intros Hv. change (bounded 53 1024 m e = true) in Hv. unfold bounded, canonical_mantissa in Hv.
  apply andb_true_iff in Hv as [Hv _]. apply Z.eqb_eq in Hv.
  unfold fexp, SpecFloat.emin in Hv. pose proof (digits2_pos_bounds m) as Hm.
  change f64_1 with (S754_finite false 4503599627370496 (-52)). rewrite SFltb_positive.
  destruct (Z.lt_trichotomy (-52) e) as [He|[<-|He]].
  - replace (-52 <? e) with true by lia. split; [done|]. intros Hle. exfalso.
    assert (Z.pos (digits2_pos m) = 53) as Hd by lia. rewrite Hd in Hm.
    destruct (Z.le_gt_cases 0 e).
    + rewrite (Z.max_l 0 (- e)) in Hle by lia. assert (1 ≤ 2 ^ Z.max 0 e) by (apply (Z.pow_le_mono_r 2 0); lia). nia.
    + assert (2 ^ Z.max 0 (- e) ≤ 2 ^ 51) by (apply Z.pow_le_mono_r; lia).
      rewrite (Z.max_l 0 e) in Hle by lia. lia.
  - change (2 ^ Z.max 0 (- (-52))) with 4503599627370496. change (2 ^ Z.max 0 (-52)) with 1.
    generalize 4503599627370496%positive. intros one.
    rewrite Z.ltb_irrefl, Z.eqb_refl, Z.mul_1_r. exact (Pos.ltb_ge one m).
  - replace (-52 <? e) with false by lia. replace (-52 =? e) with false by lia.
    split; [intros _|done]. rewrite (Z.max_l 0 e), Z.pow_0_r, Z.mul_1_r by lia.
    assert (2 ^ Z.pos (digits2_pos m) ≤ 2 ^ Z.max 0 (- e)) by (apply Z.pow_le_mono_r; lia). lia.
Qed.

Lemma out_of_unit_spec p :
  valid_binary 53 1024 p = true → out_of_unit p = false ↔ unit_probability p.
Proof.
  intros Hv. unfold out_of_unit, unit_probability. destruct p as [s|[]| |[] m e].
  - split; [by left|by destruct s].
  - split; [done|by intros [[]|]].
  - split; [done|by intros [[]|]].
  - split; [by right|done].
  - split; [done|by intros [[]|]].
  - rewrite orb_false_iff, (above_one_spec m e Hv). split; [by left|by intros [[_ ?]|[=]]].
Qed.

(** What Validate accepts, whatever the field it names in an error. *)
Definition accepted_direction (c : DirectionConfig) : Prop :=
  ∀ field, DirectionConfig_Validate c field = Ok tt.

Lemma DirectionConfig_Validate_iff c field :
  DirectionConfig_Validate c field = Ok tt ↔
  Forall (λ p, out_of_unit p = false) (probabilities c) ∧ nonneg_fields c.
Proof.
  unfold DirectionConfig_Validate, probabilities, nonneg_fields. rewrite !Forall_cons.
  destruct (out_of_unit (DropProbability c)), (out_of_unit (DuplicateProbability c)),
    (out_of_unit (ReorderProbability c)); try (split; [done|intuition done]).
  bdestruct_all; split; intros; destruct_and?; split_and?; try done; lia.
Qed.

Lemma accepted_field c field : DirectionConfig_Validate c field = Ok tt → accepted_direction c.
Proof. intros Hv field'. by apply DirectionConfig_Validate_iff in Hv; apply DirectionConfig_Validate_iff. Qed.

Lemma accepted_nonneg c : accepted_direction c → nonneg_fields c.
Proof. intros Hv. by apply (DirectionConfig_Validate_iff c ""), Hv. Qed.

Lemma accepted_valid c : binary64_direction c → accepted_direction c ↔ valid_direction c.
Proof.
  intros Hb. unfold valid_direction.
  assert (Forall (λ p, out_of_unit p = false) (probabilities c) ↔
          Forall unit_probability (probabilities c)) as <-.
  { rewrite !Forall_forall. unfold binary64_direction in Hb. rewrite Forall_forall in Hb.
    split; intros Hall p Hp; apply (out_of_unit_spec p (Hb p Hp)), Hall, Hp. }
  split; [intros Hv; apply (DirectionConfig_Validate_iff c ""), Hv|].
  intros Hv field. by apply DirectionConfig_Validate_iff.
Qed.

Lemma Profile_Validate_ok_iff p :
  Profile_Validate p = Ok tt ↔ accepted_direction (ToServer p) ∧ accepted_direction (ToClient p).
Proof.
  unfold Profile_Validate. split.
  - intros Hv. inv_ok. destruct x, x0. split; by eapply accepted_field.
  - intros [-> ->]. done.
Qed.

Lemma Profile_Validate_cases p :
  Profile_Validate p = Ok tt ∨ ∃ e, Profile_Validate p = Err e.
Proof.
  unfold Profile_Validate, DirectionConfig_Validate.
  repeat (case_match; simplify_eq/=); eauto.
Qed.

Lemma NormalizeProfile_no_panic p : NormalizeProfile p ≠ Panic.
Proof.
  unfold NormalizeProfile. cbv zeta.
  match goal with |- context [Profile_Validate ?q] => destruct (Profile_Validate_cases q) as [->|[e ->]]; done end.
Qed.

Lemma SFeqb_zero p : SFeqb p f64_0 = true → unit_probability p.
Proof. intros Hp. left. by destruct p as [|[]| |[]]. Qed.

Lemma zero_direction_valid c : DirectionConfig_eqb c zero_DirectionConfig = true → valid_direction c.
Proof.
  unfold DirectionConfig_eqb. rewrite !andb_true_iff, !Z.eqb_eq.
  change (DropProbability zero_DirectionConfig) with f64_0.
  change (DuplicateProbability zero_DirectionConfig) with f64_0.
  change (ReorderProbability zero_DirectionConfig) with f64_0.
  intros ((((((H1 & H2) & H3) & H4) & H5) & H6) & H7). split.
  - unfold probabilities. rewrite !Forall_cons. split_and!; [by apply SFeqb_zero..|constructor].
  - unfold nonneg_fields. rewrite H4, H5, H6, H7. done.
Qed.

(** NormalizeProfile refuses a profile just when one of its directions is invalid. *)
Lemma NormalizeProfile_iff p :
  binary64_profile p →
  (∃ q, NormalizeProfile p = Ok q) ↔ valid_direction (ToServer p) ∧ valid_direction (ToClient p).
Proof.
  intros [Hs Hc]. rewrite <-(accepted_valid _ Hs), <-(accepted_valid _ Hc), <-Profile_Validate_ok_iff.
  unfold NormalizeProfile. destruct (Profile_eqb p zero_Profile) eqn:Hz; simpl.
  - split; [intros _|by eexists]. unfold Profile_eqb in Hz. rewrite !andb_true_iff in Hz.
    destruct Hz as [[_ Hzs] Hzc]. apply Profile_Validate_ok_iff.
    split; [apply (accepted_valid _ Hs)|apply (accepted_valid _ Hc)]; by apply zero_direction_valid.
  - destruct (String.eqb (Name p) ""); change (Profile_Validate (mkProfile _ _ _ _)) with (Profile_Validate p);
      (destruct (Profile_Validate_cases p) as [->|[e ->]]; simpl; split;
        [done|by eexists|by intros [? ?]|done]).
Qed.

Lemma NormalizeProfile_binary64 p q :
  binary64_profile p → NormalizeProfile p = Ok q → binary64_profile q.
Proof.
  intros Hb. unfold NormalizeProfile. intros Hq. inv_ok.
  destruct (Profile_eqb p zero_Profile); simpl.
  - split; repeat constructor.
  - by destruct (String.eqb (Name p) "").
Qed.

(** The name a profile has after normalisation. *)
Definition normal_name (p : Profile) : string :=
  if Profile_eqb p zero_Profile then "passthrough"
  else if String.eqb (Name p) "" then "custom" else Name p.

(** NormalizeProfile succeeds only on profiles both of whose directions
    are accepted; the result is accepted, has a non-empty name, keeps the directions
    (except that the zero profile becomes passthrough), and normalising again
    changes nothing. *)
Theorem NormalizeProfile_spec p q :
  NormalizeProfile p = Ok q →
  accepted_direction (ToServer q) ∧ accepted_direction (ToClient q) ∧
  Name q = normal_name p ∧ Name q ≠ ""%string ∧
  (Profile_eqb p zero_Profile = false → ToServer q = ToServer p ∧ ToClient q = ToClient p) ∧
  NormalizeProfile q = Ok q.
Proof.
  unfold NormalizeProfile at 1. intros H. inv_ok.
  destruct x. apply Profile_Validate_ok_iff in E as Hv. destruct Hv as [Hs Hc].
  unfold normal_name in *.
  destruct (Profile_eqb p zero_Profile) eqn:Hz; simpl in *; [by split_and!|].
  destruct (String.eqb_spec (Name p) "") as [Hn|Hn]; simpl in *; split_and!; try done;
    unfold NormalizeProfile, Profile_eqb; simpl.
  - by rewrite E.
  - destruct (String.eqb_spec (Name p) ""); [done|]. simpl.
    destruct (String.eqb_spec (Name p) ""); [done|]. by rewrite E.
Qed.

Lemma NormalizeProfile_spec_witness :
  NormalizeProfile (mkProfile "" 7 zero_DirectionConfig zero_DirectionConfig)
    = Ok (mkProfile "custom" 7 zero_DirectionConfig zero_DirectionConfig) ∧
  Name (mkProfile "custom" 7 zero_DirectionConfig zero_DirectionConfig) ≠ ""%string.
Proof.
  assert (H : NormalizeProfile (mkProfile "" 7 zero_DirectionConfig zero_DirectionConfig)
    = Ok (mkProfile "custom" 7 zero_DirectionConfig zero_DirectionConfig)) by reflexivity.
  split; [exact H|]. apply (NormalizeProfile_spec _ _ H).
Defined.


(** Every built-in profile is filed under its own name, is accepted
    unchanged by NormalizeProfile, impairs both directions alike, has all its
    probabilities in the unit interval, and a jitter below the hazardous maximum
    of a duration. *)
Theorem BuiltinProfile_normal name p :
  BuiltinProfile name = Some p →
  Name p = name ∧ NormalizeProfile p = Ok p ∧ ToServer p = ToClient p ∧
  Forall unit_number (probabilities (ToServer p)) ∧ binary64_direction (ToServer p) ∧
  Jitter (ToServer p) < max_int64.
Proof.
  unfold BuiltinProfile, builtinProfiles. intros H.
  apply elem_of_list_to_map_2 in H.
  repeat (apply elem_of_cons in H as [H|H]);
    [injection H as -> ->; (split; [reflexivity|]); (split; [vm_compute; reflexivity|]);
     (split; [reflexivity|]); unfold binary64_direction, probabilities; rewrite !Forall_cons;
     vm_compute; split_and!; first [reflexivity|discriminate|constructor]..|].
  by apply elem_of_nil in H.
Qed.

Lemma BuiltinProfile_normal_witness :
  ∃ p, BuiltinProfile "flaky" = Some p ∧ Name p = "flaky"%string.
Proof.
  destruct (BuiltinProfile "flaky") as [p|] eqn:E; [|vm_compute in E; discriminate E].
  exists p. split; [reflexivity|]. apply (BuiltinProfile_normal "flaky" p E).
Defined.
