(* ===== verification/Pipeline.v ===== *)
(** * Pipeline: the packet impairment pipeline ([internal/impair/pipeline.go])

    A pipeline receives packets with the current time, drops, duplicates, holds
    back and delays them, and hands them out again when they are due. Its queue
    is the [container/heap] heap of [Heap], ordered by release time and then by
    sequence number.

    Times are nanoseconds on one time line; 0 is the zero [time.Time]. The
    random source and the observers are parameters: [Rand] is what the pipeline
    uses of [math/rand], and hooks are functions on an observer state [W]. *)

From S2P Require Import Prelude Heap Profile.
From Corelib Require Import Floats.SpecFloat.

(** ** [math/rand]: what the pipeline uses of a seeded source *)

Class Rand (R : Type) := {
  rand_seed : Z → R;
  rand_Float64 : R → float64 * R;
  (** for a positive argument; it panics otherwise *)
  rand_Int63n : Z → R → Z * R;
}.

(** Documented ranges: [Float64] is in [0.0, 1.0), [Int63n n] in [0, n). *)
Class RandLaws (R : Type) `{Rand R} := {
  rand_Float64_range r :
    SFleb f64_0 (rand_Float64 r).1 = true ∧ SFltb (rand_Float64 r).1 f64_1 = true;
  rand_Int63n_range (n : Z) (r : R) : 0 < n → 0 ≤ (rand_Int63n n r).1 < n;
}.

Definition defaultReorderHold : Z := 3 * Millisecond.

Record heldPacket := mkHeld { held_data : list byte; held_releaseAt : Z }.

Record scheduledPacket := mkScheduled {
  data : list byte;
  releaseAt : Z;
  seq : Z;
}.

(** A hook left nil is [None]. *)
Record Hooks (W : Type) := mkHooks {
  OnDrop : option (W → W);
  OnDuplicate : option (W → W);
  OnReorder : option (W → W);
  OnDelay : option (Z → W → W);
}.
Arguments mkHooks {W}.
Arguments OnDrop {W}. Arguments OnDuplicate {W}.
Arguments OnReorder {W}. Arguments OnDelay {W}.

Definition no_hooks {W} : Hooks W := mkHooks None None None None.

Definition fire {W} (h : option (W → W)) (w : W) : W :=
  match h with Some f => f w | None => w end.

(** [packetHeap.Less] *)
Definition packet_less (x y : scheduledPacket) : bool :=
  if releaseAt x =? releaseAt y then seq x <? seq y else releaseAt x <? releaseAt y.

Section pipeline.
Context {R W : Type} `{Rand R}.

Record Pipeline := mkPipeline {
  cfg : DirectionConfig;
  rng : R;
  hooks : Hooks W;
  queue : list scheduledPacket;
  held : option heldPacket;
  nextSeq : Z;
  bandwidthReady : Z;
}.

Definition set_rng (p : Pipeline) (r : R) : Pipeline :=
  mkPipeline (cfg p) r (hooks p) (queue p) (held p) (nextSeq p) (bandwidthReady p).
Definition set_held (p : Pipeline) (h : option heldPacket) : Pipeline :=
  mkPipeline (cfg p) (rng p) (hooks p) (queue p) h (nextSeq p) (bandwidthReady p).
Definition set_queue (p : Pipeline) (q : list scheduledPacket) : Pipeline :=
  mkPipeline (cfg p) (rng p) (hooks p) q (held p) (nextSeq p) (bandwidthReady p).
Definition set_bandwidthReady (p : Pipeline) (t : Z) : Pipeline :=
  mkPipeline (cfg p) (rng p) (hooks p) (queue p) (held p) (nextSeq p) t.
(** [heap.Push(&p.queue, ...); p.nextSeq++] *)
Definition push_next (p : Pipeline) (t : Z) (d : list byte) : Pipeline :=
  mkPipeline (cfg p) (rng p) (hooks p)
    (push packet_less (queue p) (mkScheduled d t (nextSeq p)))
    (held p) (wrapu64 (nextSeq p + 1)) (bandwidthReady p).

Definition NewPipelineWithHooks (c : DirectionConfig) (seed : Z) (hs : Hooks W)
    : outcome error Pipeline :=
  let! _ := DirectionConfig_Validate c "direction" in
  Ok (mkPipeline c (rand_seed seed) hs [] None 0 0).

Definition NewPipeline (c : DirectionConfig) (seed : Z) : outcome error Pipeline :=
  NewPipelineWithHooks c seed no_hooks.

Definition reorderHold (p : Pipeline) : Z :=
  if 0 <? ReorderHold (cfg p) then ReorderHold (cfg p) else defaultReorderHold.

Definition roll (p : Pipeline) (prob : float64) : bool * Pipeline :=
  if SFleb prob f64_0 then (false, p)
  else if SFleb f64_1 prob then (true, p)
  else let '(x, r) := rand_Float64 (rng p) in (SFltb x prob, set_rng p r).

(** [transmitDuration], with the wrap-around of its [int64] arithmetic. *)
Definition transmitDuration (size bytesPerSecond : Z) : Z :=
  if (size <=? 0) || (bytesPerSecond <=? 0) then 0
  else
    let numerator := wrap64 (size * Second) in
    let rounded := Z.quot (wrap64 (wrap64 (numerator + bytesPerSecond) - 1)) bytesPerSecond in
    if rounded =? 0 then 1 else rounded.

(** [t.Sub(u)] saturates at the bounds of a duration. *)
Definition time_Sub (t u : Z) : Z := Z.max min_int64 (Z.min max_int64 (t - u)).

(** The jitter step of [schedule]: [Int63n] panics unless its argument,
    [int64(p.cfg.Jitter) + 1], is positive. *)
Definition add_jitter (p : Pipeline) (t : Z) : exec (Z * Pipeline) :=
  if 0 <? Jitter (cfg p) then
    let n := wrap64 (Jitter (cfg p) + 1) in
    if n <=? 0 then Panic
    else let '(j, r) := rand_Int63n n (rng p) in Ok (t + j, set_rng p r)
  else Ok (t, p).

(** The bandwidth step of [schedule]. *)
Definition add_bandwidth (p : Pipeline) (t : Z) (d : list byte) : Z * Pipeline :=
  if 0 <? BandwidthBytesPerSec (cfg p) then
    let t := if t <? bandwidthReady p then bandwidthReady p else t in
    let t := t + transmitDuration (zlen d) (BandwidthBytesPerSec (cfg p)) in
    (t, set_bandwidthReady p t)
  else (t, p).

Definition schedule (now : Z) (d : list byte) (s : Pipeline * W) : exec (Pipeline * W) :=
  let '(p, w) := s in
  let t := if 0 <? Latency (cfg p) then now + Latency (cfg p) else now in
  let! (t, p) := add_jitter p t in
  let '(t, p) := add_bandwidth p t d in
  let w := match OnDelay (hooks p) with Some f => f (time_Sub t now) w | None => w end in
  Ok (push_next p t d, w).

Definition flushExpiredHeld (now : Z) (s : Pipeline * W) : exec (Pipeline * W) :=
  let '(p, w) := s in
  match held p with
  | None => Ok s
  | Some h =>
      if now <? held_releaseAt h then Ok s
      else schedule (held_releaseAt h) (held_data h) (set_held p None, w)
  end.

Definition enqueueCopy (now : Z) (d : list byte) (s : Pipeline * W) : exec (Pipeline * W) :=
  let '(p, w) := s in
  match held p with
  | None =>
      let '(hit, p) := roll p (ReorderProbability (cfg p)) in
      if hit then
        let w := fire (OnReorder (hooks p)) w in
        Ok (set_held p (Some (mkHeld d (now + reorderHold p))), w)
      else schedule now d (p, w)
  | Some h =>
      let! (p, w) := schedule now d (p, w) in
      schedule now (held_data h) (set_held p None, w)
  end.

(** [for range copies { p.enqueueCopy(now, data) }] *)
Fixpoint enqueue_copies (copies : nat) (now : Z) (d : list byte) (s : Pipeline * W)
    : exec (Pipeline * W) :=
  match copies with
  | O => Ok s
  | S k => let! s := enqueueCopy now d s in enqueue_copies k now d s
  end.

Definition Enqueue (now : Z) (d : list byte) (s : Pipeline * W) : exec (Pipeline * W) :=
  let! (p, w) := flushExpiredHeld now s in
  let '(dropped, p) := roll p (DropProbability (cfg p)) in
  if dropped then Ok (p, fire (OnDrop (hooks p)) w)
  else
    let '(dup, p) := roll p (DuplicateProbability (cfg p)) in
    if dup then enqueue_copies 2 now d (p, fire (OnDuplicate (hooks p)) w)
    else enqueue_copies 1 now d (p, w).

Definition Flush (now : Z) (s : Pipeline * W) : exec (Pipeline * W) :=
  let '(p, w) := s in
  match held p with
  | None => Ok s
  | Some h => schedule now (held_data h) (set_held p None, w)
  end.

(** [None] is the returned [false]. The zero time stands for "no wake-up yet". *)
Definition NextWake (p : Pipeline) : option Z :=
  let next := match held p with Some h => held_releaseAt h | None => 0 end in
  let next := match queue p with
              | x :: _ => if (next =? 0) || (releaseAt x <? next) then releaseAt x else next
              | [] => next
              end in
  if next =? 0 then None else Some next.

(** The loop of [ReleaseReady]: every iteration pops one packet, so the length of
    the queue bounds it. *)
Fixpoint release_loop (fuel : nat) (now : Z) (q : list scheduledPacket) (ready : list (list byte))
    : list (list byte) * list scheduledPacket :=
  match fuel with
  | O => (ready, q)
  | S fuel =>
      match q with
      | [] => (ready, q)
      | next :: _ =>
          if now <? releaseAt next then (ready, q)
          else match pop packet_less q with
               | Some (item, q) => release_loop fuel now q (ready ++ [data item])
               | None => (ready, q)
               end
      end
  end.

Definition ReleaseReady (now : Z) (s : Pipeline * W)
    : exec (list (list byte) * (Pipeline * W)) :=
  let! (p, w) := flushExpiredHeld now s in
  let '(ready, q) := release_loop (length (queue p)) now (queue p) [] in
  Ok (ready, (set_queue p q, w)).

(** The exported methods accept a nil pipeline and do nothing. *)
Definition Enqueue_ptr (now : Z) (d : list byte) (p : option Pipeline) (w : W)
    : exec (option Pipeline * W) :=
  match p with
  | None => Ok (None, w)
  | Some p => let! (p, w) := Enqueue now d (p, w) in Ok (Some p, w)
  end.
Definition Flush_ptr (now : Z) (p : option Pipeline) (w : W) : exec (option Pipeline * W) :=
  match p with
  | None => Ok (None, w)
  | Some p => let! (p, w) := Flush now (p, w) in Ok (Some p, w)
  end.
Definition NextWake_ptr (p : option Pipeline) : option Z :=
  match p with None => None | Some p => NextWake p end.
Definition ReleaseReady_ptr (now : Z) (p : option Pipeline) (w : W)
    : exec (list (list byte) * option Pipeline * W) :=
  match p with
  | None => Ok ([], None, w)
  | Some p => let! (ready, (p, w)) := ReleaseReady now (p, w) in Ok (ready, Some p, w)
  end.

End pipeline.
Arguments Pipeline : clear implicits.
#[global] Arguments schedule : simpl never.
#[global] Arguments flushExpiredHeld : simpl never.
#[global] Arguments enqueueCopy : simpl never.
#[global] Arguments Enqueue : simpl never.
#[global] Arguments Flush : simpl never.
#[global] Arguments ReleaseReady : simpl never.
#[global] Arguments roll : simpl never.
