(* ===== verification/PipelineProofs.v ===== *)
(** * PipelineProofs: correctness of the impairment pipeline

    Properties of the definitions of [Pipeline]: the queue is a heap at all
    times, released packets come out in order and only when due, no packet is
    lost or invented, pacing under a bandwidth limit, the wake-up time, and the
    absence of panics. *)

From S2P Require Import Prelude Heap Profile Pipeline.
From Corelib Require Import Floats.SpecFloat.

(** ** The order of packets *)

Lemma packet_less_spec x y :
  packet_less x y = true ↔
  releaseAt x < releaseAt y ∨ releaseAt x = releaseAt y ∧ seq x < seq y.
Proof. unfold packet_less. bdestruct_all; split; try done; lia. Qed.

Lemma packet_not_less_spec x y :
  packet_less x y = false ↔
  releaseAt y < releaseAt x ∨ releaseAt x = releaseAt y ∧ seq y ≤ seq x.
Proof. unfold packet_less. bdestruct_all; split; try done; lia. Qed.

Lemma packet_less_asym x y : packet_less x y = true → packet_less y x = false.
Proof. rewrite packet_less_spec, packet_not_less_spec. lia. Qed.

Lemma packet_less_co_trans x y z :
  packet_less y x = false → packet_less z y = false → packet_less z x = false.
Proof. rewrite !packet_not_less_spec. lia. Qed.

(** The order in which packets are to leave, stated on their fields: by release
    time and, at equal times, by sequence number. *)
Definition packet_le (x y : scheduledPacket) : Prop :=
  releaseAt x < releaseAt y ∨ releaseAt x = releaseAt y ∧ seq x ≤ seq y.

Lemma packet_le_spec x y : packet_le x y ↔ packet_less y x = false.
Proof. unfold packet_le. rewrite packet_not_less_spec. lia. Qed.

Abbreviation queue_ok := (heap_ok packet_less).

Lemma push_queue_ok q x : queue_ok q → queue_ok (push packet_less q x).
Proof. apply (push_heap packet_less packet_less_asym packet_less_co_trans). Qed.

(** ** Releasing *)

Lemma release_loop_app fuel now q acc :
  release_loop fuel now q acc =
  (acc ++ (release_loop fuel now q []).1, (release_loop fuel now q []).2).
Proof.
  revert q acc. induction fuel as [|fuel IH]; intros q acc; simpl.
  { by rewrite app_nil_r. }
  destruct q as [|x q]; [by rewrite app_nil_r|].
  destruct (now <? releaseAt x); [by rewrite app_nil_r|].
  destruct (pop _ _) as [[y q']|]; [|by rewrite app_nil_r].
  rewrite (IH q' (acc ++ _)), (IH q' [data y]). simpl. by rewrite <-app_assoc.
Qed.

(** The loop pops exactly the packets that are due, in order. *)
Lemma release_loop_spec fuel now q :
  queue_ok q → (length q ≤ fuel)%nat →
  ∃ out q', release_loop fuel now q [] = (map data out, q') ∧
    q ≡ₚ out ++ q' ∧ queue_ok q' ∧ StronglySorted packet_le out ∧
    Forall (λ x, releaseAt x ≤ now) out ∧ Forall (λ x, now < releaseAt x) q'.
Proof.
  revert q. induction fuel as [|fuel IH]; intros q Hq Hf.
  { destruct q; simpl in *; [|lia]. exists [], []. split_and!; try done; constructor. }
  destruct q as [|x q]; simpl.
  { exists [], []. split_and!; try done; constructor. }
  destruct (pop_spec packet_less packet_less_asym packet_less_co_trans x (x :: q) eq_refl Hq)
    as (q1 & Hpop & Hperm & Hq1 & Hmin).
  apply Permutation_cons_inv in Hperm as Hp1.
  destruct (Z.ltb_spec now (releaseAt x)) as [Hlt|Hge].
  - exists [], (x :: q). split_and!; try done; [constructor..|].
    apply Forall_forall. intros y Hy. apply Hmin, packet_not_less_spec in Hy. lia.
  - rewrite Hpop. destruct (IH q1 Hq1) as (out & q' & Hrel & Hperm' & Hq' & Hsort & Hdue & Hrest).
    { apply Permutation_length in Hp1. simpl in Hf. lia. }
    exists (x :: out), q'. rewrite release_loop_app, Hrel. simpl. split_and!; try done.
    + by rewrite Hp1, Hperm'.
    + constructor; [done|]. apply Forall_forall. intros y Hy. apply packet_le_spec, Hmin.
      rewrite Hperm, Hperm'. set_solver.
    + constructor; [lia|done].
Qed.

(** ** Observers

    Every operation calls the hooks of the pipeline in some order; its effect on
    the observer state is the fold of those calls. *)
Inductive event := EvDrop | EvDuplicate | EvReorder | EvDelay (d : Z).
#[global] Instance event_eq_dec : EqDecision event.
Proof. solve_decision. Defined.

Definition apply_event {W} (h : Hooks W) (w : W) (e : event) : W :=
  match e with
  | EvDrop => fire (OnDrop h) w
  | EvDuplicate => fire (OnDuplicate h) w
  | EvReorder => fire (OnReorder h) w
  | EvDelay d => match OnDelay h with Some f => f d w | None => w end
  end.

Definition count_ev (e : event) (es : list event) : nat := length (filter (λ x, x = e) es).

Lemma count_ev_app e es1 es2 : count_ev e (es1 ++ es2) = (count_ev e es1 + count_ev e es2)%nat.
Proof. unfold count_ev. by rewrite filter_app, length_app. Qed.

(** Evaluate the counts of the literal lists of events in the goal. *)
Ltac count_events :=
  repeat match goal with
  | |- context [count_ev ?e ?l] =>
      let v := eval vm_compute in (count_ev e l) in change (count_ev e l) with v
  end.

Section proofs.
Context {R W : Type} `{RandLaws R}.
Implicit Types (p : Pipeline R W) (w : W).

(** The jitter for which [schedule] cannot panic. *)
Definition safe_cfg (c : DirectionConfig) : Prop := nonneg_fields c ∧ Jitter c < max_int64.

(** The packets a pipeline holds: scheduled or held back. *)
Definition contents p : list (list byte) :=
  map data (queue p) ++ match held p with Some h => [held_data h] | None => [] end.

(** Observable relation between the states before and after an operation:
    configuration and hooks stay, the queue stays a heap, and the observer has
    seen the events [es]. *)
Definition evolves (s s' : Pipeline R W * W) (es : list event) : Prop :=
  cfg s'.1 = cfg s.1 ∧ hooks s'.1 = hooks s.1 ∧
  (queue_ok (queue s.1) → queue_ok (queue s'.1)) ∧
  s'.2 = foldl (apply_event (hooks s.1)) s.2 es.

Lemma evolves_refl s : evolves s s [].
Proof. done. Qed.

Lemma evolves_trans s1 s2 s3 es1 es2 :
  evolves s1 s2 es1 → evolves s2 s3 es2 → evolves s1 s3 (es1 ++ es2).
Proof.
  intros (H1 & H2 & H3 & H4) (H1' & H2' & H3' & H4'). split_and!; try congruence; [auto|].
  by rewrite H4', H2, H4, foldl_app.
Qed.

(** ** Scheduling *)

Lemma transmitDuration_exact size bps :
  0 < size → 0 < bps → size * Second + bps ≤ max_int64 →
  transmitDuration size bps = (size * Second + bps - 1) `div` bps.
Proof.
  intros Hs Hb Hfit. unfold transmitDuration.
  destruct (Z.leb_spec size 0); [lia|]. destruct (Z.leb_spec bps 0); [lia|]. simpl.
  unfold Second, Millisecond, Microsecond in *.
  rewrite !(wrap64_small (size * _)), (wrap64_small (_ + bps)), wrap64_small
    by (unfold min_int64 in *; lia).
  rewrite Z.quot_div_nonneg by lia.
  assert (1 ≤ (size * (1000 * (1000 * 1000)) + bps - 1) `div` bps)
    by (apply Z.div_le_lower_bound; lia).
  destruct (Z.eqb_spec ((size * (1000 * (1000 * 1000)) + bps - 1) `div` bps) 0); lia.
Qed.

(** What [schedule now d] does, field by field: the packet is pushed with a release
    time [t] inside the configured window. *)
Definition schedules (now : Z) (d : list byte) p p' (t : Z) : Prop :=
  queue p' = push packet_less (queue p) (mkScheduled d t (nextSeq p)) ∧
  held p' = held p ∧ nextSeq p' = wrapu64 (nextSeq p + 1) ∧
  (if 0 <? BandwidthBytesPerSec (cfg p)
   then bandwidthReady p' = t ∧
        ∃ u, now + Latency (cfg p) ≤ u ≤ now + Latency (cfg p) + Jitter (cfg p) ∧
             t = Z.max u (bandwidthReady p)
                 + transmitDuration (zlen d) (BandwidthBytesPerSec (cfg p))
   else bandwidthReady p' = bandwidthReady p ∧
        now + Latency (cfg p) ≤ t ≤ now + Latency (cfg p) + Jitter (cfg p)).

Lemma add_jitter_ok p t :
  safe_cfg (cfg p) →
  ∃ j r, add_jitter p t = Ok (t + j, set_rng p r) ∧ 0 ≤ j ≤ Jitter (cfg p).
Proof.
  intros [Hv Hj]. destruct Hv as (_ & _ & Hj0 & _). unfold add_jitter.
  destruct (Z.ltb_spec 0 (Jitter (cfg p))) as [Hp|Hp].
  - rewrite wrap64_small by (unfold min_int64; lia).
    destruct (Z.leb_spec (Jitter (cfg p) + 1) 0); [lia|].
    pose proof (rand_Int63n_range (Jitter (cfg p) + 1) (rng p) ltac:(lia)) as Hr.
    destruct (rand_Int63n _ _) as [j r]; simpl in Hr. exists j, r. split; [done|lia].
  - exists 0, (rng p). split; [|lia]. rewrite Z.add_0_r. by destruct p.
Qed.

Lemma schedule_ok now d p w :
  safe_cfg (cfg p) →
  ∃ p' w' t, schedule now d (p, w) = Ok (p', w') ∧ schedules now d p p' t ∧
    evolves (p, w) (p', w') [EvDelay (time_Sub t now)].
Proof.
  intros Hc. unfold schedule.
  set (t0 := if 0 <? Latency (cfg p) then _ else now).
  assert (Ht0 : t0 = now + Latency (cfg p)).
  { unfold t0. destruct Hc as [(_ & Hl & _) _]. bdestruct_all; lia. }
  clearbody t0. subst t0.
  destruct (add_jitter_ok p (now + Latency (cfg p)) Hc) as (j & r & -> & Hj). simpl.
  unfold add_bandwidth, schedules, evolves, push_next. simpl.
  destruct (Z.ltb_spec 0 (BandwidthBytesPerSec (cfg p))) as [Hb|Hb]; simpl.
  - eexists _, _, _. split; [done|]. simpl. split_and!; try done; [|].
    + exists (now + Latency (cfg p) + j). split; [lia|].
      bdestruct_all; lia.
    + apply push_queue_ok.
  - eexists _, _, _. split; [done|]. simpl. split_and!; try done; try lia.
    apply push_queue_ok.
Qed.

(** ** The effect of an operation

    Every operation is a sequence of [schedule] calls and of updates of the random
    source and of the held slot; [moves P n] counts the calls, whose packets
    satisfy [P]. *)
Inductive moves (P : list byte → Prop) : nat → Pipeline R W → Pipeline R W → Prop :=
| mv_frame p p' :
    cfg p' = cfg p → queue p' = queue p → nextSeq p' = nextSeq p →
    bandwidthReady p' = bandwidthReady p → moves P 0 p p'
| mv_schedule now d p p' t :
    P d → cfg p' = cfg p → schedules now d p p' t → moves P 1 p p'
| mv_trans n1 n2 p1 p2 p3 :
    moves P n1 p1 p2 → moves P n2 p2 p3 → moves P (n1 + n2) p1 p3.

(** An operation fired the events [es], called [schedule] [n] times and took in
    the packets [ins]. *)
Record effect (s s' : Pipeline R W * W) (es : list event) (n : nat) (ins : list (list byte)) : Prop := {
  eff_evolves : evolves s s' es;
  eff_moves P : Forall P (ins ++ contents s.1) → moves P n s.1 s'.1;
  eff_contents : contents s'.1 ≡ₚ ins ++ contents s.1;
}.

Lemma effect_trans s1 s2 s3 es1 es2 n1 n2 ins1 ins2 :
  effect s1 s2 es1 n1 ins1 → effect s2 s3 es2 n2 ins2 →
  effect s1 s3 (es1 ++ es2) (n1 + n2) (ins2 ++ ins1).
Proof.
  intros [He1 Hm1 Hc1] [He2 Hm2 Hc2]. split.
  - by eapply evolves_trans.
  - intros P HP. rewrite <-app_assoc in HP. apply Forall_app in HP as [HP2 HP1].
    eapply mv_trans; [by apply Hm1|]. apply Hm2. rewrite Hc1. by apply Forall_app.
  - by rewrite Hc2, Hc1, app_assoc.
Qed.

Lemma effect_refl s : effect s s [] 0 [].
Proof. split; [apply evolves_refl|intros P _; by constructor|done]. Qed.

Lemma roll_effect p w prob : ∃ b p', roll p prob = (b, p') ∧ effect (p, w) (p', w) [] 0 [] ∧
  held p' = held p.
Proof.
  unfold roll. destruct (SFleb prob f64_0); [eauto using effect_refl|].
  destruct (SFleb f64_1 prob); [eauto using effect_refl|].
  destruct (rand_Float64 (rng p)) as [x r]. eexists _, _. split; [done|]. split; [|done].
  split; [done|intros P _; by constructor|done].
Qed.

Lemma event_effect p w e : effect (p, w) (p, apply_event (hooks p) w e) [e] 0 [].
Proof. split; [done|intros P _; by constructor|done]. Qed.

Lemma effect_safe s s' es n ins :
  effect s s' es n ins → safe_cfg (cfg s.1) → safe_cfg (cfg s'.1).
Proof. intros [(Hc & _) _ _]. by rewrite Hc. Qed.

Lemma contents_push p d t (q : list scheduledPacket) (h : option heldPacket) p' :
  queue p' = push packet_less q (mkScheduled d t (nextSeq p)) → held p' = h →
  contents p' ≡ₚ d :: map data q ++ match h with Some h => [held_data h] | None => [] end.
Proof.
  intros Hq <-. unfold contents. rewrite Hq.
  rewrite (push_perm packet_less q _). done.
Qed.

Lemma schedule_effect now d p w :
  safe_cfg (cfg p) →
  ∃ p' w' dl, schedule now d (p, w) = Ok (p', w') ∧
    effect (p, w) (p', w') [EvDelay dl] 1 [d] ∧ held p' = held p.
Proof.
  intros Hc. destruct (schedule_ok now d p w Hc) as (p' & w' & t & Hs & Hsch & Hev).
  eexists p', w', _. split; [done|]. split; [|apply Hsch]. split; [done|..]; simpl.
  - intros P HP. apply Forall_cons in HP as [HP _].
    eapply mv_schedule; [exact HP|apply Hev|done].
  - destruct Hsch as (Hq & Hh & _). by apply (contents_push p d t).
Qed.

(** Scheduling the held packet moves it from the slot to the queue. *)
Lemma unhold_effect now p w h :
  safe_cfg (cfg p) → held p = Some h →
  ∃ p' w' dl, schedule now (held_data h) (set_held p None, w) = Ok (p', w') ∧
    effect (p, w) (p', w') [EvDelay dl] 1 [] ∧ held p' = None.
Proof.
  intros Hc Hh.
  destruct (schedule_ok now (held_data h) (set_held p None) w Hc) as (p' & w' & t & Hs & Hsch & Hev).
  eexists p', w', _. split; [done|]. split; [|apply Hsch]. split; simpl.
  - exact Hev.
  - intros P HP. apply (mv_trans P 0 1 _ (set_held p None)); [by constructor|].
    eapply mv_schedule; [|apply Hev|done].
    unfold contents in HP. rewrite Hh in HP. rewrite Forall_app, Forall_singleton in HP. apply HP.
  - destruct Hsch as (Hq & Hh' & _). simpl in *.
    rewrite (contents_push (set_held p None) _ t _ None p' Hq Hh').
    unfold contents. rewrite Hh, app_nil_r. apply Permutation_cons_append.
Qed.

Definition only_delays (es : list event) : Prop :=
  count_ev EvDrop es = 0%nat ∧ count_ev EvDuplicate es = 0%nat.

Lemma flushExpiredHeld_effect now s :
  safe_cfg (cfg s.1) →
  ∃ s' es n, flushExpiredHeld now s = Ok s' ∧ effect s s' es n [] ∧ (n ≤ 1)%nat ∧
    only_delays es ∧
    (held s'.1 = None ∨ s' = s ∧ ∃ h, held s.1 = Some h ∧ now < held_releaseAt h).
Proof.
  destruct s as [p w]. simpl. intros Hc. unfold flushExpiredHeld. cbv beta iota. destruct (held p) as [h|] eqn:Hh.
  - destruct (Z.ltb_spec now (held_releaseAt h)).
    + eexists _, _, _. split_and!; eauto using effect_refl; done.
    + destruct (unhold_effect (held_releaseAt h) p w h Hc Hh) as (p' & w' & dl & -> & He & Hn).
      eexists _, _, _. split_and!; eauto; done.
  - eexists _, _, _. split_and!; eauto using effect_refl; done.
Qed.

Lemma enqueueCopy_effect now d s :
  safe_cfg (cfg s.1) →
  ∃ s' es n, enqueueCopy now d s = Ok s' ∧ effect s s' es n [d] ∧ (n ≤ 2)%nat ∧
    only_delays es.
Proof.
  destruct s as [p w]. simpl. intros Hc. unfold enqueueCopy. cbv beta iota. destruct (held p) as [h|] eqn:Hh.
  - destruct (schedule_effect now d p w Hc) as (p1 & w1 & dl1 & -> & He1 & Hh1). simpl.
    rewrite Hh in Hh1.
    destruct (unhold_effect now p1 w1 h) as (p2 & w2 & dl2 & -> & He2 & Hh2);
      [by apply (effect_safe _ _ _ _ _ He1)|done|].
    eexists _, _, _. split; [done|]. split; [exact (effect_trans _ _ _ _ _ _ _ _ _ He1 He2)|].
    done.
  - destruct (roll_effect p w (ReorderProbability (cfg p))) as (b & p1 & -> & He1 & Hh1).
    pose proof (effect_safe _ _ _ _ _ He1 Hc) as Hc1. simpl in Hc1.
    destruct b.
    + eexists _, [EvReorder], 0%nat. split; [done|]. split_and!; [|lia|done].
      destruct He1 as [(E1 & E2 & E3 & E4) Hm Hcon]. simpl in *. split; simpl.
      * split_and!; try done. by rewrite E2.
      * intros P HP. apply (mv_trans P 0 0 _ p1); [|by constructor].
        apply Hm. by apply Forall_cons in HP as [_ HP].
      * rewrite <-Hcon. unfold contents. rewrite Hh1, Hh. simpl. rewrite app_nil_r.
        symmetry. apply Permutation_cons_append.
    + destruct (schedule_effect now d p1 w Hc1) as (p2 & w2 & dl2 & -> & He2 & Hh2).
      eexists _, _, _. split; [done|]. split; [exact (effect_trans _ _ _ _ _ _ _ _ _ He1 He2)|].
      split; [lia|done].
Qed.

Lemma only_delays_app es1 es2 : only_delays es1 → only_delays es2 → only_delays (es1 ++ es2).
Proof. unfold only_delays. rewrite !count_ev_app. lia. Qed.

Lemma enqueue_copies_effect k now d s :
  safe_cfg (cfg s.1) →
  ∃ s' es n, enqueue_copies k now d s = Ok s' ∧ effect s s' es n (replicate k d) ∧
    (n ≤ 2 * k)%nat ∧ only_delays es.
Proof.
  revert s. induction k as [|k IH]; intros s Hc; simpl.
  { eexists s, [], 0%nat. split_and!; eauto using effect_refl; done. }
  destruct (enqueueCopy_effect now d s Hc) as (s1 & es1 & n1 & -> & He1 & Hn1 & Hd1). simpl.
  destruct (IH s1) as (s2 & es2 & n2 & -> & He2 & Hn2 & Hd2); [by eapply effect_safe|].
  eexists s2, _, _. split; [done|]. split.
  - pose proof (effect_trans _ _ _ _ _ _ _ _ _ He1 He2) as He.
    rewrite <-replicate_S_end in He. exact He.
  - split; [lia|by apply only_delays_app].
Qed.

Lemma Enqueue_effect now d s :
  safe_cfg (cfg s.1) →
  ∃ s' es n k, Enqueue now d s = Ok s' ∧ effect s s' es n (replicate k d) ∧ (n ≤ 5)%nat ∧
    (k + count_ev EvDrop es = 1 + count_ev EvDuplicate es)%nat ∧
    (count_ev EvDrop es + count_ev EvDuplicate es ≤ 1)%nat.
Proof.
  intros Hc. unfold Enqueue.
  destruct (flushExpiredHeld_effect now s Hc) as ([p1 w1] & es1 & n1 & -> & He1 & Hn1 & Hd1 & _).
  cbn [obind]. pose proof (effect_safe _ _ _ _ _ He1 Hc) as Hc1.
  destruct (roll_effect p1 w1 (DropProbability (cfg p1))) as (b & p2 & -> & He2 & _).
  pose proof (effect_trans _ _ _ _ _ _ _ _ _ He1 He2) as He12.
  pose proof (effect_safe _ _ _ _ _ He2 Hc1) as Hc2.
  destruct Hd1 as [Hz1 Hz2]. destruct b.
  { pose proof (effect_trans _ _ _ _ _ _ _ _ _ He12 (event_effect p2 w1 EvDrop)) as He.
    eexists _, _, _, 0%nat. split; [done|]. split; [exact He|].
    rewrite !count_ev_app, Hz1, Hz2. count_events. lia. }
  destruct (roll_effect p2 w1 (DuplicateProbability (cfg p2))) as (b & p3 & -> & He3 & _).
  pose proof (effect_trans _ _ _ _ _ _ _ _ _ He12 He3) as He13.
  pose proof (effect_safe _ _ _ _ _ He3 Hc2) as Hc3. destruct b.
  - pose proof (effect_trans _ _ _ _ _ _ _ _ _ He13 (event_effect p3 w1 EvDuplicate)) as He14.
    destruct (enqueue_copies_effect 2 now d (p3, fire (OnDuplicate (hooks p3)) w1) Hc3)
      as (s5 & es5 & n5 & -> & He5 & Hn5 & Hd5 & Hd5').
    pose proof (effect_trans _ _ _ _ _ _ _ _ _ He14 He5) as He.
    eexists s5, _, _, 2%nat. split; [done|]. split; [exact He|].
    rewrite !count_ev_app, Hz1, Hz2, Hd5, Hd5'. count_events. lia.
  - destruct (enqueue_copies_effect 1 now d (p3, w1) Hc3)
      as (s5 & es5 & n5 & -> & He5 & Hn5 & Hd5 & Hd5').
    pose proof (effect_trans _ _ _ _ _ _ _ _ _ He13 He5) as He.
    eexists s5, _, _, 1%nat. split; [done|]. split; [exact He|].
    rewrite !count_ev_app, Hz1, Hz2, Hd5, Hd5'. count_events. lia.
Qed.

Lemma Flush_effect now s :
  safe_cfg (cfg s.1) →
  ∃ s' es n, Flush now s = Ok s' ∧ effect s s' es n [] ∧ (n ≤ 1)%nat ∧ only_delays es ∧
    held s'.1 = None.
Proof.
  destruct s as [p w]. simpl. intros Hc. unfold Flush. cbv beta iota. destruct (held p) as [h|] eqn:Hh.
  - destruct (unhold_effect now p w h Hc Hh) as (p' & w' & dl & -> & He & Hn).
    eexists _, _, _. split_and!; eauto; done.
  - eexists _, _, _. split_and!; eauto using effect_refl; done.
Qed.

(** ** ReleaseReady *)

Lemma ReleaseReady_split now (s : Pipeline R W * W) :
  safe_cfg (cfg s.1) → queue_ok (queue s.1) →
  ∃ (s1 : Pipeline R W * W) out q', flushExpiredHeld now s = Ok s1 ∧
    ReleaseReady now s = Ok (map data out, (set_queue s1.1 q', s1.2)) ∧
    queue s1.1 ≡ₚ out ++ q' ∧ queue_ok q' ∧ StronglySorted packet_le out ∧
    Forall (λ x, releaseAt x ≤ now) out ∧ Forall (λ x, now < releaseAt x) q'.
Proof.
  intros Hc Hq.
  destruct (flushExpiredHeld_effect now s Hc) as ([p1 w1] & es & n & Hf & He & _).
  pose proof (proj1 (proj2 (proj2 (eff_evolves _ _ _ _ _ He))) Hq) as Hq1. simpl in Hq1.
  destruct (release_loop_spec (length (queue p1)) now (queue p1) Hq1 ltac:(done))
    as (out & q' & Hr & Hperm & Hq' & Hrest).
  exists (p1, w1), out, q'. split; [done|]. split; [|tauto].
  unfold ReleaseReady. rewrite Hf. cbn [obind]. by rewrite Hr.
Qed.

Lemma set_queue_effect p w out q' :
  queue p ≡ₚ out ++ q' → queue_ok q' →
  evolves (p, w) (set_queue p q', w) [] ∧
  map data out ++ contents (set_queue p q') ≡ₚ contents p.
Proof.
  intros Hperm Hq'. split; [by split_and!|].
  unfold contents. simpl. by rewrite Hperm, map_app, !app_assoc.
Qed.

(** ** Runs *)

Inductive op :=
| OpEnqueue (now : Z) (d : list byte)
| OpFlush (now : Z)
| OpReleaseReady (now : Z).

Definition step (o : op) (s : Pipeline R W * W) : exec (list (list byte) * (Pipeline R W * W)) :=
  match o with
  | OpEnqueue now d => let! s := Enqueue now d s in Ok ([], s)
  | OpFlush now => let! s := Flush now s in Ok ([], s)
  | OpReleaseReady now => ReleaseReady now s
  end.

(** The packets released by a sequence of operations, and the final state. *)
Fixpoint run (ops : list op) (s : Pipeline R W * W)
    : exec (list (list byte) * (Pipeline R W * W)) :=
  match ops with
  | [] => Ok ([], s)
  | o :: ops =>
      let! (out, s) := step o s in
      let! (outs, s) := run ops s in
      Ok (out ++ outs, s)
  end.

(** The packets a sequence of operations enqueues. *)
Definition arrivals (o : op) : list (list byte) :=
  match o with OpEnqueue _ d => [d] | _ => [] end.
Definition all_arrivals (ops : list op) : list (list byte) := concat (map arrivals ops).

(** How many of [n] arrivals were dropped and duplicated, against the events. *)
Definition tallies (ks : list nat) (es : list event) : Prop :=
  Forall (λ k, k ≤ 2)%nat ks ∧
  count_ev EvDrop es = length (filter (λ k, k = 0%nat) ks) ∧
  count_ev EvDuplicate es = length (filter (λ k, k = 2%nat) ks).

Lemma tallies_one k es :
  (k + count_ev EvDrop es = 1 + count_ev EvDuplicate es)%nat →
  (count_ev EvDrop es + count_ev EvDuplicate es ≤ 1)%nat → tallies [k] es.
Proof.
  intros. assert (k = 0 ∧ count_ev EvDrop es = 1 ∧ count_ev EvDuplicate es = 0 ∨
    k = 1 ∧ count_ev EvDrop es = 0 ∧ count_ev EvDuplicate es = 0 ∨
    k = 2 ∧ count_ev EvDrop es = 0 ∧ count_ev EvDuplicate es = 1)%nat as Hcases by lia.
  unfold tallies. destruct Hcases as [(-> & -> & ->)|[(-> & -> & ->)|(-> & -> & ->)]];
    (split; [repeat constructor; lia|done]).
Qed.

Lemma step_conserves o (s : Pipeline R W * W) :
  safe_cfg (cfg s.1) → queue_ok (queue s.1) →
  ∃ out s' es ks, step o s = Ok (out, s') ∧ evolves s s' es ∧ tallies ks es ∧
    length ks = length (arrivals o) ∧
    out ++ contents s'.1 ≡ₚ concat (zip_with replicate ks (arrivals o)) ++ contents s.1.
Proof.
  intros Hc Hq. destruct o as [now d|now|now]; simpl.
  - destruct (Enqueue_effect now d s Hc) as (s' & es & n & k & -> & [He _ Hcon] & _ & Hk & Hle).
    exists [], s', es, [k]. split; [done|]. split; [done|]. split; [|split; [done|]].
    + apply tallies_one; lia.
    + simpl. by rewrite app_nil_r.
  - destruct (Flush_effect now s Hc) as (s' & es & n & -> & [He _ Hcon] & _ & [Hd1 Hd2] & _).
    exists [], s', es, []. split_and!; try done.
  - destruct (ReleaseReady_split now s Hc Hq) as (s1 & out & q' & Hf & -> & Hperm & Hq' & _).
    destruct (flushExpiredHeld_effect now s Hc)
      as (s1' & es & n & Hf' & [He _ Hcon] & _ & [Hd1 Hd2] & _).
    rewrite Hf in Hf'. injection Hf' as <-. destruct s1 as [p1 w1]. simpl in *.
    destruct (set_queue_effect p1 w1 out q' Hperm Hq') as [Hev Hcon'].
    exists (map data out), (set_queue p1 q', w1), es, []. split_and!; try done.
    + rewrite <-(app_nil_r es). by eapply evolves_trans.
    + simpl. by rewrite Hcon'.
Qed.

Lemma tallies_app ks1 ks2 es1 es2 :
  tallies ks1 es1 → tallies ks2 es2 → tallies (ks1 ++ ks2) (es1 ++ es2).
Proof.
  intros (?&?&?) (?&?&?). unfold tallies.
  rewrite Forall_app, !count_ev_app, !filter_app, !length_app. split_and!; auto; lia.
Qed.

Lemma run_conserves ops (s : Pipeline R W * W) :
  safe_cfg (cfg s.1) → queue_ok (queue s.1) →
  ∃ outs s' es ks, run ops s = Ok (outs, s') ∧ evolves s s' es ∧ tallies ks es ∧
    length ks = length (all_arrivals ops) ∧
    outs ++ contents s'.1 ≡ₚ concat (zip_with replicate ks (all_arrivals ops)) ++ contents s.1.
Proof.
  revert s. induction ops as [|o ops IH]; intros s Hc Hq; simpl.
  { by exists [], s, [], []. }
  destruct (step_conserves o s Hc Hq) as (out & s1 & es1 & ks1 & -> & He1 & Ht1 & Hl1 & Hp1).
  simpl. destruct (IH s1) as (outs & s2 & es2 & ks2 & -> & He2 & Ht2 & Hl2 & Hp2).
  { destruct He1 as (Hcfg & _). by rewrite Hcfg. }
  { destruct He1 as (_ & _ & Hqk & _). auto. }
  exists (out ++ outs), s2, (es1 ++ es2), (ks1 ++ ks2). split_and!.
  - done.
  - by eapply evolves_trans.
  - by apply tallies_app.
  - rewrite !length_app. unfold all_arrivals in *. simpl. rewrite length_app. lia.
  - unfold all_arrivals in *. simpl. rewrite zip_with_app by done.
    rewrite concat_app, <-!app_assoc, Hp2, !app_assoc, (Permutation_app_comm out), <-!app_assoc.
    rewrite Hp1, !app_assoc. f_equiv. apply Permutation_app_comm.
Qed.

(** ** Pacing under a bandwidth limit *)

Section pacing.
Context (bps : Z) (Hbps : 0 < bps).

(** The transmission time of a packet, and the packets it is computed for
    without overflow. *)
Definition tx (x : scheduledPacket) : Z := transmitDuration (zlen (data x)) bps.
Definition fits (d : list byte) : Prop := zlen d * Second + bps ≤ max_int64.

(** [y] is scheduled after [x] and starts transmitting once [x] is out. *)
Definition slot (x y : scheduledPacket) : Prop :=
  seq x < seq y ∧ releaseAt x + tx y ≤ releaseAt y.

Lemma tx_bounds x : fits (data x) → 0 ≤ tx x ∧ zlen (data x) * Second ≤ bps * tx x.
Proof.
  unfold fits, tx. intros Hf. pose proof (zlen_nonneg (data x)).
  destruct (decide (zlen (data x) = 0)) as [->|Hne]; [unfold transmitDuration; simpl; lia|].
  rewrite transmitDuration_exact by lia.
  assert (0 < Second) by done.
  pose proof (Z.mul_succ_div_gt (zlen (data x) * Second + bps - 1) bps Hbps).
  split; [apply Z.div_pos; nia|lia].
Qed.

(** The packets [sent] so far and those in the queue form one paced sequence;
    [n] more packets can be scheduled before the sequence number wraps. *)
Definition paced (sent : list scheduledPacket) (n : nat) p : Prop :=
  0 ≤ nextSeq p ∧ nextSeq p + Z.of_nat n < 2 ^ 64 ∧
  ∃ l, queue p ≡ₚ l ∧ StronglySorted slot (sent ++ l) ∧
    Forall (λ x, seq x < nextSeq p ∧ releaseAt x ≤ bandwidthReady p ∧ fits (data x)) (sent ++ l).

Lemma paced_moves sent k n p p' :
  BandwidthBytesPerSec (cfg p) = bps →
  moves fits k p p' → paced sent (k + n) p → paced sent n p'.
Proof.
  intros Hb Hm. revert n Hb.
  induction Hm as [p p' Hc Hq Hs Hr|now d p p' t Hd Hc Hsch|n1 n2 p1 p2 p3 Hm1 IH1 Hm2 IH2];
    intros n Hb Hp.
  - destruct Hp as (H1 & H2 & l & Hl). unfold paced. rewrite Hq, Hs, Hr. eauto.
  - destruct Hp as (H1 & H2 & l & Hl & Hsort & Hall).
    destruct Hsch as (Hq & _ & Hn & Ht). rewrite Hb in Ht.
    destruct (Z.ltb_spec 0 bps); [|lia]. destruct Ht as (Hr & u & Hu & Ht).
    rewrite wrapu64_small in Hn by lia.
    set (x := mkScheduled d t (nextSeq p)) in *.
    assert (0 ≤ tx x) as Htx by (by apply tx_bounds).
    assert (Hstep : ∀ y, y ∈ sent ++ l → seq y < nextSeq p ∧ releaseAt y ≤ bandwidthReady p).
    { intros y Hy. rewrite Forall_forall in Hall. by destruct (Hall y Hy) as (?&?&_). }
    unfold paced. rewrite Hn, Hr. split; [lia|]. split; [lia|].
    exists (l ++ [x]). rewrite Hq, push_perm, Hl, app_assoc. split_and!.
    + apply Permutation_cons_append.
    + apply StronglySorted_app_2; [|done|repeat constructor].
      intros y z Hy Hz%list_elem_of_singleton. subst z. apply Hstep in Hy.
      unfold slot, tx. subst x. simpl. lia.
    + apply Forall_app. split.
      * eapply Forall_impl; [exact Hall|]. intros y (?&?&?).
        unfold tx in Htx. subst x. simpl in Htx. split_and!; [lia|lia|done].
      * apply Forall_singleton. subst x. simpl. split_and!; [lia|lia|done].
  - apply IH2.
    + assert (cfg p2 = cfg p1) as ->; [|done].
      clear -Hm1. induction Hm1; congruence.
    + apply IH1; [done|]. by rewrite <-Nat.add_assoc in Hp.
Qed.

Lemma slot_packet_le x y : fits (data y) → slot x y → packet_le x y.
Proof.
  intros Hf%tx_bounds [Hs Ht]. unfold packet_le. lia.
Qed.

#[local] Instance packet_le_dec : RelDecision packet_le.
Proof. intros x y. unfold packet_le. apply _. Defined.
#[local] Instance packet_le_total : Total packet_le.
Proof.
  intros x y. unfold packet_le. lia.
Qed.
#[local] Instance packet_le_trans : Transitive packet_le.
Proof. intros x y z. unfold packet_le. lia. Qed.

(** Releasing the due packets of a paced queue takes a prefix of the sequence. *)
Lemma paced_release sent n p out q' now :
  paced sent n p → queue p ≡ₚ out ++ q' → StronglySorted packet_le out →
  Forall (λ x, releaseAt x ≤ now) out → Forall (λ x, now < releaseAt x) q' →
  paced (sent ++ out) n (set_queue p q').
Proof.
  intros (H1 & H2 & l & Hl & Hsort & Hall) Hq Hout Hdue Hrest.
  split; [done|]. split; [done|]. exists (merge_sort packet_le q'). simpl.
  assert (Hl' : l = out ++ merge_sort packet_le q').
  { pose proof (StronglySorted_app_1_r _ _ _ Hsort) as Hsl.
    apply Forall_app in Hall as [_ Hall]. rewrite Forall_forall in Hall.
    assert (Hperm : l ≡ₚ out ++ merge_sort packet_le q').
    { by rewrite <-Hl, Hq, (merge_sort_Permutation packet_le q'). }
    apply (StronglySorted_unique_strong packet_le).
    - intros x y Hx Hy Hxy Hyx. rewrite <-Hperm in Hy.
      unfold packet_le in Hxy, Hyx.
      destruct (StronglySorted_total slot l x y Hsl Hx Hy) as [|[[? _]|[? _]]]; [done|lia..].
    - clear -Hsl Hall Hbps. induction Hsl as [|x l Hsl IH Hx]; [constructor|].
      constructor; [apply IH; intros y Hy; apply Hall; by apply list_elem_of_further|].
      rewrite Forall_forall in Hx |- *. intros y Hy.
      apply slot_packet_le; [apply Hall; by apply list_elem_of_further|by apply Hx].
    - apply StronglySorted_app_2; [|done|].
      + intros x y Hx Hy. rewrite (merge_sort_Permutation packet_le q') in Hy.
        rewrite Forall_forall in Hdue, Hrest. apply Hdue in Hx. apply Hrest in Hy.
        unfold packet_le. lia.
      + apply (StronglySorted_merge_sort packet_le q').
    - done. }
  split; [symmetry; apply merge_sort_Permutation|]. by rewrite <-!app_assoc, <-Hl'.
Qed.

Lemma paced_weaken sent m n p : (n ≤ m)%nat → paced sent m p → paced sent n p.
Proof. unfold paced. intros ? (?&?&?). split_and!; [done|lia|done]. Qed.

(** *** The start of the transmissions

    No packet in a pipeline started its transmission before [t0], and none held
    back will. Operations at times from [t0] on keep it that way. *)

Definition since (t0 : Z) p : Prop :=
  Forall (λ x, t0 + tx x ≤ releaseAt x) (queue p) ∧
  (∀ h, held p = Some h → t0 ≤ held_releaseAt h).

Definition keeps_since (t0 : Z) (f : Pipeline R W * W → exec (Pipeline R W * W)) : Prop :=
  ∀ s s', safe_cfg (cfg s.1) → BandwidthBytesPerSec (cfg s.1) = bps → since t0 s.1 →
    f s = Ok s' → since t0 s'.1 ∧ cfg s'.1 = cfg s.1.

Lemma keeps_since_bind t0 f g :
  keeps_since t0 f → keeps_since t0 g → keeps_since t0 (λ s, let! s := f s in g s).
Proof.
  intros Hf Hg s s' Hc Hb Hs E. cbv beta in E. inv_ok. destruct (Hf _ _ Hc Hb Hs E0) as [Hs1 Hc1].
  destruct (Hg x s') as [? Hc2]; [by rewrite Hc1..|done|done|]. split; [done|congruence].
Qed.

(** A held packet counts from the time of its call of [schedule]. *)
Lemma schedule_since t0 now d p w (h : option heldPacket) s' :
  t0 ≤ now → safe_cfg (cfg p) → BandwidthBytesPerSec (cfg p) = bps → since t0 p →
  (h = held p ∨ h = None) → schedule now d (set_held p h, w) = Ok s' →
  since t0 s'.1 ∧ cfg s'.1 = cfg p ∧ held s'.1 = h.
Proof.
  intros Ht Hc Hb [Hq Hh] Hhp E.
  destruct (schedule_ok now d (set_held p h) w Hc) as (p' & w' & t & E' & (Eq & Eh & _ & Hw) & Hev).
  rewrite E in E'. injection E' as ->. simpl in *. rewrite Hb in Hw.
  destruct (Z.ltb_spec 0 bps); [|lia]. destruct Hw as (_ & u & Hu & ->). destruct Hc as [(_ & Hl & _) _].
  split; [|split; [apply Hev|done]]. unfold since. rewrite Eq, push_perm, Eh. split.
  - constructor; [unfold tx; simpl; lia|done].
  - intros h' ->. destruct Hhp as [Hhp|[=]]. by apply Hh.
Qed.

Lemma set_held_same p : set_held p (held p) = p.
Proof. by destruct p. Qed.

Lemma roll_frame p prob b p' :
  roll p prob = (b, p') → cfg p' = cfg p ∧ held p' = held p ∧ queue p' = queue p.
Proof. unfold roll. intros. repeat case_match; simplify_eq; done. Qed.

Lemma since_frame t0 p p' :
  held p' = held p → queue p' = queue p → since t0 p → since t0 p'.
Proof. unfold since. by intros -> ->. Qed.

Lemma flushExpiredHeld_since t0 now : keeps_since t0 (flushExpiredHeld now).
Proof.
  intros [p w] s' Hc Hb Hs E. unfold flushExpiredHeld in E. simpl in *.
  destruct (held p) as [h|] eqn:Eh; [|by simplify_eq].
  destruct (_ <? _); [by simplify_eq|].
  destruct (schedule_since t0 _ _ p w None s' (proj2 Hs h Eh) Hc Hb Hs (or_intror eq_refl) E) as (?&?&_). done.
Qed.

Lemma Flush_since t0 now : t0 ≤ now → keeps_since t0 (Flush now).
Proof.
  intros Ht [p w] s' Hc Hb Hs E. unfold Flush in E. simpl in *.
  destruct (held p) as [h|] eqn:Eh; [|by simplify_eq].
  destruct (schedule_since t0 _ _ p w None s' Ht Hc Hb Hs (or_intror eq_refl) E) as (?&?&_). done.
Qed.

Lemma reorderHold_pos p : 0 < reorderHold p.
Proof. unfold reorderHold. by destruct (Z.ltb_spec 0 (ReorderHold (cfg p))). Qed.

Lemma enqueueCopy_since t0 now d : t0 ≤ now → keeps_since t0 (enqueueCopy now d).
Proof.
  intros Ht [p w] s' Hc Hb Hs E. unfold enqueueCopy in E. simpl in *.
  destruct (held p) as [h|] eqn:Eh.
  - inv_ok. destruct x as [p1 w1]. rewrite <-(set_held_same p) in E0.
    destruct (schedule_since t0 now d p w (held p) _ Ht Hc Hb Hs (or_introl eq_refl) E0) as (Hs1 & Hc1 & _).
    simpl in Hs1, Hc1.
    destruct (schedule_since t0 now (held_data h) p1 w1 None s' Ht) as (?&?&_); rewrite ?Hc1; auto.
    by split; [|congruence].
  - destruct (roll p _) as [b p1] eqn:Er. apply roll_frame in Er as (Ec & Ehd & Eq).
    assert (since t0 p1) as Hs1 by (eapply since_frame; eauto).
    destruct b; simplify_eq/=.
    + split; [|done]. split; [apply Hs1|]. intros h [= <-]. simpl. pose proof (reorderHold_pos p1). lia.
    + rewrite <-(set_held_same p1) in E.
      destruct (schedule_since t0 now d p1 w (held p1) s' Ht) as (?&?&_); rewrite ?Ec; auto.
      by split; [|congruence].
Qed.

Lemma enqueue_copies_since t0 k now d : t0 ≤ now → keeps_since t0 (enqueue_copies k now d).
Proof.
  intros Ht. induction k as [|k IH]; [by intros s s' _ _ ? [= <-]|].
  apply (keeps_since_bind t0 _ _ (enqueueCopy_since t0 now d Ht) IH).
Qed.

Lemma Enqueue_since t0 now d : t0 ≤ now → keeps_since t0 (Enqueue now d).
Proof.
  intros Ht s s' Hc Hb Hs E. unfold Enqueue in E. inv_ok. destruct x as [p1 w1].
  destruct (flushExpiredHeld_since t0 now _ _ Hc Hb Hs E0) as [Hs1 Hc1]. simpl in Hs1, Hc1.
  destruct (roll p1 _) as [b p2] eqn:Er. apply roll_frame in Er as (Ec2 & Eh2 & Eq2).
  assert (since t0 p2) as Hs2 by (eapply since_frame; eauto).
  destruct b; [simplify_eq/=; by split; [|congruence]|].
  destruct (roll p2 _) as [b p3] eqn:Er. apply roll_frame in Er as (Ec3 & Eh3 & Eq3).
  assert (since t0 p3) as Hs3 by (eapply since_frame; eauto).
  assert (cfg p3 = cfg s.1) as Hc3 by congruence. rewrite <-Hc3 in *.
  destruct b; eapply (enqueue_copies_since t0 _ now d Ht (p3, _)); eauto.
Qed.

(** *** What a run hands out

    [hands_out ops s sent s']: the calls [ops] lead from [s] to [s'], and [sent]
    lists the packets they released, each as it was in the queue, with the time
    of the call of ReleaseReady that took it from there. *)

Definition op_time (o : op) : Z :=
  match o with OpEnqueue now _ | OpFlush now | OpReleaseReady now => now end.

Inductive hands_out : list op → Pipeline R W * W → list (Z * scheduledPacket) → Pipeline R W * W → Prop :=
| ho_nil s : hands_out [] s [] s
| ho_enqueue now d ops s s1 sent s' :
    Enqueue now d s = Ok s1 → hands_out ops s1 sent s' → hands_out (OpEnqueue now d :: ops) s sent s'
| ho_flush now ops s s1 sent s' :
    Flush now s = Ok s1 → hands_out ops s1 sent s' → hands_out (OpFlush now :: ops) s sent s'
| ho_release now ops s s1 out s2 sent s' :
    flushExpiredHeld now s = Ok s1 → ReleaseReady now s = Ok (map data out, s2) →
    queue s1.1 ≡ₚ out ++ queue s2.1 →
    hands_out ops s2 sent s' → hands_out (OpReleaseReady now :: ops) s (map (pair now) out ++ sent) s'.

Lemma Forall_replicated (P : list byte → Prop) ks ds :
  Forall P ds → Forall P (concat (zip_with replicate ks ds)).
Proof.
  intros Hd. apply Forall_concat. revert ds Hd.
  induction ks as [|k ks IH]; intros [|d ds] Hf; try constructor;
    apply Forall_cons in Hf as [??]; [by apply Forall_replicate|by apply IH].
Qed.

Lemma step_paced t0 o (s s' : Pipeline R W * W) out sent n :
  safe_cfg (cfg s.1) → queue_ok (queue s.1) → BandwidthBytesPerSec (cfg s.1) = bps →
  Forall fits (arrivals o ++ contents s.1) → paced sent (5 + n) s.1 →
  since t0 s.1 → t0 ≤ op_time o →
  step o s = Ok (out, s') →
  ∃ outp, (∀ ops l s2, hands_out ops s' l s2 → hands_out (o :: ops) s (outp ++ l) s2) ∧
    out = map (data ∘ snd) outp ∧ paced (sent ++ map snd outp) n s'.1 ∧ since t0 s'.1 ∧
    Forall (λ e, t0 + tx e.2 ≤ releaseAt e.2 ≤ e.1) outp.
Proof.
  intros Hc Hq Hb Hfit Hp Hs0 Ht Hstep. destruct o as [now d|now|now]; simpl in *.
  - destruct (Enqueue_effect now d s Hc) as (s1 & es & k & c & E & [_ Hm _] & Hk & Hkc & _).
    rewrite E in Hstep. injection Hstep as <- <-. exists []. simpl. rewrite app_nil_r.
    split; [intros; by eapply ho_enqueue|]. split; [done|]. split; [|split; [by apply (Enqueue_since t0 now d Ht s)|done]].
    apply (paced_weaken _ (5 - k + n)); [lia|].
    apply (paced_moves sent k _ s.1); [done| |by apply (paced_weaken _ (5 + n)); [lia|]].
    apply Hm. apply Forall_cons in Hfit as [??]. apply Forall_app. split; [|done].
    by apply Forall_replicate.
  - destruct (Flush_effect now s Hc) as (s1 & es & k & E & [_ Hm _] & Hk & _).
    rewrite E in Hstep. injection Hstep as <- <-. exists []. simpl. rewrite app_nil_r.
    split; [intros; by eapply ho_flush|]. split; [done|]. split; [|split; [by apply (Flush_since t0 now Ht s)|done]].
    apply (paced_moves sent k _ s.1); [done|by apply Hm|]. by apply (paced_weaken _ (5 + n)); [lia|].
  - destruct (ReleaseReady_split now s Hc Hq)
      as (s1 & outp & q' & Hf & E & Hperm & Hq' & Hsort & Hdue & Hrest).
    destruct (flushExpiredHeld_effect now s Hc) as (s1' & es & k & Hf' & [_ Hm _] & Hk & _).
    rewrite Hf in Hf'. injection Hf' as <-.
    destruct (flushExpiredHeld_since t0 now s s1 Hc Hb Hs0 Hf) as [[Hs1 Hh1] _].
    rewrite E in Hstep. injection Hstep as <- <-. exists (map (pair now) outp).
    rewrite Hperm, Forall_app in Hs1. destruct Hs1 as [Hs1 Hs2].
    rewrite !map_map. simpl. rewrite map_id. split_and!.
    + intros ops l s2 Hl. by eapply ho_release.
    + done.
    + apply (paced_release _ _ _ _ _ now); [|done..].
      apply (paced_moves sent k _ s.1); [done|by apply Hm|]. by apply (paced_weaken _ (5 + n)); [lia|].
    + by split.
    + apply Forall_map. rewrite Forall_forall in Hs1, Hdue |- *. intros x Hx. split; [by apply Hs1|by apply Hdue].
Qed.

Lemma run_paced t0 ops (s s' : Pipeline R W * W) outs sent :
  safe_cfg (cfg s.1) → queue_ok (queue s.1) → BandwidthBytesPerSec (cfg s.1) = bps →
  Forall fits (all_arrivals ops ++ contents s.1) → paced sent (5 * length ops) s.1 →
  since t0 s.1 → Forall (λ o, t0 ≤ op_time o) ops →
  run ops s = Ok (outs, s') →
  ∃ outp, hands_out ops s outp s' ∧ outs = map (data ∘ snd) outp ∧ paced (sent ++ map snd outp) 0 s'.1 ∧
    Forall (λ e, t0 + tx e.2 ≤ releaseAt e.2 ≤ e.1) outp.
Proof.
  revert s outs sent. induction ops as [|o ops IH]; intros s outs sent Hc Hq Hb Hf Hp Hs0 Ht Hrun.
  { simpl in Hrun. inv_ok. exists []. simpl. rewrite app_nil_r. split_and!; [constructor|done..]. }
  simpl in Hrun. inv_ok. destruct x as [out s1]. inv_ok. destruct x as [outs1 s2]. inv_ok.
  unfold all_arrivals in Hf. simpl in Hf. rewrite <-app_assoc, !Forall_app in Hf.
  destruct Hf as (Hf1 & Hf2 & Hf3). apply Forall_cons in Ht as [Ht1 Ht].
  destruct (step_conserves o s Hc Hq) as (out' & s1' & es & ks & E' & Hev & _ & Hl & Hperm).
  rewrite E in E'. injection E' as <- <-.
  destruct (step_paced t0 o s s1 out sent (5 * length ops)) as (outp1 & Ho & -> & Hp1 & Hs1 & Hall1); try done.
  { by apply Forall_app. }
  { by replace (5 + 5 * length ops)%nat with (5 * length (o :: ops))%nat by (simpl; lia). }
  assert (Forall fits (contents s1.1)) as Hfc.
  { eapply (Forall_app _ (map (data ∘ snd) outp1)). rewrite Hperm. apply Forall_app. split; [|done].
    by apply Forall_replicated. }
  destruct Hev as (Hcfg & _ & Hqk & _).
  destruct (IH s1 outs1 (sent ++ map snd outp1)) as (outp2 & Ho2 & -> & Hp2 & Hall2); rewrite ?Hcfg; auto.
  { apply Forall_app. split; [exact Hf2|done]. }
  exists (outp1 ++ outp2). rewrite !map_app, app_assoc, Forall_app. auto.
Qed.

(** Bytes of a sequence of packets. *)
Definition total_bytes (l : list scheduledPacket) : Z :=
  foldr (λ x n, zlen (data x) + n) 0 l.

Lemma last_default {A} (y : A) l x : List.last (y :: l) x = List.last l y.
Proof. revert y. induction l as [|z l IH]; intros y; [done|]. simpl in *. by destruct l. Qed.

Lemma slot_rate x l :
  StronglySorted slot (x :: l) → Forall (λ y, fits (data y)) l →
  total_bytes l * Second ≤ bps * (releaseAt (List.last l x) - releaseAt x).
Proof.
  revert x. induction l as [|y l IH]; intros x Hs Hf.
  { simpl. lia. }
  apply StronglySorted_inv in Hs as [Hs Hx]. apply Forall_cons in Hx as [[_ Hxy] _].
  apply Forall_cons in Hf as [Hfy Hf]. specialize (IH y Hs Hf). apply tx_bounds in Hfy.
  rewrite last_default. simpl. nia.
Qed.

(** All that a paced sequence has sent, counted from a time before its start. *)
Lemma slot_total t0 l x :
  StronglySorted slot (l ++ [x]) → Forall (λ y, fits (data y)) (l ++ [x]) →
  Forall (λ y, t0 + tx y ≤ releaseAt y) (l ++ [x]) →
  total_bytes (l ++ [x]) * Second ≤ bps * (releaseAt x - t0).
Proof.
  intros Hs Hf Ht. destruct l as [|y l]; simpl in *.
  - rewrite Forall_singleton in Ht, Hf. apply tx_bounds in Hf. nia.
  - apply Forall_cons in Ht as [Ht _]. apply Forall_cons in Hf as [Hfy Hf].
    pose proof (slot_rate y _ Hs Hf) as Hr. rewrite last_last in Hr. apply tx_bounds in Hfy. nia.
Qed.

End pacing.

End proofs.
