(* ===== verification/PipelineTheorems.v ===== *)
(** * PipelineTheorems: what the impairment pipeline promises

    The properties of [internal/impair/pipeline.go], stated on the definitions of
    [Profile] and [Pipeline] and proved with the lemmas of [PipelineProofs]; each
    is followed by a concrete instance. *)

From S2P Require Import Prelude Heap Profile Pipeline PipelineProofs.
From Corelib Require Import Floats.SpecFloat.

(** ** A concrete random source, for the instances *)

(** A linear congruential generator; its floats are 0 and 1/2. *)
Definition lcg_next (r : Z) : Z := (r * 1103515245 + 12345) `mod` 2 ^ 31.
#[global] Instance lcg : Rand Z := {|
  rand_seed z := z;
  rand_Float64 r := (if Z.even (r / 65536) then f64_0 else f64 1 2, lcg_next r);
  rand_Int63n n r := (r `mod` n, lcg_next r);
|}.
#[global] Instance lcg_laws : RandLaws Z.
Proof.
  split.
  - intros r. simpl. by destruct (Z.even _).
  - intros n r Hn. simpl. by apply Z.mod_pos_bound.
Qed.

(** An observer that logs its events. *)
Definition log_hooks : Hooks (list event) :=
  mkHooks (Some (λ w, w ++ [EvDrop])) (Some (λ w, w ++ [EvDuplicate]))
    (Some (λ w, w ++ [EvReorder])) (Some (λ d w, w ++ [EvDelay d])).

Definition demo_cfg : DirectionConfig :=
  mkDirectionConfig (f64 1 4) (f64 1 4) (f64 1 4) 0 (5 * Millisecond) (2 * Millisecond) 0.
Definition paced_cfg : DirectionConfig :=
  mkDirectionConfig f64_0 f64_0 f64_1 0 0 (2 * Millisecond) 1000.

Definition pkt (n : nat) : list byte := replicate n x61.

(** A fresh pipeline. *)
Definition fresh {R W} `{Rand R} (c : DirectionConfig) (seed : Z) (hs : Hooks W) : Pipeline R W :=
  mkPipeline c (rand_seed seed) hs [] None 0 0.

Section theorems.
Context {R W : Type} `{RandLaws R}.
Implicit Types (p : Pipeline R W) (w : W).

Lemma NewPipelineWithHooks_ok c seed (hs : Hooks W) p :
  NewPipelineWithHooks c seed hs = Ok p → p = fresh c seed hs ∧ nonneg_fields c.
Proof.
  unfold NewPipelineWithHooks. intros. inv_ok. destruct x.
  split; [done|]. by eapply accepted_nonneg, accepted_field.
Qed.

Lemma nil_queue_ok : queue_ok [].
Proof. intros k Hk. simpl in Hk. lia. Qed.

(** C1: no packet is lost or invented, and nothing panics. From a pipeline that
    NewPipelineWithHooks accepted, with a jitter below the maximal duration, every
    sequence of Enqueue, Flush and ReleaseReady calls succeeds. The packets
    released so far and those still inside (queued or held back) are together
    exactly the enqueued packets, each taken 0, 1 or 2 times; the packets taken 0
    times are the drops and those taken twice the duplicates the hooks were told
    of, and the observer state is the fold of the hook calls. The queue is a heap
    at the end. *)
Theorem pipeline_conserves c seed (hs : Hooks W) p0 w0 ops :
  NewPipelineWithHooks c seed hs = Ok p0 → Jitter c < max_int64 →
  ∃ outs p w es ks,
    run ops (p0, w0) = Ok (outs, (p, w)) ∧
    length ks = length (all_arrivals ops) ∧
    outs ++ contents p ≡ₚ concat (zip_with replicate ks (all_arrivals ops)) ∧
    tallies ks es ∧ w = foldl (apply_event hs) w0 es ∧ queue_ok (queue p).
Proof.
  intros [-> Hv]%NewPipelineWithHooks_ok Hj.
  destruct (run_conserves ops (fresh c seed hs, w0)) as
    (outs & [p w] & es & ks & Hrun & (_ & _ & Hq & Hw) & Ht & Hl & Hperm);
    [by split|apply nil_queue_ok|].
  exists outs, p, w, es, ks. simpl in *. rewrite app_nil_r in Hperm.
  split_and!; try done. apply Hq, nil_queue_ok.
Qed.

(** C2: under a bandwidth limit packets leave in the order they were scheduled,
    at no more than the configured rate. For a pipeline with a positive bandwidth,
    packets small enough for the int64 arithmetic and calls at times from [t0] on,
    in any order: what a run releases are packets of the queue, each taken from
    it by a ReleaseReady call no earlier than its release time ([hands_out]); their
    sequence numbers increase, and the release times in the queue leave each
    the time of its own transmission after the one before. So all bytes that were
    released up to and including a packet fit in the bandwidth times the time
    from [t0] to the call that released it, and over any stretch of packets the
    bytes after the first fit in the bandwidth times the time between the first
    release time and the last. *)
Theorem pipeline_paced c seed (hs : Hooks W) p0 w0 t0 ops outs s' :
  NewPipelineWithHooks c seed hs = Ok p0 → Jitter c < max_int64 →
  0 < BandwidthBytesPerSec c →
  Forall (fits (BandwidthBytesPerSec c)) (all_arrivals ops) →
  5 * Z.of_nat (length ops) < 2 ^ 64 →
  Forall (λ o, t0 ≤ op_time o) ops →
  run ops (p0, w0) = Ok (outs, s') →
  ∃ sent, hands_out ops (p0, w0) sent s' ∧ outs = map (data ∘ snd) sent ∧
    StronglySorted (slot (BandwidthBytesPerSec c)) (map snd sent) ∧
    Forall (λ e, releaseAt e.2 ≤ e.1) sent ∧
    (∀ pre now x post, sent = pre ++ (now, x) :: post →
      total_bytes (map snd pre ++ [x]) * Second ≤ BandwidthBytesPerSec c * (now - t0)) ∧
    ∀ pre x l post, map snd sent = pre ++ x :: l ++ post →
      total_bytes l * Second
        ≤ BandwidthBytesPerSec c * (releaseAt (List.last l x) - releaseAt x).
Proof.
  intros [-> Hv]%NewPipelineWithHooks_ok Hj Hb Hf Hn Ht Hrun.
  destruct (run_paced (BandwidthBytesPerSec c) Hb t0 ops (fresh c seed hs, w0) s' outs [])
    as (sent & Ho & -> & (_ & _ & l & _ & Hs & Hall) & Hdue); try done.
  { simpl. by rewrite app_nil_r. }
  { split; [simpl; lia|]. split; [simpl; lia|]. exists []. split_and!; try done; constructor. }
  exists sent. apply StronglySorted_app_1_l in Hs. simpl in Hs, Hall.
  apply Forall_app in Hall as [Hall _].
  assert (Forall (λ y, fits (BandwidthBytesPerSec c) (data y)) (map snd sent)) as Hfit
    by (eapply Forall_impl; [exact Hall|]; by intros y (_ & _ & ?)).
  split_and!; [done..| | |].
  - eapply Forall_impl; [exact Hdue|]. by intros e [_ ?].
  - intros pre now x post ->. rewrite map_app, map_cons, cons_middle, app_assoc in Hs, Hfit.
    apply StronglySorted_app_1_l in Hs. apply Forall_app in Hfit as [Hfit _].
    assert (Forall (λ y, t0 + tx (BandwidthBytesPerSec c) y ≤ releaseAt y) (map snd pre ++ [x])) as Hst.
    { rewrite cons_middle, app_assoc, Forall_app in Hdue. destruct Hdue as [Hdue _].
      change [x] with (map snd [(now, x)]). rewrite <-map_app, Forall_map.
      eapply Forall_impl; [exact Hdue|]. by intros e [? _]. }
    pose proof (slot_total _ Hb t0 _ _ Hs Hfit Hst) as Htot.
    apply Forall_app in Hdue as [_ [[_ Hx] _]%Forall_cons]. simpl in Hx. simpl in Htot. etrans; [exact Htot|]. apply Z.mul_le_mono_nonneg_l; lia.
  - intros pre x l' post Hsent. rewrite Hsent in Hs, Hfit. apply StronglySorted_app_1_r in Hs.
    rewrite app_comm_cons in Hs. apply StronglySorted_app_1_l in Hs.
    apply (slot_rate _ Hb); [done|].
    apply Forall_app in Hfit as [_ Hfit]. apply Forall_cons in Hfit as [_ Hfit].
    by apply Forall_app in Hfit as [Hfit _].
Qed.

(** C3: ReleaseReady first moves an expired held packet into the queue, then
    hands out exactly the packets that are due, earliest first and, at equal
    times, in the order of their sequence numbers; those not yet due stay, and the queue remains a
    heap. *)
Theorem ReleaseReady_spec now p w :
  nonneg_fields (cfg p) → Jitter (cfg p) < max_int64 → queue_ok (queue p) →
  ∃ p1 w1 out q', flushExpiredHeld now (p, w) = Ok (p1, w1) ∧
    ReleaseReady now (p, w) = Ok (map data out, (set_queue p1 q', w1)) ∧
    queue p1 ≡ₚ out ++ q' ∧
    StronglySorted (λ x y, releaseAt x < releaseAt y ∨ releaseAt x = releaseAt y ∧ seq x ≤ seq y) out ∧
    Forall (λ x, releaseAt x ≤ now) out ∧ Forall (λ x, now < releaseAt x) q' ∧ queue_ok q'.
Proof.
  intros Hv Hj Hq.
  destruct (ReleaseReady_split now (p, w)) as ([p1 w1] & out & q' & ?); [done|done|].
  exists p1, w1, out, q'. simpl in *. tauto.
Qed.

(** The times a pipeline works with are not the zero time. *)
Definition positive_times p : Prop :=
  Forall (λ x, 0 < releaseAt x) (queue p) ∧ (∀ h, held p = Some h → 0 < held_releaseAt h).

Lemma NextWake_min p :
  queue_ok (queue p) → positive_times p →
  match NextWake p with
  | None => queue p = [] ∧ held p = None
  | Some t =>
      (∀ x, x ∈ queue p → t ≤ releaseAt x) ∧ (∀ h, held p = Some h → t ≤ held_releaseAt h) ∧
      ((∃ h, held p = Some h ∧ t = held_releaseAt h) ∨ (∃ x q, queue p = x :: q ∧ t = releaseAt x))
  end.
Proof.
  intros Hq [Hpq Hph]. unfold NextWake.
  assert (Hmin : ∀ x q y, queue p = x :: q → y ∈ queue p → releaseAt x ≤ releaseAt y).
  { intros x q y E Hy. rewrite E in Hq.
    destruct (pop_spec packet_less packet_less_asym packet_less_co_trans x (x :: q) eq_refl Hq)
      as (_ & _ & _ & _ & Hmin). rewrite E in Hy.
    apply Hmin, packet_not_less_spec in Hy. lia. }
  destruct (queue p) as [|x q]; destruct (held p) as [h|] eqn:Hh.
  - specialize (Hph h eq_refl). destruct (Z.eqb_spec (held_releaseAt h) 0); [lia|].
    split_and!; [by intros ? ?%elem_of_nil|by intros ? [= ->]|eauto].
  - done.
  - specialize (Hph h eq_refl). apply Forall_cons in Hpq as [Hx _].
    destruct (Z.eqb_spec (held_releaseAt h) 0); [lia|].
    destruct (Z.ltb_spec (releaseAt x) (held_releaseAt h)); simpl.
    + destruct (Z.eqb_spec (releaseAt x) 0); [lia|].
      split_and!; [by eauto|intros ? [= <-]; lia|eauto].
    + destruct (Z.eqb_spec (held_releaseAt h) 0); [lia|].
      split_and!; [|by intros ? [= ->]|eauto].
      intros y Hy. specialize (Hmin x q y eq_refl Hy). lia.
  - apply Forall_cons in Hpq as [Hx _]. simpl. destruct (Z.eqb_spec (releaseAt x) 0); [lia|].
    split_and!; [by eauto|done|eauto].
Qed.

(** C4: the wake-up time is exact. NextWake returns nothing just when the pipeline
    holds no packet; otherwise before the returned time ReleaseReady releases
    nothing and changes nothing, and from that time on it makes progress: it
    releases a packet, or moves the held packet into the queue. *)
Theorem NextWake_spec p w :
  nonneg_fields (cfg p) → Jitter (cfg p) < max_int64 → queue_ok (queue p) →
  positive_times p →
  (NextWake p = None ↔ contents p = []) ∧
  ∀ t, NextWake p = Some t →
    (∀ now, now < t → ReleaseReady now (p, w) = Ok ([], (p, w))) ∧
    (∀ now, t ≤ now → ∃ ready p' w', ReleaseReady now (p, w) = Ok (ready, (p', w')) ∧
       (ready ≠ [] ∨ held p ≠ None ∧ held p' = None)).
Proof.
  intros Hv Hj Hq Hpos. pose proof (NextWake_min p Hq Hpos) as Hmin. split.
  { split.
    - intros E. rewrite E in Hmin. destruct Hmin as [Hq0 Hh]. unfold contents. by rewrite Hq0, Hh.
    - unfold contents. destruct (NextWake p) as [t|] eqn:E; [|done].
      destruct Hmin as (_ & _ & [(h & -> & _)|(x & q & -> & _)]); [|done].
      by destruct (map data (queue p)). }
  intros t E. rewrite E in Hmin. destruct Hmin as (Hall & Hheld & Hcase). split; intros now Hnow.
  - unfold ReleaseReady, flushExpiredHeld.
    assert (Hr : release_loop (length (queue p)) now (queue p) [] = ([], queue p)).
    { destruct (queue p) as [|x q] eqn:Eq; [done|]. simpl.
      specialize (Hall x ltac:(by left)). destruct (Z.ltb_spec now (releaseAt x)); [done|lia]. }
    destruct (held p) as [h|] eqn:Hh.
    + specialize (Hheld h eq_refl). destruct (Z.ltb_spec now (held_releaseAt h)); [|lia].
      cbn [obind]. rewrite Hr. by destruct p.
    + cbn [obind]. rewrite Hr. by destruct p.
  - destruct (ReleaseReady_split now (p, w)) as ([p1 w1] & out & q' & Hf & Hr & Hperm & _ & _ & _ & Hrest);
      [done|done|].
    eexists _, _, _. split; [exact Hr|]. simpl in *.
    destruct (flushExpiredHeld_effect now (p, w) ltac:(done)) as (s1 & es & n & Hf' & He & _ & _ & Hh').
    rewrite Hf in Hf'. injection Hf' as <-. simpl in Hh'.
    destruct (held p) as [h|] eqn:Hh.
    + destruct Hh' as [Hn|[[= -> ->] (h' & [= <-] & Hlt)]]; [by right|].
      destruct Hcase as [(h' & [= <-] & ->)|(x & q & Hqx & ->)]; [lia|]. left.
      intros Hout%map_eq_nil. subst out. simpl in Hperm.
      rewrite Forall_forall in Hrest. assert (x ∈ q') as Hx by (rewrite <-Hperm, Hqx; by left).
      apply Hrest in Hx. lia.
    + destruct Hcase as [(h' & [=] & _)|(x & q & Hqx & ->)]. left.
      intros Hout%map_eq_nil. subst out. simpl in Hperm.
      unfold flushExpiredHeld in Hf. rewrite Hh in Hf. injection Hf as <- <-.
      rewrite Forall_forall in Hrest. assert (x ∈ q') as Hx by (rewrite <-Hperm, Hqx; by left).
      apply Hrest in Hx. lia.
Qed.

(** ** The passthrough profile *)

Lemma Enqueue_passthrough now d p w :
  cfg p = zero_DirectionConfig → held p = None →
  ∃ w', Enqueue now d (p, w) = Ok (push_next p now d, w').
Proof.
  intros Hc Hh. unfold Enqueue, flushExpiredHeld. rewrite Hh. cbn [obind].
  unfold roll at 1. rewrite Hc. simpl. unfold roll at 1. rewrite Hc. simpl.
  unfold enqueueCopy. rewrite Hh. unfold roll. rewrite Hc. simpl.
  unfold schedule, add_jitter, add_bandwidth. rewrite Hc. simpl. rewrite Hc. eauto.
Qed.

(** The scheduled packets of arrivals numbered from [n]. *)
Fixpoint stamp (n : Z) (arr : list (Z * list byte)) : list scheduledPacket :=
  match arr with
  | [] => []
  | (t, d) :: arr => mkScheduled d t n :: stamp (n + 1) arr
  end.

Lemma stamp_data n arr : map data (stamp n arr) = map snd arr.
Proof. revert n. induction arr as [|[t d] arr IH]; intros n; simpl; by rewrite ?IH. Qed.

Lemma elem_of_stamp n arr x : x ∈ stamp n arr → n ≤ seq x ∧ (releaseAt x, data x) ∈ arr.
Proof.
  revert n. induction arr as [|[t d] arr IH]; intros n; simpl; [by intros ?%elem_of_nil|].
  intros [->|Hx]%elem_of_cons; [split; [done|by left]|].
  destruct (IH _ Hx) as [? ?]. split; [lia|by right].
Qed.

Lemma stamp_sorted n arr :
  StronglySorted (λ a b, a.1 ≤ b.1) arr →
  StronglySorted (λ x y, packet_le x y ∧ seq x < seq y) (stamp n arr).
Proof.
  intros Hs. revert n. induction Hs as [|[t d] arr _ IH Hx]; intros n; simpl; [constructor|].
  constructor; [apply IH|]. apply Forall_forall. intros y [Hy Hin]%elem_of_stamp.
  rewrite Forall_forall in Hx. apply Hx in Hin. simpl in *.
  split; [|lia]. unfold packet_le. simpl. lia.
Qed.

Lemma run_passthrough arr p w :
  cfg p = zero_DirectionConfig → held p = None → queue_ok (queue p) →
  0 ≤ nextSeq p → nextSeq p + zlen arr < 2 ^ 64 →
  ∃ p' w', run (map (λ a, OpEnqueue a.1 a.2) arr) (p, w) = Ok ([], (p', w')) ∧
    cfg p' = zero_DirectionConfig ∧ held p' = None ∧ queue_ok (queue p') ∧
    queue p' ≡ₚ queue p ++ stamp (nextSeq p) arr.
Proof.
  revert p w. induction arr as [|[t d] arr IH]; intros p w Hc Hh Hq Hn Hw; simpl.
  { exists p, w. by rewrite app_nil_r. }
  rewrite zlen_cons in Hw. pose proof (zlen_nonneg arr).
  destruct (Enqueue_passthrough t d p w Hc Hh) as [w1 ->]. simpl.
  destruct (IH (push_next p t d) w1) as (p' & w' & -> & Hc' & Hh' & Hq' & Hperm); simpl;
    rewrite ?wrapu64_small by lia; try done; try lia; [by apply push_queue_ok|].
  exists p', w'. split_and!; try done. rewrite Hperm. simpl.
  rewrite wrapu64_small by lia. rewrite push_perm. simpl. by rewrite Permutation_middle.
Qed.

Lemma run_app_ok ops1 ops2 (s s1 : Pipeline R W * W) outs1 :
  run ops1 s = Ok (outs1, s1) →
  run (ops1 ++ ops2) s = let! (outs2, s2) := run ops2 s1 in Ok (outs1 ++ outs2, s2).
Proof.
  revert s outs1. induction ops1 as [|o ops1 IH]; intros s outs1 Hr; simpl in *.
  { injection Hr as <- <-. simpl. by destruct (run ops2 s) as [[??]|[]|]. }
  inv_ok. destruct x as [out s2]. inv_ok. destruct x as [outs s3]. inv_ok.
  rewrite E. simpl. rewrite (IH _ _ E0).
  destruct (run ops2 s1) as [[??]|[]|]; simpl; try done. by rewrite app_assoc.
Qed.

(** The passthrough configuration is transparent. Packets enqueued at
    non-decreasing times come out of one ReleaseReady at any later time unchanged,
    all of them and in order of arrival, and nothing stays behind. *)
Theorem passthrough_fifo seed (hs : Hooks W) p0 w0 arr now :
  NewPipelineWithHooks zero_DirectionConfig seed hs = Ok p0 →
  StronglySorted (λ a b, a.1 ≤ b.1) arr → Forall (λ a, a.1 ≤ now) arr → zlen arr < 2 ^ 64 →
  ∃ p w, run (map (λ a, OpEnqueue a.1 a.2) arr ++ [OpReleaseReady now]) (p0, w0)
           = Ok (map snd arr, (p, w)) ∧ contents p = [].
Proof.
  intros [-> _]%NewPipelineWithHooks_ok Hs Hnow Hlen.
  destruct (run_passthrough arr (fresh zero_DirectionConfig seed hs) w0)
    as (p & w & Hrun & Hc & Hh & Hq & Hperm); try done.
  destruct (release_loop_spec (length (queue p)) now (queue p) Hq ltac:(done))
    as (out & q' & Hr & Hpq & _ & Hsort & Hdue & Hrest).
  rewrite (run_app_ok _ _ _ _ _ Hrun). simpl. unfold ReleaseReady, flushExpiredHeld.
  rewrite Hh. cbn [obind]. rewrite Hr. simpl in Hperm. rewrite Hpq in Hperm.
  assert (q' = []) as ->.
  { destruct q' as [|x q']; [done|]. apply Forall_cons in Hrest as [Hx _].
    assert (x ∈ stamp 0 arr) as [_ Hin]%elem_of_stamp by (rewrite <-Hperm; set_solver).
    rewrite Forall_forall in Hnow. apply Hnow in Hin. simpl in Hin. lia. }
  rewrite app_nil_r in Hperm. apply stamp_sorted with (n := 0) in Hs.
  assert (out = stamp 0 arr) as ->.
  { apply (StronglySorted_unique_strong packet_le); [|done| |done].
    - intros x y Hx Hy Hxy Hyx. rewrite Hperm in Hx.
      unfold packet_le in Hxy, Hyx.
      destruct (StronglySorted_total _ _ x y Hs Hx Hy) as [|[[_ ?]|[_ ?]]]; [done|lia..].
    - clear -Hs. induction Hs as [|x l _ IH Hx]; constructor; [done|].
      eapply Forall_impl; [exact Hx|]. by intros y [? _]. }
  cbn [obind]. rewrite stamp_data, app_nil_r. eexists _, _. split; [done|].
  unfold contents. simpl. by rewrite Hh.
Qed.

End theorems.

(** ** Delays *)

Section delays.
Context {R W : Type} `{RandLaws R}.

(** Schedule keeps the configured window. It pushes exactly one packet, with
    the current sequence number, and reports its delay to OnDelay. Without a
    bandwidth limit the release time lies between now plus latency and now plus
    latency plus jitter; with one, the packet leaves when the link is free, its
    transmission time later, and the link is busy until then. *)
Theorem schedule_window now d (p : Pipeline R W) w :
  nonneg_fields (cfg p) → Jitter (cfg p) < max_int64 →
  ∃ p' t, schedule now d (p, w)
            = Ok (p', apply_event (hooks p) w (EvDelay (time_Sub t now))) ∧
    queue p' ≡ₚ mkScheduled d t (nextSeq p) :: queue p ∧
    nextSeq p' = wrapu64 (nextSeq p + 1) ∧ held p' = held p ∧
    (BandwidthBytesPerSec (cfg p) = 0 →
       now + Latency (cfg p) ≤ t ≤ now + Latency (cfg p) + Jitter (cfg p) ∧
       bandwidthReady p' = bandwidthReady p) ∧
    (0 < BandwidthBytesPerSec (cfg p) →
       bandwidthReady p' = t ∧
       ∃ u, now + Latency (cfg p) ≤ u ≤ now + Latency (cfg p) + Jitter (cfg p) ∧
            t = Z.max u (bandwidthReady p)
                + transmitDuration (zlen d) (BandwidthBytesPerSec (cfg p))).
Proof.
  intros Hv Hj. destruct (schedule_ok now d p w (conj Hv Hj))
    as (p' & w' & t & Hs & (Hq & Hh & Hn & Ht) & (_ & _ & _ & Hw)).
  simpl in Hw. exists p', t. subst w'. rewrite Hq, push_perm. split_and!; try done.
  - intros E. rewrite E in Ht. simpl in Ht. tauto.
  - intros E. destruct (Z.ltb_spec 0 (BandwidthBytesPerSec (cfg p))); [done|lia].
Qed.

(** A configuration that validation accepts: only the jitter is set, to the
    largest duration. *)
Definition max_jitter_cfg : DirectionConfig :=
  mkDirectionConfig f64_0 f64_0 f64_0 0 0 max_int64 0.

(** Validation accepts a jitter that makes the pipeline panic. For the
    largest duration, Jitter + 1 overflows and rand.Int63n panics on the first
    packet. *)
Theorem max_jitter_panics seed (hs : Hooks W) w now d :
  ∃ p : Pipeline R W, NewPipelineWithHooks max_jitter_cfg seed hs = Ok p ∧
    Enqueue now d (p, w) = Panic.
Proof. eexists. split; reflexivity. Qed.

End delays.

(** The transmission time is the exact ceiling of the packet's size over the
    bandwidth, in nanoseconds, and at least 1, as long as the size in
    byte-nanoseconds plus the bandwidth fits in an int64. *)
Theorem transmitDuration_ceiling size bps :
  0 < size → 0 < bps → size * Second + bps ≤ max_int64 →
  1 ≤ transmitDuration size bps ∧
  bps * (transmitDuration size bps - 1) < size * Second ≤ bps * transmitDuration size bps.
Proof.
  intros Hs Hb Hf. rewrite transmitDuration_exact by done. assert (1 ≤ Second) by done.
  pose proof (Z.mul_div_le (size * Second + bps - 1) bps Hb).
  pose proof (Z.mul_succ_div_gt (size * Second + bps - 1) bps Hb).
  split; [|lia]. apply Z.div_le_lower_bound; nia.
Qed.

(** ** Instances *)

Definition demo_ops : list op :=
  [OpEnqueue 1000 (pkt 3); OpEnqueue 2000 (pkt 4); OpEnqueue 3000 (pkt 5);
   OpReleaseReady (10 * Millisecond); OpEnqueue (11 * Millisecond) (pkt 6);
   OpFlush (12 * Millisecond); OpReleaseReady (30 * Millisecond)].

Abbreviation demo := (fresh (R:=Z) demo_cfg 42 log_hooks).
Abbreviation paced_demo := (fresh (R:=Z) paced_cfg 42 log_hooks).

Lemma pipeline_conserves_witness :
  ∃ outs p w es ks,
    run demo_ops (demo, []) = Ok (outs, (p, w)) ∧
    length ks = length (all_arrivals demo_ops) ∧
    outs ++ contents p ≡ₚ concat (zip_with replicate ks (all_arrivals demo_ops)) ∧
    tallies ks es ∧ w = foldl (apply_event log_hooks) [] es ∧ queue_ok (queue p).
Proof. apply (pipeline_conserves demo_cfg 42 log_hooks demo [] demo_ops); vm_compute; reflexivity. Defined.

Lemma pipeline_paced_witness :
  match run demo_ops (paced_demo, []) with
  | Ok (outs, _) =>
      length outs = 4%nat ∧
      ∃ sent, outs = map (data ∘ snd) sent ∧ StronglySorted (slot 1000) (map snd sent) ∧
        ∀ pre now x post, sent = pre ++ (now, x) :: post →
          total_bytes (map snd pre ++ [x]) * Second ≤ 1000 * (now - 1000)
  | _ => False
  end.
Proof.
  destruct (run demo_ops (paced_demo, [])) as [[outs s']| |] eqn:E;
    [|vm_compute in E; discriminate E..].
  split; [vm_compute in E; injection E as <- _; reflexivity|].
  destruct (pipeline_paced paced_cfg 42 log_hooks paced_demo [] 1000 demo_ops outs s')
    as (sent & _ & Hout & Hsort & _ & Htotal & _); [reflexivity..| |reflexivity| |exact E|].
  - unfold fits. repeat constructor; vm_compute; discriminate.
  - repeat constructor; vm_compute; discriminate.
  - exists sent. split; [exact Hout|]. split; [exact Hsort|exact Htotal].
Defined.

(** A pipeline with two packets queued and one held back. *)
Definition busy : Pipeline Z (list event) :=
  mkPipeline demo_cfg 1 log_hooks
    [mkScheduled (pkt 1) 100 0; mkScheduled (pkt 2) 300 1] (Some (mkHeld (pkt 3) 200)) 2 0.

Lemma busy_queue_ok : queue_ok (queue busy).
Proof. intros k Hk. simpl in Hk. assert (k = 1%nat) as -> by lia. reflexivity. Qed.

Lemma ReleaseReady_spec_witness :
  ∃ p1 w1 out q', flushExpiredHeld 250 (busy, []) = Ok (p1, w1) ∧
    ReleaseReady 250 (busy, []) = Ok (map data out, (set_queue p1 q', w1)) ∧
    queue p1 ≡ₚ out ++ q' ∧
    StronglySorted (λ x y, releaseAt x < releaseAt y ∨ releaseAt x = releaseAt y ∧ seq x ≤ seq y) out ∧
    Forall (λ x, releaseAt x ≤ 250) out ∧ Forall (λ x, 250 < releaseAt x) q' ∧ queue_ok q'.
Proof.
  apply (ReleaseReady_spec 250 busy []);
    [vm_compute; intuition discriminate|reflexivity|exact busy_queue_ok].
Defined.

Lemma NextWake_spec_witness :
  NextWake busy = Some 100 ∧ ReleaseReady 99 (busy, []) = Ok ([], (busy, [])) ∧
  ∃ ready p' w', ReleaseReady 100 (busy, []) = Ok (ready, (p', w')) ∧
    (ready ≠ [] ∨ held busy ≠ None ∧ held p' = None).
Proof.
  destruct (NextWake_spec busy []) as [_ Hspec];
    [vm_compute; intuition discriminate|reflexivity|exact busy_queue_ok| |].
  { split; [repeat constructor; reflexivity|]. intros h Hh. injection Hh as <-. reflexivity. }
  destruct (Hspec 100 eq_refl) as [Hbefore Hafter].
  split; [reflexivity|]. split; [apply Hbefore; reflexivity|apply Hafter; discriminate].
Defined.

Lemma passthrough_fifo_witness :
  ∃ p w, run (map (λ a, OpEnqueue a.1 a.2) [(5, pkt 1); (5, pkt 2); (9, pkt 3)] ++ [OpReleaseReady 10])
           (fresh (R:=Z) zero_DirectionConfig 7 log_hooks, []) = Ok ([pkt 1; pkt 2; pkt 3], (p, w)) ∧
         contents p = [].
Proof.
  apply (passthrough_fifo 7 log_hooks (fresh zero_DirectionConfig 7 log_hooks) []
    [(5, pkt 1); (5, pkt 2); (9, pkt 3)] 10); [reflexivity| | |reflexivity];
    repeat constructor; simpl; lia.
Defined.

Lemma schedule_window_witness :
  ∃ p' t, schedule 1000 (pkt 4) (busy, [])
            = Ok (p', apply_event (hooks busy) [] (EvDelay (time_Sub t 1000))) ∧
    1000 + Latency demo_cfg ≤ t ≤ 1000 + Latency demo_cfg + Jitter demo_cfg.
Proof.
  destruct (schedule_window 1000 (pkt 4) busy []) as (p' & t & Hs & _ & _ & _ & Hnb & _);
    [vm_compute; intuition discriminate|reflexivity|].
  exists p', t. split; [exact Hs|]. apply Hnb. reflexivity.
Defined.

Lemma transmitDuration_ceiling_witness :
  1 ≤ transmitDuration 1500 250000 ∧
  250000 * (transmitDuration 1500 250000 - 1) < 1500 * Second ≤ 250000 * transmitDuration 1500 250000.
Proof. apply (transmitDuration_ceiling 1500 250000); vm_compute; [reflexivity..|discriminate]. Defined.
