(* ===== verification/Wire.v ===== *)
(** * Wire: the pub/sub frame codec ([internal/wire/frame.go])

    A frame is one kind byte, the topic length as a QUIC variable-length integer,
    the topic, and the payload up to the end of the data. On a stream each frame is
    preceded by its size, again a variable-length integer.

    The variable-length integers are those of [quic-go/quicvarint], a parameter
    here ([Varint], [VarintLaws]). [max_alloc] is the largest slice the Go runtime
    can make: [make] panics above it. *)

From S2P Require Import Prelude.

(** ** Errors and readers of package io *)

Inductive io_error :=
| EOF
| ErrUnexpectedEOF
| ErrTransport (code : Z).
#[global] Instance io_error_eq_dec : EqDecision io_error.
Proof. solve_decision. Defined.

(** A reader: the bytes it will still deliver, and the error it then returns. *)
Record Reader := mkReader { rd_data : list byte; rd_end : io_error }.

(** [io.ReadFull] into a buffer of [n] bytes. *)
Definition ReadFull (r : Reader) (n : Z) : outcome io_error (list byte * Reader) :=
  if n =? 0 then Ok ([], r)
  else if n <=? zlen (rd_data r)
  then Ok (take (Z.to_nat n) (rd_data r), mkReader (drop (Z.to_nat n) (rd_data r)) (rd_end r))
  else match rd_data r, rd_end r with
       | [], e => Err e
       | _, EOF => Err ErrUnexpectedEOF
       | _, e => Err e
       end.

(** ** [quicvarint] *)

(** [quicvarint.Max]: the largest value that can be encoded. *)
Definition maxVarInt8 : Z := 2 ^ 62 - 1.

Class Varint := {
  (** the bytes [Append] appends *)
  varint_bytes : Z → list byte;
  (** [Len] *)
  varint_len : Z → Z;
  (** [Parse]: the value and the number of bytes read, or an error *)
  varint_parse : list byte → option (Z * nat);
  (** [Read] from [NewReader(r)], which consumes no byte beyond the integer *)
  varint_read : Reader → outcome io_error (Z * Reader);
}.

Class VarintLaws `{Varint} := {
  varint_parse_bytes v rest : 0 ≤ v ≤ maxVarInt8 →
    varint_parse (varint_bytes v ++ rest) = Some (v, length (varint_bytes v));
  varint_parse_bounds d v n : varint_parse d = Some (v, n) →
    0 ≤ v ≤ maxVarInt8 ∧ (1 ≤ n ≤ 8)%nat ∧ (n ≤ length d)%nat;
  (** [Append] uses the shortest encoding *)
  varint_minimal d v n : varint_parse d = Some (v, n) → (length (varint_bytes v) ≤ n)%nat;
  varint_len_bytes v : 0 ≤ v ≤ maxVarInt8 →
    varint_len v = zlen (varint_bytes v) ∧ 1 ≤ varint_len v ≤ 8;
  varint_read_parse r v n : varint_parse (rd_data r) = Some (v, n) →
    varint_read r = Ok (v, mkReader (drop n (rd_data r)) (rd_end r));
  varint_read_error r : varint_parse (rd_data r) = None → ∃ e, varint_read r = Err e;
  varint_read_nil e : varint_read (mkReader [] e) = Err e;
}.

(** ** Frames *)

Abbreviation Kind := byte (only parsing).
Definition KindPub : Kind := x01.
Definition KindSub : Kind := x02.
Definition KindUnsub : Kind := x03.
Definition KindPubAck : Kind := x04.
Definition KindErr : Kind := x05.

Record Frame := mkFrame {
  frame_Kind : Kind;
  frame_Topic : string;
  frame_Payload : list byte;
}.
#[global] Instance Frame_eq_dec : EqDecision Frame.
Proof. solve_decision. Defined.

Inductive wire_error :=
| ErrKindRequired
| ErrTopicRequired
| ErrShortFrame
| ErrInvalidKind0
| ErrParseTopicLength
| ErrTopicExceedsFrame
| ErrWriteHeader (e : io_error)
| ErrWriteBody (e : io_error)
| ErrReadSize (e : io_error)
| ErrReadBody (e : io_error).

(** [errors.Is(err, io.EOF)]: the read errors are wrapped with %w. *)
Definition is_EOF (e : wire_error) : bool :=
  match e with
  | ErrReadSize EOF | ErrReadBody EOF | ErrWriteHeader EOF | ErrWriteBody EOF => true
  | _ => false
  end.

Section wire.
Context `{Varint} (max_alloc : Z).

(** [make([]byte, ..)] with length or capacity [n] *)
Definition make {E} (n : Z) : outcome E unit :=
  if (0 <=? n) && (n <=? max_alloc) then Ok tt else Panic.

Definition quicvarint_Len {E} (v : Z) : outcome E Z :=
  if v <=? maxVarInt8 then Ok (varint_len v) else Panic.
Definition quicvarint_Append {E} (b : list byte) (v : Z) : outcome E (list byte) :=
  if v <=? maxVarInt8 then Ok (b ++ varint_bytes v) else Panic.

Definition Encode (frame : Frame) : outcome wire_error (list byte) :=
  let topic := bytes_of_string (frame_Topic frame) in
  if bool_decide (frame_Kind frame = x00) then Err ErrKindRequired
  else if String.eqb (frame_Topic frame) "" then Err ErrTopicRequired
  else
    let! n := quicvarint_Len (zlen topic) in
    let! _ := make (1 + n + zlen topic + zlen (frame_Payload frame)) in
    let! out := quicvarint_Append [frame_Kind frame] (zlen topic) in
    Ok (out ++ topic ++ frame_Payload frame).

Definition Decode (d : list byte) : outcome wire_error Frame :=
  match d with
  | kind :: ((_ :: _) as rest) =>
      if bool_decide (kind = x00) then Err ErrInvalidKind0
      else
        match varint_parse rest with
        | None => Err ErrParseTopicLength
        | Some (topicLen, n) =>
            let start := 1 + Z.of_nat n in
            let stop := wrap64 (start + wrap64 topicLen) in
            if zlen d <? stop then Err ErrTopicExceedsFrame
            else
              let! topic := slice d start stop in
              if String.eqb (string_of_bytes topic) "" then Err ErrTopicRequired
              else
                let! payload := slice d stop (zlen d) in
                let! _ := make (zlen payload) in
                Ok (mkFrame kind (string_of_bytes topic) payload)
        end
  | _ => Err ErrShortFrame
  end.

(** A writer is a state with its [Write], which may fail. *)
Definition WriteStreamFrame {S} (write : list byte → S → outcome io_error S)
    (w : S) (frame : Frame) : outcome wire_error S :=
  let! d := Encode frame in
  let! n := quicvarint_Len (zlen d) in
  let! _ := make n in
  let! header := quicvarint_Append [] (zlen d) in
  let! w := write header w else ErrWriteHeader in
  let! w := write d w else ErrWriteBody in
  Ok w.

Definition ReadStreamFrame (r : Reader) : outcome wire_error (Frame * Reader) :=
  let! (size, r) := varint_read r else ErrReadSize in
  let! _ := make size in
  let! (d, r) := ReadFull r size else ErrReadBody in
  let! frame := Decode d in
  Ok (frame, r).

End wire.
#[global] Arguments Encode : simpl never.
#[global] Arguments Decode : simpl never.
#[global] Arguments WriteStreamFrame : simpl never.
#[global] Arguments ReadStreamFrame : simpl never.
