(* ===== verification/Varint.v ===== *)
(** * Varint: the variable-length integers of RFC 9000, section 16

    A concrete instance of the interface [Wire.Varint] and of its laws: it shows
    that the laws can hold together, and the concrete instances of the codec's
    theorems are evaluated with it. The first two bits of the first byte give the
    length (1, 2, 4 or 8 bytes), the others are the value, big-endian. *)

From S2P Require Import Prelude Text Wire.

Definition byte_to_Z (b : byte) : Z := Z.of_N (Byte.to_N b).

Lemma byte_to_of_Z z : byte_to_Z (byte_of_Z z) = z `mod` 256.
Proof.
  unfold byte_of_Z, byte_to_Z. pose proof (Z.mod_pos_bound z 256 ltac:(lia)) as Hb.
  destruct (Byte.of_N (Z.to_N (z `mod` 256))) as [b|] eqn:E.
  - apply Byte.to_of_N in E. rewrite E. lia.
  - apply Byte.of_N_None_iff in E. lia.
Qed.

Lemma byte_to_Z_range b : 0 ≤ byte_to_Z b < 256.
Proof. unfold byte_to_Z. pose proof (Byte.to_N_bounded b). lia. Qed.

(** ** Big-endian integers *)

Fixpoint be_bytes (n : nat) (v : Z) : list byte :=
  match n with
  | O => []
  | S n => byte_of_Z (v / 256 ^ Z.of_nat n) :: be_bytes n v
  end.
Definition be_acc (a : Z) (l : list byte) : Z := foldl (λ a b, a * 256 + byte_to_Z b) a l.

Lemma length_be_bytes n v : length (be_bytes n v) = n.
Proof. induction n; simpl; congruence. Qed.

Lemma be_acc_be_bytes n v a : be_acc a (be_bytes n v) = a * 256 ^ Z.of_nat n + v `mod` 256 ^ Z.of_nat n.
Proof.
  revert a. induction n as [|n IH]; intros a.
  - simpl. rewrite Z.mod_1_r. lia.
  - change (be_acc (a * 256 + byte_to_Z (byte_of_Z (v / 256 ^ Z.of_nat n))) (be_bytes n v)
      = a * 256 ^ Z.of_nat (S n) + v `mod` 256 ^ Z.of_nat (S n)).
    rewrite IH, byte_to_of_Z, Nat2Z.inj_succ, Z.pow_succ_r by lia.
    rewrite (Z.mul_comm 256 (256 ^ _)), Z.rem_mul_r by (try apply Z.pow_nonzero; lia). lia.
Qed.

(** ** The encoding *)

(** Length in bytes and tag of the encoding of [v]. *)
Definition vi_tag (v : Z) : Z :=
  if v <=? 63 then 0 else if v <=? 16383 then 1 else if v <=? 1073741823 then 2 else 3.
Definition vi_size (tag : Z) : nat := Z.to_nat (2 ^ tag).

Ltac vi_sizes :=
  repeat match goal with
  | |- context [vi_size 0] => change (vi_size 0) with 1%nat
  | |- context [vi_size 1] => change (vi_size 1) with 2%nat
  | |- context [vi_size 2] => change (vi_size 2) with 4%nat
  | |- context [vi_size 3] => change (vi_size 3) with 8%nat
  end.

Definition vi_bytes (v : Z) : list byte :=
  let n := vi_size (vi_tag v) in
  be_bytes n (vi_tag v * 2 ^ (8 * Z.of_nat n - 2) + v).

Definition vi_parse (d : list byte) : option (Z * nat) :=
  match d with
  | [] => None
  | b :: _ =>
      let n := vi_size (byte_to_Z b / 64) in
      if (n <=? length d)%nat
      then Some (be_acc 0 (take n d) `mod` 2 ^ (8 * Z.of_nat n - 2), n)
      else None
  end.

Definition vi_read (r : Reader) : outcome io_error (Z * Reader) :=
  match vi_parse (rd_data r) with
  | Some (v, n) => Ok (v, mkReader (drop n (rd_data r)) (rd_end r))
  | None => Err (rd_end r)
  end.

#[global] Instance rfc9000 : Varint := {|
  varint_bytes := vi_bytes;
  varint_len v := zlen (vi_bytes v);
  varint_parse := vi_parse;
  varint_read := vi_read;
|}.

Lemma vi_tag_cases v :
  0 ≤ v ≤ maxVarInt8 →
  vi_tag v = 0 ∧ v < 2 ^ 6 ∨ vi_tag v = 1 ∧ 2 ^ 6 ≤ v < 2 ^ 14 ∨
  vi_tag v = 2 ∧ 2 ^ 14 ≤ v < 2 ^ 30 ∨ vi_tag v = 3 ∧ 2 ^ 30 ≤ v < 2 ^ 62.
Proof. unfold vi_tag, maxVarInt8. intros. bdestruct_all; lia. Qed.

Lemma vi_bytes_parse v rest :
  0 ≤ v ≤ maxVarInt8 → vi_parse (vi_bytes v ++ rest) = Some (v, length (vi_bytes v)).
Proof.
  intros Hv. unfold vi_bytes. rewrite length_be_bytes.
  set (n := vi_size (vi_tag v)). set (w := vi_tag v * 2 ^ (8 * Z.of_nat n - 2) + v).
  assert (∃ m, n = S m ∧ 0 ≤ v < 2 ^ (8 * Z.of_nat n - 2) ∧
    2 ^ (8 * Z.of_nat n - 2) = 64 * 256 ^ Z.of_nat m ∧ 0 ≤ vi_tag v < 4) as (m & Hn & Hb & Hpow & Htag).
  { subst n. destruct (vi_tag_cases v Hv) as [[-> ?]|[[-> ?]|[[-> ?]|[-> ?]]]];
      vi_sizes; [exists 0%nat|exists 1%nat|exists 3%nat|exists 7%nat];
      (split; [reflexivity|]); simpl; lia. }
  assert (Hlen : length (be_bytes n w) = n) by apply length_be_bytes.
  assert (Hhd : byte_to_Z (byte_of_Z (w / 256 ^ Z.of_nat m)) / 64 = vi_tag v).
  { rewrite byte_to_of_Z. assert (0 < 256 ^ Z.of_nat m) by (apply Z.pow_pos_nonneg; lia).
    assert (Hq : w / 256 ^ Z.of_nat m = vi_tag v * 64 + v / 256 ^ Z.of_nat m).
    { subst w. rewrite Hpow, Z.add_comm, Z.mul_assoc, Z.div_add by lia. lia. }
    assert (0 ≤ v / 256 ^ Z.of_nat m < 64).
    { split; [apply Z.div_pos; lia|]. apply Z.div_lt_upper_bound; lia. }
    rewrite Hq, Z.mod_small by lia. rewrite Z.add_comm, Z.div_add by lia.
    rewrite Z.div_small; lia. }
  assert (Hcons : byte_of_Z (w / 256 ^ Z.of_nat m) :: (be_bytes m w ++ rest) = be_bytes n w ++ rest)
    by (rewrite Hn; reflexivity).
  rewrite <-Hcons. unfold vi_parse. rewrite Hhd. fold n. rewrite Hcons.
  destruct (Nat.leb_spec n (length (be_bytes n w ++ rest))) as [_|Hlt];
    [|rewrite length_app in Hlt; lia].
  rewrite take_app_le, take_ge, be_acc_be_bytes by lia.
  do 2 f_equal. rewrite Z.mul_0_l, Z.add_0_l.
  rewrite Hn at 1. rewrite Nat2Z.inj_succ, Z.pow_succ_r by lia.
  rewrite (Z.mod_small w) by (subst w; nia).
  subst w. rewrite Z.add_comm, Z.mod_add, Z.mod_small; lia.
Qed.

Lemma vi_parse_spec d v n :
  vi_parse d = Some (v, n) →
  (n ≤ length d)%nat ∧ 0 ≤ v < 2 ^ (8 * Z.of_nat n - 2) ∧
  (n = 1 ∨ n = 2 ∨ n = 4 ∨ n = 8)%nat.
Proof.
  unfold vi_parse. destruct d as [|b d]; [done|]. pose proof (byte_to_Z_range b).
  assert (byte_to_Z b / 64 = 0 ∨ byte_to_Z b / 64 = 1 ∨ byte_to_Z b / 64 = 2 ∨ byte_to_Z b / 64 = 3)
    as Htag.
  { assert (0 ≤ byte_to_Z b / 64 < 4); [|lia].
    split; [apply Z.div_pos; lia|apply Z.div_lt_upper_bound; lia]. }
  destruct (Nat.leb_spec (vi_size (byte_to_Z b / 64)) (length (b :: d))) as [Hl|]; [|done].
  intros Heq.
  assert (n = vi_size (byte_to_Z b / 64) ∧
    v = be_acc 0 (take n (b :: d)) `mod` 2 ^ (8 * Z.of_nat n - 2)) as [Hn ->] by naive_solver.
  rewrite <-Hn in Hl. split; [done|].
  assert ((n = 1 ∨ n = 2 ∨ n = 4 ∨ n = 8)%nat) as Hn4.
  { rewrite Hn. destruct Htag as [->|[->|[->| ->]]]; vi_sizes; simpl; lia. }
  split; [|done]. apply Z.mod_pos_bound, Z.pow_pos_nonneg; lia.
Qed.

#[global] Instance rfc9000_laws : VarintLaws.
Proof.
  assert (Hsize : ∀ v n, 0 ≤ v < 2 ^ (8 * Z.of_nat n - 2) →
    (n = 1 ∨ n = 2 ∨ n = 4 ∨ n = 8)%nat → 0 ≤ v ≤ maxVarInt8 ∧ (length (vi_bytes v) ≤ n)%nat).
  { intros v n Hv Hn. assert (0 ≤ v ≤ maxVarInt8) as Hmax.
    { unfold maxVarInt8. destruct Hn as [->|[->|[->| ->]]]; simpl in Hv; lia. }
    split; [done|]. unfold vi_bytes. rewrite length_be_bytes.
    destruct (vi_tag_cases v Hmax) as [[-> ?]|[[-> ?]|[[-> ?]|[-> ?]]]]; vi_sizes; simpl;
      destruct Hn as [->|[->|[->| ->]]]; simpl in Hv; lia. }
  split.
  - apply vi_bytes_parse.
  - intros d v n (Hl & Hv & Hn)%vi_parse_spec. destruct (Hsize v n Hv Hn). split_and!; lia.
  - intros d v n (Hl & Hv & Hn)%vi_parse_spec. by apply Hsize.
  - intros v Hv. simpl. split; [done|]. unfold vi_bytes, zlen. rewrite length_be_bytes.
    destruct (vi_tag_cases v Hv) as [[-> ?]|[[-> ?]|[[-> ?]|[-> ?]]]]; vi_sizes; simpl; lia.
  - intros r v n Hp. simpl in *. unfold vi_read. by rewrite Hp.
  - intros r Hp. simpl in *. unfold vi_read. rewrite Hp. eauto.
  - intros e. done.
Qed.
