(* ===== verification/WireTheorems.v ===== *)
(** * WireTheorems: what the frame codec promises

    Properties of [Wire], for any variable-length integers that satisfy
    [VarintLaws], and instances of them with those of [Varint]. *)

From S2P Require Import Prelude Wire Varint.

Section theorems.
Context `{VarintLaws} (max_alloc : Z).

Abbreviation Encode := (Encode max_alloc).
Abbreviation Decode := (Decode max_alloc).
Abbreviation ReadStreamFrame := (ReadStreamFrame max_alloc).

Lemma make_ok {E} n : 0 ≤ n ≤ max_alloc → make max_alloc (E:=E) n = Ok tt.
Proof. intros ?. unfold make. bdestruct_all; [done|lia..]. Qed.

Lemma Encode_inv f d :
  Encode f = Ok d →
  frame_Kind f ≠ x00 ∧ frame_Topic f ≠ ""%string ∧
  let topic := bytes_of_string (frame_Topic f) in
  zlen topic ≤ maxVarInt8 ∧ zlen d ≤ max_alloc ∧
  d = frame_Kind f :: varint_bytes (zlen topic) ++ topic ++ frame_Payload f.
Proof.
  unfold Wire.Encode. case_bool_decide; [done|].
  destruct (String.eqb_spec (frame_Topic f) ""); [done|]. intros Hd. inv_ok.
  unfold quicvarint_Len, quicvarint_Append, make in *.
  destruct (Z.leb_spec (zlen (bytes_of_string (frame_Topic f))) maxVarInt8); [|done]. inv_ok.
  bdestruct_all; try done. split_and!; try done.
  destruct (varint_len_bytes (zlen (bytes_of_string (frame_Topic f)))) as [Hl _];
    [split; [apply zlen_nonneg|done]|].
  rewrite <-app_comm_cons. autorewrite with go_len. lia.
Qed.

Lemma Encode_ok f :
  frame_Kind f ≠ x00 → frame_Topic f ≠ ""%string →
  1 + 8 + zlen (bytes_of_string (frame_Topic f)) + zlen (frame_Payload f) ≤ max_alloc →
  max_alloc ≤ maxVarInt8 →
  Encode f = Ok (frame_Kind f :: varint_bytes (zlen (bytes_of_string (frame_Topic f)))
                 ++ bytes_of_string (frame_Topic f) ++ frame_Payload f).
Proof.
  intros Hk Ht Hfit Hmax. unfold Wire.Encode. rewrite bool_decide_false by done.
  destruct (String.eqb_spec (frame_Topic f) ""); [done|].
  pose proof (zlen_nonneg (bytes_of_string (frame_Topic f))). pose proof (zlen_nonneg (frame_Payload f)).
  destruct (varint_len_bytes (zlen (bytes_of_string (frame_Topic f)))) as [Hl Hb]; [lia|].
  unfold quicvarint_Len, quicvarint_Append.
  destruct (Z.leb_spec (zlen (bytes_of_string (frame_Topic f))) maxVarInt8); [|lia].
  simpl. rewrite make_ok by lia. done.
Qed.

(** What [Decode] does once the topic length is parsed. *)
Lemma Decode_body kind b rest topicLen n :
  kind ≠ x00 → varint_parse (b :: rest) = Some (topicLen, n) →
  Decode (kind :: b :: rest) =
    if zlen (b :: rest) <? Z.of_nat n + topicLen then Err ErrTopicExceedsFrame
    else
      let tail := drop n (b :: rest) in
      let topic := string_of_bytes (take (Z.to_nat topicLen) tail) in
      let payload := drop (Z.to_nat topicLen) tail in
      if String.eqb topic "" then Err ErrTopicRequired
      else let! _ := make max_alloc (zlen payload) in Ok (mkFrame kind topic payload).
Proof.
  intros Hk Hp. destruct (varint_parse_bounds _ _ _ Hp) as (Hv & Hn & Hl).
  unfold Wire.Decode. rewrite bool_decide_false, Hp by done.
  unfold maxVarInt8 in Hv.
  rewrite !wrap64_small by (rewrite ?wrap64_small; unfold min_int64, max_int64; lia).
  rewrite (zlen_cons kind).
  destruct (Z.ltb_spec (1 + zlen (b :: rest)) (1 + Z.of_nat n + topicLen)),
    (Z.ltb_spec (zlen (b :: rest)) (Z.of_nat n + topicLen)); [done|lia|lia|].
  rewrite !slice_ok by (rewrite ?(zlen_cons kind); lia). cbn [obind].
  replace (Z.to_nat (1 + Z.of_nat n)) with (S n) by lia.
  replace (Z.to_nat (1 + Z.of_nat n + topicLen - (1 + Z.of_nat n))) with (Z.to_nat topicLen) by lia.
  replace (Z.to_nat (1 + Z.of_nat n + topicLen)) with (S (n + Z.to_nat topicLen)) by lia.
  rewrite (take_ge (drop (S (n + _)) _)) by (rewrite length_drop; unfold zlen; simpl length in *; lia).
  cbn [drop]. rewrite <-drop_drop. done.
Qed.

Lemma Decode_Encode_lemma f d : Encode f = Ok d → Decode d = Ok f.
Proof.
  intros (Hk & Ht & Hl & Hmax & ->)%Encode_inv. destruct f as [kind topic payload]; simpl in *.
  set (t := bytes_of_string topic) in *. pose proof (zlen_nonneg t).
  pose proof (varint_parse_bytes (zlen t) (t ++ payload) ltac:(done)) as Hp.
  destruct (varint_parse_bounds _ _ _ Hp) as (_ & Hn & _).
  destruct (varint_bytes (zlen t)) as [|b vs] eqn:Ev; [simpl in Hn; lia|].
  simpl app in *. rewrite (Decode_body _ _ _ _ _ Hk Hp).
  rewrite app_comm_cons. autorewrite with go_len in *. pose proof (zlen_nonneg payload).
  destruct (Z.ltb_spec (1 + zlen vs + (zlen t + zlen payload)) (Z.of_nat (length (b :: vs)) + zlen t)).
  { unfold zlen in *. simpl length in *. lia. }
  rewrite drop_app_length. cbv zeta.
  replace (Z.to_nat (zlen t)) with (length t) by (unfold zlen; lia).
  rewrite take_app_length, drop_app_length. subst t. rewrite string_of_bytes_of_string.
  destruct (String.eqb_spec topic ""); [done|]. rewrite make_ok; [done|].
  unfold zlen in *. lia.
Qed.

(** C5: decoding inverts encoding. Whatever Encode produces, Decode reads back as
    the same frame. *)
Theorem Decode_Encode f d : Encode f = Ok d → Decode d = Ok f.
Proof. apply Decode_Encode_lemma. Qed.

Lemma Decode_safe_lemma d :
  zlen d ≤ max_alloc → max_alloc + 8 ≤ maxVarInt8 →
  match Decode d with
  | Panic => False
  | Err _ => True
  | Ok f =>
      frame_Kind f ≠ x00 ∧ frame_Topic f ≠ ""%string ∧
      bytes_of_string (frame_Topic f) ++ frame_Payload f `suffix_of` d ∧
      ∃ d', Encode f = Ok d' ∧ zlen d' ≤ zlen d
  end.
Proof.
  intros Hd Hmax. destruct d as [|kind [|b rest]]; [done..|].
  destruct (decide (kind = x00)) as [->|Hk]; [done|].
  destruct (varint_parse (b :: rest)) as [[topicLen n]|] eqn:Hp.
  2: { unfold Wire.Decode. by rewrite bool_decide_false, Hp. }
  rewrite (Decode_body _ _ _ _ _ Hk Hp). pose proof (varint_minimal _ _ _ Hp) as Hmin.
  destruct (varint_parse_bounds _ _ _ Hp) as (Hv & Hn & Hl).
  destruct (Z.ltb_spec (zlen (b :: rest)) (Z.of_nat n + topicLen)) as [|Hfit]; [done|].
  cbv zeta. set (tail := drop n (b :: rest)).
  assert (Htail : zlen (b :: rest) = Z.of_nat n + zlen tail)
    by (unfold tail, zlen; rewrite length_drop; lia).
  set (tb := take (Z.to_nat topicLen) tail). set (payload := drop (Z.to_nat topicLen) tail).
  assert (Htb : zlen tb = topicLen) by (unfold tb, zlen in *; rewrite length_take; lia).
  assert (Hpl : zlen payload = zlen tail - topicLen)
    by (unfold payload, zlen in *; rewrite length_drop; lia).
  rewrite (zlen_cons kind) in *.
  destruct (String.eqb_spec (string_of_bytes tb) "") as [|Hne]; [done|].
  rewrite make_ok by lia. cbn [obind frame_Kind frame_Topic frame_Payload].
  split; [done|]. split; [done|]. rewrite bytes_of_string_of_bytes. split.
  { unfold tb, payload. rewrite take_drop. exists (kind :: take n (b :: rest)).
    unfold tail. simpl. by rewrite take_drop. }
  destruct (varint_len_bytes topicLen Hv) as [Hvl Hvl8].
  assert (Hvn : varint_len topicLen ≤ Z.of_nat n) by (rewrite Hvl; unfold zlen; lia).
  eexists. split.
  - unfold Wire.Encode. simpl. rewrite bool_decide_false by done.
    destruct (String.eqb_spec (string_of_bytes tb) ""); [done|].
    rewrite bytes_of_string_of_bytes, Htb. unfold quicvarint_Len, quicvarint_Append.
    destruct (Z.leb_spec topicLen maxVarInt8); [|lia]. simpl. rewrite make_ok by lia. done.
  - rewrite ?app_nil_l, !(zlen_cons kind), !zlen_app. lia.
Qed.

(** Decode is safe on every input and canonical re-encoding never grows. On
    data no longer than the largest slice it returns a frame or an error and never
    panics. A frame it accepts has a kind and a topic, takes up at most the data,
    and encodes again into no more bytes than were read. *)
Theorem Decode_safe d :
  zlen d ≤ max_alloc → max_alloc + 8 ≤ maxVarInt8 →
  match Decode d with
  | Panic => False
  | Err _ => True
  | Ok f =>
      frame_Kind f ≠ x00 ∧ frame_Topic f ≠ ""%string ∧
      bytes_of_string (frame_Topic f) ++ frame_Payload f `suffix_of` d ∧
      ∃ d', Encode f = Ok d' ∧ zlen d' ≤ zlen d
  end.
Proof. apply Decode_safe_lemma. Qed.

(** ** Streams *)

(** An in-memory writer, which never fails. *)
Definition buffer_write (d buf : list byte) : outcome io_error (list byte) := Ok (buf ++ d).

(** Write frames one after the other. *)
Fixpoint write_frames (fs : list Frame) (buf : list byte) : outcome wire_error (list byte) :=
  match fs with
  | [] => Ok buf
  | f :: fs => let! buf := WriteStreamFrame max_alloc buffer_write buf f in write_frames fs buf
  end.

(** Read [n] frames. *)
Fixpoint read_frames (n : nat) (r : Reader) : outcome wire_error (list Frame * Reader) :=
  match n with
  | O => Ok ([], r)
  | S n =>
      let! (f, r) := ReadStreamFrame r in
      let! (fs, r) := read_frames n r in
      Ok (f :: fs, r)
  end.

Lemma WriteStreamFrame_inv buf f buf' :
  WriteStreamFrame max_alloc buffer_write buf f = Ok buf' →
  ∃ d, Encode f = Ok d ∧ zlen d ≤ maxVarInt8 ∧ buf' = buf ++ varint_bytes (zlen d) ++ d.
Proof.
  unfold WriteStreamFrame. intros Hw. inv_ok.
  unfold quicvarint_Len, quicvarint_Append, buffer_write in *.
  destruct (Z.leb_spec (zlen x) maxVarInt8); [|done]. inv_ok.
  exists x. split_and!; try done. by rewrite <-app_assoc.
Qed.

Lemma ReadStreamFrame_one d f rest e :
  Encode f = Ok d → zlen d ≤ maxVarInt8 →
  ReadStreamFrame (mkReader (varint_bytes (zlen d) ++ d ++ rest) e) = Ok (f, mkReader rest e).
Proof.
  intros Hf Hd. unfold Wire.ReadStreamFrame. pose proof (zlen_nonneg d).
  erewrite varint_read_parse by (apply varint_parse_bytes; simpl; lia). simpl.
  rewrite drop_app_length.
  destruct (Encode_inv _ _ Hf) as (_ & _ & _ & Hmax & Hdeq).
  assert (zlen d ≠ 0) by (rewrite Hdeq, zlen_cons; pose proof (zlen_nonneg (varint_bytes
    (zlen (bytes_of_string (frame_Topic f))) ++ bytes_of_string (frame_Topic f) ++ frame_Payload f)); lia).
  rewrite make_ok by lia. cbn [obind]. unfold ReadFull.
  destruct (Z.eqb_spec (zlen d) 0); [done|]. simpl. rewrite zlen_app. pose proof (zlen_nonneg rest).
  destruct (Z.leb_spec (zlen d) (zlen d + zlen rest)); [|lia].
  replace (Z.to_nat (zlen d)) with (length d) by (unfold zlen; lia).
  rewrite take_app_length, drop_app_length. simpl. by rewrite (Decode_Encode_lemma f d Hf).
Qed.

Lemma write_frames_read fs : ∀ buf buf' rest e,
  write_frames fs buf = Ok buf' →
  ∃ ext, buf' = buf ++ ext ∧
    read_frames (length fs) (mkReader (ext ++ rest) e) = Ok (fs, mkReader rest e).
Proof.
  induction fs as [|f fs IH]; intros buf buf' rest e Hw; simpl in Hw.
  { injection Hw as <-. exists []. by rewrite app_nil_r. }
  inv_ok. apply WriteStreamFrame_inv in E as (d & Hd & Hl & ->).
  destruct (IH _ _ rest e Hw) as (ext & -> & Hr).
  exists ((varint_bytes (zlen d) ++ d) ++ ext). split; [by rewrite !app_assoc|].
  simpl. rewrite <-!app_assoc, (ReadStreamFrame_one _ f) by done. simpl. by rewrite Hr.
Qed.

(** C24: a stream carries a sequence of frames faithfully. Frames written with
    WriteStreamFrame one after the other are read back by as many ReadStreamFrame
    calls, in order and unchanged, leaving exactly what follows them; at the end
    of the stream the next call fails with the stream's own end error. *)
Theorem stream_roundtrip fs buf e :
  write_frames fs [] = Ok buf →
  read_frames (length fs) (mkReader buf e) = Ok (fs, mkReader [] e) ∧
  ReadStreamFrame (mkReader [] e) = Err (ErrReadSize e).
Proof.
  intros Hw. destruct (write_frames_read fs [] buf [] e Hw) as (ext & -> & Hr).
  rewrite app_nil_r in Hr. split; [done|].
  unfold Wire.ReadStreamFrame. by rewrite varint_read_nil.
Qed.

(** Reading panics just on a size for which there is no slice. *)
Lemma ReadStreamFrame_panics_iff r :
  0 ≤ max_alloc → max_alloc + 8 ≤ maxVarInt8 →
  ReadStreamFrame r = Panic ↔ ∃ size r', varint_read r = Ok (size, r') ∧ max_alloc < size.
Proof.
  intros Hm Hmax. unfold Wire.ReadStreamFrame. destruct (varint_parse (rd_data r)) as [[v n]|] eqn:Hp.
  - pose proof (varint_parse_bounds _ _ _ Hp) as [Hv _]. rewrite (varint_read_parse _ _ _ Hp). simpl.
    destruct (Z.le_gt_cases v max_alloc) as [Hle|Hgt].
    + split; [|intros (s & r' & [= <- <-] & ?); lia]. rewrite make_ok by lia. cbn [obind].
      unfold ReadFull. simpl. destruct (Z.eqb_spec v 0) as [->|]; [done|].
      destruct (Z.leb_spec v (zlen (drop n (rd_data r)))) as [Hlen|_]; [|by repeat case_match].
      pose proof (Decode_safe_lemma (take (Z.to_nat v) (drop n (rd_data r)))) as Hsafe.
      assert (zlen (take (Z.to_nat v) (drop n (rd_data r))) = v) as Hz
        by (unfold zlen in *; rewrite length_take; lia).
      rewrite Hz in Hsafe. specialize (Hsafe Hle Hmax). simpl. by destruct (Decode _).
    + split; [intros _; eauto|intros _]. unfold make. by bdestruct_all; try lia.
  - destruct (varint_read_error _ Hp) as [e ->]. simpl. split; [done|]. by intros (s & r' & [=] & _).
Qed.

(** ReadStreamFrame trusts the size it reads. A stream whose first integer is
    larger than the largest slice makes it panic, whatever follows: eight bytes
    from the peer are enough. *)
Theorem ReadStreamFrame_size_panics v rest e :
  max_alloc < v ≤ maxVarInt8 → 0 ≤ max_alloc →
  ReadStreamFrame (mkReader (varint_bytes v ++ rest) e) = Panic.
Proof.
  intros Hv Hm. unfold Wire.ReadStreamFrame.
  erewrite varint_read_parse by (apply varint_parse_bytes; lia). simpl.
  unfold make. bdestruct_all; [lia|done|lia..].
Qed.

(** A stream cut anywhere inside a frame gives an error, never a frame. If only
    a part of the encoded frame arrived after its size, reading fails: with the
    stream's end error when not one byte of the frame arrived (which for a clean end
    callers take for the end of the stream), and as an unexpected EOF when some did. *)
Theorem ReadStreamFrame_truncated f d k e :
  Encode f = Ok d → (k < length d)%nat → zlen d ≤ maxVarInt8 →
  ∃ err, ReadStreamFrame (mkReader (varint_bytes (zlen d) ++ take k d) e) = Err (ErrReadBody err) ∧
    (k = 0%nat → err = e) ∧ ((0 < k)%nat → e = EOF → err = ErrUnexpectedEOF).
Proof.
  intros Hf Hk Hd. unfold Wire.ReadStreamFrame. pose proof (zlen_nonneg d).
  erewrite varint_read_parse by (apply varint_parse_bytes; simpl; lia). simpl.
  rewrite drop_app_length. destruct (Encode_inv _ _ Hf) as (_ & _ & _ & Hmax & _).
  rewrite make_ok by lia. cbn [obind]. unfold ReadFull. simpl.
  assert (zlen (take k d) = Z.of_nat k) as Hlk by (unfold zlen; rewrite length_take; lia).
  assert (zlen d = Z.of_nat (length d)) as Hdl by done.
  destruct (Z.eqb_spec (zlen d) 0); [lia|]. rewrite Hlk.
  destruct (Z.leb_spec (zlen d) (Z.of_nat k)); [lia|].
  destruct (take k d) as [|b l] eqn:Et.
  - simpl. exists e. split_and!; [done|done|]. intros Hk0. rewrite zlen_nil in Hlk. lia.
  - destruct e; simpl; eexists; (split; [done|]); split; try done; intros ->;
      rewrite zlen_cons in Hlk; pose proof (zlen_nonneg l); lia.
Qed.

End theorems.

(** ** Instances *)

Definition hello : Frame := mkFrame KindPub "topic-a" (bytes_of_string "hello").
Definition hello_bytes : list byte :=
  [x01; x07] ++ bytes_of_string "topic-a" ++ bytes_of_string "hello".
Definition alloc_limit : Z := 2 ^ 48.

Lemma Decode_Encode_witness : Decode alloc_limit hello_bytes = Ok hello.
Proof. apply (Decode_Encode alloc_limit hello hello_bytes). vm_compute. reflexivity. Defined.

Lemma Decode_safe_witness :
  match Decode alloc_limit hello_bytes with
  | Panic => False
  | Err _ => True
  | Ok f =>
      frame_Kind f ≠ x00 ∧ frame_Topic f ≠ ""%string ∧
      bytes_of_string (frame_Topic f) ++ frame_Payload f `suffix_of` hello_bytes ∧
      ∃ d', Encode alloc_limit f = Ok d' ∧ zlen d' ≤ zlen hello_bytes
  end.
Proof. apply (Decode_safe alloc_limit hello_bytes); vm_compute; discriminate. Defined.

Lemma stream_roundtrip_witness :
  match write_frames alloc_limit [hello; mkFrame KindSub "t" []; hello] [] with
  | Ok buf =>
      read_frames alloc_limit 3 (mkReader buf EOF)
        = Ok ([hello; mkFrame KindSub "t" []; hello], mkReader [] EOF) ∧
      ReadStreamFrame alloc_limit (mkReader [] EOF) = Err (ErrReadSize EOF)
  | _ => False
  end.
Proof.
  destruct (write_frames alloc_limit [hello; mkFrame KindSub "t" []; hello] []) as [buf| |] eqn:E;
    [|vm_compute in E; discriminate E..].
  apply (stream_roundtrip alloc_limit [hello; mkFrame KindSub "t" []; hello] buf EOF E).
Defined.

Lemma ReadStreamFrame_size_panics_witness :
  ReadStreamFrame alloc_limit (mkReader (varint_bytes (2 ^ 50)) EOF) = Panic ∧
  length (varint_bytes (2 ^ 50)) = 8%nat.
Proof.
  split; [|reflexivity]. rewrite <-(app_nil_r (varint_bytes (2 ^ 50))).
  apply (ReadStreamFrame_size_panics alloc_limit (2 ^ 50) [] EOF); unfold alloc_limit, maxVarInt8; lia.
Defined.

Lemma ReadStreamFrame_truncated_witness :
  ∃ err, ReadStreamFrame alloc_limit (mkReader (varint_bytes (zlen hello_bytes) ++ take 5 hello_bytes) EOF)
           = Err (ErrReadBody err) ∧
         (5%nat = 0%nat → err = EOF) ∧ ((0 < 5)%nat → EOF = EOF → err = ErrUnexpectedEOF).
Proof.
  apply (ReadStreamFrame_truncated alloc_limit hello hello_bytes 5 EOF);
    [vm_compute; reflexivity|simpl; lia|vm_compute; discriminate].
Defined.
