(* ===== verification/Broker.v ===== *)
(** * Broker: pub/sub sessions and topics ([internal/broker])

    The broker maps each topic to its set of subscribed sessions. A session has a
    bounded datagram queue that drops its oldest frame when full, a bounded stream
    queue on which publishers block, and its own set of topics. Session objects
    live in a store and are named by identifiers, as the maps of the source are
    keyed by session pointers.

    The goroutines of a session interleave: [sys_step] is the step relation of
    the whole broker, with one step per critical section or channel operation. A
    vector of metrics panics on label values that it does not take ([Collectors]); a
    step is one in which nothing panics. *)

From S2P Require Import Prelude Wire Collectors.

Abbreviation sid := positive (only parsing).
Abbreviation topic := string (only parsing).

Inductive Surface :=
| SurfaceDatagram
| SurfaceStream
| SurfaceOther (s : string).

Definition surfaceLabel (s : Surface) : string :=
  match s with
  | SurfaceDatagram => "wt_datagram"
  | SurfaceStream => "wt_stream"
  | SurfaceOther s => s
  end.

(** ** Server metrics the broker updates: a value per label vector *)

Record Metrics := mkMetrics {
  PubSubSubscribers : gmap topic Z;
  PubSubDrops : gmap (list string) Z;
  Bytes : gmap (list string) Z;
  Streams : gmap (list string) Z;
}.
Definition zero_Metrics : Metrics := mkMetrics ∅ ∅ ∅ ∅.

Definition series_add {K} `{Countable K} (k : K) (d : Z) (m : gmap K Z) : gmap K Z :=
  <[k := default 0 (m !! k) + d]> m.
Definition series {K} `{Countable K} (m : gmap K Z) (k : K) : Z := default 0 (m !! k).

Definition add_subscribers (t : topic) (d : Z) (m : Metrics) : Metrics :=
  mkMetrics (series_add t d (PubSubSubscribers m)) (PubSubDrops m) (Bytes m) (Streams m).
Definition add_drop (ls : list string) (m : Metrics) : Metrics :=
  mkMetrics (PubSubSubscribers m) (series_add ls 1 (PubSubDrops m)) (Bytes m) (Streams m).
Definition add_bytes (ls : list string) (n : Z) (m : Metrics) : Metrics :=
  mkMetrics (PubSubSubscribers m) (PubSubDrops m) (series_add ls n (Bytes m)) (Streams m).
Definition add_stream (ls : list string) (m : Metrics) : Metrics :=
  mkMetrics (PubSubSubscribers m) (PubSubDrops m) (Bytes m) (series_add ls 1 (Streams m)).

(** ** The broker *)

Record Broker := mkBroker {
  metrics : option Metrics;
  topics : gmap topic (gset sid);
}.

Definition New (m : option Metrics) : Broker := mkBroker m ∅.

(** [if b.metrics != nil { b.metrics.c.WithLabelValues(ls...) ... }] *)
Section metrics.
Context `{Labels}.

Definition count {E} (c : ServerMetrics → collector) (ls : list string) (f : Metrics → Metrics) (b : Broker)
    : outcome E Broker :=
  match metrics b with
  | None => Ok b
  | Some m => if WithLabelValues (c serverMetrics) ls then Ok (mkBroker (Some (f m)) (topics b)) else Panic
  end.
Definition count_subscribers {E} (t : topic) (d : Z) : Broker → outcome E Broker :=
  count sm_PubSubSubscribers [t] (add_subscribers t d).
Definition count_drop {E} (ls : list string) : Broker → outcome E Broker :=
  count sm_PubSubDrops ls (add_drop ls).
Definition count_bytes {E} (ls : list string) (n : Z) : Broker → outcome E Broker :=
  count sm_Bytes ls (add_bytes ls n).
Definition count_stream {E} (ls : list string) : Broker → outcome E Broker :=
  count sm_Streams ls (add_stream ls).

Definition subscribers (b : Broker) (t : topic) : gset sid := default ∅ (topics b !! t).

(** The broker when the metrics are reached, and the call. *)
Definition subscribe_topic (b : Broker) (s : sid) (t : topic) : Broker :=
  mkBroker (metrics b) (<[t := {[s]} ∪ subscribers b t]> (topics b)).
Definition subscribe (b : Broker) (s : sid) (t : topic) : exec Broker :=
  count_subscribers t 1 (subscribe_topic b s t).

(** The common body of [unsubscribe] and of the loop of [removeSession], on the
    subscriber set [subs] of topic [t]. *)
Definition drop_subscriber (b : Broker) (s : sid) (t : topic) (subs : gset sid) : exec Broker :=
  let! b := (if bool_decide (s ∈ subs) then count_subscribers t (-1) b else Ok b) in
  let subs := subs ∖ {[s]} in
  Ok (if bool_decide (subs = ∅)
      then mkBroker (metrics b) (delete t (topics b))
      else mkBroker (metrics b) (<[t := subs]> (topics b))).

Definition unsubscribe (b : Broker) (s : sid) (t : topic) : exec Broker :=
  match topics b !! t with
  | None => Ok b
  | Some subs => drop_subscriber b s t subs
  end.

(** The map iteration order is arbitrary; [elements] is one of them. *)
Definition removeSession (b : Broker) (s : sid) : exec Broker :=
  foldl (λ m t, let! b := m in
                match topics b !! t with
                | Some subs => drop_subscriber b s t subs
                | None => Ok b
                end) (Ok b) (elements (dom (topics b))).
End metrics.

(** ** Sessions *)

Definition outDatagramDepth : nat := 128.
Definition outStreamDepth : nat := 32.
Definition maxDatagramBytes : Z := 1024.

Record Session := mkSession {
  clientID : string;
  outDatagram : list Frame;
  outStream : list Frame;
  subs : gset topic;
  ctx_done : bool;
}.

Definition set_outDatagram (s : Session) (q : list Frame) : Session :=
  mkSession (clientID s) q (outStream s) (subs s) (ctx_done s).
Definition set_outStream (s : Session) (q : list Frame) : Session :=
  mkSession (clientID s) (outDatagram s) q (subs s) (ctx_done s).
Definition set_subs (s : Session) (ts : gset topic) : Session :=
  mkSession (clientID s) (outDatagram s) (outStream s) ts (ctx_done s).
Definition set_done (s : Session) : Session :=
  mkSession (clientID s) (outDatagram s) (outStream s) (subs s) true.

(** The session made by [HandleRequest] from the client-ID header. *)
Definition new_session (header : string) : Session :=
  mkSession (if String.eqb header "" then "anonymous" else header) [] [] ∅ false.

(** The channel operations of [enqueueDatagram], in program order: try to send;
    when full, receive (and drop) one frame; then send or see the session end.
    A step returns the new queue and what remains to do, or [None] when it has to
    wait. When both cases of the last select are ready either may be taken;
    [prefer_send] is that choice. *)
Inductive dg_phase := DgTry | DgEvict | DgPush.
Definition enqueueDatagram_step (prefer_send : bool) (ph : dg_phase) (s : Session) (f : Frame)
    : option (Session * option dg_phase) :=
  let q := outDatagram s in
  match ph with
  | DgTry =>
      if (length q <? outDatagramDepth)%nat then Some (set_outDatagram s (q ++ [f]), None)
      else Some (s, Some DgEvict)
  | DgEvict => Some (set_outDatagram s (tail q), Some DgPush)
  | DgPush =>
      if (length q <? outDatagramDepth)%nat && (prefer_send || negb (ctx_done s))
      then Some (set_outDatagram s (q ++ [f]), None)
      else if ctx_done s then Some (s, None) else None
  end.

(** The call when nothing else runs in between. *)
Definition enqueueDatagram (prefer_send : bool) (s : Session) (f : Frame) : option Session :=
  match enqueueDatagram_step prefer_send DgTry s f with
  | Some (s, None) => Some s
  | Some (s, Some ph) =>
      match enqueueDatagram_step prefer_send ph s f with
      | Some (s, Some ph) => fst <$> enqueueDatagram_step prefer_send ph s f
      | Some (s, None) => Some s
      | None => None
      end
  | None => None
  end.

(** [enqueueStream] blocks ([None]) until there is room or the session ends. *)
Definition enqueueStream (prefer_send : bool) (s : Session) (f : Frame) : option Session :=
  let room := (length (outStream s) <? outStreamDepth)%nat in
  if room && (prefer_send || negb (ctx_done s))
  then Some (set_outStream s (outStream s ++ [f]))
  else if ctx_done s then Some s
  else None.

Section publish.
Context `{Labels}.

(** [Publish] up to the release of the lock: count the bytes and take a snapshot of
    the subscribers. *)
Definition Publish_snapshot (b : Broker) (f : Frame) (surf : Surface) : exec (Broker * gset sid) :=
  let! b := count_bytes [surfaceLabel surf; "in"%string] (zlen (frame_Payload f)) b in
  Ok (b, subscribers b (frame_Topic f)).

(** [Publish] on the datagram surface when nothing else runs in between: deliver
    to the snapshot in the given order. *)
Definition deliver_datagram (prefer_send : bool) (f : Frame) (store : gmap sid Session) (s : sid) : gmap sid Session :=
  match store !! s with
  | Some sess =>
      match enqueueDatagram prefer_send sess f with
      | Some sess => <[s := sess]> store
      | None => store
      end
  | None => store
  end.
Definition Publish_datagram (prefer_send : bool) (b : Broker) (store : gmap sid Session) (f : Frame) (order : list sid)
    : exec (Broker * gmap sid Session) :=
  let! (b, _) := Publish_snapshot b f SurfaceDatagram in
  Ok (b, foldl (deliver_datagram prefer_send f) store order).

(** The same on the stream surface; [None] when the publisher blocks on a full queue
    of a session that has not ended. *)
Definition deliver_stream (prefer_send : bool) (f : Frame) (store : option (gmap sid Session)) (s : sid)
    : option (gmap sid Session) :=
  store ← store;
  match store !! s with
  | Some sess => (λ sess, <[s := sess]> store) <$> enqueueStream prefer_send sess f
  | None => Some store
  end.
Definition Publish_stream (prefer_send : bool) (b : Broker) (store : gmap sid Session) (f : Frame) (order : list sid)
    : exec (Broker * option (gmap sid Session)) :=
  let! (b, _) := Publish_snapshot b f SurfaceStream in
  Ok (b, foldl (deliver_stream prefer_send f) (Some store) order).
End publish.

(** [Session.subscribe] and [Session.unsubscribe] up to the call of the broker:
    whether there is one, and the new state. *)
Definition session_subscribe (s : Session) (t : topic) : bool * Session :=
  if bool_decide (t ∈ subs s) then (false, s) else (true, set_subs s ({[t]} ∪ subs s)).
Definition session_unsubscribe (s : Session) (t : topic) : Session :=
  set_subs s (subs s ∖ {[t]}).

(** ** The readers and writers of a session *)

Section io.
Context `{Varint} `{Labels} (max_alloc : Z).

(** One iteration of [datagramReader] on a received datagram: the frame to publish,
    if any. *)
Definition datagramReader_step (b : Broker) (d : list byte) : outcome wire_error (Broker * option Frame) :=
  if maxDatagramBytes <? zlen d
  then let! b := count_drop ["wt_datagram"; ""; "incoming_oversize"]%string b in Ok (b, None)
  else
    match Decode max_alloc d with
    | Panic => Panic
    | Err _ => let! b := count_drop ["wt_datagram"; ""; "incoming_invalid"]%string b in Ok (b, None)
    | Ok f =>
        if bool_decide (frame_Kind f ≠ KindPub)
        then let! b := count_drop ["wt_datagram"; frame_Topic f; "incoming_non_pub"]%string b in Ok (b, None)
        else Ok (b, Some f)
    end.

(** One iteration of [datagramWriter] on a dequeued frame: what is sent, if
    anything, and whether the loop goes on. [send_ok] is the transport's answer. *)
Definition datagramWriter_step (send_ok : bool) (b : Broker) (f : Frame)
    : outcome wire_error (Broker * option (list byte) * bool) :=
  match Encode max_alloc f with
  | Panic => Panic
  | Err _ => Ok (b, None, true)
  | Ok d =>
      if maxDatagramBytes <? zlen d
      then let! b := count_drop ["wt_datagram"; frame_Topic f; "outgoing_oversize"]%string b in Ok (b, None, true)
      else if send_ok
      then let! b := count_bytes ["wt_datagram"; "out"]%string (zlen (frame_Payload f)) b in Ok (b, Some d, true)
      else Ok (b, Some d, false)
  end.

(** One iteration of [streamWriter]: [str] is the opened stream, if it could be
    opened, and [write] its Write. *)
Definition streamWriter_step {S} (write : list byte → S → outcome io_error S) (str : option S)
    (b : Broker) (f : Frame) : outcome wire_error (Broker * option S * bool) :=
  match str with
  | None => Ok (b, None, false)
  | Some w =>
      let! b := count_stream ["delivery"; "out"]%string b in
      match WriteStreamFrame max_alloc write w f with
      | Panic => Panic
      | Err _ => Ok (b, None, true)
      | Ok w => let! b := count_bytes ["wt_stream"; "out"]%string (zlen (frame_Payload f)) b in Ok (b, Some w, true)
      end
  end.

(** What [readControl] does with a frame it has read. *)
Inductive control_action :=
| CtlSubscribe (t : topic)
| CtlUnsubscribe (t : topic)
| CtlPublish (f : Frame)
| CtlIgnore.
Definition readControl_dispatch (f : Frame) : control_action :=
  if bool_decide (frame_Kind f = KindSub) then CtlSubscribe (frame_Topic f)
  else if bool_decide (frame_Kind f = KindUnsub) then CtlUnsubscribe (frame_Topic f)
  else if bool_decide (frame_Kind f = KindPub) then CtlPublish f
  else CtlIgnore.

(** One iteration of [readControl] up to the switch, on what the control stream still
    delivers. *)
Definition readControl_step (b : Broker) (r : Reader) : outcome wire_error (Broker * control_action * Reader) :=
  let! (f, r) := ReadStreamFrame max_alloc r in
  let! b := count_stream ["control"; "in"]%string b in
  Ok (b, readControl_dispatch f, r).

(** ** Interleaving *)

(** Where the control goroutine of a session is. *)
Inductive ctl_pc :=
| Reading
| Subscribing (t : topic)
| Unsubscribing (t : topic)
| Publishing
| Cleanup
| Closed.

(** A [Publish] call past its snapshot: the sessions still to serve, and the phase
    of the datagram enqueue into the first of them. *)
Record publication := mkPublication {
  pub_frame : Frame;
  pub_surface : Surface;
  pub_targets : list sid;
  pub_phase : dg_phase;
}.

(** A publishing goroutine: the control reader ([true]) or the datagram reader of
    a session. *)
Abbreviation publisher := (sid * bool)%type (only parsing).

Record sys := mkSys {
  sys_broker : Broker;
  sys_sessions : gmap sid Session;
  sys_ctl : gmap sid ctl_pc;
  sys_pubs : gmap publisher publication;
}.
Definition init_sys (m : option Metrics) : sys := mkSys (New m) ∅ ∅ ∅.

Definition set_ctl (y : sys) (i : sid) (p : ctl_pc) : sys :=
  mkSys (sys_broker y) (sys_sessions y) (<[i := p]> (sys_ctl y)) (sys_pubs y).
Definition set_session (y : sys) (i : sid) (s : Session) : sys :=
  mkSys (sys_broker y) (<[i := s]> (sys_sessions y)) (sys_ctl y) (sys_pubs y).
Definition set_broker (y : sys) (b : Broker) : sys :=
  mkSys b (sys_sessions y) (sys_ctl y) (sys_pubs y).
Definition set_pub (y : sys) (k : publisher) (p : publication) : sys :=
  mkSys (sys_broker y) (sys_sessions y) (sys_ctl y) (<[k := p]> (sys_pubs y)).
Definition end_pub (y : sys) (k : publisher) : sys :=
  mkSys (sys_broker y) (sys_sessions y) (sys_ctl y) (delete k (sys_pubs y)).

(** One channel operation of a publication on its first target. *)
Definition publish_one (prefer_send : bool) (p : publication) (s : Session)
    : option (Session * publication) :=
  match pub_surface p with
  | SurfaceDatagram =>
      match enqueueDatagram_step prefer_send (pub_phase p) s (pub_frame p) with
      | Some (s, Some ph) => Some (s, mkPublication (pub_frame p) (pub_surface p) (pub_targets p) ph)
      | Some (s, None) =>
          Some (s, mkPublication (pub_frame p) (pub_surface p) (tail (pub_targets p)) DgTry)
      | None => None
      end
  | _ =>
      match enqueueStream prefer_send s (pub_frame p) with
      | Some s => Some (s, mkPublication (pub_frame p) (pub_surface p) (tail (pub_targets p)) DgTry)
      | None => None
      end
  end.

(** [readControl] counts every frame it has read. *)
Definition count_control (y : sys) : exec sys :=
  let! b := count_stream ["control"; "in"]%string (sys_broker y) in Ok (set_broker y b).

Inductive sys_step : sys → sys → Prop :=
| step_open y i header :
    sys_sessions y !! i = None → sys_ctl y !! i = None →
    sys_step y (set_ctl (set_session y i (new_session header)) i Reading)
| step_subscribe_skip y y1 i s f t :
    sys_ctl y !! i = Some Reading → sys_sessions y !! i = Some s → count_control y = Ok y1 →
    readControl_dispatch f = CtlSubscribe t → (session_subscribe s t).1 = false →
    sys_step y y1
| step_subscribe y y1 i s f t :
    sys_ctl y !! i = Some Reading → sys_sessions y !! i = Some s → count_control y = Ok y1 →
    readControl_dispatch f = CtlSubscribe t → (session_subscribe s t).1 = true →
    sys_step y (set_ctl (set_session y1 i (session_subscribe s t).2) i (Subscribing t))
| step_subscribe_commit y i t b :
    sys_ctl y !! i = Some (Subscribing t) → subscribe (sys_broker y) i t = Ok b →
    sys_step y (set_ctl (set_broker y b) i Reading)
| step_unsubscribe y y1 i s f t :
    sys_ctl y !! i = Some Reading → sys_sessions y !! i = Some s → count_control y = Ok y1 →
    readControl_dispatch f = CtlUnsubscribe t →
    sys_step y (set_ctl (set_session y1 i (session_unsubscribe s t)) i (Unsubscribing t))
| step_unsubscribe_commit y i t b :
    sys_ctl y !! i = Some (Unsubscribing t) → unsubscribe (sys_broker y) i t = Ok b →
    sys_step y (set_ctl (set_broker y b) i Reading)
| step_control_publish y y1 i f b targets order :
    sys_ctl y !! i = Some Reading → count_control y = Ok y1 → readControl_dispatch f = CtlPublish f →
    Publish_snapshot (sys_broker y1) f SurfaceStream = Ok (b, targets) → order ≡ₚ elements targets →
    sys_step y (set_ctl (set_pub (set_broker y1 b) (i, true) (mkPublication f SurfaceStream order DgTry))
                  i Publishing)
| step_control_ignore y y1 i f :
    sys_ctl y !! i = Some Reading → count_control y = Ok y1 → readControl_dispatch f = CtlIgnore →
    sys_step y y1
| step_datagram_drop y i s d b :
    sys_sessions y !! i = Some s → sys_pubs y !! (i, false) = None →
    datagramReader_step (sys_broker y) d = Ok (b, None) →
    sys_step y (set_broker y b)
| step_datagram_publish y i s d b f b' targets order :
    sys_sessions y !! i = Some s → sys_pubs y !! (i, false) = None →
    datagramReader_step (sys_broker y) d = Ok (b, Some f) →
    Publish_snapshot b f SurfaceDatagram = Ok (b', targets) → order ≡ₚ elements targets →
    sys_step y (set_pub (set_broker y b') (i, false) (mkPublication f SurfaceDatagram order DgTry))
| step_publish y k p i s s' p' prefer :
    sys_pubs y !! k = Some p → head (pub_targets p) = Some i →
    sys_sessions y !! i = Some s → publish_one prefer p s = Some (s', p') →
    sys_step y (set_pub (set_session y i s') k p')
| step_publish_done_control y i p :
    sys_pubs y !! (i, true) = Some p → pub_targets p = [] →
    sys_ctl y !! i = Some Publishing →
    sys_step y (set_ctl (end_pub y (i, true)) i Reading)
| step_publish_done_datagram y i p :
    sys_pubs y !! (i, false) = Some p → pub_targets p = [] →
    sys_step y (end_pub y (i, false))
| step_datagram_write y i s f q b out go ok :
    sys_sessions y !! i = Some s → outDatagram s = f :: q →
    datagramWriter_step ok (sys_broker y) f = Ok (b, out, go) →
    sys_step y (set_broker (set_session y i (set_outDatagram s q)) b)
| step_stream_write y i s f q b (str w : option (list byte)) go
    (write : list byte → list byte → outcome io_error (list byte)) :
    sys_sessions y !! i = Some s → outStream s = f :: q →
    streamWriter_step write str (sys_broker y) f = Ok (b, w, go) →
    sys_step y (set_broker (set_session y i (set_outStream s q)) b)
| step_context_done y i s :
    sys_sessions y !! i = Some s →
    sys_step y (set_session y i (set_done s))
| step_control_end y i :
    sys_ctl y !! i = Some Reading →
    sys_step y (set_ctl y i Cleanup)
| step_cleanup y i s b :
    sys_ctl y !! i = Some Cleanup → sys_sessions y !! i = Some s → removeSession (sys_broker y) i = Ok b →
    sys_step y (set_ctl (set_session (set_broker y b) i (set_done s)) i Closed).

Inductive reachable (m : option Metrics) : sys → Prop :=
| reach_init : reachable m (init_sys m)
| reach_step y y' : reachable m y → sys_step y y' → reachable m y'.

End io.
