(* ===== verification/BrokerTheorems.v ===== *)
(** * BrokerTheorems: what the broker promises

    Sequential properties of the operations of [Broker], then an invariant of
    every reachable state of its step relation. *)

From S2P Require Import Prelude Text Wire Varint WireTheorems Collectors Broker.

(** ** The operations when nothing panics *)

Definition with_metrics (f : Metrics → Metrics) (b : Broker) : Broker :=
  mkBroker (f <$> metrics b) (topics b).

Definition subscribed (b : Broker) (i : sid) (t : topic) : Broker :=
  with_metrics (add_subscribers t 1) (subscribe_topic b i t).
Definition dropped (b : Broker) (i : sid) (t : topic) (subs : gset sid) : Broker :=
  let b := if bool_decide (i ∈ subs) then with_metrics (add_subscribers t (-1)) b else b in
  let subs := subs ∖ {[i]} in
  if bool_decide (subs = ∅)
  then mkBroker (metrics b) (delete t (topics b))
  else mkBroker (metrics b) (<[t := subs]> (topics b)).
Definition unsubscribed (b : Broker) (i : sid) (t : topic) : Broker :=
  match topics b !! t with
  | None => b
  | Some subs => dropped b i t subs
  end.
Definition removed (b : Broker) (i : sid) : Broker :=
  foldl (λ b t, unsubscribed b i t) b (elements (dom (topics b))).

Section without_panic.
Context `{Labels}.

(** The broker has no metrics, or the vector takes the values. *)
Definition accepted (b : Broker) (c : ServerMetrics → collector) (ls : list string) : Prop :=
  metrics b = None ∨ WithLabelValues (c serverMetrics) ls = true.

Lemma count_cases {E} c ls f b :
  (accepted b c ls ∧ count (E:=E) c ls f b = Ok (with_metrics f b)) ∨
  (¬ accepted b c ls ∧ count (E:=E) c ls f b = Panic).
Proof.
  unfold accepted, count, with_metrics. destruct b as [[m|] ts]; simpl; [|by left; split; [left|]].
  destruct (WithLabelValues _ _) eqn:E'; [left; split; [by right|done]|].
  right. split; [|done]. intros [|]; done.
Qed.

Lemma count_Ok {E} c ls f b b' : count (E:=E) c ls f b = Ok b' → b' = with_metrics f b.
Proof. destruct (count_cases (E:=E) c ls f b) as [[_ ->]|[_ ->]]; [by intros [= <-]|done]. Qed.

Lemma count_accepted {E} c ls f b : accepted b c ls → count (E:=E) c ls f b = Ok (with_metrics f b).
Proof. by destruct (count_cases (E:=E) c ls f b) as [[_ ->]|[? _]]. Qed.

Lemma subscribe_Ok b i t b' : subscribe b i t = Ok b' → b' = subscribed b i t.
Proof. apply count_Ok. Qed.

Lemma drop_subscriber_Ok b i t subs b' : drop_subscriber b i t subs = Ok b' → b' = dropped b i t subs.
Proof.
  unfold drop_subscriber, dropped. intros (b1 & Hb1 & Hb)%obind_ok. injection Hb as <-.
  case_bool_decide; [by apply count_Ok in Hb1 as ->|by injection Hb1 as <-].
Qed.

Lemma unsubscribe_Ok b i t b' : unsubscribe b i t = Ok b' → b' = unsubscribed b i t.
Proof.
  unfold unsubscribe, unsubscribed. destruct (topics b !! t); [apply drop_subscriber_Ok|by intros [= <-]].
Qed.

Lemma removeSession_run (ts : list topic) (m : exec Broker) i :
  foldl (λ m t, let! b := m in
                match topics b !! t with
                | Some subs => drop_subscriber b i t subs
                | None => Ok b
                end) m ts =
  foldl (λ m t, let! b := m in unsubscribe b i t) m ts.
Proof. done. Qed.

Lemma foldl_unsubscribe_Ok ts (m : exec Broker) i b' :
  foldl (λ m t, let! b := m in unsubscribe b i t) m ts = Ok b' →
  ∃ b, m = Ok b ∧ b' = foldl (λ b t, unsubscribed b i t) b ts.
Proof.
  revert m. induction ts as [|t ts IH]; intros m; simpl; [by eauto|].
  intros (b1 & (b & -> & ->%unsubscribe_Ok)%obind_ok & ->)%IH. by exists b.
Qed.

Lemma removeSession_Ok b i b' : removeSession b i = Ok b' → b' = removed b i.
Proof.
  unfold removeSession. rewrite removeSession_run. by intros (b0 & [= <-] & ->)%foldl_unsubscribe_Ok.
Qed.

Lemma Publish_snapshot_Ok b f surf b' targets :
  Publish_snapshot b f surf = Ok (b', targets) →
  b' = with_metrics (add_bytes [surfaceLabel surf; "in"%string] (zlen (frame_Payload f))) b ∧
  targets = subscribers b (frame_Topic f).
Proof. unfold Publish_snapshot. by intros (b1 & ->%count_Ok & [= <- <-])%obind_ok. Qed.
End without_panic.

(** ** Topics and gauges under one operation *)

(** No topic is kept without subscribers. *)
Definition topics_ok (b : Broker) : Prop := ∀ t s, topics b !! t = Some s → s ≠ ∅.

(** The subscriber gauge of every topic is its number of subscribers. *)
Definition gauge_ok (b : Broker) : Prop :=
  ∀ m t, metrics b = Some m → series (PubSubSubscribers m) t = Z.of_nat (size (subscribers b t)).

Lemma series_series_add {K} `{Countable K} (k k' : K) d m :
  series (series_add k d m) k' = series m k' + (if decide (k' = k) then d else 0).
Proof.
  unfold series, series_add. destruct (decide (k' = k)) as [->|Hne].
  - by rewrite lookup_insert_eq.
  - rewrite lookup_insert_ne by done. lia.
Qed.

Lemma subscribers_subscribe b i t t' :
  subscribers (subscribed b i t) t' =
  if decide (t' = t) then {[i]} ∪ subscribers b t else subscribers b t'.
Proof.
  unfold subscribers at 1, subscribed. simpl. destruct (decide (t' = t)) as [->|Hne].
  - by rewrite lookup_insert_eq.
  - by rewrite lookup_insert_ne.
Qed.

Lemma topics_drop b i t s :
  topics (dropped b i t s) =
  if decide (s ∖ {[i]} = ∅) then delete t (topics b) else <[t := s ∖ {[i]}]> (topics b).
Proof.
  unfold dropped. destruct (decide (s ∖ {[i]} = ∅)) as [E|E];
    [rewrite (bool_decide_true (_ = ∅)) by done|rewrite (bool_decide_false (_ = ∅)) by done];
    case_bool_decide; done.
Qed.

Lemma subscribers_unsubscribe b i t t' :
  subscribers (unsubscribed b i t) t' =
  if decide (t' = t) then subscribers b t ∖ {[i]} else subscribers b t'.
Proof.
  unfold unsubscribed, subscribers. destruct (topics b !! t) as [s|] eqn:E.
  - rewrite topics_drop. destruct (decide (t' = t)) as [->|Hne].
    + destruct (decide (s ∖ {[i]} = ∅)) as [Hs|Hs].
      * rewrite lookup_delete_eq. simpl. by rewrite Hs.
      * by rewrite lookup_insert_eq.
    + destruct (decide (s ∖ {[i]} = ∅)).
      * by rewrite lookup_delete_ne.
      * by rewrite lookup_insert_ne.
  - destruct (decide (t' = t)) as [->|]; [|done]. rewrite ?E. simpl. set_solver.
Qed.

Lemma subscribe_topics_ok b i t : topics_ok b → topics_ok (subscribed b i t).
Proof.
  intros Hb t' s. simpl. intros [[<- <-]|[_ ?]]%lookup_insert_Some; [set_solver|by eapply Hb].
Qed.

Lemma unsubscribe_topics_ok b i t : topics_ok b → topics_ok (unsubscribed b i t).
Proof.
  intros Hb t' s'. unfold unsubscribed. destruct (topics b !! t) as [s|]; [|apply Hb].
  rewrite topics_drop. destruct (decide (s ∖ {[i]} = ∅)).
  - intros [_ ?]%lookup_delete_Some. by eapply Hb.
  - intros [[<- <-]|[_ ?]]%lookup_insert_Some; [done|by eapply Hb].
Qed.

Lemma subscribe_gauge_ok b i t : i ∉ subscribers b t → gauge_ok b → gauge_ok (subscribed b i t).
Proof.
  intros Hi Hb m t' Hm. unfold subscribed in Hm. simpl in Hm.
  destruct (metrics b) as [m0|] eqn:Em; [|done]. injection Hm as <-. simpl.
  rewrite series_series_add, (Hb m0) by done. rewrite subscribers_subscribe.
  destruct (decide (t' = t)) as [->|]; [|lia].
  rewrite size_union, size_singleton by set_solver. lia.
Qed.

Lemma unsubscribe_gauge_ok b i t : gauge_ok b → gauge_ok (unsubscribed b i t).
Proof.
  intros Hb m t' Hm. rewrite subscribers_unsubscribe.
  unfold unsubscribed in Hm. destruct (topics b !! t) as [s|] eqn:Et.
  - assert (subscribers b t = s) as Hs by (unfold subscribers; by rewrite Et).
    unfold dropped in Hm.
    assert (Hm' : metrics (if bool_decide (i ∈ s) then with_metrics (add_subscribers t (-1)) b else b)
      = Some m) by (by destruct (bool_decide (s ∖ {[i]} = ∅))). clear Hm.
    case_bool_decide as Hi.
    + simpl in Hm'. destruct (metrics b) as [m0|] eqn:Em; [|done]. injection Hm' as <-. simpl.
      rewrite series_series_add, (Hb m0) by done.
      destruct (decide (t' = t)) as [->|]; [|lia]. rewrite Hs.
      rewrite size_difference by set_solver. rewrite size_singleton.
      assert (size s ≠ 0)%nat by (rewrite size_empty_iff; set_solver). lia.
    + rewrite (Hb m) by done. destruct (decide (t' = t)) as [->|]; [|done].
      assert (subscribers b t ∖ {[i]} = subscribers b t) as -> by set_solver. done.
  - rewrite (Hb m) by done. destruct (decide (t' = t)) as [->|]; [|done].
    assert (subscribers b t = ∅) as -> by (unfold subscribers; by rewrite Et).
    by rewrite empty_difference_L.
Qed.

Lemma foldl_unsubscribe_subscribers l b i t :
  subscribers (foldl (λ b t, unsubscribed b i t) b l) t =
  if decide (t ∈ l) then subscribers b t ∖ {[i]} else subscribers b t.
Proof.
  revert b. induction l as [|t' l IH]; intros b; simpl.
  { destruct (decide (t ∈ [])) as [?%elem_of_nil|]; done. }
  rewrite IH, subscribers_unsubscribe.
  destruct (decide (t = t')) as [->|Hne].
  - rewrite (decide_True (P := t' ∈ t' :: l)) by (by left). case_decide; set_solver.
  - destruct (decide (t ∈ l)) as [Hin|Hin].
    + by rewrite decide_True by (by right).
    + rewrite decide_False; [done|]. by intros [|]%elem_of_cons.
Qed.

Lemma subscribers_removeSession b i t :
  subscribers (removed b i) t = subscribers b t ∖ {[i]}.
Proof.
  unfold removed. rewrite foldl_unsubscribe_subscribers.
  case_decide as Hin; [done|]. rewrite elem_of_elements, not_elem_of_dom in Hin.
  unfold subscribers. rewrite Hin. simpl. set_solver.
Qed.

Lemma removeSession_ok b i :
  (topics_ok b → topics_ok (removed b i)) ∧ (gauge_ok b → gauge_ok (removed b i)).
Proof.
  unfold removed. generalize (elements (dom (topics b))). intros l. revert b.
  induction l as [|t l IH]; intros b; simpl; [done|].
  destruct (IH (unsubscribed b i t)). split; auto using unsubscribe_topics_ok, unsubscribe_gauge_ok.
Qed.

(** Updating the other metrics changes neither topics nor gauges. *)
Lemma with_metrics_ok f b :
  (∀ m, PubSubSubscribers (f m) = PubSubSubscribers m) →
  topics (with_metrics f b) = topics b ∧
  PubSubSubscribers <$> metrics (with_metrics f b) = PubSubSubscribers <$> metrics b.
Proof. intros Hf. split; [done|]. simpl. destruct (metrics b); simpl; by rewrite ?Hf. Qed.

(** ** Queues *)

Lemma length_tail {A} (l : list A) : length (tail l) = (length l - 1)%nat.
Proof. destruct l; simpl; lia. Qed.

Lemma enqueueDatagram_lemma prefer s f :
  (length (outDatagram s) ≤ outDatagramDepth)%nat →
  enqueueDatagram prefer s f
    = Some (set_outDatagram s
        (if (length (outDatagram s) <? outDatagramDepth)%nat || prefer || negb (ctx_done s)
         then lastn outDatagramDepth (outDatagram s ++ [f])
         else tail (outDatagram s))).
Proof.
  intros Hl. unfold enqueueDatagram, enqueueDatagram_step.
  destruct (Nat.ltb_spec (length (outDatagram s)) outDatagramDepth) as [Hlt|Hge].
  - simpl. rewrite lastn_all; [done|]. rewrite length_app. simpl. lia.
  - simpl. rewrite length_tail.
    destruct (Nat.ltb_spec (length (outDatagram s) - 1) outDatagramDepth) as [_|?];
      [|unfold outDatagramDepth in *; lia].
    simpl. destruct (prefer || negb (ctx_done s)) eqn:E; simpl.
    + f_equal. unfold set_outDatagram. simpl. f_equal.
      unfold lastn. rewrite length_app. simpl.
      replace (length (outDatagram s) + 1 - outDatagramDepth)%nat with 1%nat by lia.
      destruct (outDatagram s); [unfold outDatagramDepth in *; simpl in *; lia|done].
    + apply orb_false_iff in E as [-> ->%negb_false_iff]. done.
Qed.

(** The datagram queue drops its oldest frame. Undisturbed, enqueueDatagram
    always returns. On a live session the queue then holds the most recent 128 of
    the old frames and the new one, in order; on an ended session with a full queue
    the new frame may be dropped as well. *)
Theorem enqueueDatagram_drop_oldest prefer s f :
  (length (outDatagram s) ≤ outDatagramDepth)%nat →
  enqueueDatagram prefer s f
    = Some (set_outDatagram s
        (if (length (outDatagram s) <? outDatagramDepth)%nat || prefer || negb (ctx_done s)
         then lastn outDatagramDepth (outDatagram s ++ [f])
         else tail (outDatagram s))).
Proof.
  apply enqueueDatagram_lemma.
Qed.

Lemma enqueueDatagram_drop_oldest_witness :
  let q := replicate 128 hello in
  enqueueDatagram false (mkSession "c" q [] ∅ false) (mkFrame KindSub "t" [])
    = Some (mkSession "c" (tail q ++ [mkFrame KindSub "t" []]) [] ∅ false).
Proof.
  intros q.
  rewrite (enqueueDatagram_drop_oldest false (mkSession "c" q [] ∅ false) (mkFrame KindSub "t" []));
    [reflexivity|vm_compute; lia].
Defined.

(** Queues within bounds, sessions alive. *)
Definition live_store (store : gmap positive Session) : Prop :=
  ∀ k s, store !! k = Some s →
    (length (outDatagram s) ≤ outDatagramDepth)%nat ∧ ctx_done s = false.

Definition receive_datagram (f : Frame) (s : Session) : Session :=
  set_outDatagram s (lastn outDatagramDepth (outDatagram s ++ [f])).

Lemma deliver_datagram_lookup prefer f store i j :
  live_store store →
  deliver_datagram prefer f store i !! j =
    if decide (j = i) then receive_datagram f <$> store !! j else store !! j.
Proof.
  intros Hlive. unfold deliver_datagram. destruct (store !! i) as [s|] eqn:E.
  - destruct (Hlive i s E) as [Hlen Hdone].
    rewrite enqueueDatagram_lemma by done. rewrite Hdone, orb_true_r.
    destruct (decide (j = i)) as [->|Hne]; [by rewrite lookup_insert_eq, E|by rewrite lookup_insert_ne].
  - destruct (decide (j = i)) as [->|Hne]; [by rewrite E|done].
Qed.

Lemma deliver_datagram_live prefer f store i :
  live_store store → live_store (deliver_datagram prefer f store i).
Proof.
  intros Hlive k s. rewrite deliver_datagram_lookup by done. case_decide; [|by apply Hlive].
  intros (s0 & Hs0 & ->)%fmap_Some. simpl. rewrite length_lastn.
  destruct (Hlive k s0 Hs0). split; [lia|done].
Qed.

Lemma foldl_deliver_lookup prefer f order store j :
  NoDup order → live_store store →
  foldl (deliver_datagram prefer f) store order !! j =
    if decide (j ∈ order) then receive_datagram f <$> store !! j else store !! j.
Proof.
  intros Hnd. revert store. induction Hnd as [|i order Hi Hnd IH]; intros store Hlive; simpl.
  { destruct (decide (j ∈ [])) as [?%elem_of_nil|]; done. }
  rewrite IH by (by apply deliver_datagram_live).
  rewrite deliver_datagram_lookup by done. destruct (decide (j = i)) as [->|Hne].
  - rewrite decide_False by done. by rewrite decide_True by (by left).
  - apply decide_ext. rewrite elem_of_cons. tauto.
Qed.

Lemma Publish_datagram_reaches `{Labels} prefer b store f order :
  live_store store → order ≡ₚ elements (subscribers b (frame_Topic f)) →
  accepted b sm_Bytes ["wt_datagram"; "in"]%string →
  ∃ b' store', Publish_datagram prefer b store f order = Ok (b', store') ∧ topics b' = topics b ∧
    ∀ j, store' !! j =
      if decide (j ∈ subscribers b (frame_Topic f)) then receive_datagram f <$> store !! j else store !! j.
Proof.
  intros Hlive Horder Hacc. unfold Publish_datagram, Publish_snapshot, count_bytes.
  rewrite count_accepted by done. simpl. do 2 eexists. split; [done|]. split; [done|]. intros j.
  rewrite foldl_deliver_lookup; [|rewrite Horder; apply NoDup_elements|done].
  apply decide_ext. rewrite Horder. apply elem_of_elements.
Qed.

(** *** Stream publications *)

Definition receive_stream (f : Frame) (s : Session) : Session := set_outStream s (outStream s ++ [f]).
Definition stream_room (s : Session) : Prop := (length (outStream s) < outStreamDepth)%nat.

Lemma enqueueStream_live prefer s f :
  ctx_done s = false →
  enqueueStream prefer s f =
    if (length (outStream s) <? outStreamDepth)%nat then Some (receive_stream f s) else None.
Proof.
  intros Hd. unfold enqueueStream. rewrite Hd, orb_true_r, andb_true_r. by destruct (_ <? _)%nat.
Qed.

Lemma foldl_deliver_stream_None prefer f order : foldl (deliver_stream prefer f) None order = None.
Proof. by induction order. Qed.

Lemma foldl_deliver_stream prefer f order store :
  NoDup order → live_store store →
  (∀ i s, i ∈ order → store !! i = Some s → stream_room s) →
  ∃ store', foldl (deliver_stream prefer f) (Some store) order = Some store' ∧
    ∀ j, store' !! j = if decide (j ∈ order) then receive_stream f <$> store !! j else store !! j.
Proof.
  intros Hnd. revert store. induction Hnd as [|i order Hi Hnd IH]; intros store Hlive Hroom.
  { exists store. split; [done|]. intros j. by destruct (decide (j ∈ [])) as [?%elem_of_nil|]. }
  cbn [foldl]. assert (∃ store1, deliver_stream prefer f (Some store) i = Some store1 ∧
    ∀ j, store1 !! j = if decide (j = i) then receive_stream f <$> store !! j else store !! j)
    as (store1 & -> & Hs1).
  { unfold deliver_stream. simpl. destruct (store !! i) as [s|] eqn:E.
    - destruct (Hlive i s E) as [_ Hd]. rewrite enqueueStream_live by done.
      pose proof (Hroom i s ltac:(by left) E) as Hr. apply Nat.ltb_lt in Hr as ->. simpl.
      eexists. split; [done|]. intros j. destruct (decide (j = i)) as [->|];
        [by rewrite lookup_insert_eq, E|by rewrite lookup_insert_ne].
    - eexists. split; [done|]. intros j. destruct (decide (j = i)) as [->|]; by rewrite ?E. }
  destruct (IH store1) as (store' & -> & Hs').
  - intros k s. rewrite Hs1. case_decide; [|by apply Hlive].
    intros (s0 & Hs0 & ->)%fmap_Some. exact (Hlive k s0 Hs0).
  - intros k s Hk. rewrite Hs1, decide_False by (by intros ->). apply Hroom. by right.
  - exists store'. split; [done|]. intros j. rewrite Hs', Hs1. destruct (decide (j = i)) as [->|Hne].
    + rewrite decide_False by done. by rewrite decide_True by (by left).
    + apply decide_ext. rewrite elem_of_cons. tauto.
Qed.

(** One full queue of a session that has not ended blocks the publisher. *)
Lemma foldl_deliver_stream_blocked prefer f order store i s :
  NoDup order → i ∈ order → store !! i = Some s → ctx_done s = false → ¬ stream_room s →
  foldl (deliver_stream prefer f) (Some store) order = None.
Proof.
  intros Hnd. revert store. induction Hnd as [|k order Hk Hnd IH]; intros store; [by intros ?%elem_of_nil|].
  intros Hi Hs Hd Hroom. cbn [foldl]. destruct (decide (k = i)) as [->|Hne].
  - assert (deliver_stream prefer f (Some store) i = None) as ->; [|apply foldl_deliver_stream_None].
    unfold deliver_stream. simpl. rewrite Hs, enqueueStream_live by done. unfold stream_room in Hroom.
    by destruct (Nat.ltb_spec (length (outStream s)) outStreamDepth); [lia|].
  - apply elem_of_cons in Hi as [|Hi]; [done|]. unfold deliver_stream at 2. simpl.
    destruct (store !! k) as [sk|]; [|by apply IH].
    destruct (enqueueStream _ _ _) as [sk'|]; simpl; [|apply foldl_deliver_stream_None].
    apply IH; [done| |done..]. by rewrite lookup_insert_ne.
Qed.

Lemma Publish_stream_reaches `{Labels} prefer b store f order :
  live_store store → order ≡ₚ elements (subscribers b (frame_Topic f)) →
  accepted b sm_Bytes ["wt_stream"; "in"]%string →
  ∃ b' o, Publish_stream prefer b store f order = Ok (b', o) ∧ topics b' = topics b ∧
    ((∀ i s, i ∈ subscribers b (frame_Topic f) → store !! i = Some s → stream_room s) →
     ∃ store', o = Some store' ∧ ∀ j, store' !! j =
      if decide (j ∈ subscribers b (frame_Topic f)) then receive_stream f <$> store !! j else store !! j) ∧
    (∀ i s, i ∈ subscribers b (frame_Topic f) → store !! i = Some s → ¬ stream_room s → o = None).
Proof.
  intros Hlive Horder Hacc. unfold Publish_stream, Publish_snapshot, count_bytes.
  rewrite count_accepted by done. simpl.
  assert (NoDup order) as Hnd by (rewrite Horder; apply NoDup_elements).
  assert (∀ j, j ∈ order ↔ j ∈ subscribers b (frame_Topic f)) as Hin
    by (intros j; rewrite Horder; apply elem_of_elements).
  do 2 eexists. split; [done|]. split; [done|]. split.
  - intros Hroom. destruct (foldl_deliver_stream prefer f order store Hnd Hlive) as (store' & -> & Hs').
    { intros i s Hi. by apply Hroom, Hin. }
    exists store'. split; [done|]. intros j. rewrite Hs'. by apply decide_ext.
  - intros i s Hi Hs Hroom. destruct (Hlive i s Hs) as [_ Hd].
    apply (foldl_deliver_stream_blocked prefer f order store i s); [done|by apply Hin|done..].
Qed.

(** A datagram publication reaches exactly the subscribers of its topic,
    whatever the iteration order. Undisturbed and with all sessions alive, every
    subscribed session gets the frame at the end of its queue (its oldest frame
    dropped if it was full), every other session and every topic is untouched, and
    the bytes are counted. *)
Theorem Publish_datagram_spec `{Labels} prefer b store f order b' store' :
  live_store store →
  order ≡ₚ elements (subscribers b (frame_Topic f)) →
  Publish_datagram prefer b store f order = Ok (b', store') →
  topics b' = topics b ∧
  (∀ m, metrics b = Some m →
     metrics b' = Some (add_bytes ["wt_datagram"; "in"]%string (zlen (frame_Payload f)) m)) ∧
  ∀ i, store' !! i =
    if decide (i ∈ subscribers b (frame_Topic f))
    then receive_datagram f <$> store !! i
    else store !! i.
Proof.
  intros Hlive Horder. unfold Publish_datagram.
  intros ([b1 ts] & [-> ->]%Publish_snapshot_Ok & [= <- <-])%obind_ok.
  split; [done|]. split; [by intros m Hm; simpl; rewrite Hm|]. intros i.
  rewrite foldl_deliver_lookup; [|rewrite Horder; apply NoDup_elements|done].
  apply decide_ext. rewrite Horder. apply elem_of_elements.
Qed.

#[local] Existing Instance prometheus_Labels.
Definition demo_broker : Broker :=
  subscribed (subscribed (subscribed (New (Some zero_Metrics)) 1%positive "topic-a") 2%positive "topic-a")
    3%positive "other".
Definition demo_store : gmap positive Session :=
  list_to_map [(1%positive, new_session "a"); (2%positive, new_session ""); (3%positive, new_session "c")].

Lemma demo_store_live : live_store demo_store.
Proof.
  intros k s Hk. unfold demo_store in Hk. apply elem_of_list_to_map_2 in Hk.
  repeat (apply elem_of_cons in Hk as [Hk|Hk]; [injection Hk as -> ->; vm_compute; split; [lia|done]|]).
  by apply elem_of_nil in Hk.
Qed.

Lemma Publish_datagram_spec_witness :
  ∃ b' store', Publish_datagram true demo_broker demo_store hello [2; 1]%positive = Ok (b', store') ∧
  topics b' = topics demo_broker ∧
  store' !! 1%positive = Some (mkSession "a" [hello] [] ∅ false) ∧
  store' !! 3%positive = Some (new_session "c").
Proof.
  destruct (Publish_datagram true demo_broker demo_store hello [2; 1]%positive) as [[b' store']|[]|] eqn:E;
    [|vm_compute in E; discriminate E].
  destruct (Publish_datagram_spec true demo_broker demo_store hello [2; 1]%positive b' store')
    as (Ht & _ & Hs);
    [apply demo_store_live|vm_compute; first [reflexivity|apply Permutation_swap]|exact E|].
  exists b', store'. split; [reflexivity|]. split; [exact Ht|].
  split; rewrite Hs; vm_compute; reflexivity.
Defined.

(** Relaying a datagram never makes it too big. A datagram that the reader
    accepts for publication is encoded again by every subscriber's writer into at
    most as many bytes, so it is sent and never dropped as oversized. *)
Theorem datagram_relay `{VarintLaws} `{Labels} max_alloc b b' d f bw ok :
  maxDatagramBytes ≤ max_alloc → max_alloc + 8 ≤ maxVarInt8 →
  datagramReader_step max_alloc b d = Ok (b', Some f) →
  accepted bw sm_Bytes ["wt_datagram"; "out"]%string →
  b' = b ∧ frame_Kind f = KindPub ∧
  ∃ d' b1, datagramWriter_step max_alloc ok bw f = Ok (b1, Some d', ok) ∧
    zlen d' ≤ zlen d ≤ maxDatagramBytes ∧ Decode max_alloc d' = Ok f ∧ topics b1 = topics bw.
Proof.
  intros Hma Hmax. unfold datagramReader_step.
  destruct (Z.ltb_spec maxDatagramBytes (zlen d)) as [|Hd]; [by intros (? & ? & ?)%obind_ok|].
  pose proof (Decode_safe_lemma max_alloc d ltac:(lia) Hmax) as Hsafe.
  destruct (Decode max_alloc d) as [f0|e|] eqn:Ed; [|by intros (? & ? & ?)%obind_ok|done].
  case_bool_decide as Hk; [by intros (? & ? & ?)%obind_ok|]. intros [= <- <-] Hacc.
  split; [done|]. split; [first [done|by apply dec_stable|by destruct (decide (frame_Kind f0 = KindPub))]|].
  destruct Hsafe as (_ & _ & _ & d' & Henc & Hle).
  unfold datagramWriter_step. rewrite Henc.
  destruct (Z.ltb_spec maxDatagramBytes (zlen d')); [lia|].
  apply Decode_Encode_lemma in Henc as Hdec.
  unfold count_bytes. rewrite count_accepted by done.
  destruct ok; eexists d', _; split_and!; try done; lia.
Qed.

Lemma datagram_relay_witness :
  ∃ d' b1, datagramWriter_step alloc_limit true demo_broker hello = Ok (b1, Some d', true) ∧
    zlen d' ≤ zlen hello_bytes ≤ maxDatagramBytes ∧ Decode alloc_limit d' = Ok hello ∧
    topics b1 = topics demo_broker.
Proof.
  refine (proj2 (proj2 (datagram_relay alloc_limit demo_broker demo_broker hello_bytes hello demo_broker true _ _ _ _)));
    first [reflexivity|vm_compute; discriminate|right; vm_compute; reflexivity].
Defined.

(** ** An invariant of every interleaving *)

(** Updates that touch neither the topics nor the subscriber gauge. *)
Definition same_topics (b b' : Broker) : Prop :=
  topics b' = topics b ∧ PubSubSubscribers <$> metrics b' = PubSubSubscribers <$> metrics b.

Lemma same_topics_ok b b' : same_topics b b' → topics_ok b ∧ gauge_ok b → topics_ok b' ∧ gauge_ok b'.
Proof.
  intros [Ht Hm] [Htop Hg]. split.
  - intros t s. rewrite Ht. apply Htop.
  - intros m t Em. rewrite Em in Hm. destruct (metrics b) as [m0|] eqn:Em0; [|done].
    injection Hm as ->. rewrite (Hg m0) by done. unfold subscribers. by rewrite Ht.
Qed.

Lemma same_topics_subscribers b b' t : same_topics b b' → subscribers b' t = subscribers b t.
Proof. intros [Ht _]. unfold subscribers. by rewrite Ht. Qed.

Lemma same_topics_refl b : same_topics b b.
Proof. done. Qed.

Lemma same_topics_trans b1 b2 b3 : same_topics b1 b2 → same_topics b2 b3 → same_topics b1 b3.
Proof. intros [H1 H2] [H3 H4]. split; congruence. Qed.

Lemma same_topics_with f b :
  (∀ m, PubSubSubscribers (f m) = PubSubSubscribers m) → same_topics b (with_metrics f b).
Proof. apply with_metrics_ok. Qed.
#[export] Hint Resolve same_topics_refl same_topics_with : go.

Section io_steps.
Context `{Varint} `{Labels} (max_alloc : Z).

Lemma count_drop_same {E} ls b b' : count_drop (E:=E) ls b = Ok b' → same_topics b b'.
Proof. intros ->%count_Ok. by apply same_topics_with. Qed.
Lemma count_bytes_same {E} ls n b b' : count_bytes (E:=E) ls n b = Ok b' → same_topics b b'.
Proof. intros ->%count_Ok. by apply same_topics_with. Qed.
Lemma count_stream_same {E} ls b b' : count_stream (E:=E) ls b = Ok b' → same_topics b b'.
Proof. intros ->%count_Ok. by apply same_topics_with. Qed.

Lemma datagramReader_same b d b' o :
  datagramReader_step max_alloc b d = Ok (b', o) → same_topics b b'.
Proof.
  unfold datagramReader_step.
  repeat case_match; intros Ho; inv_ok; eauto using count_drop_same with go.
Qed.

Lemma datagramWriter_same ok b f b' o go :
  datagramWriter_step max_alloc ok b f = Ok (b', o, go) → same_topics b b'.
Proof.
  unfold datagramWriter_step.
  repeat case_match; intros Ho; inv_ok; eauto using count_drop_same, count_bytes_same with go.
Qed.

Lemma streamWriter_same {S} (write : list byte → S → outcome io_error S) str b f b' w go :
  streamWriter_step max_alloc write str b f = Ok (b', w, go) → same_topics b b'.
Proof.
  unfold streamWriter_step. destruct str as [w0|]; [|intros [= <- <- <-]; auto with go].
  intros (b1 & Hb1%count_stream_same & Hw)%obind_ok. case_match; inv_ok; [|done].
  eauto using same_topics_trans, count_bytes_same.
Qed.

Lemma count_control_Ok y y1 : count_control y = Ok y1 →
  same_topics (sys_broker y) (sys_broker y1) ∧ sys_sessions y1 = sys_sessions y ∧ sys_ctl y1 = sys_ctl y ∧
  y1 = set_broker y (sys_broker y1).
Proof.
  unfold count_control. intros (b & Hb%count_stream_same & Hy)%obind_ok. injection Hy as <-. done.
Qed.

(** What a session's own topics say about the broker, at each point of its control
    goroutine. *)
Definition agree (pc : ctl_pc) (own : gset topic) (registered : topic → Prop) : Prop :=
  match pc with
  | Reading | Publishing | Cleanup => ∀ t, registered t ↔ t ∈ own
  | Subscribing t0 => t0 ∈ own ∧ ∀ t, registered t ↔ t ∈ own ∧ t ≠ t0
  | Unsubscribing t0 => (t0 ∉ own) ∧ ∀ t, t ≠ t0 → (registered t ↔ t ∈ own)
  | Closed => ∀ t, ¬ registered t
  end.

Definition queues_ok (s : Session) : Prop :=
  (length (outDatagram s) ≤ outDatagramDepth ∧ length (outStream s) ≤ outStreamDepth)%nat.

Definition session_ok (b : Broker) (i : sid) (os : option Session) (opc : option ctl_pc) : Prop :=
  match os, opc with
  | Some s, Some pc => agree pc (subs s) (λ t, i ∈ subscribers b t) ∧ queues_ok s
  | None, None => ∀ t, i ∉ subscribers b t
  | _, _ => False
  end.

Definition sys_ok (y : sys) : Prop :=
  (topics_ok (sys_broker y) ∧ gauge_ok (sys_broker y)) ∧
  ∀ i, session_ok (sys_broker y) i (sys_sessions y !! i) (sys_ctl y !! i).

Lemma agree_ext pc own (r r' : topic → Prop) : (∀ t, r t ↔ r' t) → agree pc own r → agree pc own r'.
Proof. intros Hr. destruct pc; simpl; setoid_rewrite Hr; done. Qed.

Lemma session_ok_ext b b' i os opc :
  (∀ t, (i ∈ subscribers b t) ↔ (i ∈ subscribers b' t)) →
  session_ok b i os opc → session_ok b' i os opc.
Proof.
  intros Hb. destruct os as [s|], opc as [pc|]; simpl; try done.
  - intros [Ha Hq]. split; [|done].
    eapply agree_ext; [|exact Ha]. intros t. apply Hb.
  - intros Hn t. by rewrite <-Hb.
Qed.

(** A step that works for session [i] leaves the others alone. *)
Lemma sys_ok_update y y' i :
  sys_ok y → topics_ok (sys_broker y') ∧ gauge_ok (sys_broker y') →
  (∀ j, j ≠ i → (∀ t, j ∈ subscribers (sys_broker y) t ↔ j ∈ subscribers (sys_broker y') t) ∧
    sys_sessions y' !! j = sys_sessions y !! j ∧ sys_ctl y' !! j = sys_ctl y !! j) →
  session_ok (sys_broker y') i (sys_sessions y' !! i) (sys_ctl y' !! i) →
  sys_ok y'.
Proof.
  intros [_ Hs] Hb Hj Hi. split; [done|]. intros j.
  destruct (decide (j = i)) as [->|Hne]; [done|].
  destruct (Hj j Hne) as (Hsub & -> & ->). eapply session_ok_ext; [apply Hsub|apply Hs].
Qed.

(** A step that changes session [i] but no subscription. *)
Lemma sys_ok_local y i s s' pc b' pubs :
  sys_ok y → sys_sessions y !! i = Some s → sys_ctl y !! i = Some pc →
  same_topics (sys_broker y) b' → subs s' = subs s → queues_ok s' →
  sys_ok (mkSys b' (<[i := s']> (sys_sessions y)) (sys_ctl y) pubs).
Proof.
  intros Hok Es Epc Hb Hsubs Hq. eapply (sys_ok_update y _ i); simpl; [done|..].
  - by eapply same_topics_ok, Hok.
  - intros j Hne. rewrite lookup_insert_ne by done. split; [|done].
    intros t. by rewrite (same_topics_subscribers _ b' _ Hb).
  - rewrite lookup_insert_eq, Epc. simpl. split; [|done]. rewrite Hsubs.
    destruct Hok as [_ Hok]. specialize (Hok i). rewrite Es, Epc in Hok.
    eapply agree_ext; [|apply Hok]. intros t. by rewrite (same_topics_subscribers _ b' _ Hb).
Qed.

(** A step that moves the control goroutine of [i] between points with the same
    agreement, or does not move it at all. *)
Lemma sys_ok_move y i pc pc' b' pubs :
  sys_ok y → sys_ctl y !! i = Some pc → (∀ own r, agree pc own r → agree pc' own r) →
  same_topics (sys_broker y) b' →
  sys_ok (mkSys b' (sys_sessions y) (<[i := pc']> (sys_ctl y)) pubs).
Proof.
  intros Hok Epc Hpc Hb. eapply (sys_ok_update y _ i); simpl; [done|..].
  - by eapply same_topics_ok, Hok.
  - intros j Hne. rewrite lookup_insert_ne by done. split; [|done].
    intros t. by rewrite (same_topics_subscribers _ b' _ Hb).
  - rewrite lookup_insert_eq. destruct Hok as [_ Hok]. specialize (Hok i). rewrite Epc in Hok.
    destruct (sys_sessions y !! i) as [s|]; [|done]. destruct Hok as [Ha Hq]. split; [|done].
    apply Hpc. eapply agree_ext; [|apply Ha]. intros t. by rewrite (same_topics_subscribers _ b' _ Hb).
Qed.

Lemma sys_ok_broker y b' pubs :
  sys_ok y → same_topics (sys_broker y) b' → sys_ok (mkSys b' (sys_sessions y) (sys_ctl y) pubs).
Proof.
  intros Hok Hb. split; [by eapply same_topics_ok, Hok|]. intros i. simpl.
  eapply session_ok_ext, Hok. intros t. by rewrite (same_topics_subscribers _ b' _ Hb).
Qed.

Lemma sys_ok_lookup y i s pc :
  sys_ok y → sys_sessions y !! i = Some s → sys_ctl y !! i = Some pc →
  agree pc (subs s) (λ t, i ∈ subscribers (sys_broker y) t) ∧ queues_ok s.
Proof. intros [_ Hok] Es Ep. specialize (Hok i). by rewrite Es, Ep in Hok. Qed.

Lemma sys_ok_ctl y i s : sys_ok y → sys_sessions y !! i = Some s → ∃ pc, sys_ctl y !! i = Some pc.
Proof. intros [_ Hok] Es. specialize (Hok i). rewrite Es in Hok. destruct (sys_ctl y !! i); [eauto|done]. Qed.

Lemma sys_ok_session y i pc : sys_ok y → sys_ctl y !! i = Some pc → ∃ s, sys_sessions y !! i = Some s.
Proof.
  intros [_ Hok] Es. specialize (Hok i). rewrite Es in Hok. destruct (sys_sessions y !! i); [eauto|done].
Qed.

(** Queue bounds under the channel operations. *)
Lemma enqueueDatagram_step_ok prefer ph s f s' o :
  queues_ok s → enqueueDatagram_step prefer ph s f = Some (s', o) →
  queues_ok s' ∧ subs s' = subs s.
Proof.
  unfold queues_ok, enqueueDatagram_step. intros Hq. destruct ph.
  - case_match eqn:E; intros [= <- <-]; [|done]. apply Nat.ltb_lt in E. simpl.
    rewrite length_app. simpl. split; [lia|done].
  - intros [= <- <-]. simpl. rewrite length_tail. split; [lia|done].
  - destruct (_ && _) eqn:E.
    + apply andb_true_iff in E as [E%Nat.ltb_lt _]. intros [= <- <-]. simpl.
      rewrite length_app. simpl. split; [lia|done].
    + destruct (ctx_done s); intros [= <- <-]; done.
Qed.

Lemma enqueueStream_ok prefer s f s' :
  queues_ok s → enqueueStream prefer s f = Some s' → queues_ok s' ∧ subs s' = subs s.
Proof.
  unfold queues_ok, enqueueStream. intros Hq. cbv zeta. destruct (_ && _) eqn:E.
  - apply andb_true_iff in E as [E%Nat.ltb_lt _]. intros [= <-]. simpl.
    rewrite length_app. simpl. split; [lia|done].
  - destruct (ctx_done s); intros [= <-]; done.
Qed.

Lemma publish_one_ok prefer p s s' p' :
  queues_ok s → publish_one prefer p s = Some (s', p') → queues_ok s' ∧ subs s' = subs s.
Proof.
  intros Hq. unfold publish_one. destruct (pub_surface p).
  - destruct (enqueueDatagram_step _ _ _ _) as [[s1 o]|] eqn:E; [|done].
    destruct o; intros [= <- <-]; by eapply enqueueDatagram_step_ok.
  - destruct (enqueueStream _ _ _) eqn:E; [|done]. intros [= <- <-]. by eapply enqueueStream_ok.
  - destruct (enqueueStream _ _ _) eqn:E; [|done]. intros [= <- <-]. by eapply enqueueStream_ok.
Qed.

(** A step that changes session [i] between two points of its control goroutine. *)
Lemma sys_ok_pop y i s s' b' :
  sys_ok y → sys_sessions y !! i = Some s → same_topics (sys_broker y) b' → subs s' = subs s →
  (queues_ok s → queues_ok s') →
  sys_ok (mkSys b' (<[i := s']> (sys_sessions y)) (sys_ctl y) (sys_pubs y)).
Proof.
  intros Hok Es Hb Hs Hq. destruct (sys_ok_ctl y i s Hok Es) as [pc Ep].
  destruct (sys_ok_lookup y i s pc Hok Es Ep) as [_ Hqs]. apply (sys_ok_local y i s s' pc); auto.
Qed.

(** The steps that change subscriptions. *)
Lemma open_ok y i header :
  sys_ok y → sys_sessions y !! i = None → sys_ctl y !! i = None →
  sys_ok (set_ctl (set_session y i (new_session header)) i Reading).
Proof.
  intros Hok Es Ep. eapply (sys_ok_update y _ i); simpl; [done|apply Hok|..].
  - intros j Hne. by rewrite !lookup_insert_ne.
  - rewrite !lookup_insert_eq. simpl. destruct Hok as [_ Hok]. specialize (Hok i).
    rewrite Es, Ep in Hok. simpl in Hok.
    split; [set_solver|]. unfold queues_ok, outDatagramDepth, outStreamDepth. simpl. lia.
Qed.

Lemma subscribe_ok y i s t pubs b' :
  sys_ok y → sys_ctl y !! i = Some Reading → sys_sessions y !! i = Some s →
  t ∉ subs s → same_topics (sys_broker y) b' →
  sys_ok (mkSys b' (<[i := set_subs s ({[t]} ∪ subs s)]> (sys_sessions y))
    (<[i := Subscribing t]> (sys_ctl y)) pubs).
Proof.
  intros Hok Ep Es Ht Hb. destruct (sys_ok_lookup y i s _ Hok Es Ep) as [Ha Hq]. simpl in Ha.
  eapply (sys_ok_update y _ i); simpl; [done|by eapply same_topics_ok, Hok|..].
  - intros j Hne. rewrite !lookup_insert_ne by done. split; [|done].
    intros t'. by rewrite (same_topics_subscribers _ b' _ Hb).
  - rewrite !lookup_insert_eq. simpl. split; [|done]. split; [set_solver|]. intros t'.
    rewrite (same_topics_subscribers _ b' _ Hb), Ha. set_solver.
Qed.

Lemma subscribe_commit_ok y i t :
  sys_ok y → sys_ctl y !! i = Some (Subscribing t) →
  sys_ok (set_ctl (set_broker y (subscribed (sys_broker y) i t)) i Reading).
Proof.
  intros Hok Ep. destruct (sys_ok_session y i _ Hok Ep) as [s Es].
  destruct (sys_ok_lookup y i s _ Hok Es Ep) as [[Ht Ha] Hq]. destruct Hok as [[Htop Hg] Hall] eqn:E.
  eapply (sys_ok_update y _ i); simpl; [done|..].
  - split; [by apply subscribe_topics_ok|]. apply subscribe_gauge_ok; [|done]. rewrite Ha. tauto.
  - intros j Hne. rewrite lookup_insert_ne by done. split; [|done].
    intros t'. rewrite subscribers_subscribe. case_decide; set_solver.
  - rewrite lookup_insert_eq, Es. simpl. split; [|done]. intros t'.
    rewrite subscribers_subscribe. case_decide as Hd; [subst; set_solver|]. rewrite Ha. tauto.
Qed.

Lemma unsubscribe_ok y i s t pubs b' :
  sys_ok y → sys_ctl y !! i = Some Reading → sys_sessions y !! i = Some s →
  same_topics (sys_broker y) b' →
  sys_ok (mkSys b' (<[i := session_unsubscribe s t]> (sys_sessions y))
    (<[i := Unsubscribing t]> (sys_ctl y)) pubs).
Proof.
  intros Hok Ep Es Hb. destruct (sys_ok_lookup y i s _ Hok Es Ep) as [Ha Hq]. simpl in Ha.
  eapply (sys_ok_update y _ i); simpl; [done|by eapply same_topics_ok, Hok|..].
  - intros j Hne. rewrite !lookup_insert_ne by done. split; [|done].
    intros t'. by rewrite (same_topics_subscribers _ b' _ Hb).
  - rewrite !lookup_insert_eq. simpl. split; [|done]. split; [set_solver|]. intros t' Hne.
    rewrite (same_topics_subscribers _ b' _ Hb), Ha. set_solver.
Qed.

Lemma unsubscribe_commit_ok y i t :
  sys_ok y → sys_ctl y !! i = Some (Unsubscribing t) →
  sys_ok (set_ctl (set_broker y (unsubscribed (sys_broker y) i t)) i Reading).
Proof.
  intros Hok Ep. destruct (sys_ok_session y i _ Hok Ep) as [s Es].
  destruct (sys_ok_lookup y i s _ Hok Es Ep) as [[Ht Ha] Hq]. destruct Hok as [[Htop Hg] Hall] eqn:E.
  eapply (sys_ok_update y _ i); simpl; [done|..].
  - split; [by apply unsubscribe_topics_ok|by apply unsubscribe_gauge_ok].
  - intros j Hne. rewrite lookup_insert_ne by done. split; [|done].
    intros t'. rewrite subscribers_unsubscribe. case_decide; set_solver.
  - rewrite lookup_insert_eq, Es. simpl. split; [|done]. intros t'.
    rewrite subscribers_unsubscribe. case_decide as Hd; [subst; set_solver|]. by apply Ha.
Qed.

Lemma cleanup_ok y i s :
  sys_ok y → sys_ctl y !! i = Some Cleanup → sys_sessions y !! i = Some s →
  sys_ok (set_ctl (set_session (set_broker y (removed (sys_broker y) i)) i (set_done s)) i Closed).
Proof.
  intros Hok Ep Es. destruct (sys_ok_lookup y i s _ Hok Es Ep) as [_ Hq].
  destruct Hok as [[Htop Hg] Hall] eqn:E. destruct (removeSession_ok (sys_broker y) i).
  eapply (sys_ok_update y _ i); simpl; [done|by auto|..].
  - intros j Hne. rewrite !lookup_insert_ne by done. split; [|done].
    intros t. rewrite subscribers_removeSession. set_solver.
  - rewrite !lookup_insert_eq. simpl. split; [|done]. intros t.
    rewrite subscribers_removeSession. set_solver.
Qed.

Lemma sys_step_ok y y' : sys_step max_alloc y y' → sys_ok y → sys_ok y'.
Proof.
  intros Hstep Hok.
  destruct Hstep as [y i header Es Ep|y y1 i s f t Ep Es Hc _ _|y y1 i s f t Ep Es Hc _ Hsub|y i t b Ep Hb
    |y y1 i s f t Ep Es Hc _|y i t b Ep Hb|y y1 i f b ts order Ep Hc _ Hb _|y y1 i f Ep Hc _
    |y i s d b Es _ Hd|y i s d b f b' ts order Es _ Hd Hb _
    |y k p i s s' p' prefer _ _ Es Hone|y i p _ _ Ep|y i p _ _|y i s f q b out go okk Es Eq Hw
    |y i s f q b str w go write Es Eq Hw|y i s Es|y i Ep|y i s b Ep Es Hb];
    try (apply count_control_Ok in Hc as (Hcc & _ & _ & ->)).
  - by apply open_ok.
  - by apply (sys_ok_broker y).
  - unfold session_subscribe in Hsub |- *. case_bool_decide as Ht; [done|].
    exact (subscribe_ok y i s t (sys_pubs y) _ Hok Ep Es Ht Hcc).
  - apply subscribe_Ok in Hb as ->. by apply subscribe_commit_ok.
  - exact (unsubscribe_ok y i s t (sys_pubs y) _ Hok Ep Es Hcc).
  - apply unsubscribe_Ok in Hb as ->. by apply unsubscribe_commit_ok.
  - apply Publish_snapshot_Ok in Hb as [-> ->].
    apply (sys_ok_move y i Reading Publishing); try done.
    eapply same_topics_trans; [exact Hcc|by apply same_topics_with].
  - by apply (sys_ok_broker y).
  - apply (sys_ok_broker y); [done|]. by eapply datagramReader_same.
  - apply Publish_snapshot_Ok in Hb as [-> ->]. apply (sys_ok_broker y); [done|].
    eapply same_topics_trans; [by eapply datagramReader_same|by apply same_topics_with].
  - destruct (sys_ok_ctl y i s Hok Es) as [pc Ep].
    destruct (sys_ok_lookup y i s pc Hok Es Ep) as [_ Hq].
    destruct (publish_one_ok _ _ _ _ _ Hq Hone).
    by apply (sys_ok_local y i s s' pc).
  - by apply (sys_ok_move y i Publishing Reading).
  - by apply (sys_ok_broker y).
  - apply (sys_ok_pop y i s); [done..|by eapply datagramWriter_same|done|].
    intros Hq. unfold queues_ok in *. rewrite Eq in Hq. simpl in *. lia.
  - apply (sys_ok_pop y i s); [done..|by eapply streamWriter_same|done|].
    intros Hq. unfold queues_ok in *. rewrite Eq in Hq. simpl in *. lia.
  - by apply (sys_ok_pop y i s).
  - by apply (sys_ok_move y i Reading Cleanup).
  - apply removeSession_Ok in Hb as ->. by apply cleanup_ok.
Qed.

Lemma init_ok m :
  (∀ m0 t, m = Some m0 → series (PubSubSubscribers m0) t = 0) → sys_ok (init_sys m).
Proof.
  intros Hm. split; [split|].
  - intros t s. simpl. by rewrite lookup_empty.
  - intros m0 t Em. simpl in Em. subst m. by rewrite (Hm m0).
  - intros i. simpl. rewrite !lookup_empty. intros t. unfold subscribers. simpl.
    rewrite lookup_empty. set_solver.
Qed.

Lemma reachable_ok m y :
  (∀ m0 t, m = Some m0 → series (PubSubSubscribers m0) t = 0) →
  reachable max_alloc m y → sys_ok y.
Proof. intros Hm. induction 1; eauto using init_ok, sys_step_ok. Qed.

End io_steps.

(** C6: subscriptions are exact under every interleaving of control readers,
    publishers, writers and session ends. In every reachable state no topic is
    kept without subscribers, the subscriber gauge of each topic is its number of
    subscribers, a session's queues are within their bounds, and a session whose
    control goroutine is between two frames is registered for exactly the topics
    in its own set. *)
Theorem broker_invariant `{Varint} `{Labels} max_alloc m y :
  (∀ m0 t, m = Some m0 → series (PubSubSubscribers m0) t = 0) →
  reachable max_alloc m y →
  topics_ok (sys_broker y) ∧ gauge_ok (sys_broker y) ∧
  ∀ i s, sys_sessions y !! i = Some s →
    queues_ok s ∧
    (sys_ctl y !! i = Some Reading → ∀ t, i ∈ subscribers (sys_broker y) t ↔ t ∈ subs s).
Proof.
  intros Hm Hr. pose proof (reachable_ok max_alloc m y Hm Hr) as Hok. destruct Hok as [[Ht Hg] Hall] eqn:E.
  split; [done|]. split; [done|]. intros i s Es.
  destruct (sys_ok_ctl y i s Hok Es) as [pc Ep]. destruct (sys_ok_lookup y i s pc Hok Es Ep) as [Ha Hq].
  split; [done|]. rewrite Ep. by intros [= ->].
Qed.

(** A run: session 1 opens and subscribes to topic-a. *)
Definition sub_frame : Frame := mkFrame KindSub "topic-a" [].
Definition y_open : sys := set_ctl (set_session (init_sys (Some zero_Metrics)) 1%positive (new_session "a")) 1%positive Reading.
Definition y_subscribing : sys :=
  set_ctl (set_session (set_broker y_open (with_metrics (add_stream ["control"; "in"]%string) (sys_broker y_open)))
    1%positive (session_subscribe (new_session "a") "topic-a").2) 1%positive (Subscribing "topic-a").
Definition y_subscribed : sys :=
  set_ctl (set_broker y_subscribing (subscribed (sys_broker y_subscribing) 1%positive "topic-a")) 1%positive Reading.

Lemma y_subscribed_reachable : reachable alloc_limit (Some zero_Metrics) y_subscribed.
Proof.
  apply (reach_step _ _ y_subscribing); [|by apply (step_subscribe_commit _ _ _ "topic-a")].
  apply (reach_step _ _ y_open); [|by eapply (step_subscribe _ _ _ _ _ sub_frame)].
  apply (reach_step _ _ (init_sys (Some zero_Metrics))); [constructor|by apply step_open].
Qed.

Lemma broker_invariant_witness :
  series (PubSubSubscribers zero_Metrics) "topic-a" = 0 ∧
  gauge_ok (sys_broker y_subscribed) ∧ 1%positive ∈ subscribers (sys_broker y_subscribed) "topic-a".
Proof.
  split; [reflexivity|].
  assert (∀ m0 t, Some zero_Metrics = Some m0 → series (PubSubSubscribers m0) t = 0) as Hm
    by (intros m0 t [= <-]; reflexivity).
  destruct (broker_invariant alloc_limit (Some zero_Metrics) y_subscribed Hm y_subscribed_reachable)
    as (_ & Hg & Hs).
  split; [exact Hg|].
  refine (proj2 (proj2 (Hs 1%positive (mkSession "a" [] [] {["topic-a"%string]} false) _) _ "topic-a"%string) _);
    [vm_compute; reflexivity|reflexivity|vm_compute; reflexivity].
Defined.

(** A session that has ended receives nothing more. Once its control
    goroutine has cleaned up, no later publication, on either surface and from any
    session, has it among its targets: a snapshot taken then does not contain it. *)
Theorem closed_session_unreachable `{Varint} `{Labels} max_alloc m y i f surf b targets :
  (∀ m0 t, m = Some m0 → series (PubSubSubscribers m0) t = 0) →
  reachable max_alloc m y → sys_ctl y !! i = Some Closed →
  Publish_snapshot (sys_broker y) f surf = Ok (b, targets) → i ∉ targets.
Proof.
  intros Hm Hr Ep [_ ->]%Publish_snapshot_Ok. pose proof (reachable_ok max_alloc m y Hm Hr) as Hok.
  destruct (sys_ok_session y i _ Hok Ep) as [s Es].
  destruct (sys_ok_lookup y i s _ Hok Es Ep) as [Ha _]. apply Ha.
Qed.

Definition y_cleanup : sys := set_ctl y_subscribed 1%positive Cleanup.
Definition y_closed : sys :=
  set_ctl (set_session (set_broker y_cleanup (removed (sys_broker y_cleanup) 1%positive)) 1%positive
    (set_done (session_subscribe (new_session "a") "topic-a").2)) 1%positive Closed.

Lemma y_closed_reachable : reachable alloc_limit (Some zero_Metrics) y_closed.
Proof.
  apply (reach_step _ _ y_cleanup); [|by apply step_cleanup].
  apply (reach_step _ _ y_subscribed); [apply y_subscribed_reachable|by apply step_control_end].
Qed.

Lemma closed_session_unreachable_witness :
  1%positive ∉ subscribers (sys_broker y_closed) "topic-a".
Proof.
  apply (closed_session_unreachable alloc_limit (Some zero_Metrics) y_closed 1%positive hello SurfaceStream
    (with_metrics (add_bytes ["wt_stream"; "in"]%string 5) (sys_broker y_closed))).
  - intros m0 t [= <-]. reflexivity.
  - exact y_closed_reachable.
  - reflexivity.
  - vm_compute. reflexivity.
Defined.
