(* ===== verification/BrokerPanics.v ===== *)
(** * BrokerPanics: which frames the metrics of the broker do not survive

    The broker uses the topics of its clients as label values, and a vector panics on
    a value that is not UTF-8. Topics that get through to the tables and queues of the
    broker are UTF-8, so that its own operations never panic on them; what remains are
    the two places where a topic is counted as it was received. Besides, reading a
    frame from a control stream allocates as many bytes as the peer announces. *)

From S2P Require Import Prelude Text Wire Varint WireTheorems Collectors Broker BrokerTheorems.

Definition metered (b : Broker) : Prop := metrics b ≠ None.
Definition topics_valid (b : Broker) : Prop := ∀ t i, i ∈ subscribers b t → ValidString t.
Definition frame_valid (f : Frame) : Prop := ValidString (frame_Topic f).
Definition session_valid (s : Session) : Prop := Forall frame_valid (outDatagram s) ∧ Forall frame_valid (outStream s).
(** A publication with targets left. *)
Definition pub_valid (p : publication) : Prop := pub_targets p ≠ [] → frame_valid (pub_frame p).

(** A broker with metrics. *)
Definition labels_ok (y : sys) : Prop :=
  metered (sys_broker y) →
  topics_valid (sys_broker y) ∧ map_Forall (λ _, session_valid) (sys_sessions y) ∧
  map_Forall (λ _, pub_valid) (sys_pubs y).

(** ** Topics under one operation *)

Lemma metered_with f b : metered (with_metrics f b) ↔ metered b.
Proof. unfold metered. simpl. by rewrite fmap_None. Qed.

Lemma metered_same b b' : same_topics b b' → metered b' → metered b.
Proof. intros [_ Hm] Hb Hn. rewrite Hn in Hm. apply Hb. by destruct (metrics b'). Qed.

Lemma metered_unsubscribed b i t : metered (unsubscribed b i t) ↔ metered b.
Proof.
  unfold unsubscribed, dropped. destruct (topics b !! t) as [subs|]; [|done].
  cbv zeta. repeat case_bool_decide; unfold metered; simpl; rewrite ?fmap_None; done.
Qed.

Lemma metered_removed b i : metered (removed b i) ↔ metered b.
Proof.
  unfold removed. generalize (elements (dom (topics b))). intros ts. revert b.
  induction ts as [|t ts IH]; intros b; simpl; [done|]. by rewrite IH, metered_unsubscribed.
Qed.

Lemma topics_valid_mono b b' :
  (∀ t, subscribers b' t ⊆ subscribers b t) → topics_valid b → topics_valid b'.
Proof. intros Hs Hb t i Hi. eapply Hb. by apply Hs. Qed.

Lemma topics_valid_same b b' : same_topics b b' → topics_valid b → topics_valid b'.
Proof. intros Hs. apply topics_valid_mono. intros t. by rewrite (same_topics_subscribers b b' t Hs). Qed.

Lemma topics_valid_unsubscribed b i t : topics_valid b → topics_valid (unsubscribed b i t).
Proof. apply topics_valid_mono. intros t'. rewrite subscribers_unsubscribe. case_decide; set_solver. Qed.

Lemma topics_valid_removed b i : topics_valid b → topics_valid (removed b i).
Proof. apply topics_valid_mono. intros t. rewrite subscribers_removeSession. set_solver. Qed.

Section panics.
Context `{VarintLaws} `{LabelsLaws} (max_alloc : Z).

(** ** What the vectors take *)

Lemma constant_count {E} c ls f b vars :
  c_labels (c serverMetrics) = Some vars → length ls = length vars → forallb ValidString ls = true →
  count (E:=E) c ls f b = Ok (with_metrics f b).
Proof.
  intros Hc Hl Hv. apply count_accepted. right. apply WithLabelValues_takes. split; [by eauto|].
  apply forallb_True. by apply Is_true_true.
Qed.

Lemma topic_accepted b t : metered b → accepted b sm_PubSubSubscribers [t] ↔ ValidString t.
Proof.
  intros Hb. unfold accepted. rewrite WithLabelValues_spec. split.
  - intros [?|[_ Hv]]; [done|]. by apply Forall_cons in Hv as [? _].
  - intros Hv. right. split; [by eexists|]. by repeat constructor.
Qed.

Lemma drop_accepted b reason t :
  metered b → ValidString reason = true → accepted b sm_PubSubDrops ["wt_datagram"; t; reason]%string ↔ ValidString t.
Proof.
  intros Hb Hr. unfold accepted. rewrite WithLabelValues_spec. split.
  - intros [?|[_ Hv]]; [done|]. apply Forall_cons in Hv as [_ Hv]. by apply Forall_cons in Hv as [? _].
  - intros Hv. right. split; [by eexists|]. repeat apply Forall_cons_2; [done..|by apply Is_true_true|constructor].
Qed.

Lemma subscribe_panics b i t : metered b → subscribe b i t = Panic ↔ ¬ ValidString t.
Proof.
  intros Hb. unfold subscribe, count_subscribers.
  rewrite <- (topic_accepted (subscribe_topic b i t) t) by done.
  destruct (count_cases (E:=Empty_set) sm_PubSubSubscribers [t] (add_subscribers t 1) (subscribe_topic b i t))
    as [[? ->]|[? ->]]; naive_solver.
Qed.

(** ** Leaving topics *)

Lemma unsubscribe_valid b i t : topics_valid b → unsubscribe b i t = Ok (unsubscribed b i t).
Proof.
  intros Hb. unfold unsubscribe, unsubscribed. destruct (topics b !! t) as [subs|] eqn:Et; [|done].
  unfold drop_subscriber, dropped. case_bool_decide as Hi; [|done].
  unfold count_subscribers. rewrite count_accepted; [done|].
  destruct (decide (metrics b = None)) as [?|Hm]; [by left|].
  apply topic_accepted; [done|]. apply (Hb t i). unfold subscribers. by rewrite Et.
Qed.

Lemma unsubscribe_invalid b i t :
  metered b → i ∈ subscribers b t → ¬ ValidString t → unsubscribe b i t = Panic.
Proof.
  intros Hm Hi Ht. unfold unsubscribe, subscribers in *. destruct (topics b !! t) as [subs|]; [|set_solver].
  unfold drop_subscriber. rewrite bool_decide_true by done.
  unfold count_subscribers. destruct (count_cases (E:=Empty_set) sm_PubSubSubscribers [t] (add_subscribers t (-1)) b)
    as [[Ha%topic_accepted _]|[_ ->]]; done.
Qed.

Lemma foldl_panic (ts : list topic) i :
  foldl (λ m t, let! b := m in unsubscribe b i t) (Panic : exec Broker) ts = Panic.
Proof. by induction ts. Qed.

Lemma removeSession_valid b i : topics_valid b → removeSession b i = Ok (removed b i).
Proof.
  unfold removeSession, removed. rewrite removeSession_run. generalize (elements (dom (topics b))). intros ts. revert b.
  induction ts as [|t ts IH]; intros b Hb; [done|]. simpl. rewrite unsubscribe_valid by done.
  by apply IH, topics_valid_unsubscribed.
Qed.

Lemma removeSession_invalid b i t :
  metered b → i ∈ subscribers b t → ¬ ValidString t → removeSession b i = Panic.
Proof.
  intros Hm Hi Ht. unfold removeSession. rewrite removeSession_run.
  assert (t ∈ elements (dom (topics b))) as Hin.
  { apply elem_of_elements, elem_of_dom. unfold subscribers in Hi. destruct (topics b !! t); [done|set_solver]. }
  revert Hin. generalize (elements (dom (topics b))). intros ts. revert b Hm Hi.
  induction ts as [|t' ts IH]; intros b Hm Hi; [by intros ?%elem_of_nil|].
  simpl. destruct (decide (t' = t)) as [->|Hne].
  { intros _. rewrite unsubscribe_invalid by done. apply foldl_panic. }
  intros Hin. apply elem_of_cons in Hin as [|Hin]; [done|].
  destruct (unsubscribe b i t') as [b1|[]|] eqn:E; [|apply foldl_panic].
  apply unsubscribe_Ok in E as ->. apply IH; [by apply metered_unsubscribed| |done].
  rewrite subscribers_unsubscribe. by case_decide.
Qed.

(** ** The invariant *)

Lemma labels_ok_update y b' ss' ctl' pubs' :
  labels_ok y → (metered b' → metered (sys_broker y)) →
  (metered b' → topics_valid (sys_broker y) → topics_valid b') →
  (map_Forall (λ _, session_valid) (sys_sessions y) → map_Forall (λ _, pub_valid) (sys_pubs y) →
   topics_valid (sys_broker y) →
   map_Forall (λ _, session_valid) ss' ∧ map_Forall (λ _, pub_valid) pubs') →
  labels_ok (mkSys b' ss' ctl' pubs').
Proof.
  intros Hy Hm Ht Hsp Hb. destruct (Hy (Hm Hb)) as (? & ? & ?). split; [by apply Ht|]. by apply Hsp.
Qed.

(** A step that leaves the topics and the publications alone, and at most the session
    [i] with new queues. *)
Lemma labels_ok_session y b' i s s' ctl' :
  labels_ok y → same_topics (sys_broker y) b' → sys_sessions y !! i = Some s →
  (session_valid s → session_valid s') →
  labels_ok (mkSys b' (<[i := s']> (sys_sessions y)) ctl' (sys_pubs y)).
Proof.
  intros Hy Hb Hi Hs. apply (labels_ok_update y); [done|by apply metered_same|..].
  - intros _. by apply topics_valid_same.
  - intros Hss Hp _. split; [|done]. apply map_Forall_insert_2; [|done]. by apply Hs, (Hss i).
Qed.

Lemma labels_ok_broker y b' ctl' :
  labels_ok y → (metered b' → metered (sys_broker y)) →
  (metered b' → topics_valid (sys_broker y) → topics_valid b') →
  labels_ok (mkSys b' (sys_sessions y) ctl' (sys_pubs y)).
Proof. intros Hy Hm Ht. by apply (labels_ok_update y). Qed.

Lemma labels_ok_same y b' ctl' :
  labels_ok y → same_topics (sys_broker y) b' → labels_ok (mkSys b' (sys_sessions y) ctl' (sys_pubs y)).
Proof.
  intros Hy Hb. apply (labels_ok_broker y); [done|by apply metered_same|]. intros _. by apply topics_valid_same.
Qed.

(** A publication starts with subscribers of its topic as targets. *)
Lemma labels_ok_publish y b' ctl' k f surf order :
  labels_ok y → same_topics (sys_broker y) b' → order ≡ₚ elements (subscribers (sys_broker y) (frame_Topic f)) →
  labels_ok (mkSys b' (sys_sessions y) ctl' (<[k := mkPublication f surf order DgTry]> (sys_pubs y))).
Proof.
  intros Hy Hb Ho. apply (labels_ok_update y); [done|by apply metered_same|intros _; by apply topics_valid_same|].
  intros Hs Hp Ht. split; [done|]. apply map_Forall_insert_2; [|done]. unfold pub_valid. simpl. intros Hne.
  destruct order as [|i order]; [done|]. apply (Ht _ i). apply elem_of_elements. rewrite <- Ho. by left.
Qed.

Lemma enqueueDatagram_step_valid prefer ph s f s' o :
  session_valid s → frame_valid f → enqueueDatagram_step prefer ph s f = Some (s', o) → session_valid s'.
Proof.
  intros [Hd Hs] Hf. assert (Forall frame_valid (outDatagram s ++ [f])) as Happ by (apply Forall_app; auto).
  unfold enqueueDatagram_step. destruct ph.
  - case_match; intros [= <- <-]; by split.
  - intros [= <- <-]. split; [|done]. simpl. destruct Hd; [by constructor|done].
  - destruct (_ && _); [intros [= <- <-]; by split|]. destruct (ctx_done s); intros [= <- <-]; by split.
Qed.

Lemma enqueueStream_valid prefer s f s' :
  session_valid s → frame_valid f → enqueueStream prefer s f = Some s' → session_valid s'.
Proof.
  intros [Hd Hs] Hf. unfold enqueueStream. cbv zeta. destruct (_ && _).
  - intros [= <-]. split; [done|]. apply Forall_app; auto.
  - destruct (ctx_done s); intros [= <-]; by split.
Qed.

Lemma publish_one_valid prefer p s s' p' i :
  session_valid s → pub_valid p → head (pub_targets p) = Some i → publish_one prefer p s = Some (s', p') →
  session_valid s' ∧ pub_valid p'.
Proof.
  intros Hs Hp Hi. assert (frame_valid (pub_frame p)) as Hf by (apply Hp; intros He; by rewrite He in Hi).
  unfold publish_one. destruct (pub_surface p).
  - destruct (enqueueDatagram_step _ _ _ _) as [[s1 o]|] eqn:E; [|done].
    apply enqueueDatagram_step_valid in E; [|done..]. destruct o; intros [= <- <-]; (split; [done|by intros _]).
  - destruct (enqueueStream _ _ _) eqn:E; [|done]. apply enqueueStream_valid in E; [|done..]. intros [= <- <-]. split; [done|by intros _].
  - destruct (enqueueStream _ _ _) eqn:E; [|done]. apply enqueueStream_valid in E; [|done..]. intros [= <- <-]. split; [done|by intros _].
Qed.

Lemma pop_valid_dg s f q : outDatagram s = f :: q → session_valid s → session_valid (set_outDatagram s q).
Proof. intros Hq [Hd Hs]. split; [|done]. rewrite Hq in Hd. by apply Forall_cons in Hd as [_ ?]. Qed.
Lemma pop_valid_st s f q : outStream s = f :: q → session_valid s → session_valid (set_outStream s q).
Proof. intros Hq [Hd Hs]. split; [done|]. rewrite Hq in Hs. by apply Forall_cons in Hs as [_ ?]. Qed.

Lemma subscribed_valid b i t b' :
  subscribe b i t = Ok b' → (metered b' → metered b) ∧ (metered b' → topics_valid b → topics_valid b').
Proof.
  intros Hs. assert (metered b' → metered b) as Hm.
  { apply subscribe_Ok in Hs as ->. unfold subscribed. by rewrite metered_with. }
  split; [done|]. intros Hb' Hb t' j. rewrite (subscribe_Ok _ _ _ _ Hs), subscribers_subscribe.
  case_decide as Ht; [subst t'|by apply Hb]. intros _. destruct (decide (ValidString t)) as [|Hv]; [done|].
  apply (subscribe_panics b i) in Hv; [congruence|auto].
Qed.

Lemma sys_step_labels y y' : sys_step max_alloc y y' → labels_ok y → labels_ok y'.
Proof.
  intros Hstep Hy.
  destruct Hstep as [y i header Es Ep|y y1 i s f t Ep Es Hc _ _|y y1 i s f t Ep Es Hc _ Hsub|y i t b Ep Hb
    |y y1 i s f t Ep Es Hc _|y i t b Ep Hb|y y1 i f b ts order Ep Hc _ Hb Ho|y y1 i f Ep Hc _
    |y i s d b Es _ Hd|y i s d b f b' ts order Es _ Hd Hb Ho
    |y k p i s s' p' prefer Hp Hi Es Hone|y i p Hp _ Ep|y i p Hp _|y i s f q b out go okk Es Eq Hw
    |y i s f q b str w go write Es Eq Hw|y i s Es|y i Ep|y i s b Ep Es Hb];
    try (apply count_control_Ok in Hc as (Hcc & _ & _ & ->)).
  - apply (labels_ok_update y); [done..|]. intros Hs Hp _. split; [|done].
    apply map_Forall_insert_2; [by split; constructor|done].
  - by apply (labels_ok_same y).
  - apply (labels_ok_session y _ i s); [done..|]. unfold session_subscribe. by case_bool_decide.
  - apply subscribed_valid in Hb as [? ?]. by apply (labels_ok_broker y).
  - by apply (labels_ok_session y _ i s).
  - apply unsubscribe_Ok in Hb as ->. apply (labels_ok_broker y); [done|by intros ?%metered_unsubscribed|].
    intros _. by apply topics_valid_unsubscribed.
  - apply Publish_snapshot_Ok in Hb as [-> ->]. simpl in Ho. apply (labels_ok_publish y); [done|..].
    + eapply same_topics_trans; [exact Hcc|by apply same_topics_with].
    + by rewrite Ho, (same_topics_subscribers _ _ _ Hcc).
  - by apply (labels_ok_same y).
  - apply (labels_ok_same y); [done|]. by eapply datagramReader_same.
  - apply datagramReader_same in Hd. apply Publish_snapshot_Ok in Hb as [-> ->].
    apply (labels_ok_publish y); [done|..].
    + eapply same_topics_trans; [exact Hd|by apply same_topics_with].
    + by rewrite Ho, (same_topics_subscribers _ _ _ Hd).
  - apply (labels_ok_update y); [done..|]. intros Hss Hpp _.
    destruct (publish_one_valid prefer p s s' p' i (Hss i s Es) (Hpp k p Hp) Hi Hone).
    split; by apply map_Forall_insert_2.
  - apply (labels_ok_update y); [done..|]. intros Hss Hpp _. split; [done|]. by apply map_Forall_delete.
  - apply (labels_ok_update y); [done..|]. intros Hss Hpp _. split; [done|]. by apply map_Forall_delete.
  - apply datagramWriter_same in Hw. apply (labels_ok_session y _ i s); [done..|]. by eapply pop_valid_dg.
  - apply streamWriter_same in Hw. apply (labels_ok_session y _ i s); [done..|]. by eapply pop_valid_st.
  - by apply (labels_ok_session y _ i s).
  - by apply (labels_ok_same y).
  - apply removeSession_Ok in Hb as ->. apply (labels_ok_update y); [done|by intros ?%metered_removed|..].
    + intros _. apply topics_valid_removed.
    + intros Hss Hpp _. split; [|done]. apply map_Forall_insert_2; [exact (Hss i s Es)|done].
Qed.

Lemma reachable_labels m y : reachable max_alloc m y → labels_ok y.
Proof.
  induction 1; [|by eapply sys_step_labels]. intros _. split; [|split; by apply map_Forall_empty].
  intros t i. unfold subscribers. simpl. rewrite lookup_empty. set_solver.
Qed.

(** ** Readers and writers *)

Lemma datagramReader_panics b d :
  metered b → maxDatagramBytes ≤ max_alloc → max_alloc + 8 ≤ maxVarInt8 →
  datagramReader_step max_alloc b d = Panic ↔
    zlen d ≤ maxDatagramBytes ∧ ∃ f, Decode max_alloc d = Ok f ∧ frame_Kind f ≠ KindPub ∧ ¬ frame_valid f.
Proof.
  intros Hb Hma Hmax. unfold datagramReader_step, count_drop.
  destruct (Z.ltb_spec maxDatagramBytes (zlen d)) as [|Hd].
  { erewrite constant_count by done. split; [done|lia]. }
  pose proof (Decode_safe_lemma max_alloc d ltac:(lia) Hmax) as Hsafe.
  destruct (Decode max_alloc d) as [f|e|]; [|erewrite constant_count by done; naive_solver|done].
  case_bool_decide as Hk; [|naive_solver].
  destruct (count_cases (E:=wire_error) sm_PubSubDrops ["wt_datagram"; frame_Topic f; "incoming_non_pub"]%string
    (add_drop ["wt_datagram"; frame_Topic f; "incoming_non_pub"]%string) b) as [[Ha ->]|[Ha ->]];
    rewrite drop_accepted in Ha by done.
  - split; [done|]. intros (_ & f' & [= <-] & _ & Hv). by destruct Hv.
  - split; [|done]. intros _. split; [done|]. by exists f.
Qed.

Lemma datagramWriter_valid ok b f :
  metered b → frame_valid f → datagramWriter_step max_alloc ok b f = Panic → Encode max_alloc f = Panic.
Proof.
  intros Hb Hf. unfold datagramWriter_step. destruct (Encode max_alloc f) as [d|e|]; [|done..].
  destruct (maxDatagramBytes <? zlen d).
  - unfold count_drop. rewrite count_accepted; [done|]. by apply drop_accepted.
  - destruct ok; [|done]. unfold count_bytes. by erewrite constant_count by done.
Qed.

Lemma streamWriter_panics {S} (write : list byte → S → outcome io_error S) str b f :
  streamWriter_step max_alloc write str b f = Panic →
  ∃ w, str = Some w ∧ WriteStreamFrame max_alloc write w f = Panic.
Proof.
  unfold streamWriter_step. destruct str as [w|]; [|done]. unfold count_stream. erewrite constant_count by done.
  cbn [obind]. destruct (WriteStreamFrame max_alloc write w f) eqn:E; [|done|by eauto].
  unfold count_bytes. by erewrite constant_count by done.
Qed.

(** One iteration of the control reader panics just on a size that no slice can have. *)
Lemma readControl_panics b r :
  metered b → 0 ≤ max_alloc → max_alloc + 8 ≤ maxVarInt8 →
  readControl_step max_alloc b r = Panic ↔
    ∃ size r', varint_read r = Ok (size, r') ∧ max_alloc < size.
Proof.
  intros Hb Hma Hmax. rewrite <-(ReadStreamFrame_panics_iff max_alloc r Hma Hmax).
  unfold readControl_step. destruct (ReadStreamFrame max_alloc r) as [[f r']|e|]; simpl; [|done..].
  unfold count_stream. by erewrite constant_count by done.
Qed.

(** C7: what of the input of its clients the broker does not survive. In every
    reachable state of a broker with metrics the counting of frames, snapshots for
    publications, leaving a topic, and the end of a session never panic, and a writer
    panics only if the frame cannot be encoded, which every frame that was received
    can. What panics is exactly to read a frame on the control stream whose announced
    size exceeds the largest slice, to subscribe to a topic that is not UTF-8, and to
    receive a datagram that names such a topic but is no publication. The second
    leaves the session among the subscribers of the topic, where the clean-up of the
    session panics too. *)
Theorem broker_panics m y :
  maxDatagramBytes ≤ max_alloc → max_alloc + 8 ≤ maxVarInt8 →
  reachable max_alloc m y → metrics (sys_broker y) ≠ None →
  let b := sys_broker y in
  (count_control y ≠ Panic ∧
   (∀ f surf, surf ∈ [SurfaceDatagram; SurfaceStream] → Publish_snapshot b f surf ≠ Panic) ∧
   (∀ i t, unsubscribe b i t ≠ Panic) ∧ (∀ i, removeSession b i ≠ Panic)) ∧
  (∀ i s f ok, sys_sessions y !! i = Some s → f ∈ outDatagram s →
     datagramWriter_step max_alloc ok b f = Panic → Encode max_alloc f = Panic) ∧
  (∀ (write : list byte → list byte → outcome io_error (list byte)) str f,
     streamWriter_step max_alloc write str b f = Panic →
     ∃ w, str = Some w ∧ WriteStreamFrame max_alloc write w f = Panic) ∧
  (∀ d f, zlen d ≤ max_alloc → Decode max_alloc d = Ok f → ∃ d', Encode max_alloc f = Ok d') ∧
  (∀ r, readControl_step max_alloc b r = Panic ↔
     ∃ size r', varint_read r = Ok (size, r') ∧ max_alloc < size) ∧
  (∀ d, datagramReader_step max_alloc b d = Panic ↔
     zlen d ≤ maxDatagramBytes ∧
     ∃ f, Decode max_alloc d = Ok f ∧ frame_Kind f ≠ KindPub ∧ ¬ ValidString (frame_Topic f)) ∧
  (∀ i t, subscribe b i t = Panic ↔ ¬ ValidString t) ∧
  (∀ i t, ¬ ValidString t →
     i ∈ subscribers (subscribe_topic b i t) t ∧ removeSession (subscribe_topic b i t) i = Panic).
Proof.
  intros Hma Hmax Hr Hb b. destruct (reachable_labels m y Hr Hb) as (Ht & Hs & _).
  assert (∀ i t, i ∈ subscribers (subscribe_topic b i t) t) as Hin.
  { intros i t. unfold subscribers, subscribe_topic. simpl. rewrite lookup_insert_eq. set_solver. }
  split_and!.
  - unfold count_control, count_stream. by erewrite constant_count by done.
  - intros f surf Hsurf. unfold Publish_snapshot, count_bytes. erewrite constant_count; [done|done|done|].
    apply elem_of_cons in Hsurf as [->|Hsurf]; [done|]. by apply list_elem_of_singleton in Hsurf as ->.
  - intros i t. by rewrite unsubscribe_valid.
  - intros i. by rewrite removeSession_valid.
  - intros i s f ok Hi Hf. apply datagramWriter_valid; [done|].
    destruct (Hs i s Hi) as [Hd _]. rewrite Forall_forall in Hd. by apply Hd.
  - intros write str f. apply streamWriter_panics.
  - intros d f Hd Hf. pose proof (Decode_safe_lemma max_alloc d Hd Hmax) as Hsafe. rewrite Hf in Hsafe.
    destruct Hsafe as (_ & _ & _ & d' & He & _). eauto.
  - intros r. apply readControl_panics; [done| |done]. unfold maxDatagramBytes in Hma. lia.
  - intros d. by apply datagramReader_panics.
  - intros i t. by apply subscribe_panics.
  - intros i t Hv. split; [apply Hin|]. by apply (removeSession_invalid _ i t).
Qed.
End panics.

(** ** An instance *)

#[local] Existing Instances prometheus_Labels prometheus_LabelsLaws.

(** Four bytes that end the server: to unsubscribe from a topic of the one byte FF,
    sent as a datagram. *)
Definition deadly : list byte := [x03; x01; xff].
(** Eight bytes that do so on a control stream: the size 2^50 of a frame. *)
Definition huge : list byte := varint_bytes (2 ^ 50).

Lemma broker_panics_witness :
  datagramReader_step alloc_limit (sys_broker y_subscribed) deadly = Panic ∧
  readControl_step alloc_limit (sys_broker y_subscribed) (mkReader huge EOF) = Panic ∧
  subscribe (sys_broker y_subscribed) 1%positive (string_of_bytes [xff]) = Panic ∧
  removeSession (sys_broker y_subscribed) 1%positive ≠ Panic.
Proof.
  destruct (broker_panics alloc_limit (Some zero_Metrics) y_subscribed) as ((_ & _ & _ & Hrm) & _ & _ & _ & Hr & Hd & Hs & _);
    [vm_compute; discriminate|vm_compute; discriminate|exact y_subscribed_reachable|discriminate|].
  split; [|split; [|split; [|apply Hrm]]].
  - apply Hd. split; [vm_compute; discriminate|]. exists (mkFrame x03 (string_of_bytes [xff]) []).
    split; [vm_compute; reflexivity|]. split; [discriminate|vm_compute; intros []].
  - apply Hr. exists (2 ^ 50), (mkReader [] EOF). split; vm_compute; reflexivity.
  - apply Hs. vm_compute. intros [].
Defined.
