(* ===== verification/Logging.v ===== *)
(** * Logging: levels and the rotating log file ([internal/logging/logging.go])

    A rotating file appends records to [path], bounded by [maxBytes]; a record that
    does not fit rotates [path] to [path.1], [path.1] to [path.2] and so on, and
    drops the file numbered [maxFiles-1]. The calls of package [os] are those of
    [FS]. *)

From S2P Require Import Prelude Text FS.

Definition DefaultFileMaxBytes : Z := Z.shiftl 10 20.
Definition DefaultFileMaxFiles : Z := 3.

Inductive log_error :=
| ErrInvalidLevel (level : string)
| ErrWriterAndFile
| ErrPathRequired
| ErrCreateLogDir (e : os_error)
| ErrOpenLog (e : os_error)
| ErrStatLog (e : os_error)
| ErrCloseLog (e : os_error)
| ErrRemoveActive (e : os_error)
| ErrRemoveOldest (e : os_error)
| ErrRotate (index : Z) (e : os_error)
| ErrRotateActive (e : os_error)
| ErrWriteLog (e : os_error).

Definition map_error {E E' A} (f : E → E') (r : E + A) : E' + A :=
  match r with inl e => inl (f e) | inr a => inr a end.

(** ** Levels *)

Inductive Level := LevelDebug | LevelInfo | LevelWarn | LevelError.

Definition parseLevel (s : string) : (log_error + Level) :=
  let l := ToLower s in
  if String.eqb l "" || String.eqb l "info" then inr LevelInfo
  else if String.eqb l "debug" then inr LevelDebug
  else if String.eqb l "warn" || String.eqb l "warning" then inr LevelWarn
  else if String.eqb l "error" || String.eqb l "err" then inr LevelError
  else inl (ErrInvalidLevel s).

(** ** Records *)

Definition truncation_prefix : list byte := bytes_of_string "[log record truncated]" ++ [x0a].

Definition trimRecord (p : list byte) (maxBytes : Z) : list byte :=
  if (maxBytes <=? 0) || (zlen p <=? maxBytes) then p
  else
    let maxLen := Z.to_nat maxBytes in
    if (maxLen <=? length truncation_prefix)%nat
    then drop (length p - maxLen) p
    else truncation_prefix ++ drop (length p - (maxLen - length truncation_prefix)) p.

Definition backupPath (path : string) (index : Z) : string := path +:+ "." +:+ pretty index.

(** ** The rotating file *)

(** An [*os.File]: the path it was opened at, and whether it has been closed. *)
Record handle := mkHandle { h_path : path; h_closed : bool }.

Record RotatingFile := mkRotatingFile {
  rf_path : string;
  maxBytes : Z;
  maxFiles : Z;
  file : option handle;
  size : Z;
}.
Definition set_file (w : RotatingFile) (f : option handle) : RotatingFile :=
  mkRotatingFile (rf_path w) (maxBytes w) (maxFiles w) f (size w).
Definition set_size (w : RotatingFile) (n : Z) : RotatingFile :=
  mkRotatingFile (rf_path w) (maxBytes w) (maxFiles w) (file w) n.

(** Methods change the receiver and the file system also when they fail. *)
Abbreviation state := (RotatingFile * FS)%type (only parsing).
Definition method (A : Type) : Type := state → (log_error + A) * state.

Definition mret {A} (a : A) : method A := λ s, (inr a, s).
Definition mbind {A B} (m : method A) (k : A → method B) : method B := λ s,
  match m s with
  | (inr a, s) => k a s
  | (inl e, s) => (inl e, s)
  end.
(** An [os] call whose error is wrapped. *)
Definition os {A} (op : io A) (wrap : os_error → log_error) : method A := λ '(w, fs),
  let '(r, fs) := op fs in (map_error wrap r, (w, fs)).
(** An [os] call whose "does not exist" errors are ignored. *)
Definition os_ignore_missing (op : io unit) (wrap : os_error → log_error) : method unit := λ '(w, fs),
  match op fs with
  | (inl e, fs) => if IsNotExist e then (inr tt, (w, fs)) else (inl (wrap e), (w, fs))
  | (r, fs) => (map_error wrap r, (w, fs))
  end.
Definition update (f : RotatingFile → RotatingFile) : method unit := λ '(w, fs), (inr tt, (f w, fs)).

Notation "'do' x '<-' m ';' k" := (mbind m (λ x, k)) (at level 60, x pattern, m at level 50, k at level 60).

Definition openLocked : method unit := λ s,
  let p := rf_path s.1 in
  (do _ <- os (MkdirAll (filepath_Dir p)) ErrCreateLogDir;
   do h <- os (OpenAppend p) ErrOpenLog;
   λ '(w, fs),
     match FileSize h fs with
     | (inr n, fs) => (inr tt, (set_size (set_file w (Some (mkHandle h false))) n, fs))
     | (inl e, fs) => let '(_, fs) := FileClose fs in (inl (ErrStatLog e), (w, fs))
     end) s.

(** [w.file.Close()]: closing a closed file fails; the file is closed even when the
    call reports an error. *)
Definition close_handle : method unit := λ '(w, fs),
  match file w with
  | None => (inl (ErrCloseLog ErrInvalid), (w, fs))
  | Some h =>
      if h_closed h then (inl (ErrCloseLog ErrClosed), (w, fs))
      else
        let '(r, fs) := FileClose fs in
        (map_error ErrCloseLog r, (set_file w (Some (mkHandle (h_path h) true)), fs))
  end.

(** [for i := n; i >= 1; i-- { os.Rename(backupPath(i), backupPath(i+1)) }] *)
Fixpoint shift_backups (path : string) (n : nat) : method unit :=
  match n with
  | O => mret tt
  | S m =>
      let i := Z.of_nat n in
      do _ <- os_ignore_missing (Rename (backupPath path i) (backupPath path (i + 1))) (ErrRotate i);
      shift_backups path m
  end.

(** The first statement of [rotateLocked]. *)
Definition close_current : method unit := λ s,
  match file s.1 with
  | Some _ => (do _ <- close_handle; update (λ w, set_file w None)) s
  | None => (inr tt, s)
  end.

Definition rotateLocked : method unit := λ s,
  let p := rf_path s.1 in
  let n := maxFiles s.1 in
  (do _ <- close_current;
   if n <=? 1 then
     do _ <- os_ignore_missing (Remove p) ErrRemoveActive;
     openLocked
   else
     do _ <- os_ignore_missing (Remove (backupPath p (n - 1))) ErrRemoveOldest;
     do _ <- shift_backups p (Z.to_nat (n - 2));
     do _ <- os_ignore_missing (Rename p (backupPath p 1)) ErrRotateActive;
     openLocked) s.

(** [w.file.Write(p)] on a possibly nil or closed file. *)
Definition write_handle (p : list byte) : state → (Z * option os_error) * FS := λ '(w, fs),
  match file w with
  | None => ((0, Some ErrInvalid), fs)
  | Some h => if h_closed h then ((0, Some ErrClosed), fs) else FileWrite (h_path h) p fs
  end.

Definition append_record (p : list byte) (accepted : Z) (s : state) : (Z * option log_error) * state :=
  let '((n, err), fs) := write_handle p s in
  let w := set_size s.1 (wrap64 (size s.1 + n)) in
  match err with
  | Some e => ((n, Some (ErrWriteLog e)), (w, fs))
  | None => ((accepted, None), (w, fs))
  end.

Definition Write (p : list byte) (s : state) : (Z * option log_error) * state :=
  let accepted := zlen p in
  let p := trimRecord p (maxBytes s.1) in
  if (0 <? size s.1) && (maxBytes s.1 <? wrap64 (size s.1 + zlen p)) then
    match rotateLocked s with
    | (inr _, s) => append_record p accepted s
    | (inl e, s) => ((0, Some e), s)
    end
  else append_record p accepted s.

Definition Close (s : state) : option log_error * state :=
  match file s.1 with
  | None => (None, s)
  | Some _ =>
      let '(r, s) := close_handle s in
      (match r with inl e => Some e | _ => None end, (set_file s.1 None, s.2))
  end.

Definition NewRotatingFile (path : string) (mb mf : Z) (fs : FS) : (log_error + RotatingFile) * FS :=
  if String.eqb path "" then (inl ErrPathRequired, fs)
  else
    let mb := if mb <=? 0 then DefaultFileMaxBytes else mb in
    let mf := if mf <=? 0 then DefaultFileMaxFiles else mf in
    let w := mkRotatingFile path mb mf None 0 in
    match openLocked (w, fs) with
    | (inr _, (w, fs)) =>
        if maxBytes w <=? size w then
          match rotateLocked (w, fs) with
          | (inr _, (w, fs)) => (inr w, fs)
          | (inl e, s) => let '(_, s) := Close s in (inl e, s.2)
          end
        else (inr w, fs)
    | (inl e, (_, fs)) => (inl e, fs)
    end.

(** ** The logger *)

Record Options := mkOptions {
  opt_Level : string;
  opt_Writer : bool;   (** whether a writer is set *)
  opt_File : string;
  opt_MaxBytes : Z;
  opt_MaxFiles : Z;
}.

(** Where the records go. *)
Inductive sink := SinkWriter | SinkStderr | SinkFile (w : RotatingFile).

Definition New (opts : Options) (fs : FS) : (log_error + (Level * sink)) * FS :=
  match parseLevel (opt_Level opts) with
  | inl e => (inl e, fs)
  | inr lvl =>
      if opt_Writer opts && negb (String.eqb (opt_File opts) "") then (inl ErrWriterAndFile, fs)
      else if negb (String.eqb (opt_File opts) "") then
        match NewRotatingFile (opt_File opts) (opt_MaxBytes opts) (opt_MaxFiles opts) fs with
        | (inr w, fs) => (inr (lvl, SinkFile w), fs)
        | (inl e, fs) => (inl e, fs)
        end
      else (inr (lvl, if opt_Writer opts then SinkWriter else SinkStderr), fs)
  end.
