(* ===== verification/LoggingProofs.v ===== *)
(** * LoggingProofs: the rotating file step by step

    Without faults, every step of a rotating file is described by what the
    numbered files of its directory hold ([view]): number 0 is the active file,
    number [i] the [i]-th backup. *)

From S2P Require Import Prelude Text FS Logging.

(** ** The paths of a log *)

(** A log path with a proper file name: the segments before it, and the name. *)
Definition log_path (p : string) (ss : list string) (x : string) : Prop :=
  p ≠ ""%string ∧ Split slash p = ss ++ [x] ∧ ordinary x.

Definition log_dir (p : string) (ss : list string) : path :=
  (is_rooted p, reverse (foldl (push_seg (is_rooted p)) [] ss)).

(** The path string and the entry name of file number [i]. *)
Definition file_string (p : string) (i : Z) : string := if i =? 0 then p else backupPath p i.
Definition file_name (x : string) (i : Z) : string := if i =? 0 then x else x +:+ "." +:+ pretty i.

Lemma string_length_ne a b : String.length a ≠ String.length b → a ≠ b.
Proof. congruence. Qed.

Lemma file_name_ordinary x i : ordinary x → 0 ≤ i → ordinary (file_name x i).
Proof.
  intros Hx Hi. unfold file_name. case_match; [done|].
  destruct (pretty_Z_digits i Hi) as [_ Hl].
  assert (1 ≤ String.length x)%nat by (destruct Hx as [? _]; destruct x; [done|simpl; lia]).
  split_and!; apply string_length_ne; rewrite !string_length_app; simpl; lia.
Qed.

Lemma file_name_inj x i j : 0 ≤ i → 0 ≤ j → file_name x i = file_name x j → i = j.
Proof.
  intros Hi Hj. unfold file_name.
  destruct (Z.eqb_spec i 0), (Z.eqb_spec j 0); [lia|..]; intros H.
  - apply (f_equal String.length) in H. rewrite !string_length_app in H. simpl in H. lia.
  - apply (f_equal String.length) in H. rewrite !string_length_app in H. simpl in H. lia.
  - do 2 apply string_app_inj_l in H. by apply (inj pretty) in H.
Qed.

Lemma suffix_no_slash i : 0 ≤ i → slash ∉ bytes_of_string ("." +:+ pretty i).
Proof.
  intros Hi. rewrite bytes_of_string_app. intros [H|H]%elem_of_app.
  - apply list_elem_of_singleton in H. done.
  - by eapply digits_not_in, H; [|apply pretty_Z_digits].
Qed.

Lemma Split_append p k ss x :
  slash ∉ bytes_of_string k → Split slash p = ss ++ [x] → Split slash (p +:+ k) = ss ++ [x +:+ k].
Proof.
  intros Hk. unfold Split. rewrite bytes_of_string_app.
  destruct (split_on_snoc slash (bytes_of_string p) (bytes_of_string k) Hk) as (l & s & -> & ->).
  rewrite !map_app. simpl. intros H. simplify_list_eq. f_equal. f_equal.
  by rewrite string_of_bytes_app, string_of_bytes_of_string.
Qed.

Lemma resolve_snoc p q ss x :
  is_rooted q = is_rooted p → Split slash q = ss ++ [x] → ordinary x →
  resolve q = child (log_dir p ss) x.
Proof.
  intros Hr Hs Hx. unfold resolve, child, log_dir. rewrite Hr, Hs, foldl_app. simpl.
  by rewrite push_seg_ordinary, reverse_cons.
Qed.

Lemma resolve_file p ss x i : log_path p ss x → 0 ≤ i →
  resolve (file_string p i) = child (log_dir p ss) (file_name x i).
Proof.
  intros (Hp & Hs & Hx) Hi. unfold file_string. destruct (Z.eqb_spec i 0) as [->|Hne].
  - by apply resolve_snoc.
  - unfold backupPath. apply resolve_snoc.
    + by apply is_rooted_app.
    + unfold file_name. destruct (Z.eqb_spec i 0); [done|].
      apply Split_append; [by apply suffix_no_slash|done].
    + by apply file_name_ordinary.
Qed.

Lemma split_reverse_map (p : string) ss x :
  Split slash p = ss ++ [x] →
  reverse (split_on slash (bytes_of_string p)) = bytes_of_string x :: reverse (map bytes_of_string ss).
Proof.
  intros H. assert (split_on slash (bytes_of_string p) = map bytes_of_string (ss ++ [x])) as ->.
  { rewrite <-H. unfold Split. rewrite map_map. rewrite <-(map_id (split_on _ _)) at 1.
    apply map_ext. intros l. symmetry. apply bytes_of_string_of_bytes. }
  rewrite map_app, reverse_app. done.
Qed.

Lemma is_rooted_split s : is_rooted s = match Split slash s with x :: _ :: _ => String.eqb x "" | _ => false end.
Proof.
  unfold is_rooted, Split. destruct (bytes_of_string s) as [|b l]; [done|]. simpl.
  case_decide as Hb.
  - rewrite bool_decide_true by done. destruct (split_on slash l) eqn:E; [by apply split_on_ne in E|done].
  - rewrite bool_decide_false by done. destruct (split_on slash l) as [|s1 [|s2 ss]]; done.
Qed.

Lemma resolve_Dir p ss x : log_path p ss x → resolve (filepath_Dir p) = log_dir p ss.
Proof.
  intros (Hp & Hs & Hx). unfold filepath_Dir. rewrite resolve_Clean.
  unfold dir_part. rewrite (split_reverse_map _ _ _ Hs).
  destruct (reverse (map bytes_of_string ss)) as [|y l] eqn:E.
  - assert (ss = []) as ->.
    { apply (f_equal length) in E. rewrite length_reverse, length_map in E. by destruct ss. }
    unfold log_dir. rewrite is_rooted_split, Hs. done.
  - set (q := string_of_bytes (join_with slash (reverse ([] :: y :: l)))).
    assert (Hq : Split slash q = ss ++ [""%string]).
    { unfold q, Split. rewrite bytes_of_string_of_bytes, split_join.
      - rewrite reverse_cons, <-E, reverse_involutive, map_app, map_map. simpl. f_equal.
        rewrite <-(map_id ss) at 2. apply map_ext, string_of_bytes_of_string.
      - rewrite reverse_cons. by destruct (reverse (y :: l)).
      - rewrite reverse_cons, <-E, reverse_involutive. apply Forall_app. split.
        + apply Forall_map. pose proof (Split_no_slash p) as H. rewrite Hs in H.
          by apply Forall_app in H as [H _].
        + constructor; [by intros ?%elem_of_nil|done]. }
    change (resolve q = log_dir p ss). clearbody q. unfold resolve, log_dir. rewrite !is_rooted_split, Hq, Hs.
    assert (ss ≠ []) as Hne by (intros ->; done).
    destruct ss as [|s0 ss]; [done|]. simpl.
    assert ((match ss ++ [""%string] with [] => false | _ :: _ => (s0 =? "")%string end) =
            (match ss ++ [x] with [] => false | _ :: _ => (s0 =? "")%string end)) as ->
      by (by destruct ss).
    by rewrite foldl_app.
Qed.

(** ** Views *)

Definition upd {A} (v : Z → A) (i : Z) (c : A) : Z → A := λ j, if decide (j = i) then c else v j.

Section log.
Context (p : string) (ss : list string) (x : string) (N : Z).
Hypothesis (Hp : log_path p ss x) (HN : 1 ≤ N).

Let d : path := log_dir p ss.
Let key (i : Z) : path := child d (file_name x i).

(** A fault-free file system in which the log directory exists and its numbered
    files are those of [v]. *)
Definition view (fs : FS) (v : Z → option (list byte)) : Prop :=
  faults fs = [] ∧ dir_exists fs d ∧ ∀ i, 0 ≤ i < N → holds fs (key i) (v i).

(** Everything but the numbered files is the same. *)
Definition outside (fs fs' : FS) : Prop :=
  ∀ q, (∀ i, 0 ≤ i < N → q ≠ key i) → nodes fs' !! q = nodes fs !! q.

Lemma outside_refl fs : outside fs fs.
Proof. done. Qed.
Lemma outside_trans a b c : outside a b → outside b c → outside a c.
Proof. intros H1 H2 q Hq. rewrite H2, H1 by done. done. Qed.

Lemma key_eq i j : 0 ≤ i → 0 ≤ j → key i = key j ↔ i = j.
Proof.
  intros Hi Hj. split; [|by intros ->]. unfold key. intros H%child_inj.
  by eapply file_name_inj.
Qed.

Lemma resolve_key i : 0 ≤ i → resolve (file_string p i) = key i.
Proof. by apply resolve_file. Qed.

Lemma view_ext fs v v' : (∀ i, 0 ≤ i < N → v i = v' i) → view fs v → view fs v'.
Proof. intros Hv (? & ? & H). split_and!; [done..|]. intros i Hi. rewrite <-Hv by done. auto. Qed.

Lemma view_dir fs v : view fs v → node_at fs d = Some Dir.
Proof. intros (_ & H & _). by apply dir_exists_node. Qed.

Lemma view_change fs v m i c :
  view fs v → 0 ≤ i < N →
  (∀ q, q ≠ key i → m !! q = nodes fs !! q) →
  holds (set_nodes fs m) (key i) c →
  view (set_nodes fs m) (upd v i c) ∧ outside fs (set_nodes fs m).
Proof.
  intros (Hf & Hd & Hv) Hi Hm Hc. split; [split_and!|].
  - done.
  - eapply dir_exists_agree; [|exact Hd]. intros q Hq. simpl. apply Hm, Hq.
  - intros j Hj. unfold upd. case_decide as Hij; [by subst|].
    specialize (Hv j Hj). unfold holds in *. simpl. rewrite Hm; [done|].
    rewrite key_eq by lia. done.
  - intros q Hq. apply Hm, Hq, Hi.
Qed.

Lemma view_insert fs v i c m :
  view fs v → 0 ≤ i < N →
  let fs' := set_nodes fs (<[key i := File c m]> (nodes fs)) in
  view fs' (upd v i (Some c)) ∧ outside fs fs'.
Proof.
  intros Hv Hi. apply view_change; [done..| |].
  - intros q Hq. by apply lookup_insert_ne.
  - exists m. simpl. apply lookup_insert_eq.
Qed.

Lemma view_delete fs v i :
  view fs v → 0 ≤ i < N →
  let fs' := set_nodes fs (delete (key i) (nodes fs)) in
  view fs' (upd v i None) ∧ outside fs fs'.
Proof.
  intros Hv Hi. apply view_change; [done..| |].
  - intros q Hq. by apply lookup_delete_ne.
  - simpl. apply lookup_delete_eq.
Qed.

Lemma remove_step w fs v i wrap :
  view fs v → 0 ≤ i < N →
  ∃ fs', os_ignore_missing (Remove (file_string p i)) wrap (w, fs) = (inr tt, (w, fs')) ∧
    view fs' (upd v i None) ∧ outside fs fs'.
Proof.
  intros Hv Hi. pose proof Hv as (Hf & _ & Hh). specialize (Hh i Hi).
  unfold os_ignore_missing. destruct (v i) as [c|] eqn:E; rewrite ?E in Hh.
  - rewrite (Remove_file fs d Hf _ (file_name x i) c) by first [done|apply resolve_key; lia].
    eexists. split; [done|]. by apply view_delete.
  - rewrite (Remove_missing fs d Hf _ (file_name x i)) by first [done|apply resolve_key; lia].
    exists fs. split; [done|]. split; [|done]. eapply view_ext, Hv. intros j _. unfold upd.
    by case_decide; subst.
Qed.

Lemma rename_step w fs v i j wrap :
  view fs v → 0 ≤ i < N → 0 ≤ j < N → i ≠ j → v j = None →
  ∃ fs', os_ignore_missing (Rename (file_string p i) (file_string p j)) wrap (w, fs) = (inr tt, (w, fs')) ∧
    view fs' (upd (upd v i None) j (v i)) ∧ outside fs fs'.
Proof.
  intros Hv Hi Hj Hne Hvj. pose proof Hv as (Hf & _ & Hh). pose proof (Hh i Hi) as Hhi.
  unfold os_ignore_missing. destruct (v i) as [c|] eqn:E; rewrite ?E in Hhi.
  - destruct Hhi as [m Hm].
    rewrite (Rename_file fs d Hf (view_dir _ _ Hv) _ _ (key i) (file_name x j) (File c m));
      [|apply resolve_key; lia|apply resolve_key; lia|done|done|eapply holds_not_dir, (Hh j Hj)].
    eexists. split; [done|].
    destruct (view_delete fs v i Hv Hi) as [Hv1 Ho1]. cbv zeta in *.
    destruct (view_insert _ _ j c m Hv1 Hj) as [Hv2 Ho2]. split; [exact Hv2|].
    by eapply outside_trans.
  - rewrite (Rename_missing fs d Hf _ _ (file_name x i)) by first [done|apply resolve_key; lia].
    exists fs. split; [done|]. split; [|done]. eapply view_ext, Hv. intros k _. unfold upd.
    case_decide; [by subst|]. case_decide; by subst.
Qed.

(** Shifting the backups [1..n] to [2..n+1]. *)
Lemma shift_step n : ∀ w fs v,
  view fs v → Z.of_nat n + 1 < N → v (Z.of_nat n + 1) = None →
  ∃ fs', shift_backups p n (w, fs) = (inr tt, (w, fs')) ∧
    view fs' (λ j, if decide (j = 1) then None
                   else if decide (1 < j ≤ Z.of_nat n + 1) then v (j - 1) else v j) ∧
    outside fs fs'.
Proof.
  induction n as [|n IH]; intros w fs v Hv Hn Hnone.
  - exists fs. split; [done|]. split; [|done]. eapply view_ext, Hv. intros j Hj. simpl in *.
    case_decide; [by subst|]. by rewrite decide_False by lia.
  - cbn [shift_backups]. unfold mbind.
    destruct (rename_step w fs v (Z.of_nat (S n)) (Z.of_nat (S n) + 1) (ErrRotate (Z.of_nat (S n))) Hv)
      as (fs1 & E1 & Hv1 & Ho1); [lia..|done|].
    assert (∀ i, 0 < i → backupPath p i = file_string p i) as Hfs.
    { intros i Hi. unfold file_string. by destruct (Z.eqb_spec i 0); [lia|]. }
    rewrite !Hfs by lia. rewrite E1.
    destruct (IH w fs1 _ Hv1) as (fs2 & E2 & Hv2 & Ho2); [lia|..].
    { unfold upd. rewrite decide_False by lia. rewrite decide_True by lia. done. }
    exists fs2. split; [done|]. split; [|by eapply outside_trans].
    eapply view_ext, Hv2. intros j Hj. cbn beta. unfold upd.
    repeat case_decide; try lia; try done; f_equal; lia.
Qed.

Definition rf (h : option handle) (mb sz : Z) : RotatingFile := mkRotatingFile p mb N h sz.
Definition open_handle : option handle := Some (mkHandle (key 0) false).

Lemma open_step h mb sz fs v :
  view fs v →
  ∃ fs', openLocked (rf h mb sz, fs) = (inr tt, (rf open_handle mb (zlen (default [] (v 0))), fs')) ∧
    view fs' (upd v 0 (Some (default [] (v 0)))) ∧ outside fs fs'.
Proof.
  intros Hv. pose proof Hv as (Hf & Hd & Hh). unfold openLocked, mbind, os. simpl.
  rewrite MkdirAll_exists; [|done|by erewrite resolve_Dir]. simpl.
  destruct (OpenAppend_entry fs d Hf (view_dir _ _ Hv) p (file_name x 0) (v 0)) as (m & ->).
  { apply (resolve_key 0). done. } { apply Hh. lia. }
  simpl. destruct (v 0) as [c|] eqn:E.
  - assert (view fs (upd v 0 (Some c))) as Hv'.
    { eapply view_ext, Hv. intros j Hj. unfold upd. case_decide; [by subst|done]. }
    exists fs. split; [|done]. rewrite (FileSize_entry fs d Hf (file_name x 0) c); [done|].
    rewrite <-E. apply (Hh 0). lia.
  - destruct (view_insert fs v 0 [] m Hv) as [Hv1 Ho1]; [lia|]. cbv zeta in *.
    eexists. split; [|by split]. destruct Hv1 as (Hf1 & _ & Hh1). unfold key in *.
    rewrite (FileSize_entry _ d Hf1 (file_name x 0) []); [done|]. apply (Hh1 0). lia.
Qed.

Definition rotated (v : Z → option (list byte)) : Z → option (list byte) :=
  λ i, if decide (i = 0) then Some [] else v (i - 1).

Lemma rotate_step h mb sz fs v :
  view fs v → (∀ h', h = Some h' → h_closed h' = false) →
  ∃ fs', rotateLocked (rf h mb sz, fs) = (inr tt, (rf open_handle mb 0, fs')) ∧
    view fs' (rotated v) ∧ outside fs fs'.
Proof.
  intros Hv Hh. unfold rotateLocked. cbv zeta.
  assert (Hclose : close_current (rf h mb sz, fs) = (inr tt, (rf None mb sz, fs))).
  { unfold close_current. simpl. destruct h as [h|]; [|done]. unfold mbind, close_handle. simpl. rewrite (Hh h) by done.
    unfold FileClose. rewrite syscall_no_fault by apply Hv. done. }
  cbn [fst rf_path maxFiles rf]. unfold mbind at 1. rewrite Hclose. clear Hclose.
  destruct (Z.leb_spec N 1) as [HN1|HN1].
  - unfold mbind at 1.
    destruct (remove_step (rf None mb sz) fs v 0 ErrRemoveActive Hv) as (fs1 & E1 & Hv1 & Ho1); [lia|].
    change (file_string p 0) with p in E1. rewrite E1.
    destruct (open_step None mb sz fs1 _ Hv1) as (fs2 & E2 & Hv2 & Ho2).
    exists fs2. rewrite E2. split; [done|]. split; [|by eapply outside_trans].
    eapply view_ext, Hv2. intros j Hj. unfold upd, rotated. assert (j = 0) as -> by lia. done.
  - assert (∀ i, 0 < i → backupPath p i = file_string p i) as Hfs.
    { intros i Hi. unfold file_string. by destruct (Z.eqb_spec i 0); [lia|]. }
    rewrite !Hfs by lia. unfold mbind at 1.
    destruct (remove_step (rf None mb sz) fs v (N - 1) ErrRemoveOldest Hv) as (fs1 & -> & Hv1 & Ho1); [lia|].
    unfold mbind at 1.
    destruct (shift_step (Z.to_nat (N - 2)) (rf None mb sz) fs1 _ Hv1) as (fs2 & -> & Hv2 & Ho2); [lia|..].
    { unfold upd. rewrite decide_True by lia. done. }
    unfold mbind at 1.
    destruct (rename_step (rf None mb sz) fs2 _ 0 1 ErrRotateActive Hv2) as (fs3 & E3 & Hv3 & Ho3); [lia..|done|].
    change (file_string p 0) with p in E3. rewrite E3.
    destruct (open_step None mb sz fs3 _ Hv3) as (fs4 & E4 & Hv4 & Ho4).
    exists fs4. rewrite E4. split; [done|].
    split; [|by eauto using outside_trans].
    eapply view_ext, Hv4. intros j Hj. unfold upd, rotated.
    repeat case_decide; try lia; try done; f_equal; lia.
Qed.

Lemma append_step rec acc mb a fs v :
  view fs v → v 0 = Some a → zlen a + zlen rec ≤ max_int64 →
  ∃ fs', append_record rec acc (rf open_handle mb (zlen a), fs)
    = ((acc, None), (rf open_handle mb (zlen (a ++ rec)), fs')) ∧
    view fs' (upd v 0 (Some (a ++ rec))) ∧ outside fs fs'.
Proof.
  intros Hv Ha Hmax. pose proof Hv as (Hf & Hd & Hh). unfold append_record. simpl.
  destruct (FileWrite_entry fs d Hf (file_name x 0) a rec) as [m E].
  { rewrite <-Ha. apply Hh. lia. }
  unfold key in *. rewrite E. destruct (view_insert fs v 0 (a ++ rec) m Hv) as [Hv1 Ho1]; [lia|].
  eexists. split; [|by split]. rewrite wrap64_small, zlen_app; [done|].
  pose proof (zlen_nonneg a). pose proof (zlen_nonneg rec). unfold min_int64. lia.
Qed.

End log.
