(* ===== verification/LoggingTheorems.v ===== *)
(** * LoggingTheorems: what the rotating log promises

    A rotating file refines a list of file contents ([log]), bounded in size and
    number and losing only its oldest files; the size bound survives failing calls;
    a failed close does not heal. *)

From S2P Require Import Prelude Text FS Logging LoggingProofs.

(** ** Abstract specification *)

(** The active file, and the backups from the most recent one on. *)
Record log := mkLog { active : list byte; backups : list (list byte) }.

Definition log_rotate (N : Z) (l : log) : log :=
  mkLog [] (take (Z.to_nat (N - 1)) (active l :: backups l)).

Definition log_open (mb N : Z) (l : log) : log :=
  if mb <=? zlen (active l) then log_rotate N l else l.

Definition log_write (mb N : Z) (l : log) (rec : list byte) : log :=
  let rec := trimRecord rec mb in
  let l := if (0 <? zlen (active l)) && (mb <? zlen (active l) + zlen rec) then log_rotate N l else l in
  mkLog (active l ++ rec) (backups l).

(** The content of file number [i]. *)
Definition log_file (l : log) (i : Z) : option (list byte) :=
  if decide (i = 0) then Some (active l) else backups l !! Z.to_nat (i - 1).

(** ** Several writes in a row *)

Fixpoint write_all (recs : list (list byte)) (s : RotatingFile * FS)
    : list (Z * option log_error) * (RotatingFile * FS) :=
  match recs with
  | [] => ([], s)
  | rec :: recs =>
      let '(r, s) := Write rec s in
      let '(rs, s) := write_all recs s in (r :: rs, s)
  end.

(** ** Records *)

Lemma trimRecord_id rec mb : zlen rec ≤ mb → trimRecord rec mb = rec.
Proof.
  intros H. unfold trimRecord. destruct (Z.leb_spec (zlen rec) mb); [|lia].
  by rewrite orb_true_r.
Qed.

Lemma trimRecord_length rec mb : 0 < mb → zlen (trimRecord rec mb) ≤ mb.
Proof.
  intros Hmb. unfold trimRecord.
  destruct (Z.leb_spec mb 0), (Z.leb_spec (zlen rec) mb); cbn [orb]; try lia.
  unfold zlen in *.
  destruct (Nat.leb_spec (Z.to_nat mb) (length truncation_prefix)).
  - rewrite length_drop. lia.
  - rewrite length_app, length_drop. lia.
Qed.

Section refinement.
Context (p : string) (ss : list string) (x : string) (mb N : Z).
Hypothesis (Hp : log_path p ss x) (HN : 1 ≤ N) (Hmb : 0 < mb < 2 ^ 62).

(** The writer and the file system hold [l]. *)
Definition holds_log (s : RotatingFile * FS) (l : log) : Prop :=
  s.1 = rf p N (open_handle p ss x) mb (zlen (active l)) ∧
  view p ss x N s.2 (log_file l) ∧
  zlen (active l) ≤ mb ∧ zlen (backups l) ≤ N - 1.

Lemma rotated_log fs l :
  view p ss x N fs (rotated (log_file l)) → view p ss x N fs (log_file (log_rotate N l)).
Proof.
  apply view_ext. intros i Hi. unfold rotated, log_file. simpl.
  destruct (decide (i = 0)) as [|Hi0]; [done|]. rewrite lookup_take_lt by lia.
  destruct (decide (i - 1 = 0)) as [Hi1|Hi1].
  - by replace (Z.to_nat (i - 1)) with 0%nat by lia.
  - by replace (Z.to_nat (i - 1)) with (S (Z.to_nat (i - 1 - 1))) by lia.
Qed.

Lemma log_rotate_length l : zlen (backups (log_rotate N l)) ≤ N - 1.
Proof. unfold log_rotate, zlen. simpl. rewrite length_take. lia. Qed.

Lemma Write_refines s l rec :
  holds_log s l →
  ∃ s', Write rec s = ((zlen rec, None), s') ∧ holds_log s' (log_write mb N l rec) ∧
    outside p ss x N s.2 s'.2.
Proof.
  destruct s as [w fs]. intros (Hw & Hv & Ha & Hb). simpl in Hw, Hv. subst w.
  pose proof (trimRecord_length rec mb ltac:(lia)) as Hrec.
  pose proof (zlen_nonneg (active l)). pose proof (zlen_nonneg (trimRecord rec mb)).
  unfold Write, log_write. cbv zeta. cbn [fst rf maxBytes size].
  rewrite wrap64_small by (unfold min_int64, max_int64; lia).
  destruct ((0 <? zlen (active l)) && (mb <? zlen (active l) + zlen (trimRecord rec mb))) eqn:E.
  - destruct (rotate_step p ss x N Hp HN (open_handle p ss x) mb (zlen (active l)) fs (log_file l) Hv)
      as (fs1 & -> & Hv1 & Ho1); [by intros h [= <-]|].
    apply rotated_log in Hv1.
    destruct (append_step p ss x N HN (trimRecord rec mb) (zlen rec) mb [] fs1 _ Hv1 eq_refl)
      as (fs2 & E2 & Hv2 & Ho2); [rewrite zlen_nil; unfold max_int64; lia|].
    rewrite zlen_nil in E2. rewrite E2. eexists. split; [done|].
    split; [|by eapply outside_trans]. split_and!; [done| |simpl; lia|apply log_rotate_length].
    eapply view_ext, Hv2. intros i _. unfold upd, log_file. simpl. by case_decide.
  - destruct (append_step p ss x N HN (trimRecord rec mb) (zlen rec) mb (active l) fs _ Hv eq_refl)
      as (fs2 & -> & Hv2 & Ho2); [unfold max_int64; lia|].
    eexists. split; [done|]. split; [|done]. split_and!; [done| |..]; simpl.
    + eapply view_ext, Hv2. intros i _. unfold upd, log_file. simpl. by case_decide.
    + rewrite zlen_app. apply andb_false_iff in E as [E|E]; [|apply Z.ltb_ge in E; lia].
      apply Z.ltb_ge in E. lia.
    + done.
Qed.

Lemma write_all_refines recs : ∀ s l,
  holds_log s l →
  ∃ s', write_all recs s = (map (λ r, (zlen r, None)) recs, s') ∧
    holds_log s' (foldl (log_write mb N) l recs) ∧ outside p ss x N s.2 s'.2.
Proof.
  induction recs as [|rec recs IH]; intros s l Hs; simpl.
  { exists s. split; [done|]. split; [done|]. apply outside_refl. }
  destruct (Write_refines s l rec Hs) as (s1 & -> & Hs1 & Ho1).
  destruct (IH s1 _ Hs1) as (s2 & -> & Hs2 & Ho2).
  exists s2. split; [done|]. split; [done|]. by eapply outside_trans.
Qed.

Lemma New_refines fs a bs :
  view p ss x N fs (λ i, if decide (i = 0) then a else bs !! Z.to_nat (i - 1)) →
  zlen bs ≤ N - 1 →
  ∃ w fs', NewRotatingFile p mb N fs = (inr w, fs') ∧
    holds_log (w, fs') (log_open mb N (mkLog (default [] a) bs)) ∧ outside p ss x N fs fs'.
Proof.
  intros Hv Hbs. unfold NewRotatingFile.
  destruct (String.eqb_spec p "") as [|_]; [by destruct Hp|].
  destruct (Z.leb_spec mb 0); [lia|]. destruct (Z.leb_spec N 0); [lia|]. cbv zeta.
  destruct (open_step p ss x N Hp HN None mb 0 fs _ Hv) as (fs1 & E1 & Hv1 & Ho1).
  unfold rf in E1. rewrite E1. cbn [maxBytes size fst].
  assert (view p ss x N fs1 (log_file (mkLog (default [] a) bs))) as Hv1'.
  { eapply view_ext, Hv1. intros i _. unfold upd, log_file.
    by destruct (decide (i = 0)). }
  unfold log_open. simpl. destruct (Z.leb_spec mb (zlen (default [] a))).
  - destruct (rotate_step p ss x N Hp HN (open_handle p ss x) mb (zlen (default [] a)) fs1 _ Hv1')
      as (fs2 & E2 & Hv2 & Ho2); [by intros h [= <-]|].
    unfold rf in E2. rewrite E2. eexists _, _. split; [done|].
    split; [|by eapply outside_trans]. split_and!; [done|by apply rotated_log|unfold zlen; simpl; lia|].
    apply log_rotate_length.
  - eexists _, _. split; [done|]. split; [|done]. split_and!; [done|done|simpl; lia|done].
Qed.

End refinement.

(** C30: a rotating file is a bounded list of files. Opened in an existing directory
    whose numbered files hold [a] (if there is one) and the backups [bs], and
    without failing calls, opening and every following write succeed, a write
    reports the length of its record, the numbered files then hold exactly what the
    abstract log holds after the same writes, and no other file has changed. *)
Theorem rotating_file_refines p ss x mb N fs a bs recs :
  log_path p ss x → 1 ≤ N → 0 < mb < 2 ^ 62 →
  view p ss x N fs (λ i, if decide (i = 0) then a else bs !! Z.to_nat (i - 1)) →
  zlen bs ≤ N - 1 →
  ∃ w fs1 s2, NewRotatingFile p mb N fs = (inr w, fs1) ∧
    write_all recs (w, fs1) = (map (λ r, (zlen r, None)) recs, s2) ∧
    view p ss x N s2.2
      (log_file (foldl (log_write mb N) (log_open mb N (mkLog (default [] a) bs)) recs)) ∧
    outside p ss x N fs s2.2.
Proof.
  intros Hp HN Hmb Hv Hbs.
  destruct (New_refines p ss x mb N Hp HN Hmb fs a bs Hv Hbs) as (w & fs1 & E1 & Hl1 & Ho1).
  destruct (write_all_refines p ss x mb N Hp HN Hmb recs _ _ Hl1) as (s2 & E2 & Hl2 & Ho2).
  exists w, fs1, s2. split_and!; [done|done|apply Hl2|by eapply outside_trans].
Qed.

(** The abstract log as groups of records, from the oldest file on. *)
Record grouped (mb N : Z) (l : log) (recs : list (list byte)) (groups : list (list (list byte))) : Prop := {
  grouped_files : reverse (active l :: backups l) = map (@concat _) groups;
  grouped_suffix : concat groups `suffix_of` map (λ r, trimRecord r mb) recs;
  grouped_count : zlen (backups l) ≤ N - 1;
  grouped_size : Forall (λ f, zlen f ≤ mb) (active l :: backups l);
  grouped_fit : zlen (concat (map (λ r, trimRecord r mb) recs)) ≤ mb →
    active l = concat (map (λ r, trimRecord r mb) recs) ∧ backups l = [];
}.

Lemma concat_drop_suffix {A} n (ls : list (list A)) : concat (drop n ls) `suffix_of` concat ls.
Proof.
  rewrite <-(take_drop n ls) at 2. rewrite concat_app. by apply suffix_app_r.
Qed.

Lemma log_write_grouped mb N l recs groups rec :
  1 ≤ N → 0 < mb → grouped mb N l recs groups →
  ∃ groups', grouped mb N (log_write mb N l rec) (recs ++ [rec]) groups'.
Proof.
  intros HN Hmb [Hf Hs Hc Hz Hfit].
  pose proof (trimRecord_length rec mb Hmb) as Hrec. pose proof (zlen_nonneg (active l)) as Ha.
  pose proof (zlen_nonneg (trimRecord rec mb)) as Hr.
  apply Forall_cons in Hz as [Hz0 Hz].
  assert (Hfit' : zlen (concat (map (λ r, trimRecord r mb) (recs ++ [rec]))) ≤ mb →
    active l = concat (map (λ r, trimRecord r mb) recs) ∧ backups l = [] ∧
    zlen (active l) + zlen (trimRecord rec mb) ≤ mb).
  { rewrite map_app, concat_app, zlen_app. simpl. rewrite app_nil_r. intros Hle.
    destruct Hfit as [-> ->]; [lia|]. split_and!; [done|done|lia]. }
  unfold log_write. cbv zeta.
  destruct ((0 <? zlen (active l)) && (mb <? zlen (active l) + zlen (trimRecord rec mb))) eqn:E.
  - exists (drop (length (active l :: backups l) - Z.to_nat (N - 1)) groups ++ [[trimRecord rec mb]]).
    split; simpl.
    + rewrite map_app, reverse_cons, <-skipn_map, <-Hf, reverse_take. simpl. by rewrite app_nil_r.
    + rewrite concat_app, map_app. apply suffix_app.
      by etrans; [apply concat_drop_suffix|].
    + apply log_rotate_length. done.
    + constructor; [done|]. apply Forall_take. by constructor.
    + intros Hle. apply Hfit' in Hle. apply andb_true_iff in E as [_ E%Z.ltb_lt]. lia.
  - destruct groups as [|g groups _] using rev_ind.
    { apply (f_equal length) in Hf. by rewrite length_reverse in Hf. }
    rewrite reverse_cons, map_app in Hf. simpl in Hf. apply app_inj_tail in Hf as [Hf Hg].
    exists (groups ++ [g ++ [trimRecord rec mb]]). split; simpl.
    + rewrite reverse_cons, map_app, Hf. simpl. rewrite concat_app, Hg. simpl. by rewrite app_nil_r.
    + rewrite concat_app, map_app in *. simpl in *. rewrite app_nil_r in *. rewrite app_assoc.
      by apply suffix_app.
    + done.
    + constructor; [|done]. rewrite zlen_app.
      apply andb_false_iff in E as [E%Z.ltb_ge|E%Z.ltb_ge]; lia.
    + intros Hle. apply Hfit' in Hle as (Hact & Hb & _).
      rewrite map_app, concat_app, Hact. simpl. by rewrite app_nil_r.
Qed.

Lemma log_writes_grouped mb N recs : 1 ≤ N → 0 < mb →
  ∃ groups, grouped mb N (foldl (log_write mb N) (mkLog [] []) recs) recs groups.
Proof.
  intros HN Hmb. induction recs as [|rec recs (groups & IH)] using rev_ind.
  - exists [[]]. split; simpl; [done|done|unfold zlen; simpl; lia| |done].
    repeat constructor. rewrite zlen_nil. lia.
  - rewrite foldl_app. simpl. by eapply log_write_grouped.
Qed.

(** Rotation loses only the oldest records, and whole ones. After any writes to
    a fresh log, the retained files from the oldest to the active one are groups of
    consecutive records (each cut to [maxBytes] as the code does) that end with the
    last one written; there are at most [maxFiles] files, none above [maxBytes];
    and nothing is lost while everything fits in one file. *)
Theorem rotation_retention p ss x mb N fs recs :
  log_path p ss x → 1 ≤ N → 0 < mb < 2 ^ 62 →
  view p ss x N fs (λ _, None) →
  ∃ w fs1 s2 (groups : list (list (list byte))) files,
    NewRotatingFile p mb N fs = (inr w, fs1) ∧
    write_all recs (w, fs1) = (map (λ r, (zlen r, None)) recs, s2) ∧
    view p ss x N s2.2 (λ i, files !! Z.to_nat i) ∧
    reverse files = map (@concat _) groups ∧
    concat groups `suffix_of` map (λ r, trimRecord r mb) recs ∧
    zlen files ≤ N ∧ Forall (λ f, zlen f ≤ mb) files ∧
    (zlen (concat (map (λ r, trimRecord r mb) recs)) ≤ mb →
       files = [concat (map (λ r, trimRecord r mb) recs)]).
Proof.
  intros Hp HN Hmb Hv.
  destruct (New_refines p ss x mb N Hp HN Hmb fs None []) as (w & fs1 & E1 & Hl1 & Ho1);
    [|rewrite zlen_nil; lia|].
  { eapply view_ext, Hv. intros i _. by case_decide. }
  unfold log_open in Hl1. rewrite (proj2 (Z.leb_gt _ _)) in Hl1 by (simpl; rewrite zlen_nil; lia).
  destruct (write_all_refines p ss x mb N Hp HN Hmb recs _ _ Hl1) as (s2 & E2 & Hl2 & Ho2).
  destruct (log_writes_grouped mb N recs HN ltac:(lia)) as (groups & [Hg Hsuf Hlen Hall Hfit]).
  simpl default in *. set (l := foldl (log_write mb N) (mkLog [] []) recs) in *.
  exists w, fs1, s2, groups, (active l :: backups l).
  split_and!; [done|done| |done|done|rewrite zlen_cons; lia|done|intros Hle; by destruct Hfit as [-> ->]].
  destruct Hl2 as (_ & Hv2 & _). eapply view_ext, Hv2. intros i Hi. unfold log_file.
  case_decide as H0; [by subst|].
  by replace (Z.to_nat i) with (S (Z.to_nat (i - 1))) by lia.
Qed.
