(* ===== verification/LoggingFaults.v ===== *)
(** * LoggingFaults: the rotating log under failing system calls

    Any call of package [os] may fail, as the fault schedule says. The size bound of
    the active file still holds; a close that fails during a rotation leaves the
    writer refusing every later record. *)

From S2P Require Import Prelude Text FS Logging LoggingProofs LoggingTheorems.

(** Moving a directory tree does not affect paths elsewhere. *)
Definition under (a q : path) : Prop := a.1 = q.1 ∧ a.2 `prefix_of` q.2.

Lemma under_dec_refl a : under a a.
Proof. by split. Qed.

Lemma move_tree_other old new m q :
  ¬ under old q → ¬ under new q → move_tree old new m !! q = m !! q.
Proof.
  intros Hold Hnew.
  assert (Hkey : ∀ k, move_key old new k = q → k = q).
  { intros k. unfold move_key. case_bool_decide; [|done]. intros <-. destruct Hnew.
    split; simpl; [done|]. by apply prefix_app_r. }
  assert (Hq : move_key old new q = q).
  { unfold move_key. by rewrite bool_decide_false. }
  unfold move_tree. destruct (m !! q) as [n|] eqn:E.
  - apply elem_of_list_to_map_1'.
    + intros n' Hin. apply list_elem_of_fmap in Hin as ([k n''] & Heq & Hin).
      injection Heq as Hk ->. symmetry in Hk. apply Hkey in Hk as ->.
      apply elem_of_map_to_list in Hin. congruence.
    + apply list_elem_of_fmap. exists (q, n). rewrite Hq. split; [done|].
      by apply elem_of_map_to_list.
  - apply not_elem_of_list_to_map_1. intros Hin.
    apply list_elem_of_fmap in Hin as ([k n] & Hk & Hin). simpl in Hk.
    apply list_elem_of_fmap in Hin as ([k' n'] & Heq & Hin). injection Heq as -> ->.
    symmetry in Hk. apply Hkey in Hk as ->. apply elem_of_map_to_list in Hin. congruence.
Qed.



Section faults.
Context (p : string) (ss : list string) (x : string).
Hypothesis (Hp : log_path p ss x).

Let d : path := log_dir p ss.
Let key (i : Z) : path := child d (file_name x i).

(** The active file, the directory and the faults of [fs'] are those of [fs]. *)
Definition same_log (fs fs' : FS) : Prop :=
  nodes fs' !! key 0 = nodes fs !! key 0 ∧
  (node_at fs d = Some Dir → node_at fs' d = Some Dir) ∧
  (honest_faults fs → honest_faults fs').

Lemma same_log_refl fs : same_log fs fs.
Proof. done. Qed.
Lemma same_log_trans a b c : same_log a b → same_log b c → same_log a c.
Proof. intros (H1 & H2 & H3) (H4 & H5 & H6). split_and!; [congruence|auto|auto]. Qed.

Lemma key_ne i : 0 < i → key i ≠ key 0.
Proof. intros Hi H. apply (key_eq p ss x i 0) in H; lia. Qed.

Lemma child_not_under q y : under (child q y) q → False.
Proof.
  intros [_ H]. apply prefix_length in H. simpl in H. rewrite length_app in H. simpl in H. lia.
Qed.

Lemma key_not_under i : 0 < i → ¬ under (key i) (key 0).
Proof.
  intros Hi [_ [l H]]. simpl in H. rewrite <-app_assoc in H.
  apply app_inv_head in H. simpl in H. injection H as Hx _.
  apply (key_ne i Hi). unfold key. by rewrite Hx.
Qed.

Lemma same_log_nodes fs fs1 fs' :
  nodes fs1 = nodes fs → (honest_faults fs → honest_faults fs1) →
  nodes fs' !! key 0 = nodes fs1 !! key 0 → (node_at fs1 d = Some Dir → node_at fs' d = Some Dir) →
  faults fs' = faults fs1 →
  same_log fs fs'.
Proof.
  intros Hn Hh Hk Hd Hf. split_and!.
  - by rewrite Hk, Hn.
  - intros H. apply Hd. by rewrite (node_at_nodes _ fs).
  - intros H. apply Hh in H. unfold honest_faults in *. by rewrite Hf.
Qed.

Lemma node_at_dir_change fs m :
  (∀ y l, d.2 = y :: l → m !! d = nodes fs !! d) →
  node_at fs d = Some Dir → node_at (set_nodes fs m) d = Some Dir.
Proof.
  intros Hm. unfold node_at, set_nodes. destruct d as [r [|y l]]; [done|]. simpl. by erewrite Hm.
Qed.

(** A call that changes only what is at or under backups. *)
Lemma set_nodes_same fs m :
  m !! key 0 = nodes fs !! key 0 → m !! d = nodes fs !! d →
  nodes (set_nodes fs m) !! key 0 = nodes fs !! key 0 ∧
  (node_at fs d = Some Dir → node_at (set_nodes fs m) d = Some Dir) ∧
  faults (set_nodes fs m) = faults fs.
Proof. intros H1 H2. split_and!; [done| |done]. by apply node_at_dir_change. Qed.

Lemma d_ne_key i : d ≠ key i.
Proof. intros H. by apply (child_ne d (file_name x i)). Qed.

Lemma Remove_same fs i r fs' : 0 < i →
  Remove (file_string p i) fs = (r, fs') → same_log fs fs'.
Proof.
  intros Hi H. apply syscall_inv in H as (fs1 & Hn & Hh & [(e & -> & -> & _)|H]).
  { eapply same_log_nodes; eauto. }
  cbv zeta in H. rewrite (resolve_file p ss x) in H by (done || lia).
  change (child (log_dir p ss) (file_name x i)) with (key i) in H.
  assert (∀ r', (r', set_nodes fs1 (delete (key i) (nodes fs1))) = (r, fs') → same_log fs fs') as Hdel.
  { intros r' [= _ <-].
    destruct (set_nodes_same fs1 (delete (key i) (nodes fs1))) as (H1 & H2 & H3);
      [apply lookup_delete_ne, key_ne, Hi|apply lookup_delete_ne; intros ?; by apply (d_ne_key i)|].
    eapply same_log_nodes; eauto. }
  assert (∀ r', (r', fs1) = (r, fs') → same_log fs fs') as Hsame.
  { intros r' [= _ <-]. eapply same_log_nodes; eauto. }
  repeat case_match; eauto.
Qed.

Lemma Rename_same fs i j r fs' : 0 < i → 0 < j →
  Rename (file_string p i) (file_string p j) fs = (r, fs') → same_log fs fs'.
Proof.
  intros Hi Hj H. apply syscall_inv in H as (fs1 & Hn & Hh & [(e & -> & -> & _)|H]).
  { eapply same_log_nodes; eauto. }
  cbv zeta in H. rewrite !(resolve_file p ss x) in H by (done || lia).
  change (child (log_dir p ss) (file_name x i)) with (key i) in H.
  change (child (log_dir p ss) (file_name x j)) with (key j) in H.
  assert (∀ r', (r', fs1) = (r, fs') → same_log fs fs') as Hsame.
  { intros r' [= _ <-]. eapply same_log_nodes; eauto. }
  assert (∀ r' m, m !! key 0 = nodes fs1 !! key 0 → m !! d = nodes fs1 !! d →
    (r', set_nodes fs1 m) = (r, fs') → same_log fs fs') as Hset.
  { intros r' m H1 H2 [= _ <-]. destruct (set_nodes_same fs1 m H1 H2) as (? & ? & ?).
    eapply same_log_nodes; eauto. }
  assert (∀ n, (inr tt, set_nodes fs1 (<[key j := n]> (delete (key i) (nodes fs1)))) = (r, fs') →
    same_log fs fs') as Hfile.
  { intros n. apply Hset.
    - rewrite lookup_insert_ne, lookup_delete_ne by (by apply key_ne). done.
    - rewrite lookup_insert_ne, lookup_delete_ne by (intros E; symmetry in E; by apply d_ne_key in E). done. }
  destruct (nodes fs1 !! key i) as [n|]; [|by eauto].
  case_match; [by eauto|]. case_match; [by eauto|].
  destruct n; [by eauto| |by eauto].
  case_match; [by eauto|]. case_match; [by eauto|].
  revert H. apply Hset; apply move_tree_other;
    first [by apply key_not_under|intros Hu; by apply child_not_under in Hu].
Qed.

Lemma ignore_same (op : io unit) wrap w fs r s' :
  (∀ r fs', op fs = (r, fs') → same_log fs fs') →
  os_ignore_missing op wrap (w, fs) = (r, s') → s'.1 = w ∧ same_log fs s'.2.
Proof.
  unfold os_ignore_missing. intros Hop. destruct (op fs) as [[e|a] fs1] eqn:E.
  - destruct (IsNotExist e); intros [= <- <-]; eauto.
  - intros [= <- <-]. eauto.
Qed.

Lemma shift_same n : ∀ w fs r s',
  shift_backups p n (w, fs) = (r, s') → s'.1 = w ∧ same_log fs s'.2.
Proof.
  induction n as [|n IH]; intros w fs r s'; [by intros [= <- <-]|].
  cbn [shift_backups]. unfold mbind at 1.
  assert (∀ i, 0 < i → backupPath p i = file_string p i) as Hfs.
  { intros i Hi. unfold file_string. by destruct (Z.eqb_spec i 0); [lia|]. }
  rewrite !Hfs by lia.
  destruct (os_ignore_missing _ _ _) as [r1 [w1 fs1]] eqn:E.
  apply ignore_same in E as [Hw Hs]; [|intros r2 fs2; apply Rename_same; lia]. simpl in Hw, Hs. subst w1.
  destruct r1; [by intros [= <- <-]|]. intros H. apply IH in H as [Hw2 Hs2].
  split; [done|]. by eapply same_log_trans.
Qed.

(** ** Opening and rotating *)

Lemma MkdirAll_inv fs r fs' :
  MkdirAll (filepath_Dir p) fs = (r, fs') →
  same_log fs fs' ∧ (r = inr tt → node_at fs' d = Some Dir).
Proof.
  intros H. apply syscall_inv in H as (fs1 & Hn & Hh & [(e & -> & -> & _)|H]).
  { split; [|done]. eapply same_log_nodes; eauto. }
  rewrite (resolve_Dir p ss x) in H by done. fold d in H.
  apply mkdirs_inv in H as (H1 & H2 & H3 & H4). split.
  - eapply same_log_nodes; eauto. apply H3. intros k Hk. simpl in Hk.
    apply (f_equal (length ∘ snd)) in Hk. simpl in Hk. rewrite length_app, length_take in Hk.
    simpl in Hk. fold d in Hk. lia.
  - intros ->. specialize (H4 eq_refl eq_refl). by destruct d.
Qed.

Definition opened (w : RotatingFile) (c : list byte) : RotatingFile :=
  set_size (set_file w (Some (mkHandle (key 0) false))) (zlen c).

Lemma OpenAppend_inv fs r fs' :
  OpenAppend p fs = (r, fs') → node_at fs d = Some Dir → honest_faults fs →
  node_at fs' d = Some Dir ∧ honest_faults fs' ∧
  match r with
  | inr h => h = key 0 ∧ ∃ c m, nodes fs' !! key 0 = Some (File c m) ∧
      (nodes fs !! key 0 = Some (File c m) ∨ nodes fs !! key 0 = None ∧ c = [])
  | inl _ => nodes fs' !! key 0 = nodes fs !! key 0
  end.
Proof.
  intros H Hd Hhon. apply syscall_inv in H as (fs1 & Hn & Hh & [(e & -> & -> & _)|H]).
  { rewrite (node_at_nodes _ fs) by done. rewrite Hn. by auto. }
  assert (resolve p = key 0) as Hres by (by apply (resolve_file p ss x 0)).
  cbv zeta in H. rewrite Hres in H. clear Hres.
  assert (Hd1 : node_at fs1 d = Some Dir) by (by rewrite (node_at_nodes _ fs)).
  assert (Hk : node_at fs1 (key 0) = nodes fs !! key 0) by (rewrite <-Hn; apply node_at_child).
  rewrite Hk in H. destruct (nodes fs !! key 0) as [[c m| |]|] eqn:E.
  - injection H as <- <-. rewrite Hn, E. split_and!; try done; [by auto|]. eexists _, _. eauto.
  - injection H as <- <-. rewrite Hn, E. by auto.
  - injection H as <- <-. rewrite Hn, E. by auto.
  - assert (parent (key 0) = d) as Hpar by apply parent_of_child. rewrite Hpar in H.
    rewrite bool_decide_true in H by done. injection H as <- <-. split_and!.
    + apply node_at_dir_change; [|done]. intros y l _. apply lookup_insert_ne.
      intros E'. symmetry in E'. by apply d_ne_key in E'.
    + by apply Hh.
    + done.
    + simpl. rewrite lookup_insert_eq. eexists _, _. eauto.
Qed.

(** [k] is what the active file may be after a call that failed halfway. *)
Definition no_bigger (old new : option node) : Prop :=
  new = old ∨ new = None ∨ ∃ m, new = Some (File [] m).

Lemma open_faults w fs r s' :
  openLocked (w, fs) = (r, s') → rf_path w = p → honest_faults fs →
  (node_at fs d = Some Dir ∨ r = inr tt → node_at s'.2 d = Some Dir) ∧ honest_faults s'.2 ∧
  match r with
  | inr _ => ∃ c m, s'.1 = opened w c ∧ nodes s'.2 !! key 0 = Some (File c m) ∧
      (nodes fs !! key 0 = Some (File c m) ∨ nodes fs !! key 0 = None ∧ c = [])
  | inl _ => s'.1 = w ∧ no_bigger (nodes fs !! key 0) (nodes s'.2 !! key 0)
  end.
Proof.
  intros H Hw Hhon. unfold openLocked, mbind, os in H. simpl in H. rewrite Hw in H.
  destruct (MkdirAll _ fs) as [r1 fs1] eqn:E1. apply MkdirAll_inv in E1 as [(Hk1 & Hd0 & Hh1) Hd1].
  destruct r1 as [e|[]]; simpl in H.
  { injection H as <- <-. simpl. split_and!; [|auto|done|by left]. intros [?|?]; [auto|done]. }
  specialize (Hd1 eq_refl). clear Hd0.
  destruct (OpenAppend p fs1) as [r2 fs2] eqn:E2.
  apply OpenAppend_inv in E2 as (Hd2 & Hh2 & H2); [|by auto..].
  destruct r2 as [e|h]; simpl in H.
  { injection H as <- <-. simpl. split_and!; [done|done|done|left; congruence]. }
  destruct H2 as (-> & c & m & Hc & Hold). rewrite Hk1 in Hold.
  destruct (FileSize (key 0) fs2) as [r3 fs3] eqn:E3.
  apply syscall_inv in E3 as (fs3' & Hn3 & Hh3 & E3).
  assert (Hk0 : node_at fs3' (key 0) = Some (File c m)).
  { rewrite (node_at_nodes _ fs2) by done. by rewrite <-Hc; apply node_at_child. }
  assert (Hd3 : node_at fs3' d = Some Dir) by (by rewrite (node_at_nodes _ fs2)).
  destruct E3 as [(e & -> & -> & _)|E3].
  - destruct (FileClose fs3') as [r4 fs4] eqn:E4. injection H as <- <-.
    apply syscall_inv in E4 as (fs4' & Hn4 & Hh4 & E4).
    assert (fs4 = fs4') as -> by (destruct E4 as [(? & _ & ? & _)|[=]]; congruence).
    simpl. split_and!; [intros _; by rewrite (node_at_nodes _ fs3')|by auto|done|].
    rewrite Hn4, Hn3, Hc. destruct Hold as [->|[_ ->]]; [by left|]. right; right. by eexists.
  - rewrite Hk0 in E3. injection E3 as <- <-. injection H as <- <-. simpl.
    split_and!; [done|by auto|]. exists c, m. rewrite Hn3. done.
Qed.

(** The active file is absent or a file. *)
Definition plain (n : option node) : Prop := n = None ∨ ∃ c m, n = Some (File c m).

(** A call that is to make the active file go away. *)
Definition clears (op : io unit) : Prop := ∀ fs r fs',
  op fs = (r, fs') → node_at fs d = Some Dir → honest_faults fs → plain (nodes fs !! key 0) →
  node_at fs' d = Some Dir ∧ honest_faults fs' ∧
  (nodes fs' !! key 0 = None ∨
   nodes fs' !! key 0 = nodes fs !! key 0 ∧ ∃ e, r = inl e ∧ e ≠ ErrNotExist).

Lemma delete_dir fs m i : node_at fs d = Some Dir → m !! d = nodes fs !! d →
  node_at (set_nodes fs (delete (key i) m)) d = Some Dir.
Proof.
  intros Hd Hm. apply node_at_dir_change; [|done]. intros _ _ _. rewrite lookup_delete_ne; [done|].
  intros E. symmetry in E. by apply d_ne_key in E.
Qed.

Lemma Remove_clears : clears (Remove p).
Proof.
  intros fs r fs' H Hd Hhon Hpl. apply syscall_inv in H as (fs1 & Hn & Hh & [(e & -> & -> & He)|H]).
  { rewrite (node_at_nodes _ fs) by done. rewrite Hn. split_and!; [auto..|]. right. eauto. }
  assert (resolve p = key 0) as Hres by (by apply (resolve_file p ss x 0)).
  cbv zeta in H. rewrite Hres, Hn in H.
  assert (Hd1 : node_at fs1 d = Some Dir) by (by rewrite (node_at_nodes _ fs)).
  destruct Hpl as [Hk|(c & m & Hk)]; rewrite Hk in H.
  - injection H as _ <-. rewrite Hn. auto.
  - injection H as _ <-. split_and!; [|by apply Hh|left; simpl; by rewrite lookup_delete_eq].
    apply delete_dir; [done|]. by rewrite Hn.
Qed.

Lemma Rename_clears j : 0 < j → clears (Rename p (file_string p j)).
Proof.
  intros Hj fs r fs' H Hd Hhon Hpl.
  apply syscall_inv in H as (fs1 & Hn & Hh & [(e & -> & -> & He)|H]).
  { rewrite (node_at_nodes _ fs) by done. rewrite Hn. split_and!; [auto..|]. right. eauto. }
  assert (resolve p = key 0) as Hres by (by apply (resolve_file p ss x 0)).
  assert (resolve (file_string p j) = key j) as Hresj by (apply (resolve_file p ss x j); [done|lia]).
  cbv zeta in H. rewrite Hres, Hresj in H.
  assert (Hd1 : node_at fs1 d = Some Dir) by (by rewrite (node_at_nodes _ fs)).
  assert (parent (key j) = d) as Hpar by apply parent_of_child.
  destruct Hpl as [Hk|(c & m & Hk)]; rewrite <-Hn in Hk; rewrite Hk in H.
  - injection H as _ <-. rewrite Hk. auto.
  - rewrite Hpar, (bool_decide_true (node_at fs1 d = _)) in H by done. simpl in H.
    destruct (bool_decide (node_at fs1 (key j) = Some Dir)).
    + injection H as <- <-. rewrite Hn. split_and!; [done|by apply Hh|]. right.
      split; [done|]. by eexists.
    + injection H as _ <-. split_and!.
      * apply node_at_dir_change; [|done]. intros _ _ _.
        rewrite lookup_insert_ne, lookup_delete_ne; [done|..];
          intros E; symmetry in E; by apply d_ne_key in E.
      * by apply Hh.
      * left. simpl. rewrite lookup_insert_ne by (by apply key_ne). apply lookup_delete_eq.
Qed.

Lemma clears_ignored op wrap w fs r s' :
  clears op → os_ignore_missing op wrap (w, fs) = (r, s') →
  node_at fs d = Some Dir → honest_faults fs → plain (nodes fs !! key 0) →
  s'.1 = w ∧ node_at s'.2 d = Some Dir ∧ honest_faults s'.2 ∧
  no_bigger (nodes fs !! key 0) (nodes s'.2 !! key 0) ∧
  (r = inr tt → nodes s'.2 !! key 0 = None).
Proof.
  intros Hop H Hd Hhon Hpl. unfold os_ignore_missing in H.
  destruct (op fs) as [[e|[]] fs1] eqn:E; apply Hop in E as (Hd1 & Hh1 & Hk); try done.
  - destruct (IsNotExist e) eqn:Ee; injection H as <- <-; simpl; split_and!; try done.
    + destruct Hk as [->|[-> _]]; [right; by left|by left].
    + intros _. destruct Hk as [|(_ & ? & [= ->] & Hne)]; [done|].
      apply bool_decide_eq_true in Ee. done.
    + destruct Hk as [->|[-> _]]; [right; by left|by left].
  - injection H as <- <-. simpl. destruct Hk as [Hk|(_ & ? & ? & _)]; [|done].
    split_and!; try done. rewrite Hk. right. by left.
Qed.

(** Writers without an open file. *)
Definition not_open (w : RotatingFile) : Prop := ∀ h, file w = Some h → h_closed h = true.

Definition same_config (w w' : RotatingFile) : Prop :=
  rf_path w' = rf_path w ∧ maxBytes w' = maxBytes w ∧ maxFiles w' = maxFiles w.

Lemma close_current_inv w fs r s' :
  close_current (w, fs) = (r, s') →
  same_config w s'.1 ∧ not_open s'.1 ∧ nodes s'.2 = nodes fs ∧
  (honest_faults fs → honest_faults s'.2) ∧ size s'.1 = size w.
Proof.
  unfold close_current, mbind, close_handle. simpl. destruct (file w) as [h|] eqn:Ew.
  - destruct (h_closed h) eqn:Eh.
    + intros [= <- <-]. simpl. split_and!; try done. intros h'. rewrite Ew. by intros [= <-].
    + destruct (FileClose fs) as [r1 fs1] eqn:E.
      apply syscall_inv in E as (fs1' & Hn & Hh & E).
      assert (fs1 = fs1') as -> by (destruct E as [(? & _ & ? & _)|[=]]; congruence).
      destruct r1 as [e|[]]; intros [= <- <-]; simpl; split_and!; try done; intros h'; by intros [= <-].
  - intros [= <- <-]. simpl. split_and!; try done. intros h. by rewrite Ew.
Qed.

Lemma no_bigger_plain a b : plain a → no_bigger a b → plain b.
Proof. intros Ha [->|[->|[m ->]]]; [done|by left|]. right. by eexists _, _. Qed.

Lemma no_bigger_trans a b c : no_bigger a b → no_bigger b c → no_bigger a c.
Proof. unfold no_bigger. naive_solver. Qed.

(** Clearing the active file, then opening it anew. *)
Lemma clear_open op wrap w fs r s' :
  clears op → (do _ <- os_ignore_missing op wrap; openLocked) (w, fs) = (r, s') →
  rf_path w = p → node_at fs d = Some Dir → honest_faults fs → plain (nodes fs !! key 0) →
  node_at s'.2 d = Some Dir ∧ honest_faults s'.2 ∧
  match r with
  | inr _ => s'.1 = opened w [] ∧ ∃ m, nodes s'.2 !! key 0 = Some (File [] m)
  | inl _ => s'.1 = w ∧ no_bigger (nodes fs !! key 0) (nodes s'.2 !! key 0)
  end.
Proof.
  intros Hop H Hw Hd Hhon Hpl. unfold mbind at 1 in H.
  destruct (os_ignore_missing op wrap (w, fs)) as [r1 [w1 fs1]] eqn:E1.
  eapply clears_ignored in E1 as (Hw1 & Hd1 & Hh1 & Hb1 & Hnone); try done. simpl in *. subst w1.
  destruct r1 as [e|[]]; [by injection H as <- <-|]. specialize (Hnone eq_refl).
  destruct (open_faults _ _ _ _ H Hw Hh1) as (Hd2 & Hh2 & H2).
  split_and!; [by auto|done|]. destruct r as [e|u].
  - destruct H2 as [-> Hb2]. split; [done|]. by eapply no_bigger_trans.
  - destruct H2 as (c & m & -> & Hc & [Hold|[_ ->]]); [congruence|]. split; [done|]. by exists m.
Qed.

Lemma rotate_faults w fs r s' :
  rotateLocked (w, fs) = (r, s') →
  rf_path w = p → node_at fs d = Some Dir → honest_faults fs → plain (nodes fs !! key 0) →
  same_config w s'.1 ∧ node_at s'.2 d = Some Dir ∧ honest_faults s'.2 ∧
  match r with
  | inr _ => (∃ w1, s'.1 = opened w1 []) ∧ ∃ m, nodes s'.2 !! key 0 = Some (File [] m)
  | inl _ => not_open s'.1 ∧ no_bigger (nodes fs !! key 0) (nodes s'.2 !! key 0)
  end.
Proof.
  intros H Hw Hd Hhon Hpl. unfold rotateLocked in H. cbv zeta in H. cbn [fst] in H.
  unfold mbind at 1 in H. destruct (close_current (w, fs)) as [r0 [w0 fs0]] eqn:E0.
  apply close_current_inv in E0 as (Hc0 & Hno & Hn0 & Hh0 & _). simpl in *.
  rewrite (node_at_nodes _ fs0), <-?Hn0 in * by done. specialize (Hh0 Hhon).
  destruct r0 as [e|[]]; [injection H as <- <-; simpl; split_and!; try done; by left|].
  assert (Hw0 : rf_path w0 = p) by (destruct Hc0; congruence). rewrite Hw in H.
  assert (Hfin : ∀ op wrap fs1, clears op → node_at fs1 d = Some Dir → honest_faults fs1 →
    nodes fs1 !! key 0 = nodes fs0 !! key 0 →
    (do _ <- os_ignore_missing op wrap; openLocked) (w0, fs1) = (r, s') →
    same_config w s'.1 ∧ node_at s'.2 d = Some Dir ∧ honest_faults s'.2 ∧
    match r with
    | inr _ => (∃ w1, s'.1 = opened w1 []) ∧ ∃ m, nodes s'.2 !! key 0 = Some (File [] m)
    | inl _ => not_open s'.1 ∧ no_bigger (nodes fs0 !! key 0) (nodes s'.2 !! key 0)
    end).
  { intros op wrap fs1 Hop Hd1 Hh1 Hk Hrun. rewrite <-Hk in Hpl.
    destruct (clear_open _ _ _ _ _ _ Hop Hrun Hw0 Hd1 Hh1 Hpl) as (Hd2 & Hh2 & H2).
    rewrite <-Hk. destruct r; destruct H2 as [-> H2]; split_and!; eauto; apply Hc0. }
  assert (Hfail : ∀ e fs1, node_at fs1 d = Some Dir → honest_faults fs1 →
    nodes fs1 !! key 0 = nodes fs0 !! key 0 → (inl e, (w0, fs1)) = (r, s') →
    same_config w s'.1 ∧ node_at s'.2 d = Some Dir ∧ honest_faults s'.2 ∧
    match r with
    | inr _ => (∃ w1, s'.1 = opened w1 []) ∧ ∃ m, nodes s'.2 !! key 0 = Some (File [] m)
    | inl _ => not_open s'.1 ∧ no_bigger (nodes fs0 !! key 0) (nodes s'.2 !! key 0)
    end).
  { intros e fs1 Hd1 Hh1 Hk [= <- <-]. simpl. split_and!; try done. left. done. }
  destruct (maxFiles w <=? 1) eqn:EN; [by apply (Hfin _ _ fs0 Remove_clears) in H|].
  apply Z.leb_gt in EN.
  assert (∀ i, 0 < i → backupPath p i = file_string p i) as Hfs.
  { intros i Hi. unfold file_string. by destruct (Z.eqb_spec i 0); [lia|]. }
  rewrite !Hfs in H by lia. unfold mbind at 1 in H.
  destruct (os_ignore_missing (Remove _) _ _) as [r1 [w1 fs1]] eqn:E1.
  apply ignore_same in E1 as [Hw1 (Hk1 & Hd1 & Hh1)]; [|intros r2 fs2; apply Remove_same; lia].
  simpl in *. subst w1.
  destruct r1 as [e|[]]; [by apply (Hfail e fs1) in H; auto|]. unfold mbind at 1 in H.
  destruct (shift_backups _ _ _) as [r2 [w2 fs2]] eqn:E2.
  apply shift_same in E2 as [Hw2 (Hk2 & Hd2 & Hh2)]. simpl in *. subst w2.
  destruct r2 as [e|[]]; [apply (Hfail e fs2) in H; auto; congruence|].
  apply (Hfin _ _ fs2) in H; auto; [by apply Rename_clears|congruence].
Qed.

(** ** The size bound *)

(** The active file is at most [bound] long, and an open writer knows its size. *)
Record bounded (mb bound : Z) (s : RotatingFile * FS) : Prop := {
  bounded_path : rf_path s.1 = p;
  bounded_max : maxBytes s.1 = mb;
  bounded_dir : node_at s.2 d = Some Dir;
  bounded_honest : honest_faults s.2;
  bounded_plain : plain (nodes s.2 !! key 0);
  bounded_size : ∀ c m, nodes s.2 !! key 0 = Some (File c m) → zlen c ≤ bound;
  bounded_open : ∀ h, file s.1 = Some h → h_closed h = false →
    h_path h = key 0 ∧ ∃ c m, nodes s.2 !! key 0 = Some (File c m) ∧ size s.1 = zlen c;
}.

Lemma not_open_bounded mb bound w fs w' fs' :
  bounded mb bound (w, fs) → 0 ≤ bound → same_config w w' → not_open w' →
  node_at fs' d = Some Dir → honest_faults fs' → no_bigger (nodes fs !! key 0) (nodes fs' !! key 0) →
  bounded mb bound (w', fs').
Proof.
  intros [H1 H2 H3 H4 H5 H6 H7] Hb (Hc1 & Hc2 & _) Hno Hd Hhon Hnb. simpl in *. split; simpl; try done.
  - congruence.
  - congruence.
  - by eapply no_bigger_plain.
  - intros c m Hc. destruct Hnb as [Hk|[Hk|[m' Hk]]]; rewrite Hk in Hc.
    + by eapply H6.
    + done.
    + injection Hc as <- _. rewrite zlen_nil. done.
  - intros h Hh Hopen. apply Hno in Hh. congruence.
Qed.

Lemma opened_bounded mb bound w w1 fs' :
  0 ≤ bound → maxBytes w = mb → rf_path w = p → same_config w (opened w1 []) →
  node_at fs' d = Some Dir → honest_faults fs' → (∃ m, nodes fs' !! key 0 = Some (File [] m)) →
  bounded mb bound (opened w1 [], fs').
Proof.
  intros Hb Hmb Hp' (Hc1 & Hc2 & _) Hd Hhon [m Hm]. split; cbn [fst snd]; try done.
  - congruence.
  - congruence.
  - right. by eexists _, _.
  - intros c m'. rewrite Hm. intros [= <- _]. by rewrite zlen_nil.
  - intros h [= <-] _. split; [done|]. by exists [], m.
Qed.

Lemma append_bounded mb bound rec acc s res s' :
  append_record rec acc s = (res, s') → bounded mb bound s → 0 < mb < 2 ^ 62 → bound = mb →
  zlen rec ≤ mb →
  (∀ h, file s.1 = Some h → h_closed h = false → size s.1 = 0 ∨ size s.1 + zlen rec ≤ mb) →
  bounded mb bound s'.
Proof.
  destruct s as [w fs]. unfold append_record, write_handle. intros H Hinv Hmb -> Hrec Hfit.
  destruct (file w) as [h|] eqn:Ew; [destruct (h_closed h) eqn:Eh|].
  - injection H as _ <-. eapply not_open_bounded; [exact Hinv|lia|done| |apply Hinv..|by left].
    intros h'. simpl. rewrite Ew. by intros [= <-].
  - destruct (bounded_open _ _ _ Hinv h Ew Eh) as (Hpath & c & m & Hc & Hsize). simpl in Hc, Hsize.
    specialize (Hfit h Ew Eh). simpl in Hfit.
    assert (Hw : ∃ fs1 k err, FileWrite (h_path h) rec fs = ((zlen (take k rec), err),
        set_nodes fs1 (<[key 0 := File (c ++ take k rec) (clock fs1)]> (nodes fs1))) ∧
        nodes fs1 = nodes fs ∧ honest_faults fs1).
    { unfold FileWrite. destruct (next_fault fs) as [f fs1] eqn:Ef.
      apply next_fault_spec in Ef as (Hn & _ & Hh & _). rewrite Hpath.
      assert (node_at fs1 (key 0) = Some (File c m)) as ->.
      { rewrite (node_at_nodes _ fs) by done. by rewrite <-Hc; apply node_at_child. }
      destruct f as [f|].
      - eexists _, (fault_written f), _. split; [done|]. split; [done|]. apply Hh, Hinv.
      - eexists _, (length rec), _. rewrite firstn_all. split; [done|]. split; [done|]. apply Hh, Hinv. }
    destruct Hw as (fs1 & k & err & Hw & Hn1 & Hh1). rewrite Hw in H.
    assert (Hlen : 0 ≤ zlen (take k rec) ≤ zlen rec).
    { unfold zlen. rewrite length_take. lia. }
    pose proof (zlen_nonneg c). assert (zlen c ≤ mb) by (by eapply (bounded_size _ _ _ Hinv)).
    assert (s' = (set_size w (wrap64 (size w + zlen (take k rec))),
      set_nodes fs1 (<[key 0 := File (c ++ take k rec) (clock fs1)]> (nodes fs1)))) as ->.
    { destruct err; by injection H as _ <-. }
    clear H Hw. destruct Hinv as [B1 B2 B3 B4 B5 B6 B7]. simpl in *. split; simpl; try done.
    + apply node_at_dir_change; [|by rewrite (node_at_nodes _ fs)].
      intros _ _ _. apply lookup_insert_ne. intros E. symmetry in E. by apply d_ne_key in E.
    + right. rewrite lookup_insert_eq. by eexists _, _.
    + intros c' m'. rewrite lookup_insert_eq. intros [= <- _]. rewrite zlen_app. lia.
    + intros h'. rewrite Ew. intros [= <-] _. split; [done|]. rewrite lookup_insert_eq.
      eexists _, _. split; [done|]. rewrite wrap64_small, zlen_app; [lia|].
      unfold min_int64, max_int64. lia.
  - injection H as _ <-. eapply not_open_bounded; [exact Hinv|lia|done| |apply Hinv..|by left].
    intros h'. simpl. by rewrite Ew.
Qed.

Lemma Write_bounded mb rec s res s' :
  Write rec s = (res, s') → bounded mb mb s → 0 < mb < 2 ^ 62 → bounded mb mb s'.
Proof.
  destruct s as [w fs]. intros H Hinv Hmb. unfold Write in H. cbv zeta in H.
  pose proof (bounded_max _ _ _ Hinv) as Hmax. simpl in Hmax.
  cbn [fst] in H. rewrite Hmax in H.
  pose proof (trimRecord_length rec mb ltac:(lia)) as Hrec.
  pose proof (zlen_nonneg (trimRecord rec mb)) as Hrec0.
  destruct ((0 <? size w) && (mb <? wrap64 (size w + zlen (trimRecord rec mb)))) eqn:E.
  - destruct (rotateLocked (w, fs)) as [r [w1 fs1]] eqn:Er.
    apply rotate_faults in Er as (Hc & Hd & Hh & Hr); [|apply Hinv..]. simpl in *.
    destruct r as [e|u].
    + injection H as _ <-. destruct Hr. eapply not_open_bounded; eauto; lia.
    + destruct Hr as [[w2 ->] Hm]. eapply append_bounded in H; eauto.
      eapply opened_bounded; eauto; [lia|apply Hinv].
  - eapply append_bounded in H; eauto. intros h Hh Hopen. simpl in *.
    destruct (bounded_open _ _ _ Hinv h Hh Hopen) as (_ & c & m & Hc & Hsize).
    apply (bounded_size _ _ _ Hinv) in Hc. simpl in *. pose proof (zlen_nonneg c).
    rewrite wrap64_small in E by (unfold min_int64, max_int64; lia).
    apply andb_false_iff in E as [E%Z.ltb_ge|E%Z.ltb_ge]; lia.
Qed.

Lemma close_handle_inv w fs r s' h :
  close_handle (w, fs) = (r, s') → file w = Some h →
  nodes s'.2 = nodes fs ∧ (honest_faults fs → honest_faults s'.2) ∧ same_config w s'.1.
Proof.
  unfold close_handle. intros H Hf. rewrite Hf in H. destruct (h_closed h); [by injection H as <- <-|].
  destruct (FileClose fs) as [r1 fs1] eqn:E. injection H as <- <-.
  apply syscall_inv in E as (fs1' & Hn & Hh & E).
  assert (fs1 = fs1') as -> by (destruct E as [(? & _ & ? & _)|[=]]; congruence). done.
Qed.

Lemma Close_bounded mb s res s' :
  Close s = (res, s') → bounded mb mb s → 0 < mb → bounded mb mb s'.
Proof.
  destruct s as [w fs]. unfold Close. intros H Hinv Hmb. cbn [fst] in H.
  destruct (file w) as [h|] eqn:Ew; [|by injection H as _ <-].
  destruct (close_handle (w, fs)) as [r [w1 fs1]] eqn:E.
  eapply close_handle_inv in E as (Hn & Hh & Hc); [|done]. injection H as _ <-. simpl in *.
  eapply not_open_bounded; [exact Hinv|lia|exact Hc|by intros h'| |apply Hh, Hinv|left; congruence].
  rewrite (node_at_nodes _ fs) by done. apply Hinv.
Qed.

Lemma New_bounded mb N fs w fs' :
  NewRotatingFile p mb N fs = (inr w, fs') → 0 < mb → 0 < N → honest_faults fs →
  bounded mb mb (w, fs').
Proof.
  unfold NewRotatingFile. intros H Hmb HN Hhon.
  destruct (String.eqb p "") ; [done|].
  destruct (Z.leb_spec mb 0); [lia|]. destruct (Z.leb_spec N 0); [lia|]. cbv zeta in H.
  destruct (openLocked _) as [r [w1 fs1]] eqn:E1.
  apply open_faults in E1 as (Hd1 & Hh1 & Hop); [|done..]. simpl in *.
  destruct r as [e|[]]; [done|]. destruct Hop as (c & m & -> & Hc & _).
  specialize (Hd1 (or_intror eq_refl)).
  destruct (maxBytes (opened _ c) <=? size (opened _ c)) eqn:Es; simpl in Es.
  - destruct (rotateLocked _) as [r2 [w2 fs2]] eqn:E2.
    apply rotate_faults in E2 as (Hc2 & Hd2 & Hh2 & Hrot);
      [|done..|right; by eexists _, _]. simpl in *.
    destruct r2 as [e|u]; [by destruct (Close (w2, fs2))|].
    injection H as <- <-. destruct Hrot as [[w3 ->] Hm].
    eapply opened_bounded; eauto; [lia|done|done].
  - injection H as <- <-. apply Z.leb_gt in Es. split; simpl; try done.
    + right. by eexists _, _.
    + intros c' m'. rewrite Hc. intros [= <- _]. lia.
    + intros h [= <-] _. split; [done|]. by exists c, m.
Qed.

End faults.

(** ** Operations on a writer *)

Inductive log_op := OpWrite (rec : list byte) | OpClose.

(** Whether the operation returned an error, and what follows. *)
Definition log_run1 (op : log_op) (s : RotatingFile * FS) : bool * (RotatingFile * FS) :=
  match op with
  | OpWrite rec => let '((_, err), s) := Write rec s in (bool_decide (err ≠ None), s)
  | OpClose => let '(err, s) := Close s in (bool_decide (err ≠ None), s)
  end.
Fixpoint log_run (ops : list log_op) (s : RotatingFile * FS) : list bool * (RotatingFile * FS) :=
  match ops with
  | [] => ([], s)
  | op :: ops =>
      let '(e, s) := log_run1 op s in
      let '(es, s) := log_run ops s in (e :: es, s)
  end.

(** C34: the size bound of the active file survives failing system calls. Whatever
    calls fail and however, once the log has been opened the active file never
    exceeds [maxBytes], over any sequence of writes and closes. *)
Theorem log_size_bound_under_faults p ss x mb N fs w fs1 ops es s' c m :
  log_path p ss x → 0 < mb < 2 ^ 62 → 0 < N → honest_faults fs →
  NewRotatingFile p mb N fs = (inr w, fs1) →
  log_run ops (w, fs1) = (es, s') →
  nodes s'.2 !! resolve p = Some (File c m) → zlen c ≤ mb.
Proof.
  intros Hp Hmb HN Hhon Hnew Hrun Hc.
  assert (Hb : bounded p ss x mb mb (w, fs1)) by (eapply New_bounded; eauto; lia).
  clear Hnew. revert es w fs1 Hb Hrun.
  induction ops as [|op ops IH]; intros es w fs2 Hb Hrun; simpl in Hrun.
  - injection Hrun as _ <-. eapply (bounded_size _ _ _ _ _ _ Hb).
    rewrite <-(resolve_file p ss x 0) by done. exact Hc.
  - destruct (log_run1 op (w, fs2)) as [e [w1 fs3]] eqn:E1.
    destruct (log_run ops (w1, fs3)) as [es' s''] eqn:E2. injection Hrun as _ ->.
    apply (IH es' w1 fs3); [|exact E2]. destruct op as [rec|]; simpl in E1.
    + destruct (Write rec (w, fs2)) as [[n err] s1] eqn:EW. injection E1 as _ ->.
      by eapply Write_bounded.
    + destruct (Close (w, fs2)) as [err s1] eqn:EC. injection E1 as _ ->.
      eapply Close_bounded; eauto; lia.
Qed.

(** ** A failed close *)

Lemma wedged_write w fs h rec :
  file w = Some h → h_closed h = true →
  ∃ e w', Write rec (w, fs) = ((0, Some e), (w', fs)) ∧ file w' = Some h.
Proof.
  intros Hf Hc. unfold Write. cbv zeta. cbn [fst].
  destruct (_ && _).
  - unfold rotateLocked, mbind at 1, close_current, mbind, close_handle. cbn [fst].
    rewrite Hf, Hc. eauto.
  - unfold append_record, write_handle. rewrite Hf, Hc. simpl. eexists _, _. split; [done|done].
Qed.

Lemma wedged_writes recs : ∀ w fs h,
  file w = Some h → h_closed h = true →
  Forall (λ r : Z * option log_error, r.2 ≠ None) (write_all recs (w, fs)).1 ∧
  (write_all recs (w, fs)).2.2 = fs.
Proof.
  induction recs as [|rec recs IH]; intros w fs h Hf Hc; simpl; [by split|].
  destruct (wedged_write w fs h rec Hf Hc) as (e & w' & -> & Hf').
  destruct (IH w' fs h Hf' Hc) as [H1 H2].
  destruct (write_all recs (w', fs)) as [rs s']. simpl in *. split; [|done]. by constructor.
Qed.

(** A close that fails once silences the log for good. If the close at the
    start of a rotation reports an error, that record is lost with the error, and
    every later write fails too and writes nothing, even though no further call
    fails. *)
Theorem rotation_close_failure w fs f rest k rec recs :
  file w = Some (mkHandle k false) → faults fs = Some f :: rest →
  0 < size w → maxBytes w < wrap64 (size w + zlen (trimRecord rec (maxBytes w))) →
  ∃ s', Write rec (w, fs) = ((0, Some (ErrCloseLog (fault_error f))), s') ∧
    Forall (λ r : Z * option log_error, r.2 ≠ None) (write_all recs s').1 ∧
    nodes (write_all recs s').2.2 = nodes fs.
Proof.
  intros Hf Hfault Hsize Hmax.
  exists (set_file w (Some (mkHandle k true)), mkFS (nodes fs) (clock fs) rest). split.
  - unfold Write. cbv zeta. cbn [fst].
    rewrite (proj2 (Z.ltb_lt _ _) Hsize), (proj2 (Z.ltb_lt _ _) Hmax). simpl.
    unfold rotateLocked, mbind at 1, close_current, mbind, close_handle, FileClose, syscall, next_fault.
    cbn [fst]. by rewrite Hf, Hfault.
  - destruct (wedged_writes recs (set_file w (Some (mkHandle k true))) (mkFS (nodes fs) (clock fs) rest)
      (mkHandle k true)) as [H1 ->]; done.
Qed.

(** ** Witnesses *)

Definition demo_path : string := "logs/app.log".
Definition demo_dir : path := (false, ["logs"%string]).
Definition demo_fs (fl : list (option fault)) : FS := mkFS {[demo_dir := Dir]} 0 fl.
Definition line (s : string) : list byte := bytes_of_string s ++ [x0a].

Lemma demo_log_path : log_path demo_path ["logs"%string] "app.log".
Proof. by split_and!. Qed.

Lemma demo_view : view demo_path ["logs"%string] "app.log" 3 (demo_fs []) (λ _, None).
Proof.
  split_and!; [done| |].
  - intros [|[|k]]; reflexivity.
  - intros i Hi. unfold holds, demo_fs. cbn [nodes]. apply lookup_singleton_ne.
    intros H. apply (f_equal (length ∘ snd)) in H. simpl in H. lia.
Qed.

Lemma rotating_file_refines_witness :
  let recs := [line "line-00-abcdefgh"; line "line-01-abcdefgh"; line "short"; line "line-03-abcdefgh"] in
  ∃ w fs1 s2, NewRotatingFile demo_path 24 3 (demo_fs []) = (inr w, fs1) ∧
    write_all recs (w, fs1) = (map (λ r, (zlen r, None)) recs, s2) ∧
    view demo_path ["logs"%string] "app.log" 3 s2.2
      (log_file (mkLog (line "line-03-abcdefgh")
        [line "line-01-abcdefgh" ++ line "short"; line "line-00-abcdefgh"])).
Proof.
  intros recs.
  destruct (rotating_file_refines demo_path ["logs"%string] "app.log" 24 3 (demo_fs []) None [] recs)
    as (w & fs1 & s2 & H1 & H2 & H3 & _);
    [exact demo_log_path|lia|lia| |unfold zlen; simpl; lia|].
  - eapply view_ext; [|exact demo_view]. intros i _. by destruct (decide (i = 0)).
  - exists w, fs1, s2. split; [exact H1|]. split; [exact H2|exact H3].
Defined.

Lemma rotation_retention_witness :
  let recs := [line "line-00-abcdefgh"; line "line-01-abcdefgh"] in
  ∃ w fs1 s2 (files : list (list byte)),
    NewRotatingFile demo_path 24 3 (demo_fs []) = (inr w, fs1) ∧
    write_all recs (w, fs1) = (map (λ r, (zlen r, None)) recs, s2) ∧
    zlen files ≤ 3 ∧ Forall (λ f, zlen f ≤ 24) files.
Proof.
  intros recs.
  destruct (rotation_retention demo_path ["logs"%string] "app.log" 24 3 (demo_fs []) recs)
    as (w & fs1 & s2 & groups & files & H1 & H2 & _ & _ & _ & H3 & H4 & _);
    [exact demo_log_path|lia|lia|exact demo_view|].
  exists w, fs1, s2, files. split; [exact H1|]. split; [exact H2|]. split; [exact H3|exact H4].
Defined.

(** A write that fails halfway through its second record. *)
Definition demo_faults : list (option fault) :=
  [None; None; None; None; Some (mkFault (ErrOther 28) 5)].
Definition demo_ops : list log_op := [OpWrite (line "line-00-abcdefgh"); OpWrite (line "abc")].
Definition demo_opened : (log_error + RotatingFile) * FS :=
  NewRotatingFile demo_path 24 3 (demo_fs demo_faults).

Definition outcome_of {A B} (default : B) (r : A + B) : B := match r with inr b => b | inl _ => default end.
Definition demo_writer : RotatingFile :=
  outcome_of (mkRotatingFile "" 0 0 None 0) demo_opened.1.

Lemma demo_honest : honest_faults (demo_fs demo_faults).
Proof.
  intros f Hf. simpl in Hf. repeat (apply elem_of_cons in Hf as [Hf|Hf]; [by simplify_eq|]).
  by apply elem_of_nil in Hf.
Qed.

Lemma log_size_bound_under_faults_witness :
  (log_run demo_ops (demo_writer, demo_opened.2)).1 = [false; true] ∧
  zlen (line "line-00-abcdefgh" ++ bytes_of_string "abc" ++ [x0a]) ≤ 24.
Proof.
  split; [vm_compute; reflexivity|].
  eapply (log_size_bound_under_faults demo_path ["logs"%string] "app.log" 24 3 (demo_fs demo_faults)
    demo_writer demo_opened.2 demo_ops _ (log_run demo_ops (demo_writer, demo_opened.2)).2 _ 0);
    [exact demo_log_path|lia|lia|exact demo_honest|vm_compute; reflexivity|apply surjective_pairing|].
  vm_compute. reflexivity.
Defined.

Definition full_writer : RotatingFile :=
  mkRotatingFile demo_path 24 3 (Some (mkHandle (resolve demo_path) false)) 20.

Lemma rotation_close_failure_witness :
  ∃ s', Write (line "line-01") (full_writer, demo_fs [Some (mkFault (ErrOther 5) 0)])
      = ((0, Some (ErrCloseLog (ErrOther 5))), s') ∧
    Forall (λ r : Z * option log_error, r.2 ≠ None) (write_all [line "a"; line "b"] s').1.
Proof.
  destruct (rotation_close_failure full_writer (demo_fs [Some (mkFault (ErrOther 5) 0)])
    (mkFault (ErrOther 5) 0) [] (resolve demo_path) (line "line-01") [line "a"; line "b"])
    as (s' & H1 & H2 & _); [reflexivity|reflexivity|reflexivity|vm_compute; reflexivity|].
  exists s'. split; [exact H1|exact H2].
Defined.
