(* ===== verification/Upload.v ===== *)
(** * Upload: the upload handler and its storage cap ([internal/upload/upload.go])

    An upload is streamed to a temporary file, hashed on the way, renamed to its
    sanitized name, and the directory is then pruned to the storage cap. *)

From S2P Require Import Prelude Text FS Sha256.

(** ** File names *)

Inductive name_error :=
| ErrNameRequired
| ErrNameSeparator
| ErrNameDots (name : string)
| ErrNameUnsafe (name : string).

Definition in_range (lo hi r : Z) : bool := (lo <=? r) && (r <=? hi).

(** The runes [sanitizeFilename] keeps: letters, digits, and [.-_]. *)
Definition safe_rune (r : Z) : bool :=
  in_range 97 122 r || in_range 65 90 r || in_range 48 57 r || bool_decide (r ∈ [46; 45; 95]).

Definition contains_separator (s : string) : bool :=
  existsb (λ x : Z * list byte, bool_decide (x.1 ∈ [47; 92])) (runes s).

Definition is_dots (s : string) : bool := String.eqb s "." || String.eqb s "..".

Definition sanitizeFilename (name : string) : name_error + string :=
  let name := TrimSpace name in
  if String.eqb name "" then inl ErrNameRequired
  else if contains_separator name then inl ErrNameSeparator
  else if is_dots name then inl (ErrNameDots name)
  else
    let safe := string_of_bytes
      (concat (map (λ x : Z * list byte, if safe_rune x.1 then x.2 else [x5f]) (runes name))) in
    if String.eqb safe "" || is_dots safe then inl (ErrNameUnsafe name)
    else inr safe.

(** ** Pruning *)

Record uploadFile := mkUploadFile { uf_path : string; uf_size : Z; uf_modTime : Z }.

Record PruneResult := mkPruneResult {
  pr_MaxBytes : Z;
  RemainingBytes : Z;
  RemovedFiles : Z;
  RemovedBytes : Z;
}.

Inductive prune_error :=
| ErrReadDir (e : os_error)
| ErrStatFile (name : string) (e : os_error)
| ErrRemoveFile (path : string) (e : os_error)
| ErrOverCap (remaining max : Z).

(** The order of the sort: oldest first, then by path. *)
Definition older (f g : uploadFile) : Prop :=
  uf_modTime f < uf_modTime g ∨ (uf_modTime f = uf_modTime g ∧ String.le (uf_path f) (uf_path g)).
#[global] Instance older_dec : RelDecision older.
Proof. intros f g. unfold older. apply _. Defined.

(** The loop over the directory entries. *)
Fixpoint scan_entries (dir : string) (entries : list (string * bool)) (total : Z) (files : list uploadFile)
    (fs : FS) : (prune_error * Z + Z * list uploadFile) * FS :=
  match entries with
  | [] => (inr (total, files), fs)
  | (name, is_dir) :: entries =>
      if is_dir then scan_entries dir entries total files fs
      else
        match Lstat (dir +:+ "/" +:+ name) fs with
        | (inl e, fs) =>
            if IsNotExist e then scan_entries dir entries total files fs
            else (inl (ErrStatFile name e, total), fs)
        | (inr (File c m), fs) =>
            scan_entries dir entries (wrap64 (total + zlen c))
              (files ++ [mkUploadFile (Join dir name) (zlen c) m]) fs
        | (inr _, fs) => scan_entries dir entries total files fs
        end
  end.

(** The loop that removes files, oldest first. *)
Fixpoint prune_files (maxBytes : Z) (keepPath : string) (files : list uploadFile) (res : PruneResult)
    (fs : FS) : (PruneResult * option prune_error) * FS :=
  match files with
  | [] => ((res, None), fs)
  | f :: files =>
      if RemainingBytes res <=? maxBytes then ((res, None), fs)
      else if String.eqb (Clean (uf_path f)) keepPath then prune_files maxBytes keepPath files res fs
      else
        let removed := mkPruneResult (pr_MaxBytes res) (wrap64 (RemainingBytes res - uf_size f))
          (RemovedFiles res + 1) (wrap64 (RemovedBytes res + uf_size f)) in
        match Remove (uf_path f) fs with
        | (inr _, fs) => prune_files maxBytes keepPath files removed fs
        | (inl e, fs) =>
            if IsNotExist e then prune_files maxBytes keepPath files removed fs
            else ((res, Some (ErrRemoveFile (uf_path f) e)), fs)
        end
  end.

Definition PruneDir (dir : string) (maxBytes : Z) (keepPath : string) (fs : FS)
    : (PruneResult * option prune_error) * FS :=
  let result := mkPruneResult maxBytes 0 0 0 in
  if maxBytes <=? 0 then ((result, None), fs)
  else
    match ReadDir dir fs with
    | (inl e, fs) => ((result, Some (ErrReadDir e)), fs)
    | (inr entries, fs) =>
        match scan_entries dir entries 0 [] fs with
        | (inl (e, total), fs) => ((mkPruneResult maxBytes total 0 0, Some e), fs)
        | (inr (total, files), fs) =>
            let result := mkPruneResult maxBytes total 0 0 in
            if total <=? maxBytes then ((result, None), fs)
            else
              match prune_files maxBytes (Clean keepPath) (merge_sort older files) result fs with
              | ((res, Some e), fs) => ((res, Some e), fs)
              | ((res, None), fs) =>
                  if maxBytes <? RemainingBytes res
                  then ((res, Some (ErrOverCap (RemainingBytes res) maxBytes)), fs)
                  else ((res, None), fs)
              end
        end
    end.

(** ** The handler *)

Record Handler := mkHandler { h_Dir : string; MaxStorageBytes : Z }.

Record Response := mkResponse { rs_Bytes : Z; rs_SHA256 : string; rs_DurationMillis : Z }.

(** The body of a request: the pieces its reader returns, and how it ends. *)
Inductive body_end := BodyEOF | BodyError (code : Z).
Record Request := mkRequest {
  rq_name : string;
  ContentLength : Z;
  rq_chunks : list (list byte);
  rq_end : body_end;
}.

Inductive copy_error :=
| MaxBytesError
| ErrBody (code : Z)
| ErrWriteTemp (e : os_error).

Inductive upload_error :=
| ErrNotConfigured
| ErrExceedsCap
| ErrName (e : name_error)
| ErrCreateDir (e : os_error)
| ErrCreateTempDir (e : os_error)
| ErrCreateTemp (e : os_error)
| ErrStreamBody (e : copy_error)
| ErrCloseTemp (e : os_error)
| ErrPersist (e : os_error)
| ErrPrune (e : prune_error).

(** What the client gets: a status, and an error or a response. *)
Definition reply : Type := Z * (upload_error + Response).

Definition StatusOK : Z := 200.
Definition StatusBadRequest : Z := 400.
Definition StatusRequestEntityTooLarge : Z := 413.
Definition StatusInternalServerError : Z := 500.

(** [io.Copy] to the temporary file and the hash, from a body cut off after [limit]
    bytes by [http.MaxBytesReader]. [sent] collects what has been copied. *)
Fixpoint copy_body (tmp : path) (chunks : list (list byte)) (fin : body_end) (limit : option Z)
    (sent : list byte) (fs : FS) : (copy_error + list byte) * FS :=
  match chunks with
  | [] => (match fin with BodyEOF => inr sent | BodyError c => inl (ErrBody c) end, fs)
  | c :: chunks =>
      let over := match limit with Some n => n <? zlen c | None => false end in
      let c := match limit with Some n => if over then take (Z.to_nat n) c else c | None => c end in
      let limit := match limit with Some n => Some (n - zlen c) | None => None end in
      match (match c with [] => ((0, None), fs) | _ => FileWrite tmp c fs end) with
      | ((_, Some e), fs) => (inl (ErrWriteTemp e), fs)
      | ((_, None), fs) =>
          if over then (inl MaxBytesError, fs)
          else copy_body tmp chunks fin limit (sent ++ c) fs
      end
  end.

(** The deferred function, when the temporary file is still open or closed, and is
    to be removed or not; its errors are ignored. *)
Definition cleanup (is_open remove : bool) (tmpPath : string) (fs : FS) : FS :=
  let fs := if is_open then (FileClose fs).2 else fs in
  if remove then (Remove tmpPath fs).2 else fs.

(** The handler up to the renaming of the temporary file to its name: a refusal, or
    the path of the stored file and the answer. [randoms] are the names
    [os.CreateTemp] tries, [elapsed] the measured duration. *)
Definition store (h : Handler) (r : Request) (randoms : list string) (elapsed : Z) (fs : FS)
    : (reply + string * Response) * FS :=
  let fail status e fs := (inl (status, inl e), fs) in
  if String.eqb (h_Dir h) "" then fail StatusInternalServerError ErrNotConfigured fs
  else if (0 <? MaxStorageBytes h) && (MaxStorageBytes h <? ContentLength r)
  then fail StatusRequestEntityTooLarge ErrExceedsCap fs
  else
    match sanitizeFilename (rq_name r) with
    | inl e => fail StatusBadRequest (ErrName e) fs
    | inr name =>
        match MkdirAll (h_Dir h) fs with
        | (inl e, fs) => fail StatusInternalServerError (ErrCreateDir e) fs
        | (inr _, fs) =>
            let target := Join (h_Dir h) name in
            let tmpDir := Join (h_Dir h) ".tmp" in
            match MkdirAll tmpDir fs with
            | (inl e, fs) => fail StatusInternalServerError (ErrCreateTempDir e) fs
            | (inr _, fs) =>
                match CreateTemp tmpDir (name +:+ ".") randoms fs with
                | (inl e, fs) => fail StatusInternalServerError (ErrCreateTemp e) fs
                | (inr tmpPath, fs) =>
                    let limit := if 0 <? MaxStorageBytes h then Some (MaxStorageBytes h) else None in
                    match copy_body (resolve tmpPath) (rq_chunks r) (rq_end r) limit [] fs with
                    | (inl MaxBytesError, fs) =>
                        fail StatusRequestEntityTooLarge ErrExceedsCap (cleanup true true tmpPath fs)
                    | (inl e, fs) =>
                        fail StatusBadRequest (ErrStreamBody e) (cleanup true true tmpPath fs)
                    | (inr sent, fs) =>
                        match FileClose fs with
                        | (inl e, fs) =>
                            fail StatusInternalServerError (ErrCloseTemp e) (cleanup false true tmpPath fs)
                        | (inr _, fs) =>
                            match Rename tmpPath target fs with
                            | (inl e, fs) =>
                                fail StatusInternalServerError (ErrPersist e) (cleanup false true tmpPath fs)
                            | (inr _, fs) =>
                                (inr (target, mkResponse (zlen sent) (EncodeToString (sha256 sent)) elapsed), fs)
                            end
                        end
                    end
                end
            end
        end
    end.

(** The rest of the handler: pruning, and the answer. The result has the responses
    given to [OnStored]. *)
Definition finish (h : Handler) (target : string) (resp : Response) (fs : FS) : reply * list Response * FS :=
  if 0 <? MaxStorageBytes h then
    match PruneDir (h_Dir h) (MaxStorageBytes h) target fs with
    | ((_, Some e), fs) => ((StatusInternalServerError, inl (ErrPrune e)), [], fs)
    | ((_, None), fs) => ((StatusOK, inr resp), [resp], fs)
    end
  else ((StatusOK, inr resp), [resp], fs).

Definition ServeHTTP (h : Handler) (r : Request) (randoms : list string) (elapsed : Z) (fs : FS)
    : reply * list Response * FS :=
  match store h r randoms elapsed fs with
  | (inl rep, fs) => (rep, [], fs)
  | (inr (target, resp), fs) => finish h target resp fs
  end.
#[global] Arguments PruneDir : simpl never.
#[global] Arguments store : simpl never.
#[global] Arguments ServeHTTP : simpl never.
