(* ===== verification/UploadNames.v ===== *)
(** * UploadNames: what [sanitizeFilename] returns

    Sanitized names are made of safe ASCII characters only, name an entry of the
    upload directory, and are left alone when sanitized again. *)

From S2P Require Import Prelude Text FS Upload.

(** ** Runes below 128 are single bytes *)

Lemma byte_Z_range b : 0 ≤ byte_Z b < 256.
Proof. unfold byte_Z. pose proof (Byte.to_N_bounded b). lia. Qed.

Lemma lor_ge_128 a b : 128 ≤ a → 0 ≤ b → 128 ≤ Z.lor a b.
Proof.
  intros Ha Hb. destruct (Z.le_gt_cases 128 (Z.lor a b)) as [|Hlt]; [done|].
  pose proof (Z.log2_lor a b ltac:(lia) Hb) as Hl.
  pose proof (Z.log2_le_mono 128 a Ha) as Hm. change (Z.log2 128) with 7 in Hm.
  destruct (decide (Z.lor a b = 0)) as [E|E]; [apply Z.lor_eq_0_iff in E; lia|].
  assert (0 ≤ Z.lor a b) by (apply Z.lor_nonneg; lia).
  assert (Z.log2 (Z.lor a b) < 7) by (apply Z.log2_lt_pow2; lia). lia.
Qed.

Lemma lor_ge_128_r a b : 0 ≤ a → 128 ≤ b → 128 ≤ Z.lor a b.
Proof. rewrite Z.lor_comm. intros. by apply lor_ge_128. Qed.

Lemma land_low x k : 0 ≤ k → Z.land x (Z.ones k) = x `mod` 2 ^ k.
Proof. apply Z.land_ones. Qed.

(** The payload of a continuation byte. *)
Lemma cont2_range (l : list byte) lo hi y : 128 ≤ lo → hi ≤ 191 →
  match l with
  | b1 :: _ => if is_cont lo hi b1 then Some (Z.land (byte_Z b1) 63) else None
  | [] => None
  end = Some y → lo - 128 ≤ y < 64.
Proof.
  intros Hlo Hhi. destruct l as [|b l]; [done|]. unfold is_cont.
  destruct (Z.leb_spec lo (byte_Z b)), (Z.leb_spec (byte_Z b) hi); simpl; try done.
  change 63 with (Z.ones 6). rewrite land_low by lia. intros [= <-].
  change (2 ^ 6) with 64. Z.to_euclidean_division_equations; lia.
Qed.

Lemma shiftl_ge n k c : 0 ≤ k → c ≤ n → c * 2 ^ k ≤ Z.shiftl n k.
Proof. intros Hk Hc. rewrite Z.shiftl_mul_pow2 by done. nia. Qed.

(** The runes of two, three and four bytes are not ASCII. *)
Lemma rune2_high x y : 0xC2 ≤ x ≤ 0xDF → 0 ≤ y → 128 ≤ Z.lor (Z.shiftl (Z.land x 31) 6) y.
Proof.
  intros Hx Hy. pose proof (lor_ge_128 (Z.shiftl (Z.land x 31) 6) y) as Hl.
  change 31 with (Z.ones 5) in *. rewrite land_low in * by lia.
  pose proof (shiftl_ge (x `mod` 2 ^ 5) 6 2 ltac:(lia)) as Hs.
  assert (2 ≤ x `mod` 2 ^ 5) by (change (2 ^ 5) with 32; Z.to_euclidean_division_equations; lia). lia.
Qed.

Lemma rune3_high x y t : 0xE0 ≤ x ≤ 0xEF → 0 ≤ y → 0 ≤ t → (x = 0xE0 → 32 ≤ y) →
  128 ≤ Z.lor (Z.shiftl (Z.land x 15) 12) (Z.lor (Z.shiftl y 6) t).
Proof.
  intros Hx Hy Ht Hy0. pose proof (lor_ge_128 (Z.shiftl (Z.land x 15) 12) (Z.lor (Z.shiftl y 6) t)) as Hl.
  pose proof (lor_ge_128_r (Z.shiftl (Z.land x 15) 12) (Z.lor (Z.shiftl y 6) t)) as Hl'.
  change 15 with (Z.ones 4) in *. rewrite land_low in * by lia.
  assert (0 ≤ Z.lor (Z.shiftl y 6) t) by (apply Z.lor_nonneg; split; [by apply Z.shiftl_nonneg|done]).
  pose proof (Z.mod_pos_bound x (2 ^ 4) ltac:(lia)).
  destruct (decide (x = 0xE0)) as [E|E].
  - pose proof (shiftl_ge y 6 32 ltac:(lia) ltac:(auto)).
    pose proof (lor_ge_128 (Z.shiftl y 6) t ltac:(lia) Ht).
    assert (0 ≤ Z.shiftl (x `mod` 2 ^ 4) 12) by (apply Z.shiftl_nonneg; lia). lia.
  - pose proof (shiftl_ge (x `mod` 2 ^ 4) 12 1 ltac:(lia)) as Hs.
    assert (1 ≤ x `mod` 2 ^ 4) by (change (2 ^ 4) with 16 in *; Z.to_euclidean_division_equations; lia). lia.
Qed.

Lemma rune4_high x y t : 0xF0 ≤ x ≤ 0xF4 → 0 ≤ y → 0 ≤ t → (x = 0xF0 → 16 ≤ y) →
  128 ≤ Z.lor (Z.shiftl (Z.land x 7) 18) (Z.lor (Z.shiftl y 12) t).
Proof.
  intros Hx Hy Ht Hy0. pose proof (lor_ge_128 (Z.shiftl (Z.land x 7) 18) (Z.lor (Z.shiftl y 12) t)) as Hl.
  pose proof (lor_ge_128_r (Z.shiftl (Z.land x 7) 18) (Z.lor (Z.shiftl y 12) t)) as Hl'.
  change 7 with (Z.ones 3) in *. rewrite land_low in * by lia.
  assert (0 ≤ Z.lor (Z.shiftl y 12) t) by (apply Z.lor_nonneg; split; [by apply Z.shiftl_nonneg|done]).
  pose proof (Z.mod_pos_bound x (2 ^ 3) ltac:(lia)).
  destruct (decide (x = 0xF0)) as [E|E].
  - pose proof (shiftl_ge y 12 16 ltac:(lia) ltac:(auto)).
    pose proof (lor_ge_128 (Z.shiftl y 12) t ltac:(lia) ltac:(lia)).
    assert (0 ≤ Z.shiftl (x `mod` 2 ^ 3) 18) by (apply Z.shiftl_nonneg; lia). lia.
  - pose proof (shiftl_ge (x `mod` 2 ^ 3) 18 1 ltac:(lia)) as Hs.
    assert (1 ≤ x `mod` 2 ^ 3) by (change (2 ^ 3) with 8 in *; Z.to_euclidean_division_equations; lia). lia.
Qed.

Lemma DecodeRune_ascii b l r n :
  DecodeRune (b :: l) = (r, n) → r < 128 → n = 1%nat ∧ r = byte_Z b.
Proof.
  pose proof (byte_Z_range b) as Hb. unfold DecodeRune. cbv zeta.
  destruct (Z.ltb_spec (byte_Z b) 0x80); [by intros [= <- <-]|].
  assert (∀ k y, match drop k l with
    | b1 :: _ => if is_cont 0x80 0xBF b1 then Some (Z.land (byte_Z b1) 63) else None
    | [] => None end = Some y → 0 ≤ y) as Hcont.
  { intros k y Hy. apply cont2_range in Hy; lia. }
  destruct (_ && _) eqn:E2.
  { apply andb_true_iff in E2 as [?%Z.leb_le ?%Z.leb_le].
    destruct (match l with [] => None | _ => _ end) as [y|] eqn:Ey; intros [= <- <-] Hr; [|by compute in Hr].
    apply cont2_range in Ey; [|lia..]. exfalso. pose proof (rune2_high (byte_Z b) y). lia. }
  clear E2. destruct (_ && _) eqn:E3.
  { apply andb_true_iff in E3 as [?%Z.leb_le ?%Z.leb_le].
    destruct (match l with [] => None | _ => _ end) as [y|] eqn:Ey;
      [destruct (match drop 1 l with [] => None | _ => _ end) as [z|] eqn:Ez|];
      intros [= <- <-] Hr; try by compute in Hr. exfalso. apply Hcont in Ez.
    apply cont2_range in Ey; [|destruct (byte_Z b =? 0xE0); lia|destruct (byte_Z b =? 0xED); lia].
    pose proof (rune3_high (byte_Z b) y z).
    destruct (Z.eqb_spec (byte_Z b) 0xE0); lia. }
  clear E3. destruct (_ && _) eqn:E4; [|intros [= <- <-] Hr; by compute in Hr].
  apply andb_true_iff in E4 as [?%Z.leb_le ?%Z.leb_le].
  destruct (match l with [] => None | _ => _ end) as [y|] eqn:Ey;
    [destruct (match drop 1 l with [] => None | _ => _ end) as [z|] eqn:Ez;
      [destruct (match drop 2 l with [] => None | _ => _ end) as [w|] eqn:Ew|]|];
    intros [= <- <-] Hr; try by compute in Hr. exfalso.
  apply Hcont in Ez, Ew.
  apply cont2_range in Ey; [|destruct (byte_Z b =? 0xF0); lia|destruct (byte_Z b =? 0xF4); lia].
  assert (0 ≤ Z.lor (Z.shiftl z 6) w) by (apply Z.lor_nonneg; split; [by apply Z.shiftl_nonneg|done]).
  pose proof (rune4_high (byte_Z b) y (Z.lor (Z.shiftl z 6) w)).
  destruct (Z.eqb_spec (byte_Z b) 0xF0); lia.
Qed.

Lemma runes_loop_ascii_single fuel l r bs :
  (r, bs) ∈ runes_loop fuel l → r < 128 → ∃ b, bs = [b] ∧ byte_Z b = r.
Proof.
  revert l. induction fuel as [|fuel IH]; intros l; [by intros ?%elem_of_nil|].
  destruct l as [|b l]; [by intros ?%elem_of_nil|]. cbn [runes_loop].
  destruct (DecodeRune (b :: l)) as [r0 n] eqn:E. intros [H|H]%elem_of_cons Hr; [|by eapply IH].
  injection H as -> ->. destruct (DecodeRune_ascii _ _ _ _ E Hr) as [-> ->]. by exists b.
Qed.

Lemma safe_rune_lt r : safe_rune r = true → r < 128.
Proof.
  unfold safe_rune, in_range. rewrite !orb_true_iff, !andb_true_iff, !Z.leb_le, bool_decide_eq_true.
  intros [[[?|?]|?]|Hr]; [lia..|]. repeat (apply elem_of_cons in Hr as [->|Hr]; [lia|]).
  by apply elem_of_nil in Hr.
Qed.

(** ** Safe names *)

Definition safe_byte (b : byte) : bool := safe_rune (byte_Z b).

(** Names that are already safe. *)
Definition safe_name (s : string) : Prop :=
  s ≠ "" ∧ is_dots s = false ∧ Forall safe_byte (bytes_of_string s).

Definition sanitize_rune (x : Z * list byte) : list byte := if safe_rune x.1 then x.2 else [x5f].

Lemma sanitize_runes_safe fuel l :
  Forall safe_byte (concat (map sanitize_rune (runes_loop fuel l))) ∧
  length (concat (map sanitize_rune (runes_loop fuel l))) = length (runes_loop fuel l).
Proof.
  assert (H : ∀ x, x ∈ runes_loop fuel l → ∃ b, sanitize_rune x = [b] ∧ safe_byte b).
  { intros [r bs] Hx. unfold sanitize_rune. simpl. destruct (safe_rune r) eqn:Hr; [|by exists x5f].
    destruct (runes_loop_ascii_single _ _ _ _ Hx) as (b & -> & Hb); [by apply safe_rune_lt|].
    exists b. split; [done|]. unfold safe_byte. by rewrite Hb, Hr. }
  induction (runes_loop fuel l) as [|x xs IH]; [by split|]. simpl.
  destruct (H x) as (b & -> & Hb); [by left|]. destruct IH as [IH1 IH2]; [intros y Hy; apply H; by right|].
  split; [by constructor|]. simpl. by rewrite IH2.
Qed.

Lemma sanitizeFilename_inv name s :
  sanitizeFilename name = inr s →
  safe_name s ∧ String.length s = length (runes (TrimSpace name)).
Proof.
  unfold sanitizeFilename. cbv zeta. repeat (case_match; [done|]).
  intros [= <-]. change (λ x : Z * list byte, if safe_rune x.1 then x.2 else [x5f]) with sanitize_rune in *.
  destruct (sanitize_runes_safe (length (bytes_of_string (TrimSpace name))) (bytes_of_string (TrimSpace name)))
    as [Hsafe Hlen].
  match goal with H : (_ || _) = false |- _ => apply orb_false_iff in H as [He Hd] end.
  split; [split_and!|].
  - by apply String.eqb_neq.
  - done.
  - by rewrite bytes_of_string_of_bytes.
  - by rewrite <-bytes_of_string_length, bytes_of_string_of_bytes.
Qed.

Lemma safe_byte_ascii b : safe_byte b → is_ascii b.
Proof. intros H. apply Is_true_true, safe_rune_lt in H. done. Qed.

Lemma safe_byte_cases b : safe_byte b → b ≠ slash ∧ IsSpace (byte_Z b) = false ∧ byte_Z b ∉ [47; 92].
Proof.
  unfold safe_byte. intros H%Is_true_true.
  assert (Hcheck : ∀ b, implb (safe_rune (byte_Z b))
    (negb (bool_decide (b = slash)) && negb (IsSpace (byte_Z b)) && negb (bool_decide (byte_Z b ∈ [47; 92])))
    = true) by (intros []; reflexivity).
  specialize (Hcheck b). rewrite H in Hcheck. simpl in Hcheck.
  apply andb_true_iff in Hcheck as [[H1 H2]%andb_true_iff H3].
  split_and!.
  - apply negb_true_iff, bool_decide_eq_false in H1. done.
  - by apply negb_true_iff in H2.
  - apply negb_true_iff, bool_decide_eq_false in H3. done.
Qed.

Lemma safe_name_fixed s : safe_name s → sanitizeFilename s = inr s.
Proof.
  intros (Hne & Hdots & Hsafe).
  assert (Hr : runes s = map (λ b, (byte_Z b, [b])) (bytes_of_string s)).
  { apply runes_ascii. eapply Forall_impl; [exact Hsafe|]. apply safe_byte_ascii. }
  assert (Htrim : TrimSpace s = s).
  { apply TrimSpace_id. rewrite Hr. apply Forall_map. eapply Forall_impl; [exact Hsafe|].
    intros b Hb. simpl. by apply safe_byte_cases. }
  unfold sanitizeFilename. rewrite Htrim. cbv zeta.
  destruct (String.eqb_spec s ""); [done|].
  assert (contains_separator s = false) as ->.
  { unfold contains_separator. rewrite Hr. rewrite Forall_forall in Hsafe.
    apply not_true_is_false. intros Hex. apply existsb_exists in Hex as (x & Hx & Hsep).
    apply in_map_iff in Hx as (b & <- & Hb). simpl in Hsep. apply bool_decide_eq_true in Hsep.
    apply list_elem_of_In in Hb. apply Hsafe, safe_byte_cases in Hb. tauto. }
  rewrite Hdots.
  assert (string_of_bytes (concat (map (λ x : Z * list byte, if safe_rune x.1 then x.2 else [x5f]) (runes s))) = s)
    as ->; [|by destruct (String.eqb_spec s ""); [done|rewrite Hdots]].
  rewrite Hr, map_map. rewrite <-(string_of_bytes_of_string s) at 2. f_equal. simpl. clear -Hsafe.
  induction Hsafe as [|b l Hb _ IH]; [done|]. simpl. unfold safe_byte in Hb.
  apply Is_true_true in Hb. rewrite Hb, IH. done.
Qed.

Lemma safe_name_ordinary s : safe_name s → ordinary s ∧ no_slash s.
Proof.
  intros (Hne & Hdots & Hsafe). unfold is_dots in Hdots. apply orb_false_iff in Hdots as [H1 H2].
  split; [split_and!; [done|by apply String.eqb_neq..]|].
  intros Hin. rewrite Forall_forall in Hsafe. apply Hsafe, safe_byte_cases in Hin. tauto.
Qed.

(** C33: sanitized names are safe. A sanitized name is not empty, not one of the
    dotted names, and consists of ASCII letters, digits and [.-_] only, one for
    each character of the trimmed input; it is an ordinary entry name without
    separators; and sanitizing leaves exactly the safe names alone. *)
Theorem sanitizeFilename_safe :
  (∀ name s, sanitizeFilename name = inr s →
     safe_name s ∧ String.length s = length (runes (TrimSpace name)) ∧ ordinary s ∧ no_slash s ∧
     sanitizeFilename s = inr s) ∧
  (∀ s, sanitizeFilename s = inr s ↔ safe_name s).
Proof.
  split.
  - intros name s H. apply sanitizeFilename_inv in H as [Hs Hl].
    split_and!; [done|done|by apply safe_name_ordinary..|by apply safe_name_fixed].
  - intros s. split; [|apply safe_name_fixed]. intros H. by apply sanitizeFilename_inv in H as [? _].
Qed.

Lemma sanitizeFilename_safe_witness :
  safe_name "my_photo__1_.jpeg" ∧ sanitizeFilename "my_photo__1_.jpeg" = inr "my_photo__1_.jpeg"%string.
Proof.
  destruct sanitizeFilename_safe as [H _].
  destruct (H "  my photo (1).jpeg "%string "my_photo__1_.jpeg"%string) as (H1 & _ & _ & _ & H2);
    [vm_compute; reflexivity|].
  split; [exact H1|exact H2].
Defined.
