(* ===== verification/UploadProofs.v ===== *)
(** * UploadProofs: pruning step by step *)

From S2P Require Import Prelude Text FS Upload UploadNames.

(** ** Names in a directory *)

(** The entries of a directory have proper names. *)
Definition entries_ok (fs : FS) (d : path) : Prop :=
  ∀ x, nodes fs !! child d x ≠ None → ordinary x ∧ no_slash x.

Lemma elem_of_dir_names fs d x : x ∈ dir_names fs d ↔ nodes fs !! child d x ≠ None.
Proof.
  unfold dir_names. rewrite merge_sort_Permutation, list_elem_of_omap. split.
  - intros (q & Hq & Hx). apply child_name_Some in Hx as ->.
    apply elem_of_elements, elem_of_dom in Hq as [n Hn]. by rewrite Hn.
  - intros Hx. exists (child d x). split; [|apply child_name_child].
    apply elem_of_elements, elem_of_dom. destruct (nodes fs !! child d x); [by eexists|done].
Qed.

Lemma NoDup_dir_names fs d : NoDup (dir_names fs d).
Proof.
  unfold dir_names. rewrite merge_sort_Permutation.
  generalize (NoDup_elements (dom (nodes fs))). generalize (elements (dom (nodes fs))).
  intros l. induction 1 as [|q l Hq Hl IH]; simpl; [constructor|].
  destruct (child_name d q) as [x|] eqn:E; [|done]. constructor; [|done].
  rewrite list_elem_of_omap. intros (q' & Hq' & E').
  apply child_name_Some in E as ->. apply child_name_Some in E' as ->. done.
Qed.

Section prune.
Context (dir : string) (Hdir : dir ≠ ""%string).

Let d : path := resolve dir.

Lemma resolve_entry x : ordinary x → no_slash x → resolve (dir +:+ "/" +:+ x) = child d x.
Proof. intros Hx Hs. by apply resolve_child. Qed.

Lemma resolve_Join x : ordinary x → no_slash x → resolve (Join dir x) = child d x.
Proof.
  intros Hx Hs. unfold Join. destruct (String.eqb_spec dir ""); [done|].
  rewrite resolve_Clean. by apply resolve_entry.
Qed.

(** ** Scanning *)

Definition file_of (fs : FS) (x : string) : option uploadFile :=
  match nodes fs !! child d x with
  | Some (File c m) => Some (mkUploadFile (Join dir x) (zlen c) m)
  | _ => None
  end.

(** The regular files of the directory. *)
Definition files_of (fs : FS) : list uploadFile := omap (file_of fs) (dir_names fs d).

Definition total_size (l : list uploadFile) : Z := foldr (λ f n, uf_size f + n) 0 l.

Lemma total_size_app l k : total_size (l ++ k) = total_size l + total_size k.
Proof. induction l as [|f l IH]; simpl; lia. Qed.

Lemma total_size_nonneg l : Forall (λ f, 0 ≤ uf_size f) l → 0 ≤ total_size l.
Proof. induction 1; simpl; lia. Qed.

Lemma total_size_perm l k : l ≡ₚ k → total_size l = total_size k.
Proof. induction 1; simpl; lia. Qed.

Definition entry_of (fs : FS) (x : string) : string * bool :=
  (x, bool_decide (node_at fs (child d x) = Some Dir)).

Lemma file_of_size fs x f : file_of fs x = Some f → 0 ≤ uf_size f.
Proof. unfold file_of. repeat case_match; [|done..]. intros [= <-]. apply zlen_nonneg. Qed.

Lemma omap_file_sizes fs xs : Forall (λ f, 0 ≤ uf_size f) (omap (file_of fs) xs).
Proof.
  apply Forall_forall. intros f Hf. apply list_elem_of_omap in Hf as (x & _ & Hf).
  by eapply file_of_size.
Qed.

Lemma scan_entries_spec fs xs : ∀ total files,
  faults fs = [] → (∀ x, x ∈ xs → nodes fs !! child d x ≠ None) → entries_ok fs d →
  0 ≤ total → total + total_size (omap (file_of fs) xs) ≤ max_int64 →
  scan_entries dir (map (entry_of fs) xs) total files fs =
    (inr (total + total_size (omap (file_of fs) xs), files ++ omap (file_of fs) xs), fs).
Proof.
  induction xs as [|x xs IH]; intros total files Hf Hxs Hok Ht Hmax.
  { simpl. rewrite Z.add_0_r, app_nil_r. done. }
  assert (Hx : nodes fs !! child d x ≠ None) by (apply Hxs; by left).
  destruct (Hok x Hx) as [Hord Hns].
  assert (Hxs' : ∀ y, y ∈ xs → nodes fs !! child d y ≠ None) by (intros y Hy; apply Hxs; by right).
  assert (Homap : omap (file_of fs) (x :: xs) =
    match file_of fs x with Some f => f :: omap (file_of fs) xs | None => omap (file_of fs) xs end) by done.
  assert (Hfile : file_of fs x = match nodes fs !! child d x with
    | Some (File c m) => Some (mkUploadFile (Join dir x) (zlen c) m) | _ => None end) by done.
  rewrite Homap, Hfile in *. clear Homap Hfile. cbn [map scan_entries].
  change (entry_of fs x) with (x, bool_decide (node_at fs (child d x) = Some Dir)).
  unfold Lstat. rewrite syscall_no_fault, resolve_entry, node_at_child by done.
  destruct (nodes fs !! child d x) as [[c m| |]|] eqn:E; [|by apply IH..|done].
  simpl in Hmax |- *.
  pose proof (zlen_nonneg c). pose proof (total_size_nonneg _ (omap_file_sizes fs xs)).
  rewrite wrap64_small by (unfold min_int64; lia).
  rewrite IH by (done || lia). rewrite <-app_assoc. do 3 f_equal. lia.
Qed.

(** Scanning never changes the tree, and finds only regular files. *)
Lemma scan_entries_faults fs0 xs : ∀ total files fs r fs',
  scan_entries dir (map (entry_of fs0) xs) total files fs = (r, fs') →
  nodes fs = nodes fs0 → (∀ x, x ∈ xs → nodes fs0 !! child d x ≠ None) → entries_ok fs0 d →
  nodes fs' = nodes fs0 ∧
  (∀ total' files', r = inr (total', files') →
     ∀ f, f ∈ files' → f ∈ files ∨ ∃ x c m, x ∈ xs ∧ nodes fs0 !! child d x = Some (File c m) ∧
       f = mkUploadFile (Join dir x) (zlen c) m).
Proof.
  induction xs as [|x xs IH]; intros total files fs r fs' H Hn Hxs Hok; simpl in H.
  { injection H as <- <-. split; [done|]. intros ?? [= <- <-]. auto. }
  assert (Hx : nodes fs0 !! child d x ≠ None) by (apply Hxs; by left).
  destruct (Hok x Hx) as [Hord Hns].
  assert (Hxs' : ∀ y, y ∈ xs → nodes fs0 !! child d y ≠ None) by (intros y Hy; apply Hxs; by right).
  assert (Hrec : ∀ total files1 fs1, scan_entries dir (map (entry_of fs0) xs) total files1 fs1 = (r, fs') →
    nodes fs1 = nodes fs0 →
    (∀ f, f ∈ files1 → f ∈ files ∨ ∃ c m, nodes fs0 !! child d x = Some (File c m) ∧
       f = mkUploadFile (Join dir x) (zlen c) m) →
    nodes fs' = nodes fs0 ∧
    (∀ total' files', r = inr (total', files') →
     ∀ f, f ∈ files' → f ∈ files ∨ ∃ y c m, y ∈ x :: xs ∧ nodes fs0 !! child d y = Some (File c m) ∧
       f = mkUploadFile (Join dir y) (zlen c) m)).
  { intros total1 files1 fs1 Hs Hn1 Hf1. destruct (IH _ _ _ _ _ Hs Hn1 Hxs' Hok) as [H1 H2].
    split; [done|]. intros total' files' Hr f Hf. destruct (H2 _ _ Hr f Hf) as [Hin|(y & c & m & Hy & ?)].
    - apply Hf1 in Hin as [|(c & m & ? & ?)]; [by left|]. right. exists x, c, m. split; [by left|done].
    - right. exists y, c, m. split; [by right|done]. }
  destruct (bool_decide _); [eapply Hrec; eauto|].
  unfold Lstat in H. destruct (syscall _ fs) as [r1 fs1] eqn:E1.
  apply syscall_nodes in E1 as (Hn1 & E1); [|intros fs2 r2 fs2' H2; by case_match; simplify_eq].
  rewrite Hn in Hn1. destruct r1 as [e|n].
  - destruct (IsNotExist e); [by eapply Hrec; eauto|]. injection H as <- <-. split; [done|].
    by intros ?? [=].
  - destruct E1 as [[e [=]]|(fs2 & Hn2 & E2)].
    rewrite resolve_entry, node_at_child in E2 by done.
    destruct n as [c m| |]; [|by eapply Hrec; eauto..].
    eapply Hrec; [exact H|done|]. intros f Hf. apply elem_of_app in Hf as [|Hf]; [by left|].
    apply list_elem_of_singleton in Hf as ->. right. exists c, m. split; [|done].
    rewrite <-Hn, <-Hn2. by case_match; simplify_eq.
Qed.

(** ** Removing *)

Abbreviation key f := (resolve (uf_path f)).

Definition delete_files (gone : list uploadFile) (m : gmap path node) : gmap path node :=
  foldl (λ m f, delete (key f) m) m gone.

Lemma delete_files_lookup gone m q :
  delete_files gone m !! q = if decide (q ∈ map (λ f, key f) gone) then None else m !! q.
Proof.
  revert m. induction gone as [|f gone IH]; intros m; simpl.
  { destruct (decide (q ∈ [])) as [?%elem_of_nil|]; done. }
  rewrite IH. destruct (decide (q = key f)) as [->|Hne].
  - rewrite lookup_delete_eq, (decide_True (P := _ ∈ _ :: _)) by (by left). by case_decide.
  - rewrite lookup_delete_ne by done. apply decide_ext. rewrite elem_of_cons. tauto.
Qed.

(** The files that may be removed: all but [keep]. *)
Definition evictable (keep : string) (files : list uploadFile) : list uploadFile :=
  filter (λ f, key f ≠ resolve keep) files.

Definition pruned (res : PruneResult) (gone : list uploadFile) : PruneResult :=
  mkPruneResult (pr_MaxBytes res) (RemainingBytes res - total_size gone)
    (RemovedFiles res + zlen gone) (RemovedBytes res + total_size gone).

Lemma pruned_nil res : pruned res [] = res.
Proof. destruct res. unfold pruned, zlen. simpl. f_equal; lia. Qed.

(** What a run of the loop over [files] has done to [res] when it ends. *)
Record prune_run (maxBytes : Z) (keep : string) (files : list uploadFile) (remaining : Z)
    (gone : list uploadFile) : Prop := {
  run_prefix : gone `prefix_of` evictable keep files;
  run_needed : ∀ g f rest, gone = g ++ f :: rest → maxBytes < remaining - total_size g;
  run_enough : remaining - total_size gone ≤ maxBytes ∨ gone = evictable keep files;
}.

Lemma prune_files_spec maxBytes keep files : ∀ res fs,
  faults fs = [] →
  (∀ f, f ∈ files → ∃ x c m, key f = child d x ∧ nodes fs !! child d x = Some (File c m)) →
  NoDup (map (λ f, key f) files) → Forall (λ f, 0 ≤ uf_size f) files →
  total_size files ≤ RemainingBytes res ≤ max_int64 →
  0 ≤ RemovedBytes res → RemovedBytes res + total_size files ≤ max_int64 →
  ∃ gone, prune_files maxBytes (Clean keep) files res fs =
      ((pruned res gone, None), mkFS (delete_files gone (nodes fs)) (clock fs) []) ∧
    prune_run maxBytes keep files (RemainingBytes res) gone.
Proof.
  induction files as [|f files IH]; intros res fs Hf Hfiles Hnd Hsize Hrem Hrb0 Hrb; simpl.
  { exists []. rewrite pruned_nil. split; [by destruct fs; simpl in *; subst|].
    split; [done|by intros []|by right]. }
  apply NoDup_cons in Hnd as [Hnf Hnd]. apply Forall_cons in Hsize as [Hs0 Hsize]. simpl in *.
  pose proof (total_size_nonneg _ Hsize).
  destruct (Z.leb_spec (RemainingBytes res) maxBytes) as [Hle|Hgt].
  { exists []. rewrite pruned_nil. split; [by destruct fs; simpl in *; subst|].
    split; [apply prefix_nil|by intros []|left; simpl; lia]. }
  assert (Hrest : ∀ g, g ∈ files → ∃ x c m, key g = child d x ∧ nodes fs !! child d x = Some (File c m))
    by (intros g Hg; apply Hfiles; by right).
  destruct (String.eqb_spec (Clean (uf_path f)) (Clean keep)) as [Heq|Hne]; rewrite Clean_eq in *.
  - destruct (IH res fs) as (gone & E & [H1 H2 H3]); try done; try lia.
    exists gone. split; [done|].
    assert (evictable keep (f :: files) = evictable keep files) as Hev
      by (unfold evictable; rewrite filter_cons_False; [done|tauto]).
    split; rewrite ?Hev; done.
  - destruct (Hfiles f) as (x & c & m & Hk & Hn); [by left|].
    unfold Remove. rewrite syscall_no_fault by done. cbv zeta. rewrite Hk, Hn.
    rewrite !wrap64_small by (unfold min_int64; lia).
    destruct (IH (mkPruneResult (pr_MaxBytes res) (RemainingBytes res - uf_size f)
        (RemovedFiles res + 1) (RemovedBytes res + uf_size f))
      (set_nodes fs (delete (child d x) (nodes fs)))) as (gone & E & [H1 H2 H3]);
      try done; simpl in *; try lia.
    { intros g Hg. destruct (Hrest g Hg) as (y & c' & m' & Hky & Hny). exists y, c', m'.
      split; [done|]. rewrite lookup_delete_ne; [done|]. intros Hxy. apply Hnf.
      apply list_elem_of_fmap. exists g. by rewrite Hk, Hky, Hxy. }
    assert (evictable keep (f :: files) = f :: evictable keep files) as Hev
      by (unfold evictable; by rewrite filter_cons_True).
    exists (f :: gone). split.
    + rewrite E. unfold delete_files at 2. simpl. rewrite Hk. do 2 f_equal.
      unfold pruned. simpl. rewrite zlen_cons. f_equal; lia.
    + split; rewrite ?Hev; simpl.
      * by apply prefix_cons.
      * intros [|g0 g] f' rest Heq; simpl in *; [lia|]. injection Heq as <- Heq.
        specialize (H2 g f' rest Heq). lia.
      * destruct H3 as [?| ->]; [left; lia|by right].
Qed.

(** Whatever calls fail, the loop removes nothing but evictable files and never
    loses count. *)
Lemma prune_files_faults maxBytes keep files : ∀ res fs r fs',
  prune_files maxBytes (Clean keep) files res fs = (r, fs') →
  (∀ f, f ∈ files → ∃ x, key f = child d x ∧
     (nodes fs !! child d x = None ∨ ∃ c m, nodes fs !! child d x = Some (File c m))) →
  ∀ q, nodes fs' !! q = nodes fs !! q ∨
    (nodes fs' !! q = None ∧ q ≠ resolve keep ∧
     ∃ x c m, q = child d x ∧ nodes fs !! q = Some (File c m)).
Proof.
  induction files as [|f files IH]; intros res fs r fs' H Hfiles q; simpl in H.
  { injection H as _ <-. by left. }
  destruct (_ <=? _); [injection H as _ <-; by left|].
  assert (Hrest : ∀ g, g ∈ files → ∃ x, key g = child d x ∧
     (nodes fs !! child d x = None ∨ ∃ c m, nodes fs !! child d x = Some (File c m)))
    by (intros g Hg; apply Hfiles; by right).
  destruct (String.eqb_spec (Clean (uf_path f)) (Clean keep)) as [_|Hne]; [by eapply IH|].
  rewrite Clean_eq in Hne. destruct (Hfiles f) as (x & Hk & Hx); [by left|].
  destruct (Remove (uf_path f) fs) as [r1 fs1] eqn:E1.
  apply syscall_inv in E1 as (fs1' & Hn & _ & [(e & -> & -> & _)|E1]).
  - rewrite <-Hn. destruct (IsNotExist e); [|injection H as _ <-; by left].
    eapply IH; [exact H|]. by rewrite Hn.
  - cbv zeta in E1. rewrite Hk, Hn in E1.
    destruct Hx as [Hx|(c & m & Hx)]; rewrite Hx in E1.
    + assert (r1 = inl ErrNotExist ∧ fs1' = fs1) as [-> ->].
      { unfold child in E1. destruct (d.2); simpl in E1; by simplify_eq. }
      simpl in H. rewrite <-Hn. eapply IH; [exact H|]. by rewrite Hn.
    + injection E1 as <- <-. edestruct IH as [IHq|(Hq1 & Hq2 & y & c' & m' & Hy & Hq3)]; [exact H| | |].
      * intros g Hg. destruct (Hrest g Hg) as (y & Hky & Hny). exists y. split; [done|]. simpl.
        destruct (decide (child d y = child d x)) as [->|]; [left; apply lookup_delete_eq|].
        by rewrite lookup_delete_ne.
      * rewrite IHq. simpl. destruct (decide (q = child d x)) as [->|Hqx].
        -- right. rewrite lookup_delete_eq. split_and!; [done|congruence|]. by exists x, c, m.
        -- left. by rewrite lookup_delete_ne.
      * right. split_and!; [done|done|]. exists y, c', m'. split; [done|]. simpl in Hq3.
        by apply lookup_delete_Some in Hq3 as [_ ?].
Qed.

End prune.
