(* ===== verification/UploadTheorems.v ===== *)
(** * UploadTheorems: what pruning and the upload handler promise *)

From S2P Require Import Prelude Text FS Sha256 Upload UploadNames UploadProofs.

(** ** Pruning *)

#[global] Instance older_trans : Transitive older.
Proof.
  intros f g h [?|[? H1]] [?|[? H2]]; unfold older; [left; lia..|].
  right. split; [lia|]. by etrans.
Qed.
#[global] Instance older_total : Total older.
Proof.
  intros f g. unfold older.
  destruct (Z.lt_trichotomy (uf_modTime f) (uf_modTime g)) as [?|[?|?]]; [by left; left| |by right; left].
  destruct (total String.le (uf_path f) (uf_path g)); [left; right; done|right; right; done].
Qed.

Section pruning.
Context (dir : string) (Hdir : dir ≠ ""%string).
Let d : path := resolve dir.

Lemma ReadDir_ok fs :
  faults fs = [] → node_at fs d = Some Dir →
  ReadDir dir fs = (inr (map (entry_of dir fs) (dir_names fs d)), fs).
Proof.
  intros Hf Hd. unfold ReadDir. rewrite syscall_no_fault by done. cbv zeta.
  by rewrite bool_decide_true by done.
Qed.

Lemma files_of_keys fs f : entries_ok fs d → f ∈ files_of dir fs →
  ∃ x c m, resolve (uf_path f) = child d x ∧ nodes fs !! child d x = Some (File c m) ∧ ordinary x ∧ no_slash x ∧
    f = mkUploadFile (Join dir x) (zlen c) m.
Proof.
  intros Hok Hf. apply list_elem_of_omap in Hf as (x & _ & Hf).
  unfold file_of in Hf. destruct (nodes fs !! child (resolve dir) x) as [[c m| |]|] eqn:E; [|done..].
  injection Hf as <-. destruct (Hok x) as [Hord Hns]; [unfold d; by rewrite E|].
  exists x, c, m. split_and!; try done. by apply resolve_Join.
Qed.

Lemma files_of_NoDup fs : entries_ok fs d → NoDup (map (λ f, resolve (uf_path f)) (files_of dir fs)).
Proof.
  intros Hok. unfold files_of. pose proof (NoDup_dir_names fs (resolve dir)) as Hnd.
  assert (Hall : ∀ x, x ∈ dir_names fs (resolve dir) → ordinary x ∧ no_slash x)
    by (intros x Hx; apply Hok, elem_of_dir_names, Hx).
  induction Hnd as [|x xs Hx Hnd IH]; [constructor|]. simpl.
  assert (IH' := IH (λ y Hy, Hall y (list_elem_of_further _ _ _ Hy))).
  destruct (file_of dir fs x) as [f|] eqn:Ef; [|done]. constructor; [|done].
  intros Hin. apply list_elem_of_fmap in Hin as (g & Hg & Hin).
  apply list_elem_of_omap in Hin as (y & Hy & Hgy).
  destruct (Hall x) as [Hox Hnx]; [by left|]. destruct (Hall y) as [Hoy Hny]; [by right|].
  assert (Hkey : ∀ z h, ordinary z → no_slash z → file_of dir fs z = Some h →
    resolve (uf_path h) = child (resolve dir) z).
  { intros z h Hz Hz' Hh. unfold file_of in Hh. repeat case_match; simplify_eq. by apply resolve_Join. }
  rewrite (Hkey x f), (Hkey y g) in Hg by done. apply child_inj in Hg as ->. done.
Qed.

Lemma PruneDir_lemma max keep fs :
  faults fs = [] → node_at fs d = Some Dir → entries_ok fs d → 0 < max →
  total_size (files_of dir fs) ≤ max_int64 →
  let files := merge_sort older (files_of dir fs) in
  let total := total_size (files_of dir fs) in
  ∃ gone, prune_run max keep files total gone ∧
    let left := total - total_size gone in
    PruneDir dir max keep fs =
      ((mkPruneResult max left (zlen gone) (total_size gone),
        if max <? left then Some (ErrOverCap left max) else None),
       mkFS (delete_files gone (nodes fs)) (clock fs) []).
Proof.
  intros Hf Hd Hok Hmax Htot files total.
  assert (Hfs : fs = mkFS (nodes fs) (clock fs) []) by (destruct fs; simpl in *; by subst).
  unfold PruneDir. destruct (Z.leb_spec max 0); [lia|]. rewrite ReadDir_ok by done.
  assert (Hscan := scan_entries_spec dir Hdir fs (dir_names fs d) 0 [] Hf).
  rewrite Hscan; clear Hscan; [|intros x Hx; by apply elem_of_dir_names|done|lia|done].
  rewrite Z.add_0_l, app_nil_l. cbv beta iota.
  change (omap (file_of dir fs) (dir_names fs d)) with (files_of dir fs).
  change (total_size (files_of dir fs)) with total.
  change (merge_sort older (files_of dir fs)) with files.
  assert (Hsizes : Forall (λ f, 0 ≤ uf_size f) (files_of dir fs)) by apply omap_file_sizes.
  pose proof (total_size_nonneg _ Hsizes).
  destruct (Z.leb_spec total max) as [Hle|Hgt].
  - exists []. split; [split; [apply prefix_nil|by intros []|left; simpl; lia]|]. simpl.
    rewrite Z.sub_0_r. destruct (Z.ltb_spec max total); [lia|].
    change (delete_files [] (nodes fs)) with (nodes fs). by rewrite <-Hfs.
  - assert (Hperm : files ≡ₚ files_of dir fs) by apply merge_sort_Permutation.
    destruct (prune_files_spec dir max keep files (mkPruneResult max total 0 0) fs)
      as (gone & -> & Hrun); simpl.
    + done.
    + intros f. rewrite Hperm. intros Hin. apply files_of_keys in Hin as (x & c & m & ? & ? & _); [|done]. eauto.
    + rewrite Hperm. by apply files_of_NoDup.
    + by rewrite Hperm.
    + rewrite (total_size_perm _ _ Hperm). unfold total in *. lia.
    + lia.
    + rewrite (total_size_perm _ _ Hperm). unfold total in *. lia.
    + exists gone. split; [done|]. unfold pruned. simpl. rewrite !Z.add_0_l. by destruct (max <? _).
Qed.

Lemma PruneDir_safe_lemma max keep fs r fs' q :
  entries_ok fs d → PruneDir dir max keep fs = (r, fs') →
  nodes fs' !! q = nodes fs !! q ∨
  (nodes fs' !! q = None ∧ q ≠ resolve keep ∧ ∃ x c m, q = child d x ∧ nodes fs !! q = Some (File c m)).
Proof.
  intros Hok H. unfold PruneDir in H. destruct (max <=? 0); [injection H as _ <-; by left|].
  destruct (ReadDir dir fs) as [r1 fs1] eqn:E1.
  unfold ReadDir in E1. apply syscall_nodes in E1 as (Hn1 & E1);
    [|intros fs2 r2 fs2' H2; cbv zeta in H2; destruct (bool_decide _); by injection H2].
  destruct r1 as [e|entries]; [injection H as _ <-; rewrite Hn1; by left|].
  destruct E1 as [[e [=]]|(fs2 & Hn2 & E2)]. cbv zeta in E2.
  destruct (bool_decide _); [|unfold not_dir in E2; by destruct (node_at fs2 (resolve dir))].
  injection E2 as <- <-.
  assert (Hok2 : entries_ok fs2 d) by (intros x; rewrite Hn2; apply Hok).
  destruct (scan_entries _ _ _ _ fs2) as [r3 fs3] eqn:E3.
  apply (scan_entries_faults dir Hdir fs2) in E3 as (Hn3 & Hfiles);
    [|done|intros x Hx; by apply elem_of_dir_names|done].
  rewrite Hn2 in Hn3.
  destruct r3 as [[e total]|[total files]]; [injection H as _ <-; rewrite Hn3; by left|].
  destruct (total <=? max); [injection H as _ <-; rewrite Hn3; by left|].
  destruct (prune_files _ _ _ _ fs3) as [[res err] fs4] eqn:E4.
  assert (fs4 = fs') as -> by (destruct err; [|destruct (max <? _)]; by injection H as _ <-).
  clear H. rewrite <-Hn3. eapply prune_files_faults; [exact E4|].
  intros f Hf. rewrite merge_sort_Permutation in Hf.
  destruct (Hfiles _ _ eq_refl f Hf) as [?%elem_of_nil|(x & c & m & _ & Hx & ->)]; [done|].
  exists x. destruct (Hok2 x) as [Hord Hns]; [unfold d; by rewrite Hx|].
  split; [by apply resolve_Join|]. right. exists c, m. by rewrite Hn3, <-Hn2.
Qed.

End pruning.

(** Pruning removes the oldest files, no more than needed, and never the one to
    keep. Without failing calls, the files removed are the first ones in order of
    age (then of path) among the regular files of the directory other than the
    kept one; each of them was removed while the directory was above the cap; the
    result counts them; and the call fails exactly when the directory is still
    above the cap with every other file gone. *)
Theorem PruneDir_oldest_first dir max keep fs res err fs' :
  dir ≠ ""%string → faults fs = [] → node_at fs (resolve dir) = Some Dir → entries_ok fs (resolve dir) →
  0 < max → total_size (files_of dir fs) ≤ max_int64 →
  PruneDir dir max keep fs = ((res, err), fs') →
  ∃ files gone, files ≡ₚ files_of dir fs ∧ StronglySorted older files ∧
    gone `prefix_of` evictable keep files ∧
    (∀ g f rest, gone = g ++ f :: rest → max < total_size files - total_size g) ∧
    nodes fs' = delete_files gone (nodes fs) ∧
    res = mkPruneResult max (total_size files - total_size gone) (zlen gone) (total_size gone) ∧
    match err with
    | None => RemainingBytes res ≤ max
    | Some e => e = ErrOverCap (RemainingBytes res) max ∧ max < RemainingBytes res ∧
        gone = evictable keep files
    end.
Proof.
  intros Hdir Hf Hd Hok Hmax Htot H.
  destruct (PruneDir_lemma dir Hdir max keep fs Hf Hd Hok Hmax Htot) as (gone & [H1 H2 H3] & E).
  rewrite E in H. injection H as <- <- <-.
  exists (merge_sort older (files_of dir fs)), gone.
  assert (total_size (merge_sort older (files_of dir fs)) = total_size (files_of dir fs)) as ->
    by apply total_size_perm, merge_sort_Permutation.
  split_and!; try done.
  - apply merge_sort_Permutation.
  - apply StronglySorted_merge_sort; apply _.
  - simpl. destruct (Z.ltb_spec max (total_size (files_of dir fs) - total_size gone)); [|done].
    split_and!; [done|done|]. destruct H3; [lia|done].
Qed.

(** Pruning is safe whatever calls fail. Nothing but regular files directly in
    the directory disappears, never the file to keep, and nothing else changes. *)
Theorem PruneDir_safe dir max keep fs res err fs' q :
  dir ≠ ""%string → entries_ok fs (resolve dir) →
  PruneDir dir max keep fs = ((res, err), fs') →
  nodes fs' !! q = nodes fs !! q ∨
  (nodes fs' !! q = None ∧ q ≠ resolve keep ∧
   ∃ x c m, q = child (resolve dir) x ∧ nodes fs !! q = Some (File c m)).
Proof. intros Hdir Hok H. by eapply PruneDir_safe_lemma. Qed.
