(* ===== verification/UploadServe.v ===== *)
(** * UploadServe: what an upload leaves behind

    A stored upload is stored exactly; a refused one leaves the existing files and,
    unless a call fails, no trace. *)

From S2P Require Import Prelude Text FS Sha256 Upload UploadNames UploadProofs UploadTheorems.

#[local] Arguments resolve : simpl never.

Ltac status_ok :=
  solve [unfold StatusBadRequest, StatusRequestEntityTooLarge, StatusInternalServerError; lia].

(** ** Copying the body *)

(** The tree [m'] is [m] except at [t]. *)
Definition same_but (t : path) (m m' : gmap path node) : Prop := ∀ q, q ≠ t → m' !! q = m !! q.

Lemma same_but_refl t m : same_but t m m.
Proof. done. Qed.
Lemma same_but_trans t a b c : same_but t a b → same_but t b c → same_but t a c.
Proof. intros H1 H2 q Hq. by rewrite H2, H1. Qed.

Lemma FileWrite_inv t c m p fs n err fs' :
  nodes fs !! t = Some (File c m) → node_at fs t = nodes fs !! t →
  FileWrite t p fs = ((n, err), fs') →
  same_but t (nodes fs) (nodes fs') ∧ (faults fs = [] → faults fs' = []) ∧
  (∃ c' m', nodes fs' !! t = Some (File c' m')) ∧
  (err = None → ∃ m', nodes fs' !! t = Some (File (c ++ p) m')).
Proof.
  intros Ht Hat H. unfold FileWrite in H. destruct (next_fault fs) as [f fs1] eqn:E.
  pose proof (next_fault_nil _ _ _ E) as Hnil. apply next_fault_spec in E as (Hn & _ & _ & _).
  assert (node_at fs1 t = Some (File c m)) as Hat1.
  { rewrite (node_at_nodes _ fs) by done. congruence. }
  rewrite Hat1 in H.
  assert (∀ c' m', same_but t (nodes fs) (<[t := File c' m']> (nodes fs1))) as Hsame.
  { intros c' m' q Hq. by rewrite lookup_insert_ne, Hn. }
  destruct f as [f|]; injection H as _ <- <-; simpl; split_and!; auto.
  - intros Hf. by destruct (Hnil Hf).
  - rewrite lookup_insert_eq. by eexists _, _.
  - done.
  - intros Hf. by destruct (Hnil Hf) as [_ ->].
  - rewrite lookup_insert_eq. by eexists _, _.
  - intros _. rewrite lookup_insert_eq. by eexists.
Qed.

(** An entry of a directory is stored in the tree. *)
Lemma copy_body_inv d y chunks fin : ∀ limit sent fs c m r fs',
  nodes fs !! child d y = Some (File c m) →
  copy_body (child d y) chunks fin limit sent fs = (r, fs') →
  (∀ n, limit = Some n → 0 ≤ n) →
  same_but (child d y) (nodes fs) (nodes fs') ∧ (faults fs = [] → faults fs' = []) ∧
  (∃ c' m', nodes fs' !! child d y = Some (File c' m')) ∧
  (∀ sent', r = inr sent' → sent' = sent ++ concat chunks ∧ fin = BodyEOF ∧
     (∃ m', nodes fs' !! child d y = Some (File (c ++ concat chunks) m')) ∧
     ∀ n, limit = Some n → zlen (concat chunks) ≤ n).
Proof.
  induction chunks as [|p chunks IH]; intros limit sent fs c m r fs' Hc H Hlim; simpl in H.
  - injection H as <- <-. split_and!; [done|done|by eexists _, _|].
    intros sent' Hr. destruct fin; [|done]. injection Hr as <-. simpl. rewrite !app_nil_r.
    split_and!; [done|done|by eexists|]. intros n Hn. rewrite zlen_nil. auto.
  - set (over := match limit with Some n => n <? zlen p | None => false end) in *.
    set (p' := match limit with Some n => if over then take (Z.to_nat n) p else p | None => p end) in *.
    assert (Hw : ∃ n err fs1, (match p' with [] => ((0, None), fs) | _ => FileWrite (child d y) p' fs end)
        = ((n, err), fs1) ∧ same_but (child d y) (nodes fs) (nodes fs1) ∧
        (faults fs = [] → faults fs1 = []) ∧ (∃ c' m', nodes fs1 !! child d y = Some (File c' m')) ∧
        (err = None → ∃ m', nodes fs1 !! child d y = Some (File (c ++ p') m'))).
    { destruct p' as [|b p0].
      - eexists _, _, _. split; [done|]. rewrite app_nil_r.
        split_and!; [done|done|by eexists _, _|by eexists].
      - destruct (FileWrite (child d y) (b :: p0) fs) as [[n err] fs1] eqn:E. exists n, err, fs1.
        split; [done|]. eapply FileWrite_inv; [exact Hc|by rewrite node_at_child|exact E]. }
    destruct Hw as (n & err & fs1 & Hw & Hs1 & Hf1 & Hc1 & Hok). rewrite Hw in H. clear Hw.
    destruct err as [e|]; [injection H as <- <-; by split_and!|].
    destruct over eqn:Eover; [injection H as <- <-; by split_and!|].
    destruct Hok as [m1 Hm1]; [done|].
    assert (Hp' : p' = p) by (unfold p'; by destruct limit). rewrite Hp' in *. clear Hp'.
    destruct (IH _ _ _ _ _ _ _ Hm1 H) as (Hs2 & Hf2 & Hc2 & H2).
    { intros n' Hn'. destruct limit as [n0|]; [|done]. injection Hn' as <-.
      unfold over in Eover. apply Z.ltb_ge in Eover. lia. }
    split_and!; [by eapply same_but_trans|auto|done|]. intros sent' Hr.
    destruct (H2 sent' Hr) as (-> & -> & [m2 Hm2] & Hlen). simpl. rewrite <-!app_assoc in *.
    split_and!; [done|done|by exists m2|]. intros n' ->. rewrite zlen_app.
    specialize (Hlen _ eq_refl). lia.
Qed.

(** ** Removing the temporary file *)

Lemma cleanup_inv is_open t d y c m fs :
  resolve t = child d y → nodes fs !! child d y = Some (File c m) →
  let fs' := cleanup is_open true t fs in
  same_but (child d y) (nodes fs) (nodes fs') ∧
  (nodes fs' !! child d y = None ∨ nodes fs' !! child d y = Some (File c m) ∧ faults fs ≠ []) ∧
  (faults fs = [] → faults fs' = []).
Proof.
  intros Ht Hc. unfold cleanup.
  assert (Hclose : ∃ fs1, (if is_open then (FileClose fs).2 else fs) = fs1 ∧ nodes fs1 = nodes fs ∧
    (faults fs = [] → faults fs1 = [])).
  { destruct is_open; [|by exists fs]. destruct (FileClose fs) as [r fs1] eqn:E. exists fs1.
    split; [done|]. by eapply FileClose_nodes. }
  destruct Hclose as (fs1 & -> & Hn1 & Hf1). cbv zeta.
  destruct (Remove t fs1) as [r fs2] eqn:E. simpl.
  apply syscall_cases in E as (fs1' & Hn & Hf & [(e & -> & -> & Hne)|E]).
  - rewrite Hn, Hn1. split_and!; [done| |auto]. right. split; [done|]. auto.
  - cbv zeta in E. rewrite Ht, Hn, Hn1, Hc in E. injection E as _ <-. simpl. split_and!; [| |auto].
    + intros q Hq. by apply lookup_delete_ne.
    + left. apply lookup_delete_eq.
Qed.

(** ** Paths of an upload *)

(** Of the paths leading to an entry, only the last is an entry. *)
Lemma on_path_child (q : path) x y k :
  child q x = ((child q y).1, take k (child q y).2) → x = y.
Proof.
  intros Hk. destruct (decide (k ≤ length q.2)%nat) as [Hle|Hgt].
  - apply (f_equal (length ∘ snd)) in Hk. unfold child in Hk. simpl in Hk.
    rewrite length_take, !length_app in Hk. simpl in Hk. lia.
  - rewrite take_ge in Hk by (unfold child; simpl; rewrite length_app; simpl; lia).
    rewrite <-surjective_pairing in Hk. by apply child_inj in Hk.
Qed.

Section serve.
Context (h : Handler) (name : string).
Hypothesis (Hdir : h_Dir h ≠ ""%string) (Hname : safe_name name).

Let d : path := resolve (h_Dir h).
Let tmpDir : string := Join (h_Dir h) ".tmp".

Lemma resolve_tmpDir : resolve tmpDir = child d ".tmp".
Proof.
  apply resolve_Join; [done|by split_and!|]. intros Hin. by repeat (apply elem_of_cons in Hin as [?|Hin]; [done|]); apply elem_of_nil in Hin.
Qed.

Lemma resolve_target : resolve (Join (h_Dir h) name) = child d name.
Proof. by apply resolve_Join; [done|apply safe_name_ordinary..]. Qed.

Lemma tmpDir_not_empty : tmpDir ≠ ""%string.
Proof.
  intros H. assert (resolve tmpDir = resolve "") as E by (by rewrite H).
  rewrite resolve_tmpDir in E. apply (f_equal (length ∘ snd)) in E. simpl in E.
  unfold child in E. simpl in E. rewrite length_app in E. simpl in E. lia.
Qed.

Lemma temp_name_ok rnd : no_slash rnd → ordinary (name +:+ "." +:+ rnd) ∧ no_slash (name +:+ "." +:+ rnd).
Proof.
  intros Hr. destruct (safe_name_ordinary name Hname) as [(H1 & H2 & H3) Hs]. split.
  - assert (2 ≤ String.length (name +:+ "." +:+ rnd))%nat as Hl.
    { rewrite !string_length_app. simpl. destruct name; [done|simpl; lia]. }
    split_and!; [intros E; rewrite E in Hl; simpl in Hl; lia..|].
    intros E. apply H2. apply (f_equal bytes_of_string) in E. rewrite !bytes_of_string_app in E.
    apply (inj bytes_of_string). destruct (bytes_of_string name) as [|b [|b' l]] eqn:En.
    + destruct H1. apply (inj bytes_of_string). by rewrite En.
    + by injection E as -> _.
    + apply (f_equal length) in E. simpl in E. rewrite length_app in E. simpl in E. lia.
  - unfold no_slash. rewrite !bytes_of_string_app, !not_elem_of_app.
    split_and!; [done| |done]. intros ?%list_elem_of_singleton. done.
Qed.

Lemma CreateTemp_inv randoms fs r fs' :
  Forall no_slash randoms → CreateTemp tmpDir (name +:+ ".") randoms fs = (r, fs') →
  (faults fs = [] → faults fs' = []) ∧
  match r with
  | inl _ => nodes fs' = nodes fs
  | inr t => ∃ y m, resolve t = child (child d ".tmp") y ∧ nodes fs !! child (child d ".tmp") y = None ∧
      nodes fs' = <[child (child d ".tmp") y := File [] m]> (nodes fs)
  end.
Proof.
  intros Hrnd H. apply syscall_cases in H as (fs1 & Hn & Hf & [(e & -> & -> & _)|H]); [done|].
  cbv zeta in H. destruct (bool_decide _).
  - destruct (list_find _ _) as [[i t]|] eqn:E.
    + injection H as <- <-. split; [done|].
      apply list_find_Some in E as (Hi & Hnone & _).
      apply list_elem_of_lookup_2, list_elem_of_fmap in Hi as (rnd & -> & Hin).
      rewrite Forall_forall in Hrnd. destruct (temp_name_ok rnd (Hrnd _ Hin)) as [Ho Hs].
      assert (Hres : resolve (tmpDir +:+ "/" +:+ (name +:+ ".") +:+ rnd)
        = child (child d ".tmp") (name +:+ "." +:+ rnd)).
      { rewrite <-resolve_tmpDir, <-resolve_child; [|apply tmpDir_not_empty|done|done].
        f_equal. do 2 f_equal. apply (inj bytes_of_string). rewrite !bytes_of_string_app.
        by rewrite app_assoc. }
      exists (name +:+ "." +:+ rnd), (clock fs1). rewrite Hres in *.
      split; [done|]. simpl. rewrite Hn. split; [|done].
      rewrite node_at_child, Hn in Hnone. done.
    + injection H as <- <-. done.
  - unfold not_dir in H. destruct (node_at fs1 _); injection H as <- <-; done.
Qed.

Lemma Rename_inv t e y c m fs r fs' :
  resolve t = child e y → nodes fs !! child e y = Some (File c m) →
  Rename t (Join (h_Dir h) name) fs = (r, fs') →
  (faults fs = [] → faults fs' = []) ∧
  match r with
  | inl _ => nodes fs' = nodes fs
  | inr _ => nodes fs' = <[child d name := File c m]> (delete (child e y) (nodes fs)) ∧ node_at fs d = Some Dir
  end.
Proof.
  intros Ht Hc H. apply syscall_cases in H as (fs1 & Hn & Hf & [(er & -> & -> & _)|H]); [done|].
  cbv zeta in H. rewrite Ht, Hn, Hc, resolve_target, parent_of_child in H.
  destruct (bool_decide _); [injection H as <- <-; done|].
  destruct (bool_decide (node_at fs1 d = Some Dir)) eqn:Ed; simpl in H.
  - injection H as <- <-. apply bool_decide_eq_true in Ed. rewrite (node_at_nodes _ fs) in Ed by done.
    by rewrite ?Hn.
  - unfold not_dir in H. destruct (node_at fs1 _); injection H as <- <-; done.
Qed.

(** ** Entries of the upload directory *)

Lemma child_not_on_path q x k : child q x ≠ (q.1, take k q.2).
Proof.
  intros H. apply (f_equal (length ∘ snd)) in H. simpl in H. unfold child in H. simpl in H.
  rewrite length_app, length_take in H. simpl in H. lia.
Qed.

Lemma MkdirAll_entries_ok s fs r fs' :
  (s = h_Dir h ∨ s = tmpDir) → MkdirAll s fs = (r, fs') → entries_ok fs d → entries_ok fs' d.
Proof.
  intros Hs H Hok x Hx. destruct (decide (x = ".tmp"%string)) as [->|Hne].
  { split; [by split_and!|]. intros Hin.
    by repeat (apply elem_of_cons in Hin as [?|Hin]; [done|]); apply elem_of_nil in Hin. }
  apply Hok. rewrite <-(MkdirAll_on_path s fs r fs' _ H); [done|]. intros k Hk.
  destruct Hs as [-> | ->]; [by apply child_not_on_path in Hk|].
  rewrite resolve_tmpDir in Hk. by apply on_path_child in Hk.
Qed.

Lemma child_child_ne e y x : child (child d e) y ≠ child d x.
Proof.
  intros H. apply (f_equal (length ∘ snd)) in H. unfold child in H. simpl in H.
  rewrite !length_app in H. simpl in H. lia.
Qed.

(** ** After the temporary file has been made *)

(** Only directories have been added, and after failing calls the temporary file. *)
Definition no_trace (fs fs' : FS) : Prop :=
  ∀ q, nodes fs' !! q = nodes fs !! q ∨
    (nodes fs !! q = None ∧
     (nodes fs' !! q = Some Dir ∨ (faults fs ≠ [] ∧ ∃ y, q = child (child d ".tmp") y))).

Lemma no_trace_grows fs fs' : grows fs fs' → no_trace fs fs'.
Proof. intros [H _] q. destruct (H q) as [?|[? ?]]; [by left|right; eauto]. Qed.

(** What a refusal leaves. *)
Record refused (fs fs' : FS) : Prop := {
  refused_no_trace : no_trace fs fs';
  refused_entries : entries_ok fs' d;
  refused_faults : faults fs = [] → faults fs' = [];
}.

Lemma refused_grows fs fs' : grows fs fs' → entries_ok fs' d → refused fs fs'.
Proof. intros Hg. split; [by apply no_trace_grows|done|apply Hg]. Qed.

Lemma entries_ok_same_but e y fs fs' :
  entries_ok fs d → same_but (child (child d e) y) (nodes fs) (nodes fs') → entries_ok fs' d.
Proof. intros Hok Hs x Hx. apply Hok. by rewrite <-Hs by apply not_eq_sym, child_child_ne. Qed.

(** Removing the temporary file, in a state that differs from [fs1] in it only. *)
Lemma cleanup_refused is_open t y c m fs0 fs1 fs2 :
  resolve t = child (child d ".tmp") y → grows fs0 fs1 → entries_ok fs1 d →
  nodes fs1 !! child (child d ".tmp") y = None →
  same_but (child (child d ".tmp") y) (nodes fs1) (nodes fs2) →
  nodes fs2 !! child (child d ".tmp") y = Some (File c m) → (faults fs1 = [] → faults fs2 = []) →
  refused fs0 (cleanup is_open true t fs2).
Proof.
  intros Ht [Hg Hgf] Hok Hnone Hsame Hc Hf.
  destruct (cleanup_inv is_open t _ y c m fs2 Ht Hc) as (Hs & Ht2 & Hcf). cbv zeta in *.
  assert (H0 : nodes fs0 !! child (child d ".tmp") y = None).
  { destruct (Hg (child (child d ".tmp") y)) as [?|[? _]]; congruence. }
  split; [intros q|by eapply entries_ok_same_but, same_but_trans|auto].
  destruct (decide (q = child (child d ".tmp") y)) as [->|Hne].
  - destruct Ht2 as [Ht2|[_ Hne]]; [left; congruence|]. right. split; [done|]. right.
    split; [auto|by exists y].
  - rewrite Hs, Hsame by done. destruct (Hg q) as [?|[? ?]]; [by left|right; eauto].
Qed.

(** What storing leaves: the file under its name, and nothing else new in the
    directory but subdirectories. *)
Record stored_as (r : Request) (elapsed : Z) (fs fs' : FS) (target : string) (resp : Response) : Prop := {
  stored_target : target = Join (h_Dir h) name;
  stored_resp : resp = mkResponse (zlen (concat (rq_chunks r))) (EncodeToString (sha256 (concat (rq_chunks r)))) elapsed;
  stored_end : rq_end r = BodyEOF;
  stored_file : ∃ m, nodes fs' !! child d name = Some (File (concat (rq_chunks r)) m);
  stored_limit : 0 < MaxStorageBytes h → zlen (concat (rq_chunks r)) ≤ MaxStorageBytes h;
  stored_entries : entries_ok fs' d;
  stored_dir : node_at fs' d = Some Dir;
  stored_others x : x ≠ name → nodes fs' !! child d x = nodes fs !! child d x ∨
    (nodes fs !! child d x = None ∧ nodes fs' !! child d x = Some Dir);
  stored_faults : faults fs = [] → faults fs' = [];
}.

(** The temporary file becomes the stored one. *)
Lemma rename_stored y c m fs0 fs1 fs2 fs3 :
  grows fs0 fs1 → entries_ok fs1 d →
  same_but (child (child d ".tmp") y) (nodes fs1) (nodes fs2) → node_at fs2 d = Some Dir →
  nodes fs3 = <[child d name := File c m]> (delete (child (child d ".tmp") y) (nodes fs2)) →
  entries_ok fs3 d ∧ node_at fs3 d = Some Dir ∧
  ∀ x, x ≠ name → nodes fs3 !! child d x = nodes fs0 !! child d x ∨
    (nodes fs0 !! child d x = None ∧ nodes fs3 !! child d x = Some Dir).
Proof.
  intros [Hg _] Hok Hs Hd Hn.
  assert (∀ x, x ≠ name → nodes fs3 !! child d x = nodes fs1 !! child d x) as Hx.
  { intros x Hx. rewrite Hn, lookup_insert_ne by (intros E; by apply child_inj in E).
    rewrite lookup_delete_ne, Hs by first [apply child_child_ne|apply not_eq_sym, child_child_ne]. done. }
  split_and!.
  - intros x Hne. destruct (decide (x = name)) as [->|Hxn]; [by apply safe_name_ordinary|].
    apply Hok. by rewrite <-Hx.
  - unfold node_at in *. destruct d as [b [|s segs]] eqn:Ed; [done|]. rewrite Hn, lookup_insert_ne by apply child_ne.
    rewrite lookup_delete_ne; [done|]. intros E. apply (f_equal (length ∘ snd)) in E. unfold child in E. simpl in E.
    rewrite !length_app in E. simpl in E. lia.
  - intros x Hne. rewrite Hx by done. apply Hg.
Qed.

(** What [store] gives: a refusal, or the stored file. *)
Definition store_result (r : Request) (elapsed : Z) (fs fs' : FS) (res : reply + string * Response) : Prop :=
  match res with
  | inl rep => ∃ status e, rep = (status, inl e) ∧ 400 ≤ status ∧ (∀ pe, e ≠ ErrPrune pe) ∧ refused fs fs'
  | inr (target, resp) => stored_as r elapsed fs fs' target resp
  end.

Lemma store_fails r elapsed fs fs1 status e res fs' :
  (inl (status, inl e), fs1) = (res, fs') → 400 ≤ status → (∀ pe, e ≠ ErrPrune pe) → refused fs fs1 →
  store_result r elapsed fs fs' res.
Proof. intros [= <- <-] Hst Hpe Href. eexists _, _. by eauto. Qed.

(** [store] from the creation of the temporary file on. *)
Definition receive (r : Request) (elapsed : Z) (target tmpPath : string) (fs : FS)
    : (reply + string * Response) * FS :=
  let fail status e fs := (inl (status, inl e), fs) in
  let limit := if 0 <? MaxStorageBytes h then Some (MaxStorageBytes h) else None in
  match copy_body (resolve tmpPath) (rq_chunks r) (rq_end r) limit [] fs with
  | (inl MaxBytesError, fs) =>
      fail StatusRequestEntityTooLarge ErrExceedsCap (cleanup true true tmpPath fs)
  | (inl e, fs) =>
      fail StatusBadRequest (ErrStreamBody e) (cleanup true true tmpPath fs)
  | (inr sent, fs) =>
      match FileClose fs with
      | (inl e, fs) =>
          fail StatusInternalServerError (ErrCloseTemp e) (cleanup false true tmpPath fs)
      | (inr _, fs) =>
          match Rename tmpPath target fs with
          | (inl e, fs) =>
              fail StatusInternalServerError (ErrPersist e) (cleanup false true tmpPath fs)
          | (inr _, fs) =>
              (inr (target, mkResponse (zlen sent) (EncodeToString (sha256 sent)) elapsed), fs)
          end
      end
  end.

Lemma receive_spec r elapsed t y m0 fs fs2 fs3 res fs' (tp := child (child d ".tmp") y) :
  grows fs fs2 → entries_ok fs2 d → resolve t = tp → nodes fs2 !! tp = None →
  nodes fs3 = <[tp := File [] m0]> (nodes fs2) → (faults fs2 = [] → faults fs3 = []) →
  receive r elapsed (Join (h_Dir h) name) t fs3 = (res, fs') → store_result r elapsed fs fs' res.
Proof.
  intros Hg Hok2 Ht Hnone Hn3 Hf3 H. unfold receive in H. cbv zeta in H.
  assert (Hc3 : nodes fs3 !! tp = Some (File [] m0)) by (rewrite Hn3; apply lookup_insert_eq).
  assert (Hs3 : same_but tp (nodes fs2) (nodes fs3)) by (intros q Hq; rewrite Hn3; by apply lookup_insert_ne).
  rewrite Ht in H. destruct (copy_body tp _ _ _ [] fs3) as [r4 fs4] eqn:E4.
  apply (copy_body_inv _ _ _ _ _ _ _ _ _ _ _ Hc3) in E4 as (Hs4 & Hf4 & (c4 & m4 & Hc4) & Hcopy);
    [|intros lim; destruct (Z.ltb_spec 0 (MaxStorageBytes h)); [intros [= <-]; lia|done]].
  assert (Hclean : ∀ is_open fs5 c m, nodes fs5 !! tp = Some (File c m) → same_but tp (nodes fs4) (nodes fs5) →
    (faults fs4 = [] → faults fs5 = []) → refused fs (cleanup is_open true t fs5)).
  { intros is_open fs5 c m Hc5 Hs5 Hf5. eapply cleanup_refused; eauto.
    eapply same_but_trans; [exact Hs3|]. by eapply same_but_trans. }
  destruct r4 as [e|sent].
  { destruct e; (eapply store_fails; [exact H|status_ok|done|exact (Hclean _ _ _ _ Hc4 (same_but_refl _ _) id)]). }
  destruct (Hcopy sent eq_refl) as (-> & Hend & [m5 Hm5] & Hlim). rewrite app_nil_l in Hm5. rewrite !app_nil_l in H. clear Hcopy.
  destruct (FileClose fs4) as [r5 fs5] eqn:E5. apply FileClose_nodes in E5 as [Hn5 Hf5].
  assert (Hc5 : nodes fs5 !! tp = Some (File (concat (rq_chunks r)) m5)) by (rewrite Hn5; exact Hm5).
  assert (Hs5 : same_but tp (nodes fs4) (nodes fs5)) by (intros q _; by rewrite Hn5).
  destruct r5; [eapply store_fails; [exact H|status_ok|done|exact (Hclean _ _ _ _ Hc5 Hs5 Hf5)]|].
  destruct (Rename t _ fs5) as [r6 fs6] eqn:E6.
  apply (Rename_inv _ _ _ _ _ _ _ _ Ht Hc5) in E6 as [Hf6 E6].
  destruct r6.
  { eapply store_fails; [exact H|status_ok|done|]. eapply Hclean; [by rewrite E6| |auto].
    intros q Hq. rewrite E6. by apply Hs5. }
  destruct E6 as [E6 Hd5]. injection H as <- <-.
  assert (Hs25 : same_but tp (nodes fs2) (nodes fs5)).
  { eapply same_but_trans; [exact Hs3|]. by eapply same_but_trans. }
  destruct (rename_stored _ _ _ _ _ _ _ Hg Hok2 Hs25 Hd5 E6) as (Hok6 & Hd6 & Ho6). destruct Hg as [_ Hgf].
  split; try done; [exists m5; rewrite E6; apply lookup_insert_eq| |auto 10].
  intros Hpos. apply Hlim. by destruct (Z.ltb_spec 0 (MaxStorageBytes h)); [|lia].
Qed.

Lemma store_spec r randoms elapsed fs res fs' :
  sanitizeFilename (rq_name r) = inr name → Forall no_slash randoms → entries_ok fs d →
  store h r randoms elapsed fs = (res, fs') → store_result r elapsed fs fs' res.
Proof.
  intros Hsan Hrnd Hok H. unfold store in H.
  destruct (String.eqb_spec (h_Dir h) ""); [done|].
  cbv zeta in H. destruct (_ && _).
  { eapply store_fails; [exact H|status_ok|done|]. by apply refused_grows; [apply grows_refl|]. }
  rewrite Hsan in H.
  destruct (MkdirAll (h_Dir h) fs) as [r1 fs1] eqn:E1.
  pose proof (MkdirAll_entries_ok _ _ _ _ (or_introl eq_refl) E1 Hok) as Hok1.
  apply MkdirAll_grows in E1.
  destruct r1; [eapply store_fails; [exact H|status_ok|done|by apply refused_grows]|].
  change (Join (h_Dir h) ".tmp") with tmpDir in H.
  destruct (MkdirAll tmpDir fs1) as [r2 fs2] eqn:E2.
  pose proof (MkdirAll_entries_ok _ _ _ _ (or_intror eq_refl) E2 Hok1) as Hok2.
  apply MkdirAll_grows in E2. assert (Hg : grows fs fs2) by (by eapply grows_trans).
  destruct r2; [eapply store_fails; [exact H|status_ok|done|by apply refused_grows]|].
  destruct (CreateTemp tmpDir _ _ fs2) as [r3 fs3] eqn:E3.
  apply CreateTemp_inv in E3 as [Hf3 E3]; [|done].
  destruct r3 as [e|t].
  { eapply store_fails; [exact H|status_ok|done|]. apply refused_grows.
    - eapply grows_trans; [exact Hg|]. by apply grows_refl.
    - intros x. rewrite E3. apply Hok2. }
  destruct E3 as (y & m0 & Ht & Hnone & Hn3). by eapply (receive_spec r elapsed t y m0 fs fs2 fs3).
Qed.

Lemma finish_upload r randoms elapsed fs rep stored fs' :
  sanitizeFilename (rq_name r) = inr name → Forall no_slash randoms → entries_ok fs d →
  ServeHTTP h r randoms elapsed fs = (rep, stored, fs') →
  (∃ status e, rep = (status, inl e) ∧ stored = [] ∧ 400 ≤ status ∧
     (no_trace fs fs' ∨ ∃ pe, e = ErrPrune pe)) ∨
  (∃ resp m, rep = (StatusOK, inr resp) ∧ stored = [resp] ∧ rq_end r = BodyEOF ∧
     let body := concat (rq_chunks r) in
     resp = mkResponse (zlen body) (EncodeToString (sha256 body)) elapsed ∧
     nodes fs' !! child d name = Some (File body m) ∧
     (0 < MaxStorageBytes h → zlen body ≤ MaxStorageBytes h)).
Proof.
  intros Hsan Hrnd Hok H. unfold ServeHTTP in H.
  destruct (store h r randoms elapsed fs) as [[rep'|[target resp]] fs1] eqn:E;
    apply (store_spec _ _ _ _ _ _ Hsan Hrnd Hok) in E.
  { destruct E as (status & e & -> & Hst & _ & Href). injection H as <- <- <-. left. eexists _, _.
    split_and!; [done|done|done|left; apply Href]. }
  destruct E as [-> -> Hend [m Hm] Hlim Hok1 _ _ _]. unfold finish in H.
  destruct (0 <? MaxStorageBytes h).
  - destruct (PruneDir _ _ _ fs1) as [[res err] fs2] eqn:E2. destruct err as [pe|].
    { left. injection H as <- <- <-. eexists _, _. split_and!; [done|done|status_ok|by right; eexists]. }
    right. injection H as <- <- <-. eexists _, m. split_and!; [done..|]. cbv zeta. split_and!; [done| |done].
    destruct (PruneDir_safe_lemma _ Hdir _ _ _ _ _ (child d name) Hok1 E2) as [->|(_ & Hk & _)]; [exact Hm|].
    destruct Hk. symmetry. apply resolve_target.
  - right. injection H as <- <- <-. eexists _, m. by split_and!.
Qed.

End serve.

(** A request is refused at once, or the handler is configured and its name is good. *)
Lemma store_checks h r randoms elapsed fs res fs' :
  store h r randoms elapsed fs = (res, fs') →
  (fs' = fs ∧ ∃ status e, res = inl (status, inl e) ∧ 400 ≤ status ∧ ∀ pe, e ≠ ErrPrune pe) ∨
  (h_Dir h ≠ ""%string ∧ ∃ name, sanitizeFilename (rq_name r) = inr name ∧ safe_name name).
Proof.
  unfold store. intros H. cbv zeta in H.
  assert (Hnow : ∀ status e, (inl (status, inl e), fs) = (res, fs') → 400 ≤ status → (∀ pe, e ≠ ErrPrune pe) →
    fs' = fs ∧ ∃ status e, res = inl (status, inl e) ∧ 400 ≤ status ∧ ∀ pe, e ≠ ErrPrune pe).
  { intros status e [= <- <-] ??. split; [done|]. by eexists _, _. }
  destruct (String.eqb_spec (h_Dir h) ""); [left; eapply Hnow; [exact H|status_ok|done]|].
  destruct (_ && _); [left; eapply Hnow; [exact H|status_ok|done]|].
  destruct (sanitizeFilename (rq_name r)) as [|name] eqn:Hsan; [left; eapply Hnow; [exact H|status_ok|done]|].
  right. split; [done|]. exists name. split; [done|]. apply (sanitizeFilename_inv _ _ Hsan).
Qed.

(** The status tells the two kinds of answers apart. *)
Lemma ServeHTTP_status h r randoms elapsed fs status ans stored fs' :
  ServeHTTP h r randoms elapsed fs = ((status, ans), stored, fs') →
  match ans with inl _ => status ≠ StatusOK | inr _ => status = StatusOK end.
Proof. unfold ServeHTTP, store, finish. intros H. repeat case_match; simplify_eq; done. Qed.

Lemma upload_stored_lemma h r randoms elapsed fs resp stored fs' :
  Forall no_slash randoms → entries_ok fs (resolve (h_Dir h)) →
  ServeHTTP h r randoms elapsed fs = ((StatusOK, inr resp), stored, fs') →
  ∃ name m, sanitizeFilename (rq_name r) = inr name ∧ rq_end r = BodyEOF ∧ stored = [resp] ∧
    let body := concat (rq_chunks r) in
    resp = mkResponse (zlen body) (EncodeToString (sha256 body)) elapsed ∧
    nodes fs' !! child (resolve (h_Dir h)) name = Some (File body m) ∧
    (0 < MaxStorageBytes h → zlen body ≤ MaxStorageBytes h).
Proof.
  intros Hrnd Hok H.
  destruct (store h r randoms elapsed fs) as [res fs1] eqn:E.
  destruct (store_checks _ _ _ _ _ _ _ E) as [(-> & status & e & -> & _)|(Hdir & name & Hsan & Hname)];
    [unfold ServeHTTP in H; by rewrite E in H|].
  destruct (finish_upload h name Hdir Hname r randoms elapsed fs _ _ _ Hsan Hrnd Hok H)
    as [(? & ? & [=] & _)|(resp' & m & [= <-] & -> & He & Hr & Hn & Hl)].
  exists name, m. by split_and!.
Qed.

(** C29: an upload that is acknowledged is stored exactly. Whatever calls fail, an
    answer with status 200 means that the whole body was received, within the
    storage cap if there is one; that the file under the sanitized name now holds
    just the bytes of the body, even after pruning; and that the answer, which
    OnStored also gets, has its length and SHA-256. *)
Theorem upload_stored h r randoms elapsed fs resp stored fs' :
  Forall no_slash randoms → entries_ok fs (resolve (h_Dir h)) →
  ServeHTTP h r randoms elapsed fs = ((StatusOK, inr resp), stored, fs') →
  ∃ name m, sanitizeFilename (rq_name r) = inr name ∧ rq_end r = BodyEOF ∧ stored = [resp] ∧
    let body := concat (rq_chunks r) in
    resp = mkResponse (zlen body) (EncodeToString (sha256 body)) elapsed ∧
    nodes fs' !! child (resolve (h_Dir h)) name = Some (File body m) ∧
    (0 < MaxStorageBytes h → zlen body ≤ MaxStorageBytes h).
Proof. apply upload_stored_lemma. Qed.

(** A refused upload leaves no trace. When the answer is an error other than a
    failed pruning, OnStored is not called and no file that existed is changed or
    removed; the only additions are directories, and, if some call failed, the
    temporary file it kept from being removed. *)
Theorem upload_refused h r randoms elapsed fs status e stored fs' :
  Forall no_slash randoms → entries_ok fs (resolve (h_Dir h)) →
  ServeHTTP h r randoms elapsed fs = ((status, inl e), stored, fs') →
  (∀ pe, e ≠ ErrPrune pe) →
  400 ≤ status ∧ stored = [] ∧
  ∀ q, nodes fs' !! q = nodes fs !! q ∨
    (nodes fs !! q = None ∧
     (nodes fs' !! q = Some Dir ∨
      (faults fs ≠ [] ∧ ∃ y, q = child (child (resolve (h_Dir h)) ".tmp") y))).
Proof.
  intros Hrnd Hok H Hpe.
  destruct (store h r randoms elapsed fs) as [res fs1] eqn:E.
  destruct (store_checks _ _ _ _ _ _ _ E) as [(-> & status' & e' & -> & Hst & _)|(Hdir & name & Hsan & Hname)].
  { unfold ServeHTTP in H. rewrite E in H. injection H as <- _ <- <-. split_and!; [done|done|].
    by apply (no_trace_grows h), grows_refl. }
  destruct (finish_upload h name Hdir Hname r randoms elapsed fs _ _ _ Hsan Hrnd Hok H)
    as [(? & ? & [= <- <-] & -> & Hst & [Hnt|[pe ->]])|(? & ? & [=] & _)]; [done|by destruct (Hpe pe)].
Qed.

(** ** Witnesses *)

Definition up_dir : path := (false, ["up"%string]).
Definition old_content : list byte := bytes_of_string "0123456789".
Definition up_fs (fl : list (option fault)) : FS :=
  mkFS (<[up_dir := Dir]> {[child up_dir "old" := File old_content 5]}) 7 fl.
Definition up_handler (max : Z) : Handler := mkHandler "up" max.
Definition up_request : Request :=
  mkRequest " a b " 3 [bytes_of_string "ab"; bytes_of_string "c"] BodyEOF.

Lemma up_entries fl : entries_ok (up_fs fl) (resolve "up").
Proof.
  intros x Hx. change (resolve "up") with up_dir in Hx. unfold up_fs in Hx. cbn [nodes] in Hx.
  rewrite lookup_insert_ne in Hx by (intros E; symmetry in E; by apply child_ne in E).
  destruct (decide (x = "old"%string)) as [->|Hne].
  - split; [by split_and!|]. intros Hin.
    by repeat (apply elem_of_cons in Hin as [?|Hin]; [done|]); apply elem_of_nil in Hin.
  - rewrite lookup_singleton_ne in Hx; [done|]. intros E. by apply child_inj in E.
Qed.

Lemma digits_no_slash : Forall no_slash ["123"%string].
Proof.
  repeat constructor. intros Hin.
  by repeat (apply elem_of_cons in Hin as [?|Hin]; [done|]); apply elem_of_nil in Hin.
Qed.

Lemma upload_stored_witness :
  let fs' := (ServeHTTP (up_handler 12) up_request ["123"%string] 9 (up_fs [])).2 in
  (∃ m, nodes fs' !! child up_dir "a_b" = Some (File (bytes_of_string "abc") m)) ∧
  nodes fs' !! child up_dir "old" = None.
Proof.
  intros fs'. split; [|vm_compute; reflexivity].
  destruct (upload_stored (up_handler 12) up_request ["123"%string] 9 (up_fs [])
    (mkResponse 3 "ba7816bf8f01cfea414140de5dae2223b00361a396177a9cb410ff61f20015ad" 9)
    [mkResponse 3 "ba7816bf8f01cfea414140de5dae2223b00361a396177a9cb410ff61f20015ad" 9] fs')
    as (name & m & Hname & _ & _ & _ & Hm & _);
    [exact digits_no_slash|exact (up_entries [])|vm_compute; reflexivity|].
  vm_compute in Hname. injection Hname as <-. exists m. exact Hm.
Defined.

(** A body that breaks off, while the call that removes the temporary file works. *)
Definition broken_request : Request :=
  mkRequest "old" 3 [bytes_of_string "ab"] (BodyError 104).

Lemma upload_refused_witness :
  let fs' := (ServeHTTP (up_handler 12) broken_request ["123"%string] 9 (up_fs [])).2 in
  400 ≤ 400 ∧ nodes fs' !! child up_dir "old" = Some (File old_content 5).
Proof.
  intros fs'.
  destruct (upload_refused (up_handler 12) broken_request ["123"%string] 9 (up_fs []) 400
    (ErrStreamBody (ErrBody 104)) [] fs') as (H1 & _ & H2);
    [exact digits_no_slash|exact (up_entries [])|vm_compute; reflexivity|intros pe; discriminate|].
  split; [exact H1|].
  destruct (H2 (child up_dir "old")) as [H|[H _]]; [rewrite H; vm_compute; reflexivity|].
  vm_compute in H. discriminate.
Defined.

Lemma PruneDir_oldest_first_witness :
  PruneDir "up" 5 "up/new" (up_fs []) = ((mkPruneResult 5 0 1 10, None), (PruneDir "up" 5 "up/new" (up_fs [])).2) ∧
  nodes (PruneDir "up" 5 "up/new" (up_fs [])).2 !! child up_dir "old" = None ∧
  ∃ files gone, files ≡ₚ files_of "up" (up_fs []) ∧ gone `prefix_of` evictable "up/new" files.
Proof.
  split; [vm_compute; reflexivity|]. split; [vm_compute; reflexivity|].
  destruct (PruneDir_oldest_first "up" 5 "up/new" (up_fs []) (mkPruneResult 5 0 1 10) None
    (PruneDir "up" 5 "up/new" (up_fs [])).2) as (files & gone & H1 & _ & H2 & _);
    [done|reflexivity|vm_compute; reflexivity|exact (up_entries [])|lia|
     vm_compute; discriminate|vm_compute; reflexivity|].
  exists files, gone. split; [exact H1|exact H2].
Defined.

(** The file to keep stays. *)
Definition up_faults : list (option fault) := [None; None; Some (mkFault (ErrOther 13) 0)].
Lemma PruneDir_safe_witness :
  let fs' := (PruneDir "up" 5 "up/old" (up_fs up_faults)).2 in
  nodes fs' !! child up_dir "old" = Some (File old_content 5).
Proof.
  intros fs'.
  destruct (PruneDir_safe "up" 5 "up/old" (up_fs up_faults) (PruneDir "up" 5 "up/old" (up_fs up_faults)).1.1
    (PruneDir "up" 5 "up/old" (up_fs up_faults)).1.2 fs' (child up_dir "old")) as [H|(_ & H & _)];
    [done|exact (up_entries up_faults)|vm_compute; reflexivity|rewrite H; vm_compute; reflexivity|].
  destruct H. vm_compute. reflexivity.
Defined.
