(* ===== verification/Addr.v ===== *)
(** * Addr: the addresses of the proxy ([internal/proxy/proxy.go])

    What the proxy uses of [net] and [net/netip]: UDP addresses, the comparable
    [netip.AddrPort] that keys its sessions and its text form, and the seed that is
    derived from that text for the two pipelines of a session. *)

From S2P Require Import Prelude Text.

#[global] Instance byte_countable : Countable byte :=
  inj_countable Byte.to_N Byte.of_N Byte.of_to_N.

(** ** [net.UDPAddr] and [netip.AddrPort] *)

Record UDPAddr := mkUDPAddr { IP : list byte; Port : Z; Zone : string }.

(** A [netip.Addr]: four bytes, or sixteen with a zone that may be empty. *)
Inductive Addr :=
| Addr4 (b : list byte)
| Addr6 (b : list byte) (zone : string).

Record AddrPort := mkAddrPort { addr : Addr; port : Z }.

#[global] Instance Addr_eq_dec : EqDecision Addr.
Proof. solve_decision. Defined.
#[global] Instance AddrPort_eq_dec : EqDecision AddrPort.
Proof. solve_decision. Defined.

#[global] Instance Addr_countable : Countable Addr :=
  inj_countable'
    (λ a, match a with Addr4 b => inl b | Addr6 b z => inr (b, z) end)
    (λ x, match x with inl b => Addr4 b | inr (b, z) => Addr6 b z end)
    (λ a, match a with Addr4 _ => eq_refl | Addr6 _ _ => eq_refl end).
#[global] Instance AddrPort_countable : Countable AddrPort :=
  inj_countable' (λ a, (addr a, port a)) (λ x, mkAddrPort x.1 x.2)
    (λ a, match a with mkAddrPort _ _ => eq_refl end).

Definition AddrFromSlice (b : list byte) : option Addr :=
  if zlen b =? 4 then Some (Addr4 b)
  else if zlen b =? 16 then Some (Addr6 b "")
  else None.

(** IPv4 addresses have no zone. *)
Definition WithZone (a : Addr) (zone : string) : Addr :=
  match a with
  | Addr4 b => Addr4 b
  | Addr6 b _ => Addr6 b zone
  end.

(** The prefix of the IPv4-mapped IPv6 addresses, ::ffff:0:0/96. *)
Definition v4_mapped : list byte := replicate 10 x00 ++ [xff; xff].

Definition Is4In6 (a : Addr) : bool :=
  match a with
  | Addr4 _ => false
  | Addr6 b _ => bool_decide (take 12 b = v4_mapped)
  end.

Definition Unmap (a : Addr) : Addr :=
  match a with
  | Addr4 b => Addr4 b
  | Addr6 b _ => if Is4In6 a then Addr4 (drop 12 b) else a
  end.

(** Both errors of [udpAddrToAddrPort]. *)
Inductive addr_error :=
| ErrNilUDPAddr
| ErrInvalidIP (ip : list byte).

(** A nil pointer is [None]. *)
Definition udpAddrToAddrPort (a : option UDPAddr) : outcome addr_error AddrPort :=
  match a with
  | None => Err ErrNilUDPAddr
  | Some a =>
      match AddrFromSlice (IP a) with
      | None => Err (ErrInvalidIP (IP a))
      | Some ip =>
          let ip := if bool_decide (Zone a ≠ ""%string) then WithZone ip (Zone a) else ip in
          Ok (mkAddrPort (Unmap ip) (wrapu16 (Port a)))
      end
  end.

(** [make] and [copy]: the bytes of the clone are the bytes of the original. *)
Definition make_copy (src : list byte) : list byte :=
  let dst := replicate (length src) x00 in
  take (length dst) src ++ drop (length src) dst.

Definition cloneUDPAddr (a : option UDPAddr) : option UDPAddr :=
  match a with
  | None => None
  | Some a => Some (mkUDPAddr (make_copy (IP a)) (Port a) (Zone a))
  end.

Definition copyPacket (src : list byte) : list byte := make_copy src.

(** ** [AddrPort.String] *)

(** The 16-bit groups of an IPv6 address. *)
Fixpoint groups (b : list byte) : list Z :=
  match b with
  | hi :: lo :: b => (256 * byte_Z hi + byte_Z lo) :: groups b
  | _ => []
  end.

Fixpoint zeros (gs : list Z) : nat :=
  match gs with
  | g :: gs => if g =? 0 then S (zeros gs) else O
  | [] => O
  end.

(** The first longest run of at least two zero groups, as start and length: the
    loop of [appendTo6] over the start [i], with the best run so far. *)
Fixpoint zero_run (i : nat) (gs : list Z) (best : nat * nat) : nat * nat :=
  match gs with
  | [] => best
  | _ :: gs' =>
      let l := zeros gs in
      zero_run (S i) gs' (if (2 <=? l)%nat && (best.2 <? l)%nat then (i, l) else best)
  end.

Definition hex_digit (n : Z) : byte :=
  default x00 (Byte.of_N (Z.to_N (if n <? 10 then 48 + n else 87 + n))).

(** [appendHex]: lower case, without leading zeros. *)
Definition appendHex (g : Z) : list byte :=
  (if 0x1000 <=? g then [hex_digit (g / 0x1000)] else []) ++
  (if 0x100 <=? g then [hex_digit ((g / 0x100) `mod` 16)] else []) ++
  (if 0x10 <=? g then [hex_digit ((g / 0x10) `mod` 16)] else []) ++
  [hex_digit (g `mod` 16)].

Definition colon : byte := x3a.

(** The groups from index [i] on; [skip] groups of a run are still to be passed. *)
Fixpoint groups_text (run : nat * nat) (i skip : nat) (gs : list Z) : list byte :=
  match gs with
  | [] => []
  | g :: gs =>
      match skip with
      | S skip => groups_text run (S i) skip gs
      | O =>
          if (0 <? run.2)%nat && (i =? run.1)%nat then
            [colon; colon] ++ groups_text run (S i) (run.2 - 1) gs
          else
            (if (0 <? i)%nat && negb ((0 <? run.2)%nat && (i =? run.1 + run.2)%nat)
             then [colon] else []) ++ appendHex g ++ groups_text run (S i) O gs
      end
  end.

Definition Addr_bytes (a : Addr) : list byte :=
  match a with
  | Addr4 b => join_with x2e (map (λ x, bytes_of_string (pretty (byte_Z x))) b)
  | Addr6 b zone =>
      let gs := groups b in
      groups_text (zero_run 0 gs (0, 0)%nat) 0 0 gs ++
      (if bool_decide (zone = ""%string) then [] else x25 :: bytes_of_string zone)
  end.

Definition AddrPort_bytes (a : AddrPort) : list byte :=
  match addr a with
  | Addr4 _ => Addr_bytes (addr a)
  | Addr6 _ _ => [x5b] ++ Addr_bytes (addr a) ++ [x5d]
  end ++ [colon] ++ bytes_of_string (pretty (port a)).

Definition AddrPort_String (a : AddrPort) : string := string_of_bytes (AddrPort_bytes a).

Example String_v4 :
  AddrPort_String (mkAddrPort (Addr4 [x7f; x00; x00; x01]) 4433) = "127.0.0.1:4433"%string.
Proof. vm_compute. reflexivity. Qed.
Example String_v6 :
  AddrPort_String (mkAddrPort
    (Addr6 ([xfe; x80] ++ replicate 6 x00 ++ [x0a; xbc; x00; x00; x00; x00; x00; x0f]) "eth0") 80)
  = "[fe80::abc:0:0:f%eth0]:80"%string.
Proof. vm_compute. reflexivity. Qed.
Example String_loopback :
  AddrPort_String (mkAddrPort (Addr6 (replicate 15 x00 ++ [x01]) "") 80) = "[::1]:80"%string.
Proof. vm_compute. reflexivity. Qed.

(** ** The seed of a session ([hash/fnv], 64-bit FNV-1a) *)

Definition fnv_offset : Z := 14695981039346656037.
Definition fnv_prime : Z := 1099511628211.

Definition fnv_write (h : Z) (l : list byte) : Z :=
  foldl (λ h b, wrapu64 (Z.lxor h (byte_Z b) * fnv_prime)) h l.

Definition sessionSeed (base : Z) (key : AddrPort) (direction : string) : Z :=
  let h := fnv_write fnv_offset (AddrPort_bytes key) in
  let h := fnv_write h [x00] in
  let h := fnv_write h (bytes_of_string direction) in
  wrap64 (Z.lxor h (wrapu64 base)).

(** ** Lemmas *)

Lemma make_copy_eq l : make_copy l = l.
Proof.
  unfold make_copy. rewrite length_replicate, take_ge by lia.
  rewrite drop_ge by (rewrite length_replicate; lia). apply app_nil_r.
Qed.

Lemma cloneUDPAddr_eq a : cloneUDPAddr a = a.
Proof. destruct a as [[]|]; simpl; by rewrite ?make_copy_eq. Qed.
