(* ===== verification/Lane.v ===== *)
(** * Lane: one direction of a proxy session ([internal/proxy/proxy.go])

    A session has two lanes, one to the server and one to the client. A lane is
    the goroutine running [applyLoop]: it takes packets from a channel, passes them
    through its impairment pipeline and writes out what the pipeline releases. Its
    position in the loop is explicit, so that the goroutines of a session and of
    other sessions can interleave with it; the metrics of the proxy, which the
    hooks of the pipeline update, are threaded through its steps. *)

From S2P Require Import Prelude Profile Pipeline.

Abbreviation packet := (list byte) (only parsing).

Definition queueDepth : Z := 256.

(** ** Metrics of the proxy: a value per direction label *)

Record ProxyMetrics := mkProxyMetrics {
  SessionsActive : Z;
  SessionsTotal : Z;
  Packets : gmap string Z;
  Bytes : gmap string Z;
  Drops : gmap string Z;
  Duplicates : gmap string Z;
  Reorders : gmap string Z;
  EnforcedDelay : gmap string (list Z);
}.
Definition zero_ProxyMetrics : ProxyMetrics := mkProxyMetrics 0 0 ∅ ∅ ∅ ∅ ∅ ∅.

Definition bump (label : string) (d : Z) (m : gmap string Z) : gmap string Z :=
  <[label := default 0 (m !! label) + d]> m.

Definition add_sessions (active total : Z) (m : ProxyMetrics) : ProxyMetrics :=
  mkProxyMetrics (SessionsActive m + active) (SessionsTotal m + total) (Packets m) (Bytes m)
    (Drops m) (Duplicates m) (Reorders m) (EnforcedDelay m).
Definition count_packet (label : string) (n : Z) (m : ProxyMetrics) : ProxyMetrics :=
  mkProxyMetrics (SessionsActive m) (SessionsTotal m) (bump label 1 (Packets m))
    (bump label n (Bytes m)) (Drops m) (Duplicates m) (Reorders m) (EnforcedDelay m).
Definition count_drop (label : string) (m : ProxyMetrics) : ProxyMetrics :=
  mkProxyMetrics (SessionsActive m) (SessionsTotal m) (Packets m) (Bytes m)
    (bump label 1 (Drops m)) (Duplicates m) (Reorders m) (EnforcedDelay m).
Definition count_duplicate (label : string) (m : ProxyMetrics) : ProxyMetrics :=
  mkProxyMetrics (SessionsActive m) (SessionsTotal m) (Packets m) (Bytes m)
    (Drops m) (bump label 1 (Duplicates m)) (Reorders m) (EnforcedDelay m).
Definition count_reorder (label : string) (m : ProxyMetrics) : ProxyMetrics :=
  mkProxyMetrics (SessionsActive m) (SessionsTotal m) (Packets m) (Bytes m)
    (Drops m) (Duplicates m) (bump label 1 (Reorders m)) (EnforcedDelay m).
(** The histogram is the list of its observations, in nanoseconds. *)
Definition observe_delay (label : string) (delay : Z) (m : ProxyMetrics) : ProxyMetrics :=
  mkProxyMetrics (SessionsActive m) (SessionsTotal m) (Packets m) (Bytes m)
    (Drops m) (Duplicates m) (Reorders m)
    (if 0 <? delay
     then <[label := default [] (EnforcedDelay m !! label) ++ [delay]]> (EnforcedDelay m)
     else EnforcedDelay m).

(** [metered] is [p.metrics != nil]. *)
Definition pipelineHooks (metered : bool) (direction : string) : Hooks ProxyMetrics :=
  if metered then
    mkHooks (Some (count_drop direction)) (Some (count_duplicate direction))
      (Some (count_reorder direction)) (Some (observe_delay direction))
  else no_hooks.

(** ** [time.Timer] *)

(** A timer has a deadline while it is active; when it expires, its channel holds
    a value until someone receives it. *)
Record Timer := mkTimer { deadline : option Z; fired : bool }.

Definition Hour : Z := 3600 * Second.

Definition NewTimer (now d : Z) : Timer := mkTimer (Some (now + d)) false.
(** [Stop] reports whether the timer was active. *)
Definition Stop (t : Timer) : bool * Timer :=
  match deadline t with
  | Some _ => (true, mkTimer None (fired t))
  | None => (false, t)
  end.
Definition expire (now : Z) (t : Timer) : option Timer :=
  match deadline t with
  | Some d => if d <=? now then Some (mkTimer None true) else None
  | None => None
  end.
(** [select { case <-timer.C: default: }] *)
Definition drain (t : Timer) : Timer := mkTimer (deadline t) false.

Definition stop_and_drain (t : Timer) : Timer :=
  let '(active, t) := Stop t in if active then t else drain t.

(** The timer [applyLoop] starts with. *)
Definition initial_timer (now : Z) : Timer := stop_and_drain (NewTimer now Hour).

(** [current] is [current != nil]; the result says whether the returned channel is
    the timer's. *)
Definition resetTimer (now : Z) (t : Timer) (current : bool) (next : option Z) : Timer * bool :=
  let t := if current then stop_and_drain t else t in
  match next with
  | None => (t, false)
  | Some next =>
      let delay := time_Sub next now in
      let delay := if delay <? 0 then 0 else delay in
      (mkTimer (Some (now + delay)) (fired t), true)
  end.

(** ** The loop *)

(** Where [applyLoop] stands. [final] marks the flush after [done] was closed. *)
Inductive lane_pc :=
| LNew                                           (* the goroutine is not started *)
| LTop (final : bool)                            (* about to call ReleaseReady *)
| LWriting (rest : list packet) (final : bool)   (* writing what was released *)
| LWait                                          (* in the select *)
| LRemove                                        (* a write failed: calling removeSession *)
| LClose                                         (* in removeSession, the map updated *)
| LExited.

(** Taking a step that is not enabled. *)
Inductive disabled := Disabled.

Definition lift {A} (m : exec A) : outcome disabled A := owrap (λ e, match e : Empty_set with end) m.
Definition guard (b : bool) {A} (k : outcome disabled A) : outcome disabled A :=
  if b then k else Err Disabled.

Section lane.
Context {R : Type} `{Rand R}.

(** [fed] are the packets given to the pipeline so far, [written] those written
    out. *)
Record Lane := mkLane {
  input : list packet;
  pipeline : Pipeline R ProxyMetrics;
  lpc : lane_pc;
  timer : Timer;
  timerCh : bool;
  fed : list packet;
  written : list packet;
}.

Definition new_lane (p : Pipeline R ProxyMetrics) : Lane :=
  mkLane [] p LNew (mkTimer None false) false [] [].

Definition start_lane (now : Z) (l : Lane) : Lane :=
  mkLane (input l) (pipeline l) (LTop false) (initial_timer now) false (fed l) (written l).

Definition set_lpc (l : Lane) (pc : lane_pc) : Lane :=
  mkLane (input l) (pipeline l) pc (timer l) (timerCh l) (fed l) (written l).
Definition set_pipeline (l : Lane) (p : Pipeline R ProxyMetrics) : Lane :=
  mkLane (input l) p (lpc l) (timer l) (timerCh l) (fed l) (written l).
Definition set_input (l : Lane) (q : list packet) : Lane :=
  mkLane q (pipeline l) (lpc l) (timer l) (timerCh l) (fed l) (written l).
Definition set_timer (l : Lane) (t : Timer) (ch : bool) : Lane :=
  mkLane (input l) (pipeline l) (lpc l) t ch (fed l) (written l).
Definition add_fed (l : Lane) (d : packet) : Lane :=
  mkLane (input l) (pipeline l) (lpc l) (timer l) (timerCh l) (fed l ++ [d]) (written l).
Definition add_written (l : Lane) (d : packet) : Lane :=
  mkLane (input l) (pipeline l) (lpc l) (timer l) (timerCh l) (fed l) (written l ++ [d]).

(** A send on the lane's channel; it blocks when the channel is full. *)
Definition send (l : Lane) (d : packet) : outcome disabled Lane :=
  guard (zlen (input l) <? queueDepth) (Ok (set_input l (input l ++ [d]))).

Inductive lane_action :=
| LaRelease             (* ReleaseReady *)
| LaWrite (ok : bool)   (* one write, which succeeds or fails *)
| LaFlushed             (* flushReady returned true *)
| LaDone                (* case <-s.done *)
| LaRecv                (* case pkt := <-input *)
| LaTimer               (* case <-timerCh *)
| LaExpire.             (* the runtime fires the timer *)

(** One step of the loop at time [now]. [done] says whether the session is closed
    and [writable] whether the connection written to is open: writing to a closed
    connection fails. The last component of the result says whether the session is
    touched. *)
Definition lane_step (now : Z) (done writable : bool) (a : lane_action) (l : Lane)
    (m : ProxyMetrics) : outcome disabled (Lane * ProxyMetrics * bool) :=
  match a, lpc l with
  | LaRelease, LTop final =>
      let! (out, (p, m)) := lift (ReleaseReady now (pipeline l, m)) in
      Ok (set_lpc (set_pipeline l p) (LWriting out final), m, false)
  | LaWrite ok, LWriting (d :: rest) final =>
      if ok then
        guard writable (Ok (set_lpc (add_written l d) (LWriting rest final), m, true))
      else Ok (set_lpc l LRemove, m, false)
  | LaFlushed, LWriting [] true => Ok (set_lpc l LExited, m, false)
  | LaFlushed, LWriting [] false =>
      let '(t, ch) := resetTimer now (timer l) (timerCh l) (NextWake (pipeline l)) in
      Ok (set_lpc (set_timer l t ch) LWait, m, false)
  | LaDone, LWait =>
      guard done (
        let! (p, m) := lift (Flush now (pipeline l, m)) in
        Ok (set_lpc (set_pipeline l p) (LTop true), m, false))
  | LaRecv, LWait =>
      match input l with
      | d :: q =>
          let! (p, m) := lift (Enqueue now d (pipeline l, m)) in
          Ok (set_lpc (add_fed (set_input (set_pipeline l p) q) d) (LTop false), m, false)
      | [] => Err Disabled
      end
  | LaTimer, LWait =>
      guard (timerCh l && fired (timer l))
        (Ok (set_lpc (set_timer l (drain (timer l)) (timerCh l)) (LTop false), m, false))
  | LaExpire, _ =>
      match expire now (timer l) with
      | Some t => Ok (set_timer l t (timerCh l), m, false)
      | None => Err Disabled
      end
  | _, _ => Err Disabled
  end.

End lane.
Arguments Lane : clear implicits.
