(* ===== verification/Proxy.v ===== *)
(** * Proxy: sessions, their goroutines and the proxy ([internal/proxy/proxy.go])

    The proxy keeps one session per client address. [Serve] reads client packets,
    finds or creates the session and hands it the packet; each session runs four
    goroutines, and [Close], the idle sweeper and failing goroutines end sessions.
    [step] is one step of one goroutine: a critical section, a channel operation,
    or a call of the network, whose result is part of the action. Sessions live in
    a store and are named by their index in it, as the pointers of the source. *)

From S2P Require Import Prelude Profile Pipeline Addr Lane.

Definition ReadBufferSize : Z := 8 * 1024 * 1024.
Definition defaultIdleTTL : Z := 5 * (60 * Second).
Definition sweepInterval : Z := 60 * Second.
Definition maxPacketSize : Z := 64 * 1024.

(** A datagram as [Read] leaves it in the buffer of [maxPacketSize] bytes. *)
Definition into_buffer (d : packet) : packet := take (Z.to_nat maxPacketSize) d.

Section proxy.
Context {R : Type} `{Rand R}.

(** ** Sessions *)

Inductive accept_pc := ANew | ARecv | AHold (d : packet) | AExited.
Inductive reader_pc := RNew | RRead | RHold (d : packet) | RRemove | RClose | RExited.

(** [accepted] are the packets [enqueueIncoming] took, [received] those read from
    the server. *)
Record Session := mkSession {
  key : AddrPort;
  clientAddr : UDPAddr;
  incoming : list packet;
  accept : accept_pc;
  reader : reader_pc;
  toServer : Lane R;
  toClient : Lane R;
  lastSeen : Z;
  done : bool;
  conn_open : bool;
  accepted : list packet;
  received : list packet;
}.

Definition set_accept (s : Session) (q : list packet) (pc : accept_pc) : Session :=
  mkSession (key s) (clientAddr s) q pc (reader s) (toServer s) (toClient s)
    (lastSeen s) (done s) (conn_open s) (accepted s) (received s).
Definition set_reader (s : Session) (pc : reader_pc) : Session :=
  mkSession (key s) (clientAddr s) (incoming s) (accept s) pc (toServer s) (toClient s)
    (lastSeen s) (done s) (conn_open s) (accepted s) (received s).
Definition set_toServer (s : Session) (l : Lane R) : Session :=
  mkSession (key s) (clientAddr s) (incoming s) (accept s) (reader s) l (toClient s)
    (lastSeen s) (done s) (conn_open s) (accepted s) (received s).
Definition set_toClient (s : Session) (l : Lane R) : Session :=
  mkSession (key s) (clientAddr s) (incoming s) (accept s) (reader s) (toServer s) l
    (lastSeen s) (done s) (conn_open s) (accepted s) (received s).
Definition add_received (s : Session) (d : packet) : Session :=
  mkSession (key s) (clientAddr s) (incoming s) (accept s) (reader s) (toServer s) (toClient s)
    (lastSeen s) (done s) (conn_open s) (accepted s) (received s ++ [d]).

Definition touch (now : Z) (s : Session) : Session :=
  mkSession (key s) (clientAddr s) (incoming s) (accept s) (reader s) (toServer s) (toClient s)
    now (done s) (conn_open s) (accepted s) (received s).

Definition idleFor (now : Z) (s : Session) : Z := time_Sub now (lastSeen s).

(** The value of the composite literal in [getOrCreateSession]. *)
Definition new_session (k : AddrPort) (client : UDPAddr) (ps pc : Pipeline R ProxyMetrics)
    : Session :=
  mkSession k (default client (cloneUDPAddr (Some client))) [] ANew RNew (new_lane ps) (new_lane pc)
    0 false true [] [].

(** The four [go] statements. *)
Definition start_session (now : Z) (s : Session) : Session :=
  mkSession (key s) (clientAddr s) (incoming s) ARecv RRead
    (start_lane now (toServer s)) (start_lane now (toClient s))
    (lastSeen s) (done s) (conn_open s) (accepted s) (received s).

(** [close]: [closeOnce] makes every call but the first a no-op. [onClose] is set
    just when the proxy has metrics. *)
Definition close (metered : bool) (s : Session) (m : ProxyMetrics) : Session * ProxyMetrics :=
  if done s then (s, m)
  else
    (mkSession (key s) (clientAddr s) (incoming s) (accept s) (reader s) (toServer s) (toClient s)
       (lastSeen s) true false (accepted s) (received s),
     if metered then add_sessions (-1) 0 m else m).

Inductive enqueue_result := Enqueued | ErrClosed | ErrSessionQueueFull.

(** [enqueueIncoming]. When the session is closed and the channel has room, the
    select picks either case: [pick_done] says which. *)
Definition enqueueIncoming (pick_done : bool) (d : packet) (s : Session)
    : enqueue_result * Session :=
  let room := zlen (incoming s) <? queueDepth in
  if done s && (pick_done || negb room) then (ErrClosed, s)
  else if room then
    (Enqueued,
     mkSession (key s) (clientAddr s) (incoming s ++ [d]) (accept s) (reader s)
       (toServer s) (toClient s) (lastSeen s) (done s) (conn_open s)
       (accepted s ++ [d]) (received s))
  else (ErrSessionQueueFull, s).

(** The steps of a session's own goroutines that do not involve the session map. *)
Inductive session_action :=
| AcceptRecv | AcceptSend | AcceptDone
| ReadPacket (d : packet) | ReadError | ReadSend | ReadDone
| ToServer (a : lane_action)
| ToClient (a : lane_action).

Definition session_step (metered : bool) (now : Z) (listen_open : bool) (a : session_action)
    (s : Session) (m : ProxyMetrics) : outcome disabled (Session * ProxyMetrics) :=
  match a with
  | AcceptRecv =>
      match accept s, incoming s with
      | ARecv, d :: q => Ok (touch now (set_accept s q (AHold d)), m)
      | _, _ => Err Disabled
      end
  | AcceptSend =>
      match accept s with
      | AHold d =>
          let! l := send (toServer s) d in
          Ok (set_accept (set_toServer s l) (incoming s) ARecv, m)
      | _ => Err Disabled
      end
  | AcceptDone =>
      match accept s with
      | ARecv | AHold _ => guard (done s) (Ok (set_accept s (incoming s) AExited, m))
      | _ => Err Disabled
      end
  | ReadPacket d =>
      match reader s with
      | RRead =>
          guard (conn_open s) (
            let d := into_buffer d in
            Ok (touch now (add_received (set_reader s (RHold (copyPacket d))) (copyPacket d)),
                if metered then count_packet "to_client" (zlen d) m else m))
      | _ => Err Disabled
      end
  | ReadError =>
      match reader s with
      | RRead => Ok (set_reader s RRemove, m)
      | _ => Err Disabled
      end
  | ReadSend =>
      match reader s with
      | RHold d => let! l := send (toClient s) d in Ok (set_reader (set_toClient s l) RRead, m)
      | _ => Err Disabled
      end
  | ReadDone =>
      match reader s with
      | RHold _ => guard (done s) (Ok (set_reader s RExited, m))
      | _ => Err Disabled
      end
  | ToServer a =>
      let! (l, m, touched) := lane_step now (done s) (conn_open s) a (toServer s) m in
      let s := set_toServer s l in
      Ok (if touched : bool then touch now s else s, m)
  | ToClient a =>
      let! (l, m, touched) := lane_step now (done s) listen_open a (toClient s) m in
      let s := set_toClient s l in
      Ok (if touched : bool then touch now s else s, m)
  end.

(** The goroutines that call [removeSession]. *)
Inductive remover := ByReader | ByToServer | ByToClient.

(** Before the critical section of [removeSession], between it and [close], and
    after [close]. *)
Inductive remove_phase := PhRemove | PhClose | PhExited.

Definition in_phase (ph : remove_phase) (r : remover) (s : Session) : bool :=
  match r, ph with
  | ByReader, PhRemove => match reader s with RRemove => true | _ => false end
  | ByReader, PhClose => match reader s with RClose => true | _ => false end
  | ByReader, PhExited => match reader s with RExited => true | _ => false end
  | ByToServer, PhRemove => match lpc (toServer s) with LRemove => true | _ => false end
  | ByToServer, PhClose => match lpc (toServer s) with LClose => true | _ => false end
  | ByToServer, PhExited => match lpc (toServer s) with LExited => true | _ => false end
  | ByToClient, PhRemove => match lpc (toClient s) with LRemove => true | _ => false end
  | ByToClient, PhClose => match lpc (toClient s) with LClose => true | _ => false end
  | ByToClient, PhExited => match lpc (toClient s) with LExited => true | _ => false end
  end.

Definition set_phase (ph : remove_phase) (r : remover) (s : Session) : Session :=
  let lane l :=
    set_lpc l (match ph with PhRemove => LRemove | PhClose => LClose | PhExited => LExited end) in
  match r with
  | ByReader =>
      set_reader s (match ph with PhRemove => RRemove | PhClose => RClose | PhExited => RExited end)
  | ByToServer => set_toServer s (lane (toServer s))
  | ByToClient => set_toClient s (lane (toClient s))
  end.

(** ** The proxy *)

(** The fields of [Proxy] that are set once; [metered] is [metrics != nil]. *)
Record Config := mkConfig {
  upstreamAddr : UDPAddr;
  idleTimeout : Z;
  profile : Profile;
  metered : bool;
}.

(** Where [Serve] stands in its loop and in [getOrCreateSession]. *)
Inductive serve_pc :=
| SReading
| SLookup (k : AddrPort) (client : UDPAddr) (d : packet)
| SDialing (k : AddrPort) (client : UDPAddr) (d : packet)
| SInsert (k : AddrPort) (i : nat) (d : packet)           (* built, about to lock again *)
| SDiscard (i existing : nat) (d : packet)                (* lost the race: closing ours *)
| SEnqueue (i : nat) (d : packet)
| SReturned (failed : bool).

(** Where [Close] stands. [drained] are the sessions it took out of the map,
    [todo] those of them it has still to close. *)
Inductive close_pc :=
| CIdle
| CDrain
| CClosing (drained todo : list nat)
| CDone (drained : list nat).

Inductive sweep_pc :=
| WWait
| WClosing (todo : list nat)
| WExited.

Record Proxy := mkProxy {
  config : Config;
  sessions : gmap AddrPort nat;
  store : list Session;
  closed : bool;
  listen_open : bool;
  ctx_done : bool;
  serve : serve_pc;
  closer : close_pc;
  sweeper : sweep_pc;
  next_tick : Z;
  now : Z;
  met : ProxyMetrics;
}.

(** [Options]: a nil field is [None] or [false]. The logger and the dialler only
    reach code outside the repository. *)
Record Options := mkOptions {
  o_ListenConn : bool;
  o_UpstreamAddr : option UDPAddr;
  o_IdleTimeout : Z;
  o_Profile : Profile;
  o_Metrics : option ProxyMetrics;
}.

Inductive new_error :=
| ErrListenConnRequired
| ErrUpstreamAddrRequired
| ErrProfile (e : error)
| ErrSetReadBuffer.

(** [read_buffer_ok] is the result of [SetReadBuffer] on the listening socket. The
    ticker of the sweeper starts with [Serve]; the model starts both at [start]. *)
Definition New (opts : Options) (read_buffer_ok : bool) (start : Z) : outcome new_error Proxy :=
  if negb (o_ListenConn opts) then Err ErrListenConnRequired
  else
    match o_UpstreamAddr opts with
    | None => Err ErrUpstreamAddrRequired
    | Some upstream =>
        let idle := if o_IdleTimeout opts <=? 0 then defaultIdleTTL else o_IdleTimeout opts in
        let! prof := NormalizeProfile (o_Profile opts) else ErrProfile in
        if negb read_buffer_ok then Err ErrSetReadBuffer
        else
          Ok (mkProxy
                (mkConfig upstream idle prof (match o_Metrics opts with Some _ => true | None => false end))
                ∅ [] false true false SReading CIdle WWait (start + sweepInterval) start
                (default zero_ProxyMetrics (o_Metrics opts)))
    end.

Definition set_sessions (p : Proxy) (x : gmap AddrPort nat) : Proxy :=
  mkProxy (config p) x (store p) (closed p) (listen_open p) (ctx_done p) (serve p)
    (closer p) (sweeper p) (next_tick p) (now p) (met p).
Definition set_store (p : Proxy) (x : list Session) (m : ProxyMetrics) : Proxy :=
  mkProxy (config p) (sessions p) x (closed p) (listen_open p) (ctx_done p) (serve p)
    (closer p) (sweeper p) (next_tick p) (now p) m.
Definition set_serve (p : Proxy) (x : serve_pc) : Proxy :=
  mkProxy (config p) (sessions p) (store p) (closed p) (listen_open p) (ctx_done p) x
    (closer p) (sweeper p) (next_tick p) (now p) (met p).
Definition set_closer (p : Proxy) (x : close_pc) (is_closed is_listening : bool) : Proxy :=
  mkProxy (config p) (sessions p) (store p) is_closed is_listening (ctx_done p) (serve p)
    x (sweeper p) (next_tick p) (now p) (met p).
Definition set_sweeper (p : Proxy) (x : sweep_pc) (tick : Z) : Proxy :=
  mkProxy (config p) (sessions p) (store p) (closed p) (listen_open p) (ctx_done p) (serve p)
    (closer p) x tick (now p) (met p).
Definition set_now (p : Proxy) (x : Z) : Proxy :=
  mkProxy (config p) (sessions p) (store p) (closed p) (listen_open p) (ctx_done p) (serve p)
    (closer p) (sweeper p) (next_tick p) x (met p).
Definition set_ctx_done (p : Proxy) : Proxy :=
  mkProxy (config p) (sessions p) (store p) (closed p) (listen_open p) true (serve p)
    (closer p) (sweeper p) (next_tick p) (now p) (met p).
Definition add_met (p : Proxy) (f : ProxyMetrics → ProxyMetrics) : Proxy :=
  if metered (config p) then set_store p (store p) (f (met p)) else p.

Definition with_session (p : Proxy) (i : nat) (k : Session → outcome disabled Proxy)
    : outcome disabled Proxy :=
  match store p !! i with Some s => k s | None => Err Disabled end.

Definition put_session (p : Proxy) (i : nat) (s : Session) (m : ProxyMetrics) : Proxy :=
  set_store p (<[i := s]> (store p)) m.

(** [sess.close()] on the session named [i]. *)
Definition close_session (p : Proxy) (i : nat) (s : Session) : Proxy :=
  let '(s, m) := close (metered (config p)) s (met p) in put_session p i s m.

(** The critical section of [removeSession]: delete the entry if it is this very
    session. *)
Definition remove_entry (i : nat) (s : Session) (p : Proxy) : Proxy :=
  if bool_decide (sessions p !! key s = Some i)
  then set_sessions p (delete (key s) (sessions p)) else p.

Inductive action :=
| Tick (d : Z)                                  (* time passes *)
| CtxDone
| ServeRead (client : option UDPAddr) (d : packet)
| ServeReadError
| ServeLookup
| ServeDial (dial_ok read_buffer_ok : bool)
| ServeInsert
| ServeDiscard
| ServeEnqueue (pick_done : bool)
| SweepTick
| SweepClose (i : nat)
| SweepExit
| CloseCall                                     (* closeOnce admits a caller *)
| CloseDrain
| CloseNext (i : nat)
| CloseListen
| InSession (i : nat) (a : session_action)
| RemoveEntry (i : nat) (r : remover)
| RemoveClose (i : nat) (r : remover).

(** [getOrCreateSession] between its two critical sections. A failure drops the
    packet and closes what was opened. *)
Definition build_session (p : Proxy) (k : AddrPort) (client : UDPAddr) (d : packet)
    (dial_ok read_buffer_ok : bool) : outcome disabled Proxy :=
  if negb (dial_ok && read_buffer_ok) then Ok (set_serve p SReading)
  else
    let prof := profile (config p) in
    let hooks := pipelineHooks (metered (config p)) in
    match NewPipelineWithHooks (Profile.ToServer prof) (sessionSeed (Seed prof) k "to-server")
            (hooks "to_server"%string) with
    | Panic => Panic
    | Err _ => Ok (set_serve p SReading)
    | Ok ps =>
        match NewPipelineWithHooks (Profile.ToClient prof) (sessionSeed (Seed prof) k "to-client")
                (hooks "to_client"%string) with
        | Panic => Panic
        | Err _ => Ok (set_serve p SReading)
        | Ok pc =>
            let p := add_met p (add_sessions 1 1) in
            let s := touch (now p) (new_session k client ps pc) in
            Ok (set_serve (set_store p (store p ++ [s]) (met p)) (SInsert k (length (store p)) d))
        end
    end.

Definition step_serve (a : action) (p : Proxy) : outcome disabled Proxy :=
  match a, serve p with
  | ServeRead client d, SReading =>
      guard (listen_open p)
        (match udpAddrToAddrPort client, client with
         | Ok k, Some client => Ok (set_serve p (SLookup k client (into_buffer d)))
         | _, _ => Ok p
         end)
  | ServeReadError, SReading =>
      Ok (set_serve p (SReturned (listen_open p && negb (ctx_done p) && negb (closed p))))
  | ServeLookup, SLookup k client d =>
      match sessions p !! k with
      | Some i => Ok (set_serve p (SEnqueue i d))
      | None => Ok (set_serve p (SDialing k client d))
      end
  | ServeDial dial_ok read_buffer_ok, SDialing k client d =>
      build_session p k client d dial_ok read_buffer_ok
  | ServeInsert, SInsert k i d =>
      match sessions p !! k with
      | Some existing => Ok (set_serve p (SDiscard i existing d))
      | None =>
          with_session p i (λ s,
            Ok (set_serve (set_sessions (put_session p i (start_session (now p) s) (met p))
                             (<[k := i]> (sessions p))) (SEnqueue i d)))
      end
  | ServeDiscard, SDiscard i existing d =>
      with_session p i (λ s, Ok (set_serve (close_session p i s) (SEnqueue existing d)))
  | ServeEnqueue pick_done, SEnqueue i d =>
      with_session p i (λ s,
        let p := add_met p (count_packet "to_server" (zlen d)) in
        let '(r, s) := enqueueIncoming pick_done (copyPacket d) s in
        let p := put_session p i s (met p) in
        match r with
        | Enqueued => Ok (set_serve p SReading)
        | _ => Ok (set_serve p (if closed p then SReturned false else SReading))
        end)
  | _, _ => Err Disabled
  end.

(** The sessions the sweeper evicts. *)
Definition idle_entry (p : Proxy) (kv : AddrPort * nat) : bool :=
  match store p !! kv.2 with
  | Some s => idleTimeout (config p) <? idleFor (now p) s
  | None => false
  end.
Definition idle_sessions (p : Proxy) : list nat :=
  map snd (filter (λ kv, idle_entry p kv = true) (map_to_list (sessions p))).
Definition without_idle (p : Proxy) : gmap AddrPort nat :=
  filter (λ kv, idle_entry p kv = false) (sessions p).

Definition remove_one (i : nat) (l : list nat) : list nat := filter (λ j, j ≠ i) l.

(** The sweeper and [Close] close their sessions in any order: the maps of the
    source are iterated in an unspecified one. A tick that comes while the sweeper
    is busy waits for it, further ones are dropped. *)
Definition step_sweep (a : action) (p : Proxy) : outcome disabled Proxy :=
  match a, sweeper p with
  | SweepTick, WWait =>
      guard (next_tick p <=? now p)
        (let tick := next_tick p + sweepInterval * ((now p - next_tick p) / sweepInterval + 1) in
         Ok (set_sweeper (set_sessions p (without_idle p)) (WClosing (idle_sessions p)) tick))
  | SweepClose i, WClosing todo =>
      guard (bool_decide (i ∈ todo))
        (with_session p i (λ s,
           Ok (set_sweeper (close_session p i s) (WClosing (remove_one i todo)) (next_tick p))))
  | SweepExit, WClosing [] => Ok (set_sweeper p WWait (next_tick p))
  | SweepExit, WWait => guard (ctx_done p || closed p) (Ok (set_sweeper p WExited (next_tick p)))
  | _, _ => Err Disabled
  end.

Definition step_close (a : action) (p : Proxy) : outcome disabled Proxy :=
  match a, closer p with
  | CloseCall, CIdle => Ok (set_closer p CDrain true (listen_open p))
  | CloseDrain, CDrain =>
      let all := map snd (map_to_list (sessions p)) in
      Ok (set_closer (set_sessions p ∅) (CClosing all all) (closed p) (listen_open p))
  | CloseNext i, CClosing all todo =>
      guard (bool_decide (i ∈ todo))
        (with_session p i (λ s,
           let p' := close_session p i s in
           Ok (set_closer p' (CClosing all (remove_one i todo)) (closed p') (listen_open p'))))
  | CloseListen, CClosing all [] => Ok (set_closer p (CDone all) (closed p) false)
  | _, _ => Err Disabled
  end.

Definition step (a : action) (p : Proxy) : outcome disabled Proxy :=
  match a with
  | Tick d => guard (0 <=? d) (Ok (set_now p (now p + d)))
  | CtxDone => Ok (set_ctx_done p)
  | ServeRead _ _ | ServeReadError | ServeLookup | ServeDial _ _ | ServeInsert | ServeDiscard
  | ServeEnqueue _ => step_serve a p
  | SweepTick | SweepClose _ | SweepExit => step_sweep a p
  | CloseCall | CloseDrain | CloseNext _ | CloseListen => step_close a p
  | InSession i a =>
      with_session p i (λ s,
        let! (s, m) := session_step (metered (config p)) (now p) (listen_open p) a s (met p) in
        Ok (put_session p i s m))
  | RemoveEntry i r =>
      with_session p i (λ s,
        guard (in_phase PhRemove r s)
          (Ok (remove_entry i s (put_session p i (set_phase PhClose r s) (met p)))))
  | RemoveClose i r =>
      with_session p i (λ s,
        guard (in_phase PhClose r s)
          (let p := close_session p i s in
           with_session p i (λ s, Ok (put_session p i (set_phase PhExited r s) (met p)))))
  end.

(** A schedule: the actions of all goroutines in the order they happen. *)
Fixpoint steps (acts : list action) (p : Proxy) : outcome disabled Proxy :=
  match acts with
  | [] => Ok p
  | a :: acts => let! p := step a p in steps acts p
  end.

End proxy.
Arguments Session : clear implicits.
Arguments Proxy : clear implicits.
