(* ===== verification/ProxyProofs.v ===== *)
(** * ProxyProofs: the well-formedness of a proxy is preserved by every step

    [lane_ok] is what holds of a lane between steps, [wf] what holds of the session
    map, the store and the metrics, given the session [Serve] is building and the
    sessions [Close] and the sweeper have still to close. The lemmas follow the
    updates the steps make: a session changes, is built, inserted, taken out of
    the map, or closed. *)

From S2P Require Import Prelude Profile Pipeline PipelineProofs Addr Lane Proxy.

(** ** Lanes *)

Section lanes.
Context {R : Type} `{RandLaws R}.
Implicit Types (l : Lane R) (m : ProxyMetrics).

Definition gauges m : Z * Z := (SessionsActive m, SessionsTotal m).

Lemma hook_gauges mt dir m es :
  gauges (foldl (apply_event (pipelineHooks mt dir)) m es) = gauges m.
Proof.
  revert m. induction es as [|e es IH]; intros m; simpl; [done|].
  rewrite IH. by destruct mt, e.
Qed.

Definition pipeline_ok (mt : bool) (dir : string) (p : Pipeline R ProxyMetrics) : Prop :=
  safe_cfg (cfg p) ∧ hooks p = pipelineHooks mt dir.

Lemma pipeline_ok_evolves mt dir (p p' : Pipeline R ProxyMetrics) m m' es :
  pipeline_ok mt dir p → evolves (p, m) (p', m') es →
  pipeline_ok mt dir p' ∧ gauges m' = gauges m.
Proof.
  intros [Hc Hh] (Hc' & Hh' & _ & Hw). simpl in *. split.
  - split; by rewrite ?Hc', ?Hh'.
  - rewrite Hw, Hh. apply hook_gauges.
Qed.

(** The three calls of the loop on its pipeline succeed and keep it well formed. *)
Lemma ReleaseReady_ok mt dir t (p : Pipeline R ProxyMetrics) m :
  pipeline_ok mt dir p →
  ∃ out p' m', ReleaseReady t (p, m) = Ok (out, (p', m')) ∧
    pipeline_ok mt dir p' ∧ gauges m' = gauges m.
Proof.
  intros Hp. unfold ReleaseReady.
  destruct (flushExpiredHeld_effect t (p, m) (proj1 Hp)) as ([p1 m1] & es & n & -> & He & _).
  cbn [obind]. destruct (release_loop _ _ _ _) as [out q].
  destruct (pipeline_ok_evolves mt dir p p1 m m1 es Hp (eff_evolves _ _ _ _ _ He)) as [[??] ?].
  eexists _, _, _. split; [done|]. by split.
Qed.

Lemma Enqueue_ok mt dir t d (p : Pipeline R ProxyMetrics) m :
  pipeline_ok mt dir p →
  ∃ p' m', Enqueue t d (p, m) = Ok (p', m') ∧ pipeline_ok mt dir p' ∧ gauges m' = gauges m.
Proof.
  intros Hp.
  destruct (Enqueue_effect t d (p, m) (proj1 Hp)) as ([p1 m1] & es & n & k & -> & He & _).
  eexists _, _. split; [done|]. by eapply pipeline_ok_evolves, (eff_evolves _ _ _ _ _ He).
Qed.

Lemma Flush_ok mt dir t (p : Pipeline R ProxyMetrics) m :
  pipeline_ok mt dir p →
  ∃ p' m', Flush t (p, m) = Ok (p', m') ∧ pipeline_ok mt dir p' ∧ gauges m' = gauges m.
Proof.
  intros Hp.
  destruct (Flush_effect t (p, m) (proj1 Hp)) as ([p1 m1] & es & n & -> & He & _).
  eexists _, _. split; [done|]. by eapply pipeline_ok_evolves, (eff_evolves _ _ _ _ _ He).
Qed.

Definition lane_ok (mt : bool) (dir : string) l : Prop :=
  pipeline_ok mt dir (pipeline l) ∧ zlen (input l) ≤ queueDepth.

Definition lane_closing l : bool := match lpc l with LClose => true | _ => false end.

(** What a step of a lane may do. *)
Definition lane_post mt dir l m (r : outcome disabled (Lane R * ProxyMetrics * bool)) : Prop :=
  match r with
  | Ok (l', m', _) =>
      lane_ok mt dir l' ∧ gauges m' = gauges m ∧ lane_closing l' = lane_closing l
  | Err _ => True
  | Panic => False
  end.

Lemma lane_step_post mt dir t dn wr a l m :
  lane_ok mt dir l → lane_post mt dir l m (lane_step t dn wr a l m).
Proof.
  intros [Hp Hi]. unfold lane_step, lane_closing.
  destruct a as [|ok| | | | |].
  - destruct (lpc l) eqn:Epc; simpl; try done.
    destruct (ReleaseReady_ok mt dir t (pipeline l) m Hp) as (out & p' & m' & -> & ? & ?).
    simpl. unfold lane_closing. by rewrite Epc.
  - destruct (lpc l) as [| |[|d rest] final| | | |] eqn:Epc; simpl; try done.
    destruct ok; [destruct wr; simpl; [|done]|simpl]; unfold lane_closing; simpl; by rewrite Epc.
  - destruct (lpc l) as [| |[|d rest] [|]| | | |] eqn:Epc; simpl; try done.
    + unfold lane_closing; by rewrite Epc.
    + destruct (resetTimer _ _ _ _) as [tm ch]. simpl. unfold lane_closing. by rewrite Epc.
  - destruct (lpc l) eqn:Epc; simpl; try done. destruct dn; simpl; [|done].
    destruct (Flush_ok mt dir t (pipeline l) m Hp) as (p' & m' & -> & ? & ?).
    simpl. unfold lane_closing. by rewrite Epc.
  - destruct (lpc l) eqn:Epc; simpl; try done. destruct (input l) as [|d q] eqn:Eq; [done|].
    destruct (Enqueue_ok mt dir t d (pipeline l) m Hp) as (p' & m' & -> & ? & ?).
    simpl. unfold lane_closing. rewrite Epc. split_and!; try done.
    split; [done|]. simpl. autorewrite with go_len in Hi. lia.
  - destruct (lpc l) eqn:Epc; simpl; try done.
    destruct (timerCh l && fired (timer l)); simpl; [|done]. unfold lane_closing. by rewrite Epc.
  - destruct (lpc l) eqn:Epc; destruct (expire t (timer l)); simpl; try done;
      unfold lane_closing; simpl; by rewrite Epc.
Qed.

(** A lane whose goroutine is not started takes no step. *)
Lemma lane_step_new t dn wr a p m : lane_step (R:=R) t dn wr a (new_lane p) m = Err Disabled.
Proof. by destruct a. Qed.

Lemma send_ok mt dir l l' d : lane_ok mt dir l → send l d = Ok l' → lane_ok mt dir l' ∧ lpc l' = lpc l.
Proof.
  intros [Hp Hi]. unfold send, guard. destruct (Z.ltb_spec (zlen (input l)) queueDepth); [|done].
  intros [= <-]. split; [|done]. split; [done|]. simpl. autorewrite with go_len. lia.
Qed.

End lanes.

(** ** Sessions *)

Section sessions.
Context {R : Type} `{RandLaws R}.
Implicit Types (s : Session R) (m : ProxyMetrics).

Definition session_ok (mt : bool) s : Prop :=
  lane_ok mt "to_server" (toServer s) ∧ lane_ok mt "to_client" (toClient s) ∧
  zlen (incoming s) ≤ queueDepth ∧ conn_open s = negb (done s).

(** Some goroutine of the session is between the two parts of [removeSession]. *)
Definition loop_closing s : bool :=
  in_phase PhClose ByReader s || in_phase PhClose ByToServer s || in_phase PhClose ByToClient s.

(** No goroutine of the session runs yet. *)
Definition unstarted s : Prop :=
  accept s = ANew ∧ reader s = RNew ∧
  (∃ p, toServer s = new_lane p) ∧ (∃ p, toClient s = new_lane p).

(** What the rest of the proxy sees of a session. *)
Definition status s : AddrPort * bool * bool := (key s, done s, loop_closing s).

Lemma unstarted_closing s : unstarted s → loop_closing s = false.
Proof. intros (_ & Hr & [p Hs] & [q Hc]). unfold loop_closing. simpl. by rewrite Hr, Hs, Hc. Qed.

Lemma unstarted_step mt t lo a s m : unstarted s → session_step mt t lo a s m = Err Disabled.
Proof.
  intros (Ha & Hr & [p Hs] & [q Hc]). destruct a; simpl; rewrite ?Ha, ?Hr, ?Hs, ?Hc; try done;
    by rewrite lane_step_new.
Qed.

Definition session_post mt s m (r : outcome disabled (Session R * ProxyMetrics)) : Prop :=
  match r with
  | Ok (s', m') => session_ok mt s' ∧ gauges m' = gauges m ∧ status s' = status s
  | Err _ => True
  | Panic => False
  end.

Ltac status_eq := unfold status, loop_closing, lane_closing in *; simpl in *; congruence.

Lemma session_step_post mt t lo a s m :
  session_ok mt s → session_post mt s m (session_step mt t lo a s m).
Proof.
  intros (Hs & Hc & Hi & Ho). destruct a as [| | |d| | | |a|a]; simpl.
  - destruct (accept s), (incoming s) as [|d' q] eqn:Eq; simpl; try done.
    split_and!; [|done|status_eq]. split_and!; simpl; try done.
    autorewrite with go_len in Hi. lia.
  - destruct (accept s); simpl; try done. destruct (send (toServer s) d) as [l|e|] eqn:E; simpl; try done.
    2: { unfold send, guard in E. by destruct (_ <? _). }
    destruct (send_ok _ _ _ _ _ Hs E) as [? Hl].
    split_and!; [by split_and!|done|]. unfold status, loop_closing. simpl. by rewrite Hl.
  - destruct (accept s); simpl; try done; destruct (done s) eqn:Ed; simpl; try done;
      (split_and!; [split_and!; simpl; by rewrite ?Ed|done|unfold status, loop_closing; simpl; by rewrite ?Ed]).
  - destruct (reader s) eqn:Er; simpl; try done. destruct (conn_open s) eqn:Eo; simpl; try done.
    split_and!; [split_and!; simpl; by rewrite ?Eo|by destruct mt|].
    unfold status, loop_closing. simpl. by rewrite Er.
  - destruct (reader s) eqn:Er; simpl; try done.
    split_and!; [by split_and!|done|unfold status, loop_closing; simpl; by rewrite Er].
  - destruct (reader s) eqn:Er; simpl; try done.
    destruct (send (toClient s) d) as [l|e|] eqn:E; simpl; try done.
    2: { unfold send, guard in E. by destruct (_ <? _). }
    destruct (send_ok _ _ _ _ _ Hc E) as [? Hl].
    split_and!; [by split_and!|done|]. unfold status, loop_closing. simpl. by rewrite Hl, Er.
  - destruct (reader s) eqn:Er; simpl; try done; destruct (done s) eqn:Ed; simpl; try done.
    split_and!; [split_and!; simpl; by rewrite ?Ed|done|unfold status, loop_closing; simpl; by rewrite Er, ?Ed].
  - pose proof (lane_step_post mt "to_server" t (done s) (conn_open s) a (toServer s) m Hs) as Hp.
    destruct (lane_step _ _ _ _ _ _) as [[[l m'] tc]|e|]; simpl in *; try done.
    destruct Hp as (? & ? & Hl).
    split_and!; [destruct tc; by split_and!|done|].
    unfold status, loop_closing, lane_closing in *. by destruct tc; simpl; rewrite Hl.
  - pose proof (lane_step_post mt "to_client" t (done s) lo a (toClient s) m Hc) as Hp.
    destruct (lane_step _ _ _ _ _ _) as [[[l m'] tc]|e|]; simpl in *; try done.
    destruct Hp as (? & ? & Hl).
    split_and!; [destruct tc; by split_and!|done|].
    unfold status, loop_closing, lane_closing in *. by destruct tc; simpl; rewrite Hl.
Qed.

Lemma set_phase_ok mt ph r s : session_ok mt s → session_ok mt (set_phase ph r s).
Proof. intros (?&?&?&?). destruct r; by split_and!. Qed.

End sessions.

(** ** The proxy *)

Section wf.
Context {R : Type} `{RandLaws R}.
Implicit Types (s : Session R) (st : list (Session R)) (m : ProxyMetrics)
  (M : gmap AddrPort nat) (todo : list nat) (bld : option nat).

(** The number of sessions that are not closed. *)
Definition open_one s : Z := if done s then 0 else 1.
Definition open_count st : Z := foldr (λ s n, open_one s + n) 0 st.

Lemma open_count_app st1 st2 : open_count (st1 ++ st2) = open_count st1 + open_count st2.
Proof. induction st1 as [|s st1 IH]; simpl; [done|]. rewrite IH. lia. Qed.

Lemma open_count_insert st i s s' :
  st !! i = Some s → open_count (<[i := s']> st) = open_count st - open_one s + open_one s'.
Proof.
  revert i. induction st as [|s0 st IH]; intros [|i] Hi; simpl in *; try done.
  - injection Hi as ->. lia.
  - rewrite IH by done. lia.
Qed.

Definition out_of_map M (i : nat) : Prop := ∀ k, M !! k ≠ Some i.

(** [bld] is the session [Serve] is building, [todo] are those [Close] and the
    sweeper have still to close; [m0] are the metrics at the start. *)
Record wf (m0 : ProxyMetrics) (mt : bool) bld todo M st m : Prop := {
  wf_sessions i s : st !! i = Some s → session_ok mt s;
  wf_map k i : M !! k = Some i → ∃ s, st !! i = Some s ∧ key s = k ∧ done s = false;
  wf_open i s : st !! i = Some s → done s = false →
    M !! key s = Some i ∨ bld = Some i ∨ i ∈ todo ∨ loop_closing s = true;
  wf_todo i : i ∈ todo → out_of_map M i ∧ bld ≠ Some i ∧ is_Some (st !! i);
  wf_loop i s : st !! i = Some s → loop_closing s = true → out_of_map M i;
  wf_bld i : bld = Some i → out_of_map M i ∧
    ∃ s, st !! i = Some s ∧ unstarted s ∧ done s = false;
  wf_gauges : mt = true →
    gauges m = (SessionsActive m0 + open_count st, SessionsTotal m0 + zlen st);
}.

(** A session changes, and nothing others depend on. *)
Lemma wf_put m0 mt bld todo M st m i s s' m' :
  wf m0 mt bld todo M st m → st !! i = Some s → session_ok mt s' → status s' = status s →
  (bld = Some i → unstarted s') → gauges m' = gauges m →
  wf m0 mt bld todo M (<[i := s']> st) m'.
Proof.
  intros Hw Hi Hs' Hst Hb Hg. injection Hst as Hk Hd Hl.
  assert (Hlook : ∀ j t, <[i := s']> st !! j = Some t →
            ∃ t0, st !! j = Some t0 ∧ key t = key t0 ∧ done t = done t0 ∧
              loop_closing t = loop_closing t0 ∧ session_ok mt t).
  { intros j t [(<- & -> & _)|[? Hj]]%list_lookup_insert_Some; [by eauto 10|].
    exists t. split_and!; try done. by eapply wf_sessions. }
  assert (Hsome : ∀ j t0, st !! j = Some t0 →
            ∃ t, <[i := s']> st !! j = Some t ∧ key t = key t0 ∧ done t = done t0 ∧
              (j = i → t = s') ∧ (j ≠ i → t = t0)).
  { intros j t0 Hj. destruct (decide (j = i)) as [->|].
    - rewrite Hi in Hj. injection Hj as <-. exists s'.
      rewrite list_lookup_insert_eq by (by eapply lookup_lt_Some). done.
    - exists t0. by rewrite list_lookup_insert_ne by done. }
  split.
  - intros j t Hj. by destruct (Hlook j t Hj) as (? & ? & ? & ? & ? & ?).
  - intros k j Hj. destruct (wf_map _ _ _ _ _ _ _ Hw k j Hj) as (t0 & Ht0 & <- & Hd0).
    destruct (Hsome j t0 Ht0) as (t & Ht & Hkt & Hdt & _). exists t. split_and!; congruence.
  - intros j t Hj Hdn. destruct (Hlook j t Hj) as (t0 & Ht0 & -> & Hdt & -> & _).
    apply (wf_open _ _ _ _ _ _ _ Hw j t0 Ht0). congruence.
  - intros j Hj. destruct (wf_todo _ _ _ _ _ _ _ Hw j Hj) as (? & ? & t0 & Ht0).
    destruct (Hsome j t0 Ht0) as (t & Ht & _). split_and!; eauto.
  - intros j t Hj Hl'. destruct (Hlook j t Hj) as (t0 & Ht0 & _ & _ & Hlt & _).
    apply (wf_loop _ _ _ _ _ _ _ Hw j t0 Ht0). congruence.
  - intros j Hj. destruct (wf_bld _ _ _ _ _ _ _ Hw j Hj) as (? & t0 & Ht0 & Hu & Hd0).
    split; [done|]. destruct (Hsome j t0 Ht0) as (t & Ht & _ & Hdt & He & Hn).
    exists t. split; [done|]. split; [|congruence].
    destruct (decide (j = i)) as [->|]; [rewrite He by done; by apply Hb|by rewrite Hn].
  - intros Hmt. rewrite Hg, (wf_gauges _ _ _ _ _ _ _ Hw Hmt).
    rewrite (open_count_insert st i s s' Hi). unfold open_one, zlen. rewrite Hd, length_insert.
    f_equal. lia.
Qed.

Lemma close_ok mt s m : session_ok mt s → session_ok mt (close mt s m).1.
Proof. intros Hs. unfold close. destruct (done s); [done|]. by destruct Hs as (?&?&?&_). Qed.

Lemma close_done mt s m : done (close mt s m).1 = true.
Proof. unfold close. by destruct (done s) eqn:E. Qed.

Lemma close_loop_closing mt s m : loop_closing (close mt s m).1 = loop_closing s.
Proof. unfold close. by destruct (done s). Qed.

(** A session that is no longer in the map is closed; whoever was about to close
    it may forget it. *)
Lemma wf_close m0 mt bld bld' todo todo' M st m i s :
  wf m0 mt bld todo M st m → st !! i = Some s → out_of_map M i →
  (bld' = bld ∧ bld ≠ Some i ∨ bld' = None ∧ bld = Some i) →
  (∀ j, j ∈ todo' → j ∈ todo) → (∀ j, j ∈ todo → j ∈ todo' ∨ j = i) →
  wf m0 mt bld' todo' M (<[i := (close mt s m).1]> st) (close mt s m).2.
Proof.
  intros Hw Hi Hout Hbld Hsub Hsup.
  pose proof (lookup_lt_Some _ _ _ Hi) as Hlt.
  assert (Hb' : ∀ j, bld' = Some j → bld = Some j ∧ j ≠ i).
  { intros j ->. destruct Hbld as [[<- ?]|[[=] _]]. split; [done|congruence]. }
  split.
  - intros j t [(<- & <- & _)|[? Hj]]%list_lookup_insert_Some.
    + apply close_ok. by eapply wf_sessions.
    + by eapply wf_sessions.
  - intros k j Hj. destruct (wf_map _ _ _ _ _ _ _ Hw k j Hj) as (t & Ht & ?).
    exists t. rewrite list_lookup_insert_ne; [done|]. intros ->. by eapply Hout.
  - intros j t [(<- & <- & _)|[Hne Hj]]%list_lookup_insert_Some Hd; [by rewrite close_done in Hd|].
    destruct (wf_open _ _ _ _ _ _ _ Hw j t Hj Hd) as [?|[Hb|[Ht|?]]]; [auto| |
      destruct (Hsup j Ht) as [?| ->]; [auto|done]|auto].
    destruct Hbld as [[-> _]|[-> Hb2]]; [auto|congruence].
  - intros j Hj%Hsub. destruct (wf_todo _ _ _ _ _ _ _ Hw j Hj) as (? & ? & ?).
    split_and!; [done|intros [? _]%Hb'; done|]. apply lookup_lt_is_Some.
    rewrite length_insert. by apply lookup_lt_is_Some.
  - intros j t [(<- & <- & _)|[? Hj]]%list_lookup_insert_Some; [done|]. by eapply wf_loop.
  - intros j [Hb Hne]%Hb'. destruct (wf_bld _ _ _ _ _ _ _ Hw j Hb) as (? & t & ? & ?).
    split; [done|]. exists t. by rewrite list_lookup_insert_ne by done.
  - intros Hmt. rewrite (open_count_insert st i s _ Hi). unfold open_one.
    rewrite close_done. unfold zlen. rewrite length_insert. fold (zlen st).
    pose proof (wf_gauges _ _ _ _ _ _ _ Hw Hmt) as Hg. unfold close.
    destruct (done s) eqn:Ed; simpl; [|subst mt; simpl]; unfold gauges in *; simpl;
      injection Hg as -> ->; f_equal; lia.
Qed.

(** Sessions are taken out of the map to be closed. *)
Lemma wf_shrink m0 mt bld todo todo' M M' st m :
  wf m0 mt bld todo M st m → M' ⊆ M →
  (∀ j, j ∈ todo → j ∈ todo') → (∀ j, j ∈ todo' → j ∈ todo ∨ ∃ k, M !! k = Some j ∧ M' !! k = None) →
  (∀ k j, M !! k = Some j → M' !! k = Some j ∨ j ∈ todo') →
  wf m0 mt bld todo' M' st m.
Proof.
  intros Hw Hsub Ht1 Ht2 Hcov.
  assert (Hout : ∀ j, out_of_map M j → out_of_map M' j).
  { intros j Hj k Hk. apply (Hj k). by eapply lookup_weaken. }
  split.
  - apply Hw.
  - intros k j Hj. apply (wf_map _ _ _ _ _ _ _ Hw). by eapply lookup_weaken.
  - intros j t Hj Hd. destruct (wf_open _ _ _ _ _ _ _ Hw j t Hj Hd) as [HM|[?|[?|?]]]; [|by auto..].
    destruct (Hcov _ _ HM); auto.
  - intros j [Hj|(k & Hk & Hk')]%Ht2.
    + destruct (wf_todo _ _ _ _ _ _ _ Hw j Hj) as (? & ? & ?). auto.
    + destruct (wf_map _ _ _ _ _ _ _ Hw k j Hk) as (t & Ht & <- & Hd). split_and!; [| |eauto].
      * intros k' Hk''. pose proof (lookup_weaken _ _ _ _ Hk'' Hsub) as HM.
        destruct (wf_map _ _ _ _ _ _ _ Hw k' j HM) as (t' & Ht' & <- & _). congruence.
      * intros Hb. destruct (wf_bld _ _ _ _ _ _ _ Hw j Hb) as [Hno _]. by apply (Hno (key t)).
  - intros j t Hj Hl. eapply Hout, wf_loop; eauto.
  - intros j Hj. destruct (wf_bld _ _ _ _ _ _ _ Hw j Hj) as (? & ?). auto.
  - apply Hw.
Qed.

(** A session is built. *)
Lemma wf_build m0 mt todo M st m s :
  wf m0 mt None todo M st m → session_ok mt s → unstarted s → done s = false →
  wf m0 mt (Some (length st)) todo M (st ++ [s]) (if mt then add_sessions 1 1 m else m).
Proof.
  intros Hw Hs Hu Hd.
  assert (Hout : out_of_map M (length st)).
  { intros k Hk. destruct (wf_map _ _ _ _ _ _ _ Hw k _ Hk) as (t & Ht & _).
    apply lookup_lt_Some in Ht. lia. }
  assert (Hlook : ∀ j t, (st ++ [s]) !! j = Some t → st !! j = Some t ∨ j = length st ∧ t = s).
  { intros j t [?|[? Hj]]%lookup_app_Some; [auto|]. apply list_lookup_singleton_Some in Hj as [? <-].
    right. split; [lia|done]. }
  assert (Hold : ∀ j t, st !! j = Some t → (st ++ [s]) !! j = Some t).
  { intros j t Hj. by apply lookup_app_l_Some. }
  split.
  - intros j t [?|[-> ->]]%Hlook; [by eapply wf_sessions|done].
  - intros k j Hj. destruct (wf_map _ _ _ _ _ _ _ Hw k j Hj) as (t & Ht & ?). eauto.
  - intros j t [Hj|[-> ->]]%Hlook Hdn; [|auto].
    destruct (wf_open _ _ _ _ _ _ _ Hw j t Hj Hdn) as [?|[[=]|[?|?]]]; auto.
  - intros j Hj. destruct (wf_todo _ _ _ _ _ _ _ Hw j Hj) as (? & _ & t & Ht).
    split_and!; [done| |eauto]. intros [= <-]. apply lookup_lt_Some in Ht. lia.
  - intros j t [Hj|[-> ->]]%Hlook Hl; [by eapply wf_loop|done].
  - intros j [= <-]. split; [done|]. exists s. split; [|done].
    rewrite lookup_app_r, Nat.sub_diag by done. done.
  - intros ->. rewrite open_count_app, zlen_app. unfold gauges in *. simpl. unfold open_one.
    rewrite Hd. pose proof (wf_gauges _ _ _ _ _ _ _ Hw eq_refl) as Hg. unfold gauges in Hg.
    injection Hg as -> ->. f_equal; [lia|]. unfold zlen. simpl. lia.
Qed.

(** The built session enters the map and its goroutines start. *)
Lemma wf_insert m0 mt todo M st m i s t :
  wf m0 mt (Some i) todo M st m → st !! i = Some s → M !! key s = None →
  wf m0 mt None todo (<[key s := i]> M) (<[i := start_session t s]> st) m.
Proof.
  intros Hw Hi HM. pose proof (lookup_lt_Some _ _ _ Hi) as Hlt.
  destruct (wf_bld _ _ _ _ _ _ _ Hw i eq_refl) as (Hout & s0 & Hs0 & Hu & Hd).
  rewrite Hi in Hs0. injection Hs0 as <-.
  assert (Hl : loop_closing (start_session t s) = false) by done.
  assert (Hlook : ∀ j u, <[i := start_session t s]> st !! j = Some u →
            j = i ∧ u = start_session t s ∨ j ≠ i ∧ st !! j = Some u).
  { intros j u [(-> & <- & _)|[? Hj]]%list_lookup_insert_Some; auto. }
  assert (Hins : ∀ j, j ≠ i → out_of_map M j → out_of_map (<[key s := i]> M) j).
  { intros j Hne Hj k [[_ ?]|[_ ?]]%lookup_insert_Some; [congruence|by apply (Hj k)]. }
  split.
  - intros j u [[-> ->]|[_ Hj]]%Hlook; [|by eapply wf_sessions].
    destruct (wf_sessions _ _ _ _ _ _ _ Hw i s Hi) as (?&?&?&?). by split_and!.
  - intros k j [[<- <-]|[Hk Hj]]%lookup_insert_Some.
    + exists (start_session t s). by rewrite list_lookup_insert_eq.
    + destruct (wf_map _ _ _ _ _ _ _ Hw k j Hj) as (u & Hu' & ?). exists u.
      rewrite list_lookup_insert_ne; [done|]. intros ->. by apply (Hout k).
  - intros j u [[-> ->]|[Hne Hj]]%Hlook Hdn; [left; apply lookup_insert_eq|].
    destruct (wf_open _ _ _ _ _ _ _ Hw j u Hj Hdn) as [Hk|[[= <-]|[?|?]]]; [|done|auto..].
    left. rewrite lookup_insert_ne; [done|]. intros Heq. rewrite <-Heq in Hk. congruence.
  - intros j Hj. destruct (wf_todo _ _ _ _ _ _ _ Hw j Hj) as (Ho & Hb & Hsome).
    split_and!; [|done|].
    + apply Hins; [congruence|done].
    + apply lookup_lt_is_Some. rewrite length_insert. by apply lookup_lt_is_Some.
  - intros j u [[-> ->]|[Hne Hj]]%Hlook Hl'; [by rewrite Hl in Hl'|].
    apply Hins; [done|]. by eapply wf_loop.
  - done.
  - intros Hmt. rewrite (wf_gauges _ _ _ _ _ _ _ Hw Hmt), (open_count_insert st i s _ Hi).
    unfold open_one, zlen. simpl. rewrite Hd, length_insert. f_equal. lia.
Qed.

(** The critical section of [removeSession] and its caller. *)
Lemma wf_remove_entry m0 mt bld todo M st m i s s' :
  wf m0 mt bld todo M st m → st !! i = Some s → session_ok mt s' →
  key s' = key s → done s' = done s → loop_closing s' = true → bld ≠ Some i →
  wf m0 mt bld todo (if bool_decide (M !! key s = Some i) then delete (key s) M else M)
    (<[i := s']> st) m.
Proof.
  intros Hw Hi Hs' Hk Hd Hl Hb. set (M' := if bool_decide _ then _ else M).
  pose proof (lookup_lt_Some _ _ _ Hi) as Hlt.
  assert (Hsub : M' ⊆ M) by (unfold M'; case_bool_decide; [apply delete_subseteq|done]).
  assert (Hi' : out_of_map M' i).
  { intros k HM. pose proof (lookup_weaken _ _ _ _ HM Hsub) as HM0.
    destruct (wf_map _ _ _ _ _ _ _ Hw k i HM0) as (t & Ht & <- & _).
    rewrite Hi in Ht. injection Ht as <-. unfold M' in HM.
    rewrite bool_decide_eq_true_2 in HM by done. by rewrite lookup_delete_eq in HM. }
  assert (Hkeep : ∀ k j, j ≠ i → M !! k = Some j → M' !! k = Some j).
  { intros k j Hne HM. unfold M'. case_bool_decide as Hbd; [|done].
    rewrite lookup_delete_ne; [done|]. intros <-. congruence. }
  assert (Hlook : ∀ j u, <[i := s']> st !! j = Some u →
            j = i ∧ u = s' ∨ j ≠ i ∧ st !! j = Some u).
  { intros j u [(-> & <- & _)|[? Hj]]%list_lookup_insert_Some; auto. }
  assert (Hout : ∀ j, out_of_map M j → out_of_map M' j).
  { intros j Hj k HM. apply (Hj k). by eapply lookup_weaken. }
  split.
  - intros j u [[-> ->]|[_ Hj]]%Hlook; [done|by eapply wf_sessions].
  - intros k j HM. pose proof (lookup_weaken _ _ _ _ HM Hsub) as HM0.
    destruct (wf_map _ _ _ _ _ _ _ Hw k j HM0) as (u & Hu & ?). exists u.
    rewrite list_lookup_insert_ne; [done|]. intros ->. by apply (Hi' k).
  - intros j u [[-> ->]|[Hne Hj]]%Hlook Hdn; [auto|].
    destruct (wf_open _ _ _ _ _ _ _ Hw j u Hj Hdn) as [?|[?|[?|?]]]; auto.
  - intros j Hj. destruct (wf_todo _ _ _ _ _ _ _ Hw j Hj) as (? & ? & ?).
    split_and!; [auto|done|]. apply lookup_lt_is_Some. rewrite length_insert. by apply lookup_lt_is_Some.
  - intros j u [[-> ->]|[Hne Hj]]%Hlook Hlc; [done|]. eapply Hout, wf_loop; eauto.
  - intros j Hj. destruct (wf_bld _ _ _ _ _ _ _ Hw j Hj) as (? & u & Hu & ?).
    split; [auto|]. exists u. rewrite list_lookup_insert_ne; [done|]. congruence.
  - intros Hmt. rewrite (wf_gauges _ _ _ _ _ _ _ Hw Hmt), (open_count_insert st i s _ Hi).
    unfold open_one, zlen. rewrite Hd, length_insert. f_equal. lia.
Qed.

(** A closed session's goroutine has left [removeSession]. *)
Lemma wf_exit m0 mt bld todo M st m i s s' :
  wf m0 mt bld todo M st m → st !! i = Some s → session_ok mt s' →
  key s' = key s → done s = true → done s' = true → out_of_map M i → bld ≠ Some i →
  wf m0 mt bld todo M (<[i := s']> st) m.
Proof.
  intros Hw Hi Hs' Hk Hd Hd' Hout Hb. pose proof (lookup_lt_Some _ _ _ Hi) as Hlt.
  assert (Hlook : ∀ j u, <[i := s']> st !! j = Some u →
            j = i ∧ u = s' ∨ j ≠ i ∧ st !! j = Some u).
  { intros j u [(-> & <- & _)|[? Hj]]%list_lookup_insert_Some; auto. }
  split.
  - intros j u [[-> ->]|[_ Hj]]%Hlook; [done|by eapply wf_sessions].
  - intros k j HM. destruct (wf_map _ _ _ _ _ _ _ Hw k j HM) as (u & Hu & ?). exists u.
    rewrite list_lookup_insert_ne; [done|]. intros ->. by apply (Hout k).
  - intros j u [[-> ->]|[Hne Hj]]%Hlook Hdn; [congruence|by eapply wf_open].
  - intros j Hj. destruct (wf_todo _ _ _ _ _ _ _ Hw j Hj) as (? & ? & ?).
    split_and!; [done..|]. apply lookup_lt_is_Some. rewrite length_insert. by apply lookup_lt_is_Some.
  - intros j u [[-> ->]|[Hne Hj]]%Hlook Hlc; [done|]. by eapply wf_loop.
  - intros j Hj. destruct (wf_bld _ _ _ _ _ _ _ Hw j Hj) as (? & u & Hu & ?).
    split; [done|]. exists u. rewrite list_lookup_insert_ne; [done|]. congruence.
  - intros Hmt. rewrite (wf_gauges _ _ _ _ _ _ _ Hw Hmt), (open_count_insert st i s _ Hi).
    unfold open_one, zlen. rewrite Hd, Hd', length_insert. f_equal. lia.
Qed.

End wf.
