(* ===== verification/ProxyInv.v ===== *)
(** * ProxyInv: every step of the proxy keeps its invariant

    [pinv] is the invariant of the whole proxy: [wf] of its sessions, and what the
    positions of [Serve], [Close] and the sweeper mean. [step_pinv] shows that every
    step of every goroutine keeps it and that none panics. *)

From S2P Require Import Prelude Profile Pipeline PipelineProofs PipelineTheorems Addr Lane Proxy ProxyProofs.

Section inv.
Context {R : Type} `{RandLaws R}.
Implicit Types (p : Proxy R) (s : Session R) (st : list (Session R)).

Definition building p : option nat :=
  match serve p with SInsert _ i _ | SDiscard i _ _ => Some i | _ => None end.
Definition closer_todo p : list nat := match closer p with CClosing _ todo => todo | _ => [] end.
Definition sweeper_todo p : list nat := match sweeper p with WClosing todo => todo | _ => [] end.
(** The sessions [Close] took out of the map. *)
Definition drained p : list nat :=
  match closer p with CClosing all _ | CDone all => all | _ => [] end.

Definition serve_ok p : Prop :=
  match serve p with
  | SInsert k i _ => ∃ s, store p !! i = Some s ∧ key s = k
  | SDiscard _ i _ | SEnqueue i _ => is_Some (store p !! i)
  | _ => True
  end.

Definition proxy_wf (m0 : ProxyMetrics) (bld : option nat) (todo : list nat) p : Prop :=
  wf m0 (metered (config p)) bld todo (sessions p) (store p) (met p).

Record pinv (m0 : ProxyMetrics) p : Prop := {
  pi_wf : proxy_wf m0 (building p) (closer_todo p ++ sweeper_todo p) p;
  pi_profile : safe_cfg (Profile.ToServer (profile (config p))) ∧
    safe_cfg (Profile.ToClient (profile (config p)));
  pi_serve : serve_ok p;
  pi_drained i : i ∈ drained p →
    i ∈ closer_todo p ∨ ∃ s, store p !! i = Some s ∧ done s = true;
}.

(** Sessions stay in the store, keep their key, and stay closed once closed. *)
Definition sessions_grow st st' : Prop :=
  ∀ i s, st !! i = Some s →
    ∃ s', st' !! i = Some s' ∧ key s' = key s ∧ (done s = true → done s' = true).

Lemma sessions_grow_refl st : sessions_grow st st.
Proof. intros i s Hi. eauto. Qed.

Lemma sessions_grow_trans st1 st2 st3 : sessions_grow st1 st2 → sessions_grow st2 st3 → sessions_grow st1 st3.
Proof.
  intros H1 H2 i s Hi. destruct (H1 i s Hi) as (s' & Hi' & Hk & ?).
  destruct (H2 i s' Hi') as (s'' & ? & ? & ?). exists s''. split_and!; [done|congruence|auto].
Qed.

Lemma sessions_grow_insert st i s s' :
  st !! i = Some s → key s' = key s → (done s = true → done s' = true) →
  sessions_grow st (<[i := s']> st).
Proof.
  intros Hi Hk Hd j t Hj. destruct (decide (j = i)) as [->|].
  - rewrite Hi in Hj. injection Hj as <-. exists s'.
    rewrite list_lookup_insert_eq by (by eapply lookup_lt_Some). done.
  - exists t. by rewrite list_lookup_insert_ne by done.
Qed.

Lemma sessions_grow_app st st' : sessions_grow st (st ++ st').
Proof. intros i s Hi. exists s. split; [by apply lookup_app_l_Some|done]. Qed.

(** The parts of the invariant besides [wf] survive a step that leaves the
    positions of [Serve] and [Close] alone. *)
Lemma pinv_grow m0 p p' :
  pinv m0 p → config p' = config p → serve p' = serve p → closer p' = closer p →
  sessions_grow (store p) (store p') →
  proxy_wf m0 (building p) (closer_todo p ++ sweeper_todo p') p' → pinv m0 p'.
Proof.
  intros [Hw Hp Hs Hd] Hc Hsv Hcl Hg Hw'. split.
  - unfold building, closer_todo in *. by rewrite Hsv, Hcl.
  - by rewrite Hc.
  - unfold serve_ok in *. rewrite Hsv. destruct (serve p); try done;
      [destruct Hs as (s & Hi & <-)|destruct Hs as [s Hi]..];
      destruct (Hg _ _ Hi) as (s' & ? & ? & _); eauto.
  - intros i. unfold drained, closer_todo in *. rewrite Hcl. intros Hi.
    destruct (Hd i Hi) as [?|(s & Hs' & Hdn)]; [auto|].
    destruct (Hg i s Hs') as (s' & ? & _ & ?). eauto.
Qed.

(** A session changes its own state only. *)
Lemma pinv_put m0 p i s s' m' :
  pinv m0 p → store p !! i = Some s → session_ok (metered (config p)) s' →
  status s' = status s → (building p = Some i → unstarted s') → gauges m' = gauges (met p) →
  pinv m0 (put_session p i s' m').
Proof.
  intros Hp Hi Hs' Hst Hb Hg. pose proof Hst as [= Hk Hd _].
  eapply pinv_grow; try done; simpl.
  - apply (sessions_grow_insert _ i s); [done..|congruence].
  - eapply wf_put; try done. apply Hp.
Qed.

(** [Serve] moves on; it no longer builds a session unless it says so. *)
Lemma pinv_serve m0 p pc :
  pinv m0 p → proxy_wf m0 (building (set_serve p pc)) (closer_todo p ++ sweeper_todo p) p →
  serve_ok (set_serve p pc) → pinv m0 (set_serve p pc).
Proof. intros [Hw Hp Hs Hd] Hw' Hs'. by split. Qed.

(** [Serve] moves on, neither having built nor building a session. *)
Lemma pinv_serve_plain m0 p pc :
  pinv m0 p → building p = None → building (set_serve p pc) = None →
  serve_ok (set_serve p pc) → pinv m0 (set_serve p pc).
Proof.
  intros Hp Hb Hb' Hs. apply pinv_serve; [done| |done]. rewrite Hb', <-Hb. apply Hp.
Qed.

Lemma add_met_eq f p :
  add_met p f = set_store p (store p) (if metered (config p) then f (met p) else met p).
Proof. unfold add_met. by destruct (metered _), p. Qed.

Lemma add_met_gauges f p :
  (∀ m, gauges (f m) = gauges m) → gauges (met (add_met p f)) = gauges (met p).
Proof. intros Hf. unfold add_met. destruct (metered _); [apply Hf|done]. Qed.

(** ** [Serve] *)

Lemma new_session_unstarted t k client (ps pc : Pipeline R ProxyMetrics) :
  unstarted (touch t (new_session k client ps pc)).
Proof. split_and!; simpl; eauto. Qed.

Lemma new_lane_ok c seed mt dir (ps : Pipeline R ProxyMetrics) :
  safe_cfg c → NewPipelineWithHooks c seed (pipelineHooks mt dir) = Ok ps →
  lane_ok mt dir (new_lane ps).
Proof. intros Hc [-> _]%NewPipelineWithHooks_ok. by split_and!. Qed.

Lemma NewPipelineWithHooks_no_panic c seed (hs : Hooks ProxyMetrics) :
  NewPipelineWithHooks (R:=R) c seed hs ≠ Panic.
Proof.
  unfold NewPipelineWithHooks. destruct (DirectionConfig_Validate c "direction") eqn:E; try done.
  revert E. unfold DirectionConfig_Validate. repeat case_match; done.
Qed.

Definition good m0 (r : outcome disabled (Proxy R)) : Prop :=
  match r with Ok p => pinv m0 p | Err _ => True | Panic => False end.

Lemma build_session_good m0 p k client d dial_ok rb_ok :
  pinv m0 p → building p = None → good m0 (build_session p k client d dial_ok rb_ok).
Proof.
  intros Hp Hb. unfold build_session.
  assert (Hback : pinv m0 (set_serve p SReading)) by by apply pinv_serve_plain.
  destruct (dial_ok && rb_ok); simpl; [|done].
  destruct (pi_profile _ _ Hp) as [Hps Hpc].
  destruct (NewPipelineWithHooks (Profile.ToServer _) _ _) as [ps| |] eqn:Es; simpl;
    [|done|by apply NewPipelineWithHooks_no_panic in Es].
  destruct (NewPipelineWithHooks (Profile.ToClient _) _ _) as [pc| |] eqn:Ec; simpl;
    [|done|by apply NewPipelineWithHooks_no_panic in Ec].
  apply (new_lane_ok _ _ _ _ _ Hps) in Es. apply (new_lane_ok _ _ _ _ _ Hpc) in Ec.
  pose proof (pi_wf _ _ Hp) as Hw. rewrite Hb in Hw.
  rewrite add_met_eq. simpl.
  assert (Hok : session_ok (metered (config p)) (touch (now p) (new_session k client ps pc)))
    by by split_and!.
  eapply wf_build in Hw; [|exact Hok|apply new_session_unstarted|done].
  destruct Hp as [_ Hp Hs Hd]. split; [exact Hw|done| |].
  - unfold serve_ok. simpl. eexists. split; [by rewrite lookup_app_r, Nat.sub_diag by done|done].
  - intros i Hi. destruct (Hd i Hi) as [?|(s & ? & ?)]; [by left|right; exists s].
    split; [by apply lookup_app_l_Some|done].
Qed.

Lemma enqueue_status b d s r s' :
  enqueueIncoming b d s = (r, s') → status s' = status s.
Proof. unfold enqueueIncoming. repeat case_match; intros; by simplify_eq. Qed.

Lemma enqueue_ok mt b d s r s' :
  session_ok mt s → enqueueIncoming b d s = (r, s') → session_ok mt s'.
Proof.
  intros (?&?&Hi&?). unfold enqueueIncoming.
  destruct (Z.ltb_spec (zlen (incoming s)) queueDepth);
    destruct (done s && (b || negb _)); intros [= _ <-]; split_and!; simpl; try done.
  all: autorewrite with go_len; lia.
Qed.

Lemma serve_insert_good m0 p k i d :
  pinv m0 p → serve p = SInsert k i d → good m0 (step_serve ServeInsert p).
Proof.
  intros Hp Epc. pose proof (pi_serve _ _ Hp) as Hs. unfold serve_ok in Hs. unfold step_serve.
  rewrite Epc in Hs |- *. destruct Hs as (s & Hi & <-). pose proof (pi_wf _ _ Hp) as Hw.
  assert (Hb : building p = Some i) by (unfold building; by rewrite Epc). rewrite Hb in Hw.
  destruct (sessions p !! key s) as [e|] eqn:Ek; simpl.
  - apply pinv_serve; [done|exact Hw|].
    destruct (wf_map _ _ _ _ _ _ _ Hw _ e Ek) as (s' & ? & _). unfold serve_ok. simpl. eauto.
  - unfold with_session. rewrite Hi. simpl.
    eapply (wf_insert _ _ _ _ _ _ i s (now p)) in Hw; [|done..].
    destruct Hp as [_ ? ? Hd]. split; try done; simpl.
    + unfold serve_ok. simpl. rewrite list_lookup_insert_eq by (by eapply lookup_lt_Some). eauto.
    + intros j Hj. destruct (Hd j Hj) as [?|(s' & Hj' & Hdn)]; [by left|right].
      destruct (sessions_grow_insert (store p) i s (start_session (now p) s) Hi ltac:(done) ltac:(done)
        j s' Hj') as (u & ? & _ & ?). eauto.
Qed.

Lemma serve_discard_good m0 p i e d :
  pinv m0 p → serve p = SDiscard i e d → good m0 (step_serve ServeDiscard p).
Proof.
  intros Hp Epc. pose proof (pi_serve _ _ Hp) as Hs. unfold serve_ok in Hs. unfold step_serve.
  rewrite Epc in Hs |- *. destruct Hs as [se He]. pose proof (pi_wf _ _ Hp) as Hw.
  assert (Hb : building p = Some i) by (unfold building; by rewrite Epc). rewrite Hb in Hw.
  destruct (wf_bld _ _ _ _ _ _ _ Hw i eq_refl) as (Hout & s & Hi & _).
  unfold with_session. rewrite Hi. simpl. unfold close_session.
  destruct (close (metered (config p)) s (met p)) as [s' m'] eqn:Ecl. simpl.
  assert (Hg : sessions_grow (store p) (<[i := s']> (store p))).
  { eapply sessions_grow_insert; [done|..].
    - unfold close in Ecl. by case_match; simplify_eq.
    - intros _. pose proof (close_done (metered (config p)) s (met p)) as Hdn.
      by rewrite Ecl in Hdn. }
  eapply (wf_close _ _ _ None _ _ _ _ _ i s) in Hw; [|done|done|by right|by eauto|by eauto].
  rewrite Ecl in Hw. destruct Hp as [_ ? ? Hd]. split; try done; simpl.
  - unfold serve_ok. simpl. destruct (Hg _ _ He) as (? & ? & _). eauto.
  - intros j Hj. destruct (Hd j Hj) as [?|(u & Hj' & Hdn)]; [by left|right].
    destruct (Hg _ _ Hj') as (v & ? & _ & ?). eauto.
Qed.

Lemma serve_enqueue_good m0 p pick_done i d :
  pinv m0 p → serve p = SEnqueue i d → good m0 (step_serve (ServeEnqueue pick_done) p).
Proof.
  intros Hp Epc. pose proof (pi_serve _ _ Hp) as Hs. unfold serve_ok in Hs. unfold step_serve.
  rewrite Epc in Hs |- *. destruct Hs as [s Hi]. unfold with_session. rewrite Hi.
  assert (Hnb : building p = None) by (unfold building; by rewrite Epc).
  destruct (enqueueIncoming pick_done (copyPacket d) s) as [r s'] eqn:Er. cbv zeta.
  set (p1 := add_met p (count_packet "to_server" (zlen d))).
  assert (Hp1 : pinv m0 (put_session p i s' (met p1))).
  { eapply (pinv_put m0 p i s); try done.
    - eapply enqueue_ok; [|done]. eapply wf_sessions; [apply Hp|done].
    - by eapply enqueue_status.
    - by rewrite Hnb.
    - by apply add_met_gauges. }
  replace (put_session p1 i s' (met p1)) with (put_session p i s' (met p1))
    by (unfold p1; by rewrite add_met_eq).
  assert (Hpc : ∀ pc, pc = SReading ∨ pc = SReturned false →
            pinv m0 (set_serve (put_session p i s' (met p1)) pc))
    by (intros pc [-> | ->]; by apply pinv_serve_plain).
  destruct r; apply Hpc; [by left|destruct (closed _); auto..].
Qed.

Lemma step_serve_good m0 a p : pinv m0 p → good m0 (step_serve a p).
Proof.
  intros Hp. destruct (serve p) as [|k client d|k client d|k i d|i e d|i d|f] eqn:Epc;
    destruct a; try (by unfold step_serve; rewrite ?Epc);
    first [eapply serve_insert_good; eassumption|eapply serve_discard_good; eassumption|eapply serve_enqueue_good; eassumption|idtac];
    assert (Hnb : building p = None) by (unfold building; by rewrite Epc); unfold step_serve; rewrite Epc.
  - destruct (listen_open p); simpl; [|done].
    destruct (udpAddrToAddrPort client) as [k| |]; [destruct client|..]; simpl; try done.
    by apply pinv_serve_plain.
  - by apply pinv_serve_plain.
  - destruct (sessions p !! k) as [i|] eqn:Ek; apply pinv_serve_plain; try done.
    destruct (wf_map _ _ _ _ _ _ _ (pi_wf _ _ Hp) k i Ek) as (s & ? & _).
    unfold serve_ok. simpl. eauto.
  - by apply build_session_good.
Qed.

(** ** The sweeper and [Close] *)

Lemma elem_of_remove_one i j l : j ∈ remove_one i l ↔ j ∈ l ∧ j ≠ i.
Proof. unfold remove_one. rewrite list_elem_of_filter. tauto. Qed.

Lemma elem_of_remove_one_or i j l : j ∈ l → j ∈ remove_one i l ∨ j = i.
Proof. rewrite elem_of_remove_one. destruct (decide (j = i)); auto. Qed.

(** [sess.close()] by someone who has the session on its list. *)
Lemma close_session_wf m0 p i todo' :
  pinv m0 p → i ∈ closer_todo p ++ sweeper_todo p →
  (∀ j, j ∈ todo' → j ∈ closer_todo p ++ sweeper_todo p) →
  (∀ j, j ∈ closer_todo p ++ sweeper_todo p → j ∈ todo' ∨ j = i) →
  ∃ s, store p !! i = Some s ∧
    proxy_wf m0 (building p) todo' (close_session p i s) ∧
    sessions_grow (store p) (store (close_session p i s)) ∧
    (∃ s', store (close_session p i s) !! i = Some s' ∧ done s' = true).
Proof.
  intros Hp Hi H1 H2. destruct (wf_todo _ _ _ _ _ _ _ (pi_wf _ _ Hp) i Hi) as (Hout & Hb & s & Hs).
  exists s. split; [done|]. unfold close_session.
  pose proof (wf_close _ _ _ (building p) _ todo' _ _ _ i s (pi_wf _ _ Hp) Hs Hout ltac:(by left) H1 H2)
    as Hw.
  pose proof (close_done (metered (config p)) s (met p)) as Hd.
  assert (Hk : key (close (metered (config p)) s (met p)).1 = key s) by (unfold close; by case_match).
  destruct (close _ s (met p)) as [s' m']. simpl in *.
  split_and!; [exact Hw| |].
  - by apply (sessions_grow_insert _ i s).
  - exists s'. by rewrite list_lookup_insert_eq by (by eapply lookup_lt_Some).
Qed.

Lemma step_sweep_good m0 a p : pinv m0 p → good m0 (step_sweep a p).
Proof.
  intros Hp. unfold step_sweep. destruct a, (sweeper p) as [|todo|] eqn:Esw; try done.
  - destruct (next_tick p <=? now p); simpl; [|done].
    eapply pinv_grow; try done; [apply sessions_grow_refl|].
    assert (Hidle : ∀ j, j ∈ idle_sessions p ↔
              ∃ k, sessions p !! k = Some j ∧ idle_entry p (k, j) = true).
    { intros j. unfold idle_sessions. rewrite list_elem_of_fmap. split.
      - intros ([k j'] & -> & [He Hin]%list_elem_of_filter).
        apply elem_of_map_to_list in Hin. eauto.
      - intros (k & Hk & He). exists (k, j). split; [done|]. apply list_elem_of_filter.
        split; [done|]. by apply elem_of_map_to_list. }
    pose proof (pi_wf _ _ Hp) as Hw. unfold sweeper_todo in Hw. rewrite Esw, app_nil_r in Hw.
    unfold sweeper_todo. simpl.
    eapply wf_shrink; [exact Hw|apply map_filter_subseteq|set_solver| |].
    + intros j [?|(k & Hk & He)%Hidle]%elem_of_app; [by left|right]. exists k. split; [done|].
      apply map_lookup_filter_None. right. intros x Hx. rewrite Hk in Hx. injection Hx as <-.
      by rewrite He.
    + intros k j Hk. destruct (idle_entry p (k, j)) eqn:He.
      * right. apply elem_of_app. right. apply Hidle. eauto.
      * left. by apply map_lookup_filter_Some.
  - case_bool_decide as Hin; simpl; [|done].
    assert (Hst : sweeper_todo p = todo) by (unfold sweeper_todo; by rewrite Esw).
    destruct (close_session_wf m0 p i (closer_todo p ++ remove_one i todo) Hp)
      as (s & Hs & Hw & Hg & _); rewrite ?Hst.
    + set_solver.
    + intros j. rewrite !elem_of_app, elem_of_remove_one. tauto.
    + intros j [?|?%(elem_of_remove_one_or i)]%elem_of_app; set_solver.
    + unfold with_session. rewrite Hs. simpl.
      eapply pinv_grow; try done; try (by unfold close_session; destruct (close _ _ _)).
  - destruct (ctx_done p || closed p); simpl; [|done].
    eapply pinv_grow; try done; [apply sessions_grow_refl|].
    pose proof (pi_wf _ _ Hp) as Hw. unfold sweeper_todo in *. by rewrite Esw in Hw.
  - destruct todo; [|done]. eapply pinv_grow; try done; [apply sessions_grow_refl|].
    pose proof (pi_wf _ _ Hp) as Hw. unfold sweeper_todo in *. by rewrite Esw in Hw.
Qed.

Lemma step_close_good m0 a p : pinv m0 p → good m0 (step_close a p).
Proof.
  intros Hp. unfold step_close. pose proof (pi_wf _ _ Hp) as Hw.
  destruct a, (closer p) as [| |all todo|all] eqn:Ecl; try done.
  - destruct Hp as [? ? Hs ?]. unfold closer_todo in *. rewrite Ecl in *. split; try done.
    by intros i ?%elem_of_nil.
  - destruct Hp as [? ? Hs ?]. unfold closer_todo in Hw. rewrite Ecl in Hw.
    split; try done; [|simpl; by left].
    eapply wf_shrink; [exact Hw|apply map_empty_subseteq|set_solver| |].
    + intros j [([k j'] & -> & Hk%elem_of_map_to_list)%list_elem_of_fmap|?]%elem_of_app;
        [right|by left]. exists k. split; [done|apply lookup_empty].
    + intros k j Hk. right. apply elem_of_app. left. apply list_elem_of_fmap.
      exists (k, j). split; [done|]. by apply elem_of_map_to_list.
  - case_bool_decide as Hin; simpl; [|done].
    assert (Hct : closer_todo p = todo) by (unfold closer_todo; by rewrite Ecl).
    destruct (close_session_wf m0 p i (remove_one i todo ++ sweeper_todo p) Hp)
      as (s & Hs & Hw' & Hg & s' & Hs' & Hdn); rewrite ?Hct.
    + set_solver.
    + intros j. rewrite !elem_of_app, elem_of_remove_one. tauto.
    + intros j [?%(elem_of_remove_one_or i)|?]%elem_of_app; set_solver.
    + unfold with_session. rewrite Hs. simpl. destruct Hp as [_ Hp Hsv Hd].
      unfold close_session in *. destruct (close _ s (met p)) as [s1 m1]. simpl in *.
      split; simpl; try done.
      * unfold serve_ok in *. simpl. destruct (serve p); try done;
          [destruct Hsv as (u & Hu & <-)|destruct Hsv as [u Hu]..];
          destruct (Hg _ _ Hu) as (u' & ? & ? & _); eauto.
      * intros j Hj. unfold drained in *. rewrite Ecl in Hd. simpl in *.
        destruct (Hd j Hj) as [Ht|(u & Hu & Hdu)].
        -- unfold closer_todo in Ht. rewrite Ecl in Ht.
           destruct (elem_of_remove_one_or i j _ Ht) as [?| ->]; eauto.
        -- right. destruct (Hg _ _ Hu) as (u' & ? & _ & ?). eauto.
  - destruct todo; [|done]. destruct Hp as [? ? Hs Hd]. split; try done.
    + unfold closer_todo in *. by rewrite Ecl in Hw.
    + intros i Hi. unfold drained, closer_todo in *. rewrite Ecl in Hd. simpl in *.
      by destruct (Hd i Hi) as [?%elem_of_nil|?]; [|right].
Qed.

(** ** The goroutines of the sessions *)

Lemma set_phase_closing s r : loop_closing (set_phase PhClose r s) = true.
Proof.
  unfold loop_closing. destruct r; simpl; [done|by rewrite orb_true_r|by rewrite orb_true_r].
Qed.

Lemma in_phase_not_unstarted ph r s : ph ≠ PhExited → in_phase ph r s = true → ¬ unstarted s.
Proof.
  intros Hph Hin (_ & Hr & [p1 Hs] & [p2 Hc]). destruct r, ph; simpl in Hin; try done;
    by rewrite ?Hr, ?Hs, ?Hc in Hin.
Qed.

Lemma started_not_building m0 p i s :
  pinv m0 p → store p !! i = Some s → ¬ unstarted s → building p ≠ Some i.
Proof.
  intros Hp Hi Hu Hb. destruct (wf_bld _ _ _ _ _ _ _ (pi_wf _ _ Hp) i Hb) as (_ & s' & Hs' & ? & _).
  congruence.
Qed.

Lemma remove_entry_good m0 p i r s :
  pinv m0 p → store p !! i = Some s → in_phase PhRemove r s = true →
  pinv m0 (remove_entry i s (put_session p i (set_phase PhClose r s) (met p))).
Proof.
  intros Hp Hi Hph. pose proof (wf_sessions _ _ _ _ _ _ _ (pi_wf _ _ Hp) i s Hi) as Hok.
  assert (Hb : building p ≠ Some i) 
    by (eapply started_not_building; [done..|by apply (in_phase_not_unstarted PhRemove r)]).
  assert (Hkd : key (set_phase PhClose r s) = key s ∧ done (set_phase PhClose r s) = done s)
    by by destruct r.
  destruct Hkd as [Hk Hd].
  pose proof (wf_remove_entry _ _ _ _ _ _ _ i s (set_phase PhClose r s) (pi_wf _ _ Hp) Hi
    (set_phase_ok _ _ _ _ Hok) Hk Hd (set_phase_closing s r) Hb) as Hw.
  apply (pinv_grow m0 p); try done; unfold remove_entry; simpl;
    case_bool_decide; simpl; try done; apply (sessions_grow_insert _ i s); congruence.
Qed.

Lemma remove_close_good m0 p i r s :
  pinv m0 p → store p !! i = Some s → in_phase PhClose r s = true →
  good m0 (let p := close_session p i s in
           with_session p i (λ s, Ok (put_session p i (set_phase PhExited r s) (met p)))).
Proof.
  intros Hp Hi Hph. pose proof (pi_wf _ _ Hp) as Hw.
  assert (Hb : building p ≠ Some i) 
    by (eapply started_not_building; [done..|by apply (in_phase_not_unstarted PhClose r)]).
  assert (Hlc : loop_closing s = true).
  { unfold loop_closing. destruct r; rewrite Hph; by rewrite ?orb_true_r. }
  pose proof (wf_loop _ _ _ _ _ _ _ Hw i s Hi Hlc) as Hout.
  pose proof (lookup_lt_Some _ _ _ Hi) as Hlt.
  pose proof (wf_close _ _ _ (building p) _ _ _ _ _ i s Hw Hi Hout ltac:(by left)
    (λ j Hj, Hj) (λ j Hj, or_introl Hj)) as Hw1.
  pose proof (close_done (metered (config p)) s (met p)) as Hd.
  assert (Hk : key (close (metered (config p)) s (met p)).1 = key s) by (unfold close; by case_match).
  unfold close_session. destruct (close _ s (met p)) as [s1 m1]. cbv zeta. simpl in Hw1, Hd, Hk.
  unfold with_session. simpl. rewrite list_lookup_insert_eq by done. simpl.
  assert (Hkd : key (set_phase PhExited r s1) = key s1 ∧ done (set_phase PhExited r s1) = true)
    by by destruct r.
  destruct Hkd as [Hk2 Hd2].
  eapply pinv_grow; [exact Hp|done..| |]; unfold proxy_wf; simpl; rewrite list_insert_insert_eq.
  { apply (sessions_grow_insert _ i s); [done|congruence|done]. }
  pose proof (wf_exit _ _ _ _ _ _ _ i s1 (set_phase PhExited r s1) Hw1
    ltac:(by rewrite list_lookup_insert_eq)
    (set_phase_ok _ _ _ _ (wf_sessions _ _ _ _ _ _ _ Hw1 i s1 ltac:(by rewrite list_lookup_insert_eq)))
    ltac:(congruence) Hd Hd2 Hout Hb) as Hw2.
  by rewrite list_insert_insert_eq in Hw2.
Qed.

Lemma in_session_good m0 p i a s :
  pinv m0 p → store p !! i = Some s →
  good m0 (let! (s, m) := session_step (metered (config p)) (now p) (listen_open p) a s (met p) in
           Ok (put_session p i s m)).
Proof.
  intros Hp Hi. pose proof (wf_sessions _ _ _ _ _ _ _ (pi_wf _ _ Hp) i s Hi) as Hok.
  pose proof (session_step_post _ (now p) (listen_open p) a s (met p) Hok) as Hpost.
  destruct (session_step _ _ _ _ _ _) as [[s' m']|e|] eqn:E; simpl in *; try done.
  destruct Hpost as (? & ? & ?). apply (pinv_put m0 p i s); try done.
  intros Hb. destruct (wf_bld _ _ _ _ _ _ _ (pi_wf _ _ Hp) i Hb) as (_ & s0 & Hs0 & Hu & _).
  rewrite Hi in Hs0. injection Hs0 as <-. by rewrite unstarted_step in E.
Qed.

Lemma step_pinv m0 a p : pinv m0 p → good m0 (step a p).
Proof.
  intros Hp. destruct a; try (by apply step_serve_good); try (by apply step_sweep_good);
    try (by apply step_close_good); simpl.
  - destruct (0 <=? d); simpl; [|done]. eapply pinv_grow; try done; [apply sessions_grow_refl|apply Hp].
  - eapply pinv_grow; try done; [apply sessions_grow_refl|apply Hp].
  - unfold with_session. destruct (store p !! i) as [s|] eqn:Hi; simpl; [|done].
    by apply in_session_good.
  - unfold with_session. destruct (store p !! i) as [s|] eqn:Hi; simpl; [|done].
    destruct (in_phase PhRemove r s) eqn:Eph; simpl; [|done]. by apply remove_entry_good.
  - unfold with_session at 1. destruct (store p !! i) as [s|] eqn:Hi; simpl; [|done].
    destruct (in_phase PhClose r s) eqn:Eph; simpl; [|done]. by apply remove_close_good.
Qed.

(** The configuration never changes. *)
Lemma close_session_config p i s : config (close_session p i s) = config p.
Proof. unfold close_session. by destruct (close _ _ _). Qed.

Lemma step_config a p p' : step a p = Ok p' → config p' = config p.
Proof.
  unfold step, step_serve, step_sweep, step_close, with_session, guard, build_session,
    remove_entry.
  intros Hs. destruct a; repeat case_match; simplify_eq/=;
    rewrite ?add_met_eq, ?close_session_config; try done; inv_ok; try done.
  all: repeat case_match; simplify_eq/=; by rewrite ?close_session_config.
Qed.

Lemma steps_pinv m0 acts p : pinv m0 p → good m0 (steps acts p).
Proof.
  revert p. induction acts as [|a acts IH]; intros p Hp; simpl; [done|].
  pose proof (step_pinv m0 a p Hp) as Hs. destruct (step a p) as [p'|e|]; simpl in *; auto.
Qed.

End inv.
