(* ===== verification/ProxyRelay.v ===== *)
(** * ProxyRelay: what holds of every session of a running proxy

    [SessionInvariant] states what makes a predicate on sessions hold of every
    session the proxy ever has: it is kept by what a session does, and by what the
    rest of the proxy does to it. Two instances follow: the loop of a lane never
    sleeps past the next release, and with the passthrough profile a lane relays
    its packets unchanged and in order. *)

From S2P Require Import Prelude Heap Profile Pipeline PipelineProofs PipelineTheorems Addr Lane Proxy ProxyProofs ProxyInv.

Section invariants.
Context {R : Type} `{RandLaws R}.
Implicit Types (p : Proxy R) (s : Session R) (l : Lane R) (m : ProxyMetrics).

(** [P t s]: the session [s] is well-behaved at time [t], for a proxy with the
    profile [prof] and with or without metrics. *)
Class SessionInvariant (prof : Profile) (mt : bool) (P : Z → Session R → Prop) := {
  si_time t t' s : P t s → t ≤ t' → P t' s;
  si_new t k client ps pc :
    NewPipelineWithHooks (Profile.ToServer prof) (sessionSeed (Seed prof) k "to-server")
      (pipelineHooks mt "to_server") = Ok ps →
    NewPipelineWithHooks (Profile.ToClient prof) (sessionSeed (Seed prof) k "to-client")
      (pipelineHooks mt "to_client") = Ok pc →
    P t (touch t (new_session k client ps pc));
  si_start t s : P t s → unstarted s → P t (start_session t s);
  si_step t lo a s m s' m' :
    session_ok mt s → P t s → session_step mt t lo a s m = Ok (s', m') → P t s';
  si_enqueue t b d s r s' : P t s → enqueueIncoming b d s = (r, s') → P t s';
  si_close t s m : P t s → P t (close mt s m).1;
  si_remove t r s : P t s → in_phase PhRemove r s = true → P t (set_phase PhClose r s);
  si_exit t r s : P t s → in_phase PhClose r s = true → P t (set_phase PhExited r s);
}.

Definition all_sessions (P : Z → Session R → Prop) p : Prop :=
  ∀ i s, store p !! i = Some s → P (now p) s.

Section preserved.
Context (m0 : ProxyMetrics) (prof : Profile) (mt : bool) (P : Z → Session R → Prop).
Context `{!SessionInvariant prof mt P}.

Lemma all_put p i s m :
  all_sessions P p → P (now p) s → all_sessions P (put_session p i s m).
Proof.
  intros Hp Hs j t [(<- & <- & _)|[_ Hj]]%list_lookup_insert_Some; [done|by apply (Hp j)].
Qed.

Lemma all_close p i s :
  metered (config p) = mt → all_sessions P p → store p !! i = Some s →
  all_sessions P (close_session p i s).
Proof.
  intros Hm Hp Hi. unfold close_session. rewrite Hm.
  pose proof (si_close (now p) s (met p) (Hp i s Hi)) as Hc.
  destruct (close mt s (met p)) as [s' m']. by apply all_put.
Qed.

Lemma close_session_now p i s : now (close_session p i s) = now p.
Proof. unfold close_session. by destruct (close _ _ _). Qed.

Lemma all_serve a p p' :
  profile (config p) = prof → metered (config p) = mt → pinv m0 p → all_sessions P p →
  step_serve a p = Ok p' → all_sessions P p'.
Proof.
  intros Hprof Hm Hpi Hp. unfold step_serve.
  destruct a, (serve p) as [|k cl d0|k cl d0|k j d0|j e d0|j d0|f] eqn:Epc; try done.
  - destruct (listen_open p); simpl; [|done].
    destruct (udpAddrToAddrPort client); [destruct client|..]; intros [= <-]; exact Hp.
  - intros [= <-]. exact Hp.
  - destruct (sessions p !! k); intros [= <-]; exact Hp.
  - unfold build_session. destruct (dial_ok && read_buffer_ok); simpl; [|by intros [= <-]].
    rewrite Hprof, Hm.
    destruct (NewPipelineWithHooks _ _ (pipelineHooks mt "to_server")) as [ps| |] eqn:Es;
      [|by intros [= <-]|done].
    destruct (NewPipelineWithHooks _ _ (pipelineHooks mt "to_client")) as [pc| |] eqn:Ec;
      [|by intros [= <-]|done].
    intros [= <-]. rewrite add_met_eq. simpl.
    intros x t [Hj|[_ [_ <-]%list_lookup_singleton_Some]]%lookup_app_Some; [by apply (Hp x)|].
    by apply si_new.
  - destruct (sessions p !! k); [by intros [= <-]|]. unfold with_session.
    destruct (store p !! j) as [s|] eqn:Hi; simpl; [|done]. intros [= <-].
    apply (all_put p j); [done|]. apply si_start; [by apply (Hp j)|].
    destruct (wf_bld _ _ _ _ _ _ _ (pi_wf _ _ Hpi) j) as (_ & s0 & Hs0 & Hu & _);
      [unfold building; by rewrite Epc|]. congruence.
  - unfold with_session. destruct (store p !! j) as [s|] eqn:Hi; simpl; [|done]. intros [= <-].
    by apply all_close.
  - unfold with_session. destruct (store p !! j) as [s|] eqn:Hi; simpl; [|done].
    destruct (enqueueIncoming pick_done (copyPacket d0) s) as [r s'] eqn:Er.
    assert (Hs' : P (now p) s') by (eapply si_enqueue; [by apply (Hp j)|done]).
    rewrite add_met_eq. simpl. set (m := if metered _ then _ else _).
    pose proof (all_put p j s' m Hp Hs') as Hall. destruct r; intros [= <-]; exact Hall.
Qed.

Lemma all_step a p p' :
  profile (config p) = prof → metered (config p) = mt → pinv m0 p → all_sessions P p →
  step a p = Ok p' → all_sessions P p'.
Proof.
  intros Hprof Hm Hpi Hp. destruct a;
    try (exact (all_serve _ p p' Hprof Hm Hpi Hp)); simpl.
  - destruct (0 <=? d) eqn:?; simpl; [|done]. intros [= <-] j t Hj.
    eapply si_time; [by apply (Hp j)|]. simpl. lia.
  - intros [= <-]. exact Hp.
  - unfold step_sweep. destruct (sweeper p); try done.
    destruct (_ <=? _); simpl; [|done]. intros [= <-]. exact Hp.
  - unfold step_sweep. destruct (sweeper p); try done.
    case_bool_decide; simpl; [|done]. unfold with_session.
    destruct (store p !! i) as [s|] eqn:Hi; simpl; [|done]. intros [= <-].
    by apply (all_close p i s).
  - unfold step_sweep. destruct (sweeper p) as [|[]|]; try done.
    + destruct (_ || _); simpl; [|done]. intros [= <-]. exact Hp.
    + intros [= <-]. exact Hp.
  - unfold step_close. destruct (closer p); try done. intros [= <-]. exact Hp.
  - unfold step_close. destruct (closer p); try done. intros [= <-]. exact Hp.
  - unfold step_close. destruct (closer p); try done.
    case_bool_decide; simpl; [|done]. unfold with_session.
    destruct (store p !! i) as [s|] eqn:Hi; simpl; [|done]. intros [= <-].
    by apply (all_close p i s).
  - unfold step_close. destruct (closer p) as [| |all [|]|]; try done. intros [= <-]. exact Hp.
  - unfold with_session. destruct (store p !! i) as [s|] eqn:Hi; simpl; [|done].
    rewrite Hm. destruct (session_step _ _ _ _ _ _) as [[s' m']|e|] eqn:E; simpl; try done.
    intros [= <-]. apply all_put; [done|]. eapply si_step; [|by apply (Hp i)|exact E].
    rewrite <-Hm. eapply wf_sessions; [apply Hpi|done].
  - unfold with_session. destruct (store p !! i) as [s|] eqn:Hi; simpl; [|done].
    destruct (in_phase PhRemove r s) eqn:Eph; simpl; [|done]. intros [= <-].
    unfold remove_entry. case_bool_decide; (apply (all_put p i); [done|]);
      apply si_remove; [by apply (Hp i)|done|by apply (Hp i)|done].
  - unfold with_session at 1. destruct (store p !! i) as [s|] eqn:Hi; simpl; [|done].
    destruct (in_phase PhClose r s) eqn:Eph; simpl; [|done].
    pose proof (all_close p i s Hm Hp Hi) as Hall. unfold with_session.
    destruct (store (close_session p i s) !! i) as [s1|] eqn:Hi1; [|done]. intros [= <-].
    apply all_put; [done|]. apply si_exit; [by apply (Hall i)|].
    unfold close_session in Hi1. destruct (close _ s (met p)) as [s2 m2] eqn:Ec.
    apply list_lookup_insert_Some in Hi1 as [(_ & <- & _)|[? _]]; [|done].
    unfold close in Ec. destruct (done s); simplify_eq; [done|]. by destruct r.
Qed.

Lemma all_steps acts p p' :
  profile (config p) = prof → metered (config p) = mt → pinv m0 p → all_sessions P p →
  steps acts p = Ok p' → all_sessions P p'.
Proof.
  revert p. induction acts as [|a acts IH]; intros p Hprof Hm Hpi Hp; simpl.
  { by intros [= <-]. }
  pose proof (step_pinv m0 a p Hpi) as Hg.
  destruct (step a p) as [p1|e|] eqn:E; simpl; try done.
  apply step_config in E as Hc. apply IH; try congruence; [exact Hg|by eapply all_step].
Qed.
End preserved.
(** ** The loop of a lane wakes up in time *)

(** The timer has no stale value while its channel is not selected on, and in the
    select it is due no later than the next wake-up of the pipeline. *)
Definition lane_timed (t : Z) l : Prop :=
  (timerCh l = false → timer l = mkTimer None false) ∧
  (∀ d, deadline (timer l) = Some d → fired (timer l) = false) ∧
  (lpc l = LWait →
     match NextWake (pipeline l) with
     | None => timerCh l = false
     | Some next => timerCh l = true ∧
         (fired (timer l) = true ∨
          ∃ d, deadline (timer l) = Some d ∧ d ≤ Z.max t next)
     end).

Lemma stop_and_drain_eq (tm : Timer) :
  (∀ d, deadline tm = Some d → fired tm = false) → stop_and_drain tm = mkTimer None false.
Proof.
  destruct tm as [[d|] f]; unfold stop_and_drain, drain; simpl; [|done].
  intros Hf. by rewrite (Hf d eq_refl).
Qed.

Lemma resetTimer_spec t l :
  lane_timed t l →
  resetTimer t (timer l) (timerCh l) (NextWake (pipeline l)) =
    match NextWake (pipeline l) with
    | None => (mkTimer None false, false)
    | Some next =>
        (mkTimer (Some (t + Z.max 0 (time_Sub next t))) false, true)
    end.
Proof.
  intros (H1 & H2 & _). unfold resetTimer.
  assert ((if timerCh l then stop_and_drain (timer l) else timer l) = mkTimer None false) as ->.
  { destruct (timerCh l) eqn:E; [by apply stop_and_drain_eq|by apply H1]. }
  destruct (NextWake _) as [next|]; [|done]. simpl. repeat f_equal.
  destruct (Z.ltb_spec (time_Sub next t) 0); lia.
Qed.

Lemma lane_timed_time t t' l : lane_timed t l → t ≤ t' → lane_timed t' l.
Proof.
  intros (H1 & H2 & H3) Ht. split_and!; [done..|]. intros Hw. specialize (H3 Hw).
  destruct (NextWake _) as [next|]; [|done]. destruct H3 as [? [?|(d & ? & ?)]]; split; auto.
  right. exists d. split; [done|lia].
Qed.

(** Away from the select only the timer matters. *)
Lemma lane_timed_pc t l l' :
  lane_timed t l → timer l' = timer l → timerCh l' = timerCh l → lpc l' ≠ LWait →
  lane_timed t l'.
Proof. intros (H1 & H2 & _) Ht Hc Hpc. unfold lane_timed. rewrite Ht, Hc. by split_and!. Qed.

Lemma lane_timed_input t l q : lane_timed t l → lane_timed t (set_input l q).
Proof. done. Qed.

Lemma lane_timed_step t dn wr a l m l' m' tc :
  lane_timed t l → lane_step t dn wr a l m = Ok (l', m', tc) → lane_timed t l'.
Proof.
  intros Hl. pose proof (resetTimer_spec t l Hl) as Hreset. unfold lane_step.
  destruct a as [|ok| | | | |]; destruct (lpc l) as [|fin|[|d rest] [|]| | | |] eqn:Epc; try done.
  all: try (destruct ok; [destruct wr; [|done]|]; intros [= <- <- <-]; by eapply lane_timed_pc).
  all: try (destruct (expire t (timer l)) as [tm|] eqn:Ee; [|done]; intros [= <- <- <-];
    unfold expire in Ee; destruct (deadline (timer l)) as [dl|] eqn:Ed; [|done];
    destruct (dl <=? t); [|done]; injection Ee as <-; destruct Hl as (H1 & _ & H3);
    split_and!; [intros Hc; by rewrite H1 in Ed|done|rewrite Epc in H3; simpl; rewrite Epc; try done]).
  - destruct (ReleaseReady t _) as [[out [p' m1]]|[]|]; simpl; try done.
    intros [= <- <- <-]. by eapply lane_timed_pc.
  - intros [= <- <- <-]. by eapply lane_timed_pc.
  - rewrite Hreset. destruct (NextWake (pipeline l)) as [next|] eqn:En; intros [= <- <- <-];
      unfold lane_timed; simpl; rewrite En; split_and!; try done.
    intros _. split; [done|]. right. eexists. split; [done|].
    unfold time_Sub, min_int64. lia.
  - destruct dn; simpl; [|done]. destruct (Flush t _) as [[p' m1]|[]|]; simpl; try done.
    intros [= <- <- <-]. by eapply lane_timed_pc.
  - destruct (input l) as [|d q]; [done|].
    destruct (Enqueue t d _) as [[p' m1]|[]|]; simpl; try done.
    intros [= <- <- <-]. by eapply lane_timed_pc.
  - destruct (timerCh l && fired (timer l)) eqn:Ef; simpl; [|done].
    apply andb_true_iff in Ef as [Hch Hf]. intros [= <- <- <-]. destruct Hl as (H1 & H2 & _).
    split_and!; simpl; [congruence|done|done].
  - intros _. specialize (H3 eq_refl). destruct (NextWake _) as [next|]; [|done].
    destruct H3 as [? _]. by split; [|left].
Qed.

Definition session_timed (t : Z) s : Prop :=
  lane_timed t (toServer s) ∧ lane_timed t (toClient s).

Lemma start_lane_timed t l : lane_timed t (start_lane t l).
Proof. by split_and!. Qed.

#[export] Instance session_timed_invariant prof mt : SessionInvariant prof mt session_timed.
Proof.
  split.
  - intros t t' s [? ?] ?. split; by eapply lane_timed_time.
  - intros t k client ps pc _ _. by split_and!.
  - intros t s _ _. split; apply start_lane_timed.
  - intros t lo a s m s' m' _ [Hs Hc] Hstep. unfold session_step, send, guard in Hstep.
    destruct a; [repeat case_match; inv_ok; simplify_eq/=; by split..| |];
      inv_ok; destruct x as [[l m1] tc]; simplify_eq/=; apply lane_timed_step in E; try done;
      destruct tc; by split.
  - intros t b d s r s' [? ?]. unfold enqueueIncoming.
    repeat case_match; intros; simplify_eq; by split.
  - intros t s m [? ?]. unfold close. case_match; by split.
  - intros t r s [? ?] _. destruct r; split; simpl; try done;
      [by apply (lane_timed_pc t (toServer s))|by apply (lane_timed_pc t (toClient s))].
  - intros t r s [? ?] _. destruct r; split; simpl; try done;
      [by apply (lane_timed_pc t (toServer s))|by apply (lane_timed_pc t (toClient s))].
Qed.

(** ** A passthrough lane relays in order *)

(** The queue of a passthrough pipeline: empty, but for a packet the loop is about
    to release. *)
Definition lane_fifo (t : Z) l : Prop :=
  cfg (pipeline l) = zero_DirectionConfig ∧ held (pipeline l) = None ∧
  match lpc l with
  | LNew | LTop _ =>
      queue (pipeline l) = [] ∧ fed l = written l ∨
      ∃ d u n, queue (pipeline l) = [mkScheduled d u n] ∧ u ≤ t ∧ fed l = written l ++ [d]
  | LWriting rest _ => queue (pipeline l) = [] ∧ fed l = written l ++ rest
  | LWait => queue (pipeline l) = [] ∧ fed l = written l
  | LRemove | LClose | LExited => written l `prefix_of` fed l
  end.

(** What went into a lane: given to the pipeline, or waiting in the channel. *)
Definition taken l : list packet := fed l ++ input l.

Lemma fed_taken l : fed l `prefix_of` taken l.
Proof. by apply prefix_app_r. Qed.

Lemma lane_fifo_time t t' l : lane_fifo t l → t ≤ t' → lane_fifo t' l.
Proof.
  intros (Hc & Hh & Hl) Ht. split; [done|]. split; [done|].
  destruct (lpc l); try done; destruct Hl as [?|(d & u & n & ? & ? & ?)];
    [by left| |by left|]; right; exists d, u, n; split_and!; try done; lia.
Qed.

Lemma ReleaseReady_passthrough t (p : Pipeline R ProxyMetrics) m q :
  held p = None → queue p = q → (q = [] ∨ ∃ d u n, q = [mkScheduled d u n] ∧ u ≤ t) →
  ReleaseReady t (p, m) = Ok (map data q, (set_queue p [], m)).
Proof.
  intros Hh Hq Hcase. unfold ReleaseReady, flushExpiredHeld. rewrite Hh. cbn [obind]. rewrite Hq.
  destruct Hcase as [->|(d & u & n & -> & Hu)]; [done|]. simpl.
  by destruct (Z.ltb_spec t u); [lia|].
Qed.

Lemma lane_fifo_written t l : lane_fifo t l → written l `prefix_of` fed l.
Proof.
  intros (_ & _ & Hl). destruct (lpc l); try done.
  - destruct Hl as [[_ ->]|(d & u & n & _ & _ & ->)]; [done|by apply prefix_app_r].
  - destruct Hl as [[_ ->]|(d & u & n & _ & _ & ->)]; [done|by apply prefix_app_r].
  - destruct Hl as [_ ->]. by apply prefix_app_r.
  - by destruct Hl as [_ ->].
Qed.

Lemma lane_fifo_step t dn wr a l m l' m' tc :
  lane_fifo t l → lane_step t dn wr a l m = Ok (l', m', tc) →
  lane_fifo t l' ∧ taken l' = taken l.
Proof.
  intros Hl. pose proof (lane_fifo_written t l Hl) as Hpre. destruct Hl as (Hc & Hh & Hl).
  unfold lane_step.
  destruct a as [|ok| | | | |]; destruct (lpc l) as [|fin|[|d rest] [|]| | | |] eqn:Epc; try done.
  all: try (destruct ok; [destruct wr; [|done]|]; intros [= <- <- <-]; (split; [|done]);
    unfold lane_fifo; simpl; split_and!; try done; try apply Hl; by rewrite <-app_assoc; destruct Hl).
  all: try (destruct (expire t (timer l)); [|done]; intros [= <- <- <-]; (split; [|done]);
    unfold lane_fifo; simpl; rewrite Epc; exact (conj Hc (conj Hh Hl))).
  - rewrite (ReleaseReady_passthrough t _ m (queue (pipeline l)) Hh eq_refl).
    2: { destruct Hl as [[-> _]|(d & u & n & -> & ? & _)]; [by left|right; eauto 10]. }
    simpl. intros [= <- <- <-]. split; [|done]. unfold lane_fifo. simpl. split_and!; try done.
    destruct Hl as [[-> ->]|(d & u & n & -> & _ & ->)]; simpl; by rewrite ?app_nil_r.
  - intros [= <- <- <-]. split; [|done]. by split_and!.
  - destruct (resetTimer _ _ _ _) as [tm ch]. intros [= <- <- <-]. split; [|done].
    unfold lane_fifo. simpl. destruct Hl as [? Hf]. rewrite app_nil_r in Hf. by split_and!.
  - destruct dn; simpl; [|done]. unfold Flush. rewrite Hh. simpl. intros [= <- <- <-].
    split; [|done]. unfold lane_fifo. simpl. split_and!; try done. by left.
  - destruct (input l) as [|d q] eqn:Eq; [done|].
    destruct (Enqueue_passthrough t d (pipeline l) m Hc Hh) as [w ->]. simpl.
    intros [= <- <- <-]. unfold lane_fifo, taken. simpl. rewrite Eq. destruct Hl as [Hq Hf].
    split; [split_and!; try done|by rewrite <-app_assoc]. right.
    exists d, t, (nextSeq (pipeline l)). rewrite Hq, Hf. by split_and!.
  - destruct (timerCh l && fired (timer l)); simpl; [|done]. intros [= <- <- <-].
    split; [|done]. unfold lane_fifo. simpl. split_and!; try done. by left.
Qed.

(** The packets of the two directions are where the goroutines left them, in
    order; a goroutine that saw the session closed may have dropped one. *)
Definition session_fifo (t : Z) s : Prop :=
  lane_fifo t (toServer s) ∧ lane_fifo t (toClient s) ∧
  match accept s with
  | AExited => taken (toServer s) `prefix_of` accepted s
  | AHold d => taken (toServer s) ++ [d] ++ incoming s = accepted s
  | ANew | ARecv => taken (toServer s) ++ incoming s = accepted s
  end ∧
  match reader s with
  | RExited => taken (toClient s) `prefix_of` received s
  | RHold d => taken (toClient s) ++ [d] = received s
  | _ => taken (toClient s) = received s
  end.

Lemma new_lane_fifo t c seed (hs : Hooks ProxyMetrics) (ps : Pipeline R ProxyMetrics) :
  c = zero_DirectionConfig → NewPipelineWithHooks c seed hs = Ok ps → lane_fifo t (new_lane ps).
Proof. intros -> [-> _]%NewPipelineWithHooks_ok. split_and!; [done..|by left]. Qed.

Lemma start_lane_fifo t u (p : Pipeline R ProxyMetrics) :
  lane_fifo t (new_lane p) → lane_fifo t (start_lane u (new_lane p)).
Proof. done. Qed.

Lemma send_fifo t l d l' :
  lane_fifo t l → send l d = Ok l' → lane_fifo t l' ∧ taken l' = taken l ++ [d].
Proof.
  intros Hl. unfold send, guard. destruct (_ <? _); [|done]. intros [= <-].
  split; [exact Hl|]. unfold taken. simpl. by rewrite app_assoc.
Qed.

Lemma set_lpc_fifo t l ph :
  lane_fifo t l → (lpc l = LRemove ∨ lpc l = LClose) → (ph = LClose ∨ ph = LExited) →
  lane_fifo t (set_lpc l ph).
Proof. intros (? & ? & Hl) Hpc Hph. split_and!; [done..|]. by destruct Hpc as [E|E], Hph as [->| ->]; rewrite E in Hl. Qed.

Section fifo.
Context (prof : Profile) (mt : bool).
Context (Hprof : Profile.ToServer prof = zero_DirectionConfig ∧
                 Profile.ToClient prof = zero_DirectionConfig).

Lemma session_fifo_step t lo a s m s' m' :
  session_fifo t s → session_step mt t lo a s m = Ok (s', m') → session_fifo t s'.
Proof.
  intros (Hs & Hc & Ha & Hr) Hstep. unfold session_step in Hstep.
  destruct a as [| | |d| | | |a|a].
  - destruct (accept s), (incoming s) as [|d' q] eqn:Ei; simplify_eq/=. by split_and!.
  - destruct (accept s); try done. inv_ok. destruct (send_fifo t _ _ _ Hs E) as [Hs' Ht].
    split_and!; try done. simpl. rewrite Ht, <-app_assoc. exact Ha.
  - destruct (accept s); try done; destruct (done s); simplify_eq/=; split_and!; try done; simpl.
    + rewrite <-Ha. by apply prefix_app_r.
    + rewrite <-Ha. by apply prefix_app_r.
  - destruct (reader s) eqn:Er; try done. destruct (conn_open s); simplify_eq/=.
    split_and!; try done. simpl. by rewrite Hr.
  - destruct (reader s) eqn:Er; simplify_eq/=. by split_and!.
  - destruct (reader s) eqn:Er; try done. inv_ok. destruct (send_fifo t _ _ _ Hc E) as [Hc' Ht].
    split_and!; try done. simpl. rewrite Ht. exact Hr.
  - destruct (reader s) eqn:Er; try done; destruct (done s); simplify_eq/=.
    split_and!; try done. simpl. rewrite <-Hr. by apply prefix_app_r.
  - inv_ok. destruct x as [[l m1] tc]. simplify_eq/=.
    destruct (lane_fifo_step _ _ _ _ _ _ _ _ _ Hs E) as [Hl Ht].
    assert (session_fifo t (set_toServer s l)) by (split_and!; try done; simpl; by rewrite Ht).
    by destruct tc.
  - inv_ok. destruct x as [[l m1] tc]. simplify_eq/=.
    destruct (lane_fifo_step _ _ _ _ _ _ _ _ _ Hc E) as [Hl Ht].
    assert (session_fifo t (set_toClient s l)) by (split_and!; try done; simpl; by rewrite Ht).
    by destruct tc.
Qed.

Lemma session_fifo_phase t ph ph' r s :
  session_fifo t s → in_phase ph r s = true →
  (ph = PhRemove ∧ ph' = PhClose ∨ ph = PhClose ∧ ph' = PhExited) →
  session_fifo t (set_phase ph' r s).
Proof.
  intros (Hs & Hc & Ha & Hr) Hin Hph.
  destruct r; simpl in *.
  - split_and!; try done. simpl. destruct Hph as [[-> ->]|[-> ->]], (reader s); try done.
    simpl in *. by rewrite Hr.
  - split_and!; try done. apply set_lpc_fifo; [done|..];
      destruct Hph as [[-> ->]|[-> ->]], (lpc (toServer s)); auto; done.
  - split_and!; try done. apply set_lpc_fifo; [done|..];
      destruct Hph as [[-> ->]|[-> ->]], (lpc (toClient s)); auto; done.
Qed.

#[export] Instance session_fifo_invariant : SessionInvariant prof mt session_fifo.
Proof using Hprof.
  destruct Hprof as [Hps Hpc]. split.
  - intros t t' s (Hs & Hc & Hrest) Ht. split; [by eapply lane_fifo_time|].
    split; [by eapply lane_fifo_time|done].
  - intros t k client ps pc Es Ec. split_and!; [..|done|done].
    + exact (new_lane_fifo t _ _ _ ps Hps Es).
    + exact (new_lane_fifo t _ _ _ pc Hpc Ec).
  - intros t s (Hs & Hc & Ha & Hr) (Ea & Er & [p1 Es] & [p2 Ec]). rewrite Ea in Ha. rewrite Er in Hr.
    rewrite Es in *. rewrite Ec in *. unfold session_fifo. simpl. rewrite Es, Ec. by split_and!.
  - intros t lo a s m s' m' _. apply session_fifo_step.
  - intros t b d s r s' (Hs & Hc & Ha & Hr). unfold enqueueIncoming.
    destruct (done s && _); [intros [= _ <-]; by split_and!|].
    destruct (_ <? _); intros [= _ <-]; [|by split_and!].
    split_and!; try done. simpl. destruct (accept s); [by rewrite <-Ha, <-!app_assoc..|by apply prefix_app_r].
  - intros t s m Hf. unfold close. by destruct (done s).
  - intros t r s Hf Hin. eapply session_fifo_phase; eauto.
  - intros t r s Hf Hin. eapply session_fifo_phase; eauto.
Qed.
End fifo.

End invariants.
