(* ===== verification/ProxyTheorems.v ===== *)
(** * ProxyTheorems: what the proxy promises

    The properties of [internal/proxy/proxy.go] over all schedules of its
    goroutines, each with a concrete instance. *)

From S2P Require Import Prelude Profile Pipeline PipelineProofs PipelineTheorems Addr Lane Proxy ProxyProofs ProxyInv ProxyRelay.

Section theorems.
Context {R : Type} `{RandLaws R}.
Implicit Types (p : Proxy R) (s : Session R).

(** The jitters for which the pipelines cannot panic. *)
Definition safe_jitter p : Prop :=
  Jitter (Profile.ToServer (profile (config p))) < max_int64 ∧
  Jitter (Profile.ToClient (profile (config p))) < max_int64.

Lemma New_spec opts rb t p0 :
  New (R:=R) opts rb t = Ok p0 →
  sessions p0 = ∅ ∧ store p0 = [] ∧ serve p0 = SReading ∧ closer p0 = CIdle ∧
  sweeper p0 = WWait ∧ listen_open p0 = true ∧ ctx_done p0 = false ∧ closed p0 = false ∧
  accepted_direction (Profile.ToServer (profile (config p0))) ∧
  accepted_direction (Profile.ToClient (profile (config p0))).
Proof.
  unfold New. destruct (o_ListenConn opts); simpl; [|done].
  destruct (o_UpstreamAddr opts); simpl; [|done]. intros Hn. inv_ok.
  destruct rb; simplify_eq/=.
  unfold NormalizeProfile in E. inv_ok. destruct x0. apply Profile_Validate_ok_iff in E0 as [? ?].
  by split_and!.
Qed.

Lemma New_pinv opts rb t p0 :
  New opts rb t = Ok p0 → safe_jitter p0 → pinv (met p0) p0.
Proof.
  intros (Es & Et & Esv & Ec & Esw & _ & _ & _ & Hs & Hc)%New_spec [Hj1 Hj2].
  apply accepted_nonneg in Hs, Hc. split; [|by split|unfold serve_ok; by rewrite Esv|unfold drained; rewrite Ec; by intros i ?%elem_of_nil].
  unfold proxy_wf, building, closer_todo, sweeper_todo. rewrite Es, Et, Esv, Ec, Esw. simpl.
  split; simpl; try done.
  { by intros i ?%elem_of_nil. }
  intros _. unfold gauges. simpl. f_equal; [lia|]. unfold zlen. simpl. lia.
Qed.

(** C8: the sessions of a proxy stay consistent under every interleaving. From a
    proxy that New returned, for a profile whose jitters are below the maximal duration,
    no schedule panics, and in every state it reaches:
    the sessions in the map are open and stored under their own client address;
    an open session is in the map, is being built by Serve, is on the list of Close
    or of the sweeper, or is about to be closed by one of its own goroutines; no
    queue is over its depth and the upstream connection is open exactly while the
    session is; the gauges count the open sessions and the created ones; and once
    Close has returned, every session it took out of the map is closed. *)
Theorem proxy_invariant opts rb t p0 acts :
  New opts rb t = Ok p0 → safe_jitter p0 →
  steps acts p0 ≠ Panic ∧ ∀ p, steps acts p0 = Ok p →
    (∀ k i, sessions p !! k = Some i →
       ∃ s, store p !! i = Some s ∧ key s = k ∧ done s = false) ∧
    (∀ i s, store p !! i = Some s → done s = false →
       sessions p !! key s = Some i ∨ building p = Some i ∨
       i ∈ closer_todo p ++ sweeper_todo p ∨ loop_closing s = true) ∧
    (∀ i s, store p !! i = Some s →
       zlen (incoming s) ≤ 256 ∧ zlen (input (toServer s)) ≤ 256 ∧
       zlen (input (toClient s)) ≤ 256 ∧ conn_open s = negb (done s)) ∧
    (metered (config p) = true →
       SessionsActive (met p) = SessionsActive (met p0) + open_count (store p) ∧
       SessionsTotal (met p) = SessionsTotal (met p0) + zlen (store p)) ∧
    (∀ all i, closer p = CDone all → i ∈ all →
       ∃ s, store p !! i = Some s ∧ done s = true).
Proof.
  intros Hn Hj. pose proof (New_pinv _ _ _ _ Hn Hj) as Hp0.
  pose proof (steps_pinv _ acts p0 Hp0) as Hg. destruct (steps acts p0) as [p|e|]; [|done..].
  split; [done|]. intros p' [= <-]. destruct Hg as [Hw _ _ Hd]. split_and!.
  - apply Hw.
  - intros i s. apply (wf_open _ _ _ _ _ _ _ Hw).
  - intros i s Hi. destruct (wf_sessions _ _ _ _ _ _ _ Hw i s Hi) as ((_ & ?) & (_ & ?) & ? & ?).
    done.
  - intros Hm. pose proof (wf_gauges _ _ _ _ _ _ _ Hw Hm) as Hg. by injection Hg.
  - intros all i Hc Hi. unfold drained, closer_todo in Hd. rewrite Hc in Hd.
    by destruct (Hd i Hi) as [?%elem_of_nil|?].
Qed.

(** C26: a lane never sleeps past its next release. Whenever an applyLoop waits in
    its select and its pipeline has a next wake-up time, the loop selects on its
    timer, which has fired already or is due no later than that time (or than now,
    when the time has passed); when the pipeline has none, it does not select on
    the timer, and the timer is stopped and its channel empty. *)
Theorem applyLoop_wakes opts rb t p0 acts p i s l :
  New opts rb t = Ok p0 → safe_jitter p0 → steps acts p0 = Ok p →
  store p !! i = Some s → (l = toServer s ∨ l = toClient s) → lpc l = LWait →
  match NextWake (pipeline l) with
  | None => timerCh l = false ∧ timer l = mkTimer None false
  | Some next => timerCh l = true ∧
      (fired (timer l) = true ∨ ∃ d, deadline (timer l) = Some d ∧ d ≤ Z.max (now p) next)
  end.
Proof.
  intros Hn Hj Hst Hi Hl Hpc. pose proof (New_pinv _ _ _ _ Hn Hj) as Hp0.
  assert (all_sessions session_timed p) as Hall.
  { eapply (all_steps _ (profile (config p0)) (metered (config p0)) session_timed acts p0);
      [done|done|exact Hp0| |done].
    intros j s'. apply New_spec in Hn as (_ & -> & _). done. }
  destruct (Hall i s Hi) as [H1 H2].
  assert (lane_timed (now p) l) as (Ht & _ & Hw) by by destruct Hl as [->| ->].
  specialize (Hw Hpc). destruct (NextWake _); [done|]. auto.
Qed.

(** C25: with the passthrough directions a session relays transparently. In every
    reachable state, what a session wrote to the server is a prefix of what it
    accepted from the client, byte for byte and in order, and what it wrote to the
    client a prefix of what it read from the server; and when the goroutines of a
    direction wait with their channels empty, everything has been written. *)
Theorem session_relays_in_order opts rb t p0 acts p i s :
  New opts rb t = Ok p0 →
  Profile.ToServer (profile (config p0)) = zero_DirectionConfig →
  Profile.ToClient (profile (config p0)) = zero_DirectionConfig →
  steps acts p0 = Ok p → store p !! i = Some s →
  written (toServer s) `prefix_of` accepted s ∧
  written (toClient s) `prefix_of` received s ∧
  (accept s = ARecv → incoming s = [] → input (toServer s) = [] → lpc (toServer s) = LWait →
     written (toServer s) = accepted s) ∧
  (reader s = RRead → input (toClient s) = [] → lpc (toClient s) = LWait →
     written (toClient s) = received s).
Proof.
  intros Hn Hps Hpc Hst Hi.
  assert (Hj : safe_jitter p0) by (unfold safe_jitter; by rewrite Hps, Hpc).
  pose proof (New_pinv _ _ _ _ Hn Hj) as Hp0.
  assert (all_sessions session_fifo p) as Hall.
  { pose proof (session_fifo_invariant (profile (config p0)) (metered (config p0))
      (conj Hps Hpc)) as Hinv.
    eapply (all_steps _ (profile (config p0)) (metered (config p0)) session_fifo acts p0);
      [done|done|exact Hp0| |done].
    intros j s'. apply New_spec in Hn as (_ & -> & _). done. }
  destruct (Hall i s Hi) as (Hs & Hc & Ha & Hr).
  pose proof (lane_fifo_written _ _ Hs) as Hws. pose proof (lane_fifo_written _ _ Hc) as Hwc.
  split_and!.
  - etrans; [exact Hws|]. etrans; [apply fed_taken|].
    destruct (accept s); rewrite <-?Ha; try done; by apply prefix_app_r.
  - etrans; [exact Hwc|]. etrans; [apply fed_taken|].
    destruct (reader s); rewrite <-?Hr; try done; by apply prefix_app_r.
  - intros Ea Ei Eq Epc. rewrite Ea, Ei, app_nil_r in Ha. unfold taken in Ha. rewrite Eq, app_nil_r in Ha.
    destruct Hs as (_ & _ & Hs). rewrite Epc in Hs. destruct Hs as [_ Hs]. congruence.
  - intros Er Eq Epc. rewrite Er in Hr. unfold taken in Hr. rewrite Eq, app_nil_r in Hr.
    destruct Hc as (_ & _ & Hc). rewrite Epc in Hc. destruct Hc as [_ Hc]. congruence.
Qed.

(** ** Close and a session that is being created *)

(** A client packet arrives, and Close runs between the two critical sections of
    getOrCreateSession. *)
Definition leak_schedule (client : UDPAddr) (d : list byte) : list action :=
  [ServeRead (Some client) d; ServeLookup; CloseCall; CloseDrain; ServeDial true true;
   ServeInsert; CloseListen; ServeEnqueue false; ServeReadError; SweepExit].

(** A read or write of a session's goroutines fails. *)
Definition network_error (a : action) : Prop :=
  match a with
  | InSession _ ReadError | InSession _ (ToServer (LaWrite false))
  | InSession _ (ToClient (LaWrite false)) => True
  | _ => False
  end.

(** No goroutine of the session is ending it. *)
Definition quiet s : Prop :=
  done s = false ∧ ∀ ph r, ph ≠ PhExited → in_phase ph r s = false.

Definition lane_quiet (l : Lane R) : Prop := lpc l ≠ LRemove ∧ lpc l ≠ LClose.

Lemma quiet_iff s :
  quiet s ↔ done s = false ∧ reader s ≠ RRemove ∧ reader s ≠ RClose ∧
    lane_quiet (toServer s) ∧ lane_quiet (toClient s).
Proof.
  unfold quiet, lane_quiet. split.
  - intros [Hd Hq]. split; [done|].
    assert (∀ r, in_phase PhRemove r s = false ∧ in_phase PhClose r s = false) as Hr by (intros r; split; by apply Hq).
    destruct (Hr ByReader), (Hr ByToServer), (Hr ByToClient); simpl in *.
    destruct (reader s), (lpc (toServer s)), (lpc (toClient s)); done.
  - intros (Hd & ? & ? & [? ?] & [? ?]). split; [done|]. intros ph r Hph.
    destruct r, ph; simpl; try done; by repeat case_match.
Qed.

Lemma lane_step_quiet t dn wr a (l : Lane R) m l' m' tc :
  a ≠ LaWrite false → lane_step t dn wr a l m = Ok (l', m', tc) → lane_quiet l → lane_quiet l'.
Proof.
  intros Ha Hs [H1 H2]. unfold lane_step, guard in Hs.
  destruct a as [|[]| | | | |]; destruct (lpc l) as [|fin|[|d rest] [|]| | | |] eqn:Epc;
    repeat case_match; inv_ok; repeat case_match; simplify_eq/=; unfold lane_quiet; simpl; try done;
    by rewrite Epc.
Qed.

Lemma session_step_quiet mt t lo i a s m s' m' :
  ¬ network_error (InSession i a) → session_step mt t lo a s m = Ok (s', m') → quiet s → quiet s'.
Proof.
  rewrite !quiet_iff. intros Ha Hs (Hd & Hr1 & Hr2 & Hl1 & Hl2).
  unfold session_step, send, guard in Hs. destruct a as [| | |d| | | |a|a].
  1-7: repeat case_match; inv_ok; repeat case_match; simplify_eq/=; by split_and!.
  - inv_ok. destruct x as [[l m1] tc]. simplify_eq/=.
    apply lane_step_quiet in E; [|by intros ->|done]. by destruct tc; split_and!.
  - inv_ok. destruct x as [[l m1] tc]. simplify_eq/=.
    apply lane_step_quiet in E; [|by intros ->|done]. by destruct tc; split_and!.
Qed.

(** Everything that could end the session, or take it out of the map, has finished. *)
Definition leaked (k : AddrPort) (i : nat) p : Prop :=
  (∃ all, closer p = CDone all) ∧ (∃ f, serve p = SReturned f) ∧ sweeper p = WExited ∧
  sessions p !! k = Some i ∧ ∃ s, store p !! i = Some s ∧ quiet s.

Lemma leaked_put k i p j s' m' :
  leaked k i p → (i = j → quiet s') → leaked k i (put_session p j s' m').
Proof.
  intros (Hc & Hs & Hw & Hk & s & Hi & Hq) Hj. split_and!; [done..|].
  destruct (decide (i = j)) as [<-|]; simpl.
  - exists s'. rewrite list_lookup_insert_eq by (by eapply lookup_lt_Some). auto.
  - exists s. by rewrite list_lookup_insert_ne by done.
Qed.

Lemma leaked_step k i a p p' :
  ¬ network_error a → step a p = Ok p' → leaked k i p → leaked k i p'.
Proof.
  intros Ha Hst Hl. pose proof Hl as ((all & Hc) & (f & Hs) & Hw & Hk & s & Hi & Hq).
  destruct a as [d| | | | | | | | | | | | | | | |j a|j r|j r]; simpl in Hst;
    unfold step_serve, step_sweep, step_close in Hst;
    rewrite ?Hc, ?Hs, ?Hw in Hst; try done.
  - unfold guard in Hst. case_match; simplify_eq. exact Hl.
  - simplify_eq. exact Hl.
  - unfold with_session in Hst. destruct (store p !! j) as [sj|] eqn:Hj; [|done].
    inv_ok. destruct x as [s' m']. simplify_eq. apply leaked_put; [done|]. intros ->.
    rewrite Hi in Hj. injection Hj as <-. by eapply session_step_quiet.
  - unfold with_session, guard in Hst. destruct (store p !! j) as [sj|] eqn:Hj; [|done].
    destruct (in_phase PhRemove r sj) eqn:Eph; [|done]. injection Hst as <-.
    assert (Hne : i ≠ j).
    { intros ->. rewrite Hi in Hj. injection Hj as <-. destruct Hq as [_ Hq]. by rewrite Hq in Eph. }
    assert (leaked k i (put_session p j (set_phase PhClose r sj) (met p))) as Hl'
      by (by apply leaked_put).
    unfold remove_entry. case_bool_decide as Hkey; [|exact Hl'].
    destruct Hl' as (Hc' & Hs' & Hw' & Hk' & Hst'). split_and!; [done..| |done]. simpl in *.
    rewrite lookup_delete_ne; [done|]. intros Heq. rewrite Heq, Hk in Hkey. by simplify_eq.
  - unfold with_session, guard in Hst. destruct (store p !! j) as [sj|] eqn:Hj; [|done].
    destruct (in_phase PhClose r sj) eqn:Eph; [|done].
    assert (Hne : i ≠ j).
    { intros ->. rewrite Hi in Hj. injection Hj as <-. destruct Hq as [_ Hq].
      by rewrite Hq in Eph. }
    unfold close_session in Hst. destruct (close _ sj (met p)) as [s1 m1]. simpl in Hst.
    case_match; simplify_eq. apply leaked_put; [|done]. by apply leaked_put.
Qed.

Lemma leaked_steps k i acts p p' :
  Forall (λ a, ¬ network_error a) acts → steps acts p = Ok p' → leaked k i p → leaked k i p'.
Proof.
  revert p. induction acts as [|a acts IH]; intros p Ha Hst Hl; simpl in Hst; [by simplify_eq|].
  apply Forall_cons in Ha as [Ha Hacts]. inv_ok. eapply IH; [done..|]. by eapply leaked_step.
Qed.

Lemma NewPipelineWithHooks_valid c seed (hs : Hooks ProxyMetrics) :
  accepted_direction c → NewPipelineWithHooks (R:=R) c seed hs = Ok (fresh c seed hs).
Proof.
  intros Hv. unfold NewPipelineWithHooks. by rewrite Hv.
Qed.

Lemma enqueue_first b d s :
  done s = false → incoming s = [] →
  enqueueIncoming b d s =
    (Enqueued,
     mkSession (key s) (clientAddr s) [d] (accept s) (reader s) (toServer s) (toClient s)
       (lastSeen s) (done s) (conn_open s) (accepted s ++ [d]) (received s)).
Proof. intros Hd Hi. unfold enqueueIncoming. by rewrite Hi, Hd. Qed.

(** Run one action of a concrete state. *)
Ltac fields :=
  cbn [config sessions store closed listen_open ctx_done serve closer sweeper next_tick now met
       set_sessions set_store set_serve set_closer set_sweeper put_session guard negb andb orb
       obind].
(** The session that has just taken its first packet. *)
Definition enqueued_first (d : list byte) s : Session R :=
  mkSession (key s) (clientAddr s) [copyPacket d] (accept s) (reader s) (toServer s) (toClient s)
    (lastSeen s) (done s) (conn_open s) (accepted s ++ [copyPacket d]) (received s).

Lemma steps_cons a acts p p1 r : step a p = Ok p1 → steps acts p1 = r → steps (a :: acts) p = r.
Proof. intros Ha <-. simpl. by rewrite Ha. Qed.

(** Before the session is built. *)
Lemma leak_head cf client k d tick tm m acts :
  accepted_direction (Profile.ToServer (profile cf)) →
  accepted_direction (Profile.ToClient (profile cf)) →
  udpAddrToAddrPort (Some client) = Ok k →
  ∃ s m', done s = false ∧ conn_open s = true ∧ incoming s = [] ∧
    steps (ServeRead (Some client) d :: ServeLookup :: CloseCall :: CloseDrain ::
           ServeDial true true :: acts)
      (mkProxy cf ∅ [] false true false SReading CIdle WWait tick tm m)
    = steps acts (mkProxy cf ∅ [s] true true false (SInsert k 0 (into_buffer d))
                    (CClosing [] []) WWait tick tm m').
Proof.
  intros Hs Hc Hk. eexists _, _. split; [|split; [|split]]; cycle 3.
  - eapply steps_cons.
    { cbn [step]. unfold step_serve. fields. rewrite Hk. fields. reflexivity. }
    eapply steps_cons.
    { cbn [step]. unfold step_serve. fields. rewrite lookup_empty. fields. reflexivity. }
    eapply steps_cons; [cbn [step]; unfold step_close; fields; reflexivity|].
    eapply steps_cons.
    { cbn [step]. unfold step_close. fields. rewrite map_to_list_empty. cbn [map]. reflexivity. }
    eapply steps_cons.
    { cbn [step]. unfold step_serve, build_session. fields.
      rewrite !NewPipelineWithHooks_valid by done. rewrite ?add_met_eq. fields.
      cbn [app length]. reflexivity. }
    reflexivity.
  - reflexivity.
  - reflexivity.
  - reflexivity.
Qed.

(** After Close has emptied the map. *)
Lemma leak_tail cf s k d tick tm m :
  done s = false → incoming s = [] →
  ∃ m', steps [ServeInsert; CloseListen; ServeEnqueue false; ServeReadError; SweepExit]
      (mkProxy cf ∅ [s] true true false (SInsert k 0 d) (CClosing [] []) WWait tick tm m)
    = Ok (mkProxy cf (<[k := 0%nat]> ∅) [enqueued_first d (start_session tm s)] true false false
            (SReturned false) (CDone []) WExited tick tm m').
Proof.
  intros Hd Hi. eexists. eapply steps_cons.
  { cbn [step]. unfold step_serve, with_session. fields. rewrite lookup_empty.
    cbn [lookup list_lookup insert list_insert]. fields. reflexivity. }
  eapply steps_cons; [cbn [step]; unfold step_close; fields; reflexivity|].
  eapply steps_cons.
  { cbn [step]. unfold step_serve, with_session. fields. cbn [lookup list_lookup insert list_insert].
    rewrite add_met_eq. fields. rewrite enqueue_first by done.
    cbn [insert list_insert]. reflexivity. }
  eapply steps_cons; [cbn [step]; unfold step_serve; fields; reflexivity|].
  eapply steps_cons; [cbn [step]; unfold step_sweep; fields; reflexivity|].
  reflexivity.
Qed.

(** C31: Close can leave a session running. For every proxy and every client
    address there is a schedule after which Close and Serve have returned and the
    sweeper has exited, but a session is open and in the map: Close emptied the map
    while Serve was creating the session, and nothing checks the closed flag before
    inserting it. For as long as no read or write of its own goroutines fails, it
    then stays open and in the map, whatever else happens. *)
Theorem Close_leaks_session opts t p0 client d k :
  New opts true t = Ok p0 → udpAddrToAddrPort (Some client) = Ok k →
  ∃ p, steps (leak_schedule client d) p0 = Ok p ∧ ∃ s,
    closer p = CDone [] ∧ serve p = SReturned false ∧ sweeper p = WExited ∧
    listen_open p = false ∧
    sessions p !! k = Some 0%nat ∧ store p !! 0%nat = Some s ∧ done s = false ∧ conn_open s = true ∧
    ∀ acts p', Forall (λ a, ¬ network_error a) acts → steps acts p = Ok p' →
      sessions p' !! k = Some 0%nat ∧ ∃ s', store p' !! 0%nat = Some s' ∧ done s' = false.
Proof.
  intros Hn Hk. pose proof (New_spec _ _ _ _ Hn) as
    (Es & Et & Esv & Ec & Esw & El & Ex & Ed & Hvs & Hvc).
  destruct p0 as [cf M st cl lo cx sv cp sw tick tm m].
  cbn in Es, Et, Esv, Ec, Esw, El, Ex, Ed, Hvs, Hvc. subst.
  destruct (leak_head cf client k d tick tm m
    [ServeInsert; CloseListen; ServeEnqueue false; ServeReadError; SweepExit] Hvs Hvc Hk)
    as (s & m' & Hd & Ho & Hi & Hhead).
  destruct (leak_tail cf s k (into_buffer d) tick tm m' Hd Hi) as (m'' & Htail).
  eexists. split; [unfold leak_schedule; by rewrite Hhead|]. eexists.
  split_and!; try reflexivity; try done; [apply lookup_insert_eq|].
  intros acts p' Ha Hst. edestruct (leaked_steps k 0 acts) as (_ & _ & _ & Hk' & s' & Hs' & Hd' & _);
    [exact Ha|exact Hst| |eauto].
  split_and!; [by eexists..|done|apply lookup_insert_eq|]. eexists. split; [done|]. by apply quiet_iff.
Qed.

End theorems.

(** ** Instances *)

Definition demo_client : UDPAddr := mkUDPAddr [x7f; x00; x00; x01] 50000 "".
Definition demo_key : AddrPort := mkAddrPort (Addr4 [x7f; x00; x00; x01]) 50000.
Definition demo_upstream : UDPAddr := mkUDPAddr [x7f; x00; x00; x01] 4433 "".
Definition demo_options : Options :=
  mkOptions true (Some demo_upstream) 0 zero_Profile (Some zero_ProxyMetrics).

Definition demo_proxy : Proxy Z :=
  mkProxy (mkConfig demo_upstream defaultIdleTTL PassthroughProfile true) ∅ [] false true false
    SReading CIdle WWait (1000 + sweepInterval) 1000 zero_ProxyMetrics.

Lemma demo_New : New demo_options true 1000 = Ok demo_proxy.
Proof. vm_compute. reflexivity. Defined.

Lemma demo_safe : safe_jitter demo_proxy.
Proof. split; vm_compute; reflexivity. Defined.

(** A packet of the client goes through to the server. *)
Definition demo_schedule : list action :=
  [ServeRead (Some demo_client) [x68; x69]; ServeLookup; ServeDial true true; ServeInsert;
   ServeEnqueue false; InSession 0 (ToServer LaRelease); InSession 0 (ToServer LaFlushed);
   InSession 0 AcceptRecv; InSession 0 AcceptSend; InSession 0 (ToServer LaRecv);
   InSession 0 (ToServer LaRelease); InSession 0 (ToServer (LaWrite true));
   InSession 0 (ToServer LaFlushed)].

(** The state after a schedule, and its first session. *)
Definition after (acts : list action) (p : Proxy Z) : Proxy Z :=
  match steps acts p with Ok p => p | _ => p end.
Definition first_session (p : Proxy Z) : Session Z :=
  default (new_session demo_key demo_client (fresh zero_DirectionConfig 0 no_hooks)
             (fresh zero_DirectionConfig 0 no_hooks)) (store p !! 0%nat).

Lemma after_ok acts p : is_ok (steps acts p) = true → steps acts p = Ok (after acts p).
Proof. unfold after. by destruct (steps acts p). Defined.

Lemma first_ok p : length (store p) = 1%nat → store p !! 0%nat = Some (first_session p).
Proof. unfold first_session. by destruct (store p). Defined.

Lemma proxy_invariant_witness :
  steps demo_schedule demo_proxy = Ok (after demo_schedule demo_proxy) ∧
  SessionsActive (met (after demo_schedule demo_proxy)) = 1 ∧
  steps demo_schedule demo_proxy ≠ Panic.
Proof.
  split; [apply after_ok; vm_compute; reflexivity|]. split; [vm_compute; reflexivity|].
  apply (proxy_invariant demo_options true 1000 demo_proxy demo_schedule demo_New demo_safe).
Defined.

Lemma session_relays_in_order_witness :
  accepted (first_session (after demo_schedule demo_proxy)) = [[x68; x69]] ∧
  written (toServer (first_session (after demo_schedule demo_proxy)))
    = accepted (first_session (after demo_schedule demo_proxy)).
Proof.
  split; [vm_compute; reflexivity|].
  refine (proj1 (proj2 (proj2 (session_relays_in_order demo_options true 1000 demo_proxy
    demo_schedule (after demo_schedule demo_proxy) 0 _ demo_New _ _
    (after_ok demo_schedule demo_proxy _) (first_ok _ _)))) _ _ _ _); vm_compute; reflexivity.
Defined.

(** One millisecond of latency: the packet waits in the pipeline. *)
Definition slow_profile : Profile :=
  mkProfile "slow" 1 (mkDirectionConfig f64_0 f64_0 f64_0 0 Millisecond 0 0) zero_DirectionConfig.
Definition slow_proxy : Proxy Z :=
  mkProxy (mkConfig demo_upstream defaultIdleTTL slow_profile true) ∅ [] false true false
    SReading CIdle WWait (1000 + sweepInterval) 1000 zero_ProxyMetrics.
Definition slow_schedule : list action :=
  take 11 demo_schedule ++ [InSession 0 (ToServer LaFlushed)].

Lemma applyLoop_wakes_witness :
  NextWake (pipeline (toServer (first_session (after slow_schedule slow_proxy))))
    = Some (1000 + Millisecond) ∧
  ∃ next, NextWake (pipeline (toServer (first_session (after slow_schedule slow_proxy)))) = Some next ∧
    timerCh (toServer (first_session (after slow_schedule slow_proxy))) = true.
Proof.
  assert (Hn : New (mkOptions true (Some demo_upstream) 0 slow_profile (Some zero_ProxyMetrics))
                 true 1000 = Ok slow_proxy) by (vm_compute; reflexivity).
  assert (Hj : safe_jitter slow_proxy) by (split; vm_compute; reflexivity).
  assert (HN : NextWake (pipeline (toServer (first_session (after slow_schedule slow_proxy))))
    = Some (1000 + Millisecond)) by (vm_compute; reflexivity).
  split; [exact HN|]. exists (1000 + Millisecond). split; [exact HN|].
  pose proof (applyLoop_wakes _ _ _ _ slow_schedule (after slow_schedule slow_proxy) 0
    (first_session (after slow_schedule slow_proxy)) _ Hn Hj
    (after_ok slow_schedule slow_proxy ltac:(vm_compute; reflexivity))
    (first_ok (after slow_schedule slow_proxy) ltac:(vm_compute; reflexivity)) (or_introl eq_refl)
    ltac:(vm_compute; reflexivity)) as Hw.
  rewrite HN in Hw. exact (proj1 Hw).
Defined.

Lemma Close_leaks_session_witness :
  ∃ p, steps (leak_schedule demo_client [x68]) demo_proxy = Ok p ∧
    closer p = CDone [] ∧ sessions p !! demo_key = Some 0%nat.
Proof.
  destruct (Close_leaks_session demo_options 1000 demo_proxy demo_client [x68] demo_key demo_New
    ltac:(vm_compute; reflexivity)) as (p & Hp & s & Hc & _ & _ & _ & Hm & _).
  exists p. split_and!; [exact Hp|exact Hc|exact Hm].
Defined.
