(* ===== verification/Roles.v ===== *)
(** * Roles: the client workloads ([internal/roles])

    A role drives a client: the poller and the uploader call the server at an
    interval, the publisher publishes telemetry and commands, the subscriber counts
    what it receives, and the mixed role runs the four together. What a role needs
    of a client are the interfaces of the source, here type classes over a world
    [W] that also has the clock. A [Run] is driven by the cases its select takes,
    each with the world at that moment; [None] means that it is still running when
    they end. *)

From S2P Require Import Prelude Text.

Abbreviation error := string (only parsing).
Abbreviation reply A := (error + A)%type (only parsing).

(** ** The data of [internal/client] the roles exchange *)

Record State := mkState { Version : string; StartedAt : Z; UptimeMillis : Z }.

Record DeviceConfig := mkDeviceConfig {
  dc_ClientID : string;
  DesiredRole : string;
  PollIntervalSeconds : Z;
  dc_TelemetryTopic : string;
  dc_CommandTopic : string;
}.

Record UploadResult := mkUploadResult { ur_Bytes : Z; SHA256 : string; ur_DurationMillis : Z }.

Inductive msg_surface := MsgDatagram | MsgStream.
Record PubSubMessage := mkPubSubMessage {
  msg_Topic : string;
  msg_Payload : list byte;
  msg_Surface : msg_surface;
}.

(** ** Interfaces *)

Class Clock (W : Type) := Now : W → Z.

Class PollerClient (W : Type) := {
  GetState : W → reply State * W;
  GetConfig : string → W → reply DeviceConfig * W;
}.
Class UploaderClient (W : Type) :=
  UploadDeterministic : string → Z → Z → W → reply UploadResult * W.
Class PublisherSession (W : Type) := {
  PublishDatagram : string → list byte → W → option error * W;
  PublishStream : string → list byte → W → option error * W;
}.
Class SubscriberSession (W : Type) :=
  Subscribe : string → W → option error * W.

(** ** What a role leaves behind: observations and log records *)

(** The histograms of [metrics.ClientMetrics], in nanoseconds. *)
Record RoleMetrics := mkRoleMetrics {
  PollDuration : list Z;
  UploadDuration : list Z;
  PublishLatency : list Z;
}.

Inductive record :=
| LogFailed (msg : string) (e : error)
| LogPolled (version topic_telemetry topic_command : string)
| LogUploaded (name : string) (bytes : Z)
| LogTelemetry (topic : string) (bytes : Z)
| LogCommand (topic : string) (bytes : Z)
| LogSubscribed (topic : string)
| LogReceived (topic : string) (surface : msg_surface) (bytes count : Z).

Record env (W : Type) := mkEnv {
  world : W;
  metrics : option RoleMetrics;
  records : list record;
}.
Arguments mkEnv {W}. Arguments world {W}. Arguments metrics {W}. Arguments records {W}.

Section roles.
Context {W : Type} `{Clock W}.
Implicit Types (e : env W).

Definition set_world e (w : W) : env W := mkEnv w (metrics e) (records e).
Definition log e (r : record) : env W := mkEnv (world e) (metrics e) (records e ++ [r]).
Definition with_metrics e (f : RoleMetrics → RoleMetrics) : env W :=
  mkEnv (world e) (f <$> metrics e) (records e).
(** The result of a step that only logs its failure. *)
Definition log_failure (msg : string) (r : option error * env W) : env W :=
  match r with (Some err, e) => log e (LogFailed msg err) | (None, e) => e end.

Definition observe_poll (d : Z) (m : RoleMetrics) : RoleMetrics :=
  mkRoleMetrics (PollDuration m ++ [d]) (UploadDuration m) (PublishLatency m).
Definition observe_upload (d : Z) (m : RoleMetrics) : RoleMetrics :=
  mkRoleMetrics (PollDuration m) (UploadDuration m ++ [d]) (PublishLatency m).
Definition observe_latency (d : Z) (m : RoleMetrics) : RoleMetrics :=
  mkRoleMetrics (PollDuration m) (UploadDuration m) (PublishLatency m ++ [d]).

(** [time.Since(t)] saturates at the bounds of a duration. *)
Definition since (e : env W) (t : Z) : Z :=
  Z.max min_int64 (Z.min max_int64 (Now (world e) - t)).

(** ** Poller *)

(** A nil [Client] or [Session] is [false]. *)
Record Poller := mkPoller { po_Client : bool; po_ClientID : string; po_Interval : Z }.

(** The cases of a select with one ticker. *)
Inductive tick_event := EvDone | EvTick.

Section poller.
Context `{PollerClient W}.

Definition PollOnce (p : Poller) (e : env W) : option error * env W :=
  let start := Now (world e) in
  let '(r, w) := GetState (world e) in
  let e := set_world e w in
  match r with
  | inl err => (Some ("poller: get state: " +:+ err)%string, e)
  | inr state =>
      let '(r, w) := GetConfig (po_ClientID p) (world e) in
      let e := set_world e w in
      match r with
      | inl err => (Some ("poller: get config: " +:+ err)%string, e)
      | inr cfg =>
          let e := log e (LogPolled (Version state) (dc_TelemetryTopic cfg) (dc_CommandTopic cfg)) in
          (None, with_metrics e (observe_poll (since e start)))
      end
  end.

Definition Poller_check (p : Poller) : option error :=
  if negb (po_Client p) then Some "poller: client is required"%string
  else if String.eqb (po_ClientID p) "" then Some "poller: client ID is required"%string
  else if po_Interval p <=? 0 then Some "poller: interval must be positive"%string
  else None.

Fixpoint Poller_loop (p : Poller) (evs : list (tick_event * W)) (e : env W)
    : option (option error) * env W :=
  match evs with
  | [] => (None, e)
  | (EvDone, w) :: _ => (Some None, set_world e w)
  | (EvTick, w) :: evs =>
      Poller_loop p evs (log_failure "poll failed" (PollOnce p (set_world e w)))
  end.

Definition Poller_Run (p : Poller) (evs : list (tick_event * W)) (e : env W)
    : option (option error) * env W :=
  match Poller_check p with
  | Some err => (Some (Some err), e)
  | None => Poller_loop p evs (log_failure "poll failed" (PollOnce p e))
  end.
End poller.

(** ** Uploader *)

Record Uploader := mkUploader {
  up_Client : bool;
  up_ClientID : string;
  up_Interval : Z;
  up_Size : Z;
}.

(** One rune of [safeID]. *)
Definition safeID_rune (x : Z * list byte) : list byte :=
  let '(r, bs) := x in
  if (97 <=? r) && (r <=? 122) then bs
  else if (65 <=? r) && (r <=? 90) then bs
  else if (48 <=? r) && (r <=? 57) then bs
  else if (r =? 45) || (r =? 95) then bs
  else [x2d].

Definition safeID (id : string) : string :=
  let b := concat (map safeID_rune (runes id)) in
  if zlen b =? 0 then "client"%string else string_of_bytes b.

(** The verb %03d: at least three characters, padded with zeros after the sign. *)
Definition pad3 (z : Z) : string :=
  let digits (n : Z) (width : nat) :=
    let s := pretty n in
    (string_of_bytes (replicate (width - String.length s) x30) +:+ s)%string in
  if z <? 0 then ("-" +:+ digits (- z) 2%nat)%string else digits z 3%nat.

Definition upload_name (id : string) (seq : Z) : string :=
  (safeID id +:+ "-" +:+ pad3 seq +:+ ".bin")%string.

Section uploader.
Context `{UploaderClient W}.

Definition UploadOnce (u : Uploader) (seq : Z) (e : env W) : option error * env W :=
  let start := Now (world e) in
  let name := upload_name (up_ClientID u) seq in
  let seed := wrap64 (seq + 1) in
  let '(r, w) := UploadDeterministic name (up_Size u) seed (world e) in
  let e := set_world e w in
  match r with
  | inl err => (Some ("uploader: upload " +:+ name +:+ ": " +:+ err)%string, e)
  | inr resp =>
      let e := log e (LogUploaded name (ur_Bytes resp)) in
      (None, with_metrics e (observe_upload (since e start)))
  end.

Definition Uploader_check (u : Uploader) : option error :=
  if negb (up_Client u) then Some "uploader: client is required"%string
  else if String.eqb (up_ClientID u) "" then Some "uploader: client ID is required"%string
  else if up_Interval u <=? 0 then Some "uploader: interval must be positive"%string
  else if up_Size u <? 0 then Some "uploader: size must be non-negative"%string
  else None.

Fixpoint Uploader_loop (u : Uploader) (seq : Z) (evs : list (tick_event * W)) (e : env W)
    : option (option error) * env W :=
  match evs with
  | [] => (None, e)
  | (EvDone, w) :: _ => (Some None, set_world e w)
  | (EvTick, w) :: evs =>
      let seq := wrap64 (seq + 1) in
      Uploader_loop u seq evs (log_failure "upload failed" (UploadOnce u seq (set_world e w)))
  end.

Definition Uploader_Run (u : Uploader) (evs : list (tick_event * W)) (e : env W)
    : option (option error) * env W :=
  match Uploader_check u with
  | Some err => (Some (Some err), e)
  | None => Uploader_loop u 0 evs (log_failure "upload failed" (UploadOnce u 0 e))
  end.
End uploader.

(** ** Publisher *)

Record Publisher := mkPublisher {
  pu_Session : bool;
  pu_ClientID : string;
  pu_TelemetryTopic : string;
  pu_CommandTopic : string;
  pu_TelemetryInterval : Z;
  pu_CommandInterval : Z;
  pu_PayloadSize : Z;
}.

Definition stampedPayload (t : Z) (clientID kind : string) : string :=
  ("ts=" +:+ pretty t +:+ ";client=" +:+ clientID +:+ ";kind=" +:+ kind)%string.

(** The payload of [publishTelemetry], padded or cut to [size] bytes. *)
Definition telemetry_payload (t : Z) (clientID : string) (size : Z) : exec (list byte) :=
  let payload := bytes_of_string (stampedPayload t clientID "telemetry") in
  let payload :=
    if zlen payload <? size
    then payload ++ replicate (Z.to_nat (size - zlen payload)) x00 else payload in
  slice payload 0 size.

Inductive publisher_event := PubDone | TelemetryTick | CommandTick.

Section publisher.
Context `{PublisherSession W}.

Definition publishTelemetry (p : Publisher) (e : env W) : exec (option error * env W) :=
  let! payload := telemetry_payload (Now (world e)) (pu_ClientID p) (pu_PayloadSize p) in
  let '(r, w) := PublishDatagram (pu_TelemetryTopic p) payload (world e) in
  let e := set_world e w in
  Ok match r with
     | Some err => (Some ("publisher: telemetry datagram: " +:+ err)%string, e)
     | None => (None, log e (LogTelemetry (pu_TelemetryTopic p) (zlen payload)))
     end.

Definition publishCommand (p : Publisher) (e : env W) : option error * env W :=
  let payload := bytes_of_string (stampedPayload (Now (world e)) (pu_ClientID p) "command") in
  let '(r, w) := PublishStream (pu_CommandTopic p) payload (world e) in
  let e := set_world e w in
  match r with
  | Some err => (Some ("publisher: command stream: " +:+ err)%string, e)
  | None => (None, log e (LogCommand (pu_CommandTopic p) (zlen payload)))
  end.

Definition Publisher_check (p : Publisher) : option error :=
  if negb (pu_Session p) then Some "publisher: session is required"%string
  else if String.eqb (pu_TelemetryTopic p) "" || String.eqb (pu_CommandTopic p) ""
  then Some "publisher: telemetry and command topics are required"%string
  else if (pu_TelemetryInterval p <=? 0) || (pu_CommandInterval p <=? 0)
  then Some "publisher: intervals must be positive"%string
  else if pu_PayloadSize p <=? 0 then Some "publisher: payload size must be positive"%string
  else None.

Definition telemetry_tick (p : Publisher) (e : env W) : exec (env W) :=
  let! r := publishTelemetry p e in Ok (log_failure "publish telemetry failed" r).
Definition command_tick (p : Publisher) (e : env W) : env W :=
  log_failure "publish command failed" (publishCommand p e).

Fixpoint Publisher_loop (p : Publisher) (evs : list (publisher_event * W)) (e : env W)
    : exec (option (option error) * env W) :=
  match evs with
  | [] => Ok (None, e)
  | (PubDone, w) :: _ => Ok (Some None, set_world e w)
  | (TelemetryTick, w) :: evs =>
      let! e := telemetry_tick p (set_world e w) in Publisher_loop p evs e
  | (CommandTick, w) :: evs => Publisher_loop p evs (command_tick p (set_world e w))
  end.

Definition Publisher_Run (p : Publisher) (evs : list (publisher_event * W)) (e : env W)
    : exec (option (option error) * env W) :=
  match Publisher_check p with
  | Some err => Ok (Some (Some err), e)
  | None => let! e := telemetry_tick p e in Publisher_loop p evs (command_tick p e)
  end.
End publisher.

(** ** Subscriber *)

Record Subscriber := mkSubscriber { su_Session : bool; su_Topics : list string }.

(** [strconv.ParseInt(s, 10, 64)]; an error is [None]. *)
Definition digits_value (l : list byte) : Z := foldl (λ n b, 10 * n + (byte_Z b - 48)) 0 l.
Definition ParseInt (s : string) : option Z :=
  let '(neg, l) :=
    match bytes_of_string s with
    | x2d :: l => (true, l)
    | x2b :: l => (false, l)
    | l => (false, l)
    end in
  if (zlen l =? 0) || negb (forallb is_digit l) then None
  else
    let n := digits_value l in
    if neg then (if 2 ^ 63 <? n then None else Some (- n))
    else if 2 ^ 63 <=? n then None else Some n.

Definition semicolon : byte := x3b.

Fixpoint parse_parts (parts : list string) : option Z :=
  match parts with
  | [] => None
  | part :: parts =>
      if HasPrefix part "ts=" then ParseInt (TrimPrefix part "ts=") else parse_parts parts
  end.
Definition parseStampedPayload (raw : string) : option Z := parse_parts (Split semicolon raw).

(** [MsgClosed] is a receive from the closed channel. *)
Inductive subscriber_event := SubDone | Msg (m : PubSubMessage) | MsgClosed.

Section subscriber.
Context `{SubscriberSession W}.

Fixpoint subscribe_all (topics : list string) (e : env W) : option error * env W :=
  match topics with
  | [] => (None, e)
  | topic :: topics =>
      let '(r, w) := Subscribe topic (world e) in
      let e := set_world e w in
      match r with
      | Some err => (Some ("subscriber: subscribe " +:+ topic +:+ ": " +:+ err)%string, e)
      | None => subscribe_all topics (log e (LogSubscribed topic))
      end
  end.

Definition receive_message (m : PubSubMessage) (counts : gmap string Z) (e : env W)
    : gmap string Z * env W :=
  let n := default 0 (counts !! msg_Topic m) + 1 in
  let counts := <[msg_Topic m := n]> counts in
  let e := log e (LogReceived (msg_Topic m) (msg_Surface m) (zlen (msg_Payload m)) n) in
  let e := match metrics e with
           | None => e
           | Some _ =>
               match parseStampedPayload (string_of_bytes (msg_Payload m)) with
               | Some ts => with_metrics e (observe_latency (since e ts))
               | None => e
               end
           end in
  (counts, e).

Fixpoint Subscriber_loop (evs : list (subscriber_event * W)) (counts : gmap string Z) (e : env W)
    : option (option error) * env W :=
  match evs with
  | [] => (None, e)
  | (SubDone, w) :: _ => (Some None, set_world e w)
  | (MsgClosed, w) :: _ => (Some None, set_world e w)
  | (Msg m, w) :: evs =>
      let '(counts, e) := receive_message m counts (set_world e w) in
      Subscriber_loop evs counts e
  end.

Definition Subscriber_Run (s : Subscriber) (evs : list (subscriber_event * W)) (e : env W)
    : option (option error) * env W :=
  if negb (su_Session s) then (Some (Some "subscriber: session is required"%string), e)
  else if bool_decide (su_Topics s = []) then
    (Some (Some "subscriber: at least one topic is required"%string), e)
  else
    match subscribe_all (su_Topics s) e with
    | (Some err, e) => (Some (Some err), e)
    | (None, e) => Subscriber_loop evs ∅ e
    end.
End subscriber.
End roles.

(** ** Mixed *)

Inductive role := RSubscriber | RPublisher | RPoller | RUploader.
#[global] Instance role_eq_dec : EqDecision role.
Proof. solve_decision. Defined.

Definition role_name (r : role) : string :=
  match r with
  | RSubscriber => "subscriber" | RPublisher => "publisher"
  | RPoller => "poller" | RUploader => "uploader"
  end.

(** Where [Mixed.Run] stands: in its first select, in its last one, waiting for the
    wait group after the context was cancelled, or returned. *)
Inductive mixed_pc := MStart | MSelect | MWait | MReturned (e : option error).

(** [running] are the roles whose goroutine has not finished, [errCh] is the
    channel of their errors. *)
Record mixed := mkMixed {
  mpc : mixed_pc;
  running : list role;
  errCh : list error;
  ctx_done : bool;
}.

Definition errCh_cap : Z := 4.

Inductive mixed_action :=
| MxCancel                               (* the context is cancelled *)
| MxFinish (r : role) (e : option error) (* fn(ctx) returns in its goroutine *)
| MxTimer                                (* startTimer fires *)
| MxDone                                 (* case <-ctx.Done() *)
| MxWaited                               (* the wait group is done *)
| MxError.                               (* case err := <-errCh *)

(** The checks at the start of [Run]; a missing client or session is [false]. *)
Definition Mixed_start (poller uploader publisher subscriber : bool) (cancelled : bool)
    : error + mixed :=
  if negb poller then inl "mixed: poller client is required"%string
  else if negb uploader then inl "mixed: uploader client is required"%string
  else if negb publisher then inl "mixed: publisher session is required"%string
  else if negb subscriber then inl "mixed: subscriber session is required"%string
  else inr (mkMixed MStart [RSubscriber] [] cancelled).

(** One step of [Run] or of a role's goroutine; [None] when it is not enabled. *)
Definition mixed_step (a : mixed_action) (m : mixed) : option mixed :=
  match a with
  | MxCancel => Some (mkMixed (mpc m) (running m) (errCh m) true)
  | MxFinish r e =>
      if bool_decide (r ∈ running m) then
        let running := filter (λ r', r' ≠ r) (running m) in
        match e with
        | Some err =>
            if ctx_done m then Some (mkMixed (mpc m) running (errCh m) (ctx_done m))
            else if zlen (errCh m) <? errCh_cap then
              Some (mkMixed (mpc m) running
                      (errCh m ++ [(role_name r +:+ ": " +:+ err)%string]) (ctx_done m))
            else None
        | None => Some (mkMixed (mpc m) running (errCh m) (ctx_done m))
        end
      else None
  | MxTimer =>
      match mpc m with
      | MStart => Some (mkMixed MSelect (running m ++ [RPublisher; RPoller; RUploader])
                          (errCh m) (ctx_done m))
      | _ => None
      end
  | MxDone =>
      match mpc m with
      | MStart | MSelect =>
          if ctx_done m then Some (mkMixed MWait (running m) (errCh m) (ctx_done m)) else None
      | _ => None
      end
  | MxWaited =>
      match mpc m, running m with
      | MWait, [] => Some (mkMixed (MReturned None) [] (errCh m) (ctx_done m))
      | _, _ => None
      end
  | MxError =>
      match mpc m, errCh m with
      | MSelect, err :: rest => Some (mkMixed (MReturned (Some err)) (running m) rest (ctx_done m))
      | _, _ => None
      end
  end.

Fixpoint mixed_steps (acts : list mixed_action) (m : mixed) : option mixed :=
  match acts with
  | [] => Some m
  | a :: acts => match mixed_step a m with Some m => mixed_steps acts m | None => None end
  end.
