(* ===== verification/RolesTheorems.v ===== *)
(** * RolesTheorems: what the client workloads promise

    Time stamps survive from the publisher to the subscriber, the names an uploader
    generates are accepted by the server as they are, and the mixed role returns
    for the right reason. *)

From S2P Require Import Prelude Text FS Upload UploadNames Roles.

(** ** Numerals *)

Lemma digits_value_app l k :
  digits_value (l ++ k) = digits_value l * 10 ^ zlen k + digits_value k.
Proof.
  unfold digits_value. rewrite foldl_app. generalize (foldl (λ n b, 10 * n + (byte_Z b - 48)) 0 l).
  induction k as [|b k IH] using rev_ind; intros n; simpl; [unfold zlen; simpl; lia|].
  rewrite !foldl_app, IH, zlen_app. simpl. change (zlen [b]) with 1.
  rewrite Z.pow_add_r by (pose proof (zlen_nonneg k); lia). lia.
Qed.

Lemma digits_value_range l : Forall is_digit l → 0 ≤ digits_value l < 10 ^ zlen l.
Proof.
  induction l as [|b l IH] using rev_ind; intros Hl; [done|].
  apply Forall_app in Hl as [Hl Hb]. apply Forall_cons in Hb as [Hb _].
  rewrite digits_value_app, zlen_app. change (zlen [b]) with 1.
  rewrite Z.pow_add_r by (pose proof (zlen_nonneg l); lia).
  specialize (IH Hl). unfold is_digit in Hb. apply Is_true_true, andb_true_iff in Hb as [H1 H2].
  apply Z.leb_le in H1, H2. 
  assert (digits_value [b] = byte_Z b - 48) as -> by (unfold digits_value; simpl; lia). lia.
Qed.

Lemma byte_Z_of_ascii c : byte_Z (Ascii.byte_of_ascii c) = Z.of_N (Ascii.N_of_ascii c).
Proof. by destruct c as [[] [] [] [] [] [] [] []]. Qed.

Lemma pretty_char_value (n : N) : (n < 10)%N →
  byte_Z (Ascii.byte_of_ascii (pretty_N_char n)) = 48 + Z.of_N n.
Proof.
  intros Hn. assert (n ∈ [0; 1; 2; 3; 4; 5; 6; 7; 8; 9]%N) as Hin.
  { rewrite !elem_of_cons. lia. }
  repeat (apply elem_of_cons in Hin as [->|Hin]; [done|]). by apply elem_of_nil in Hin.
Qed.

Lemma pretty_N_go_value x s :
  digits_value (bytes_of_string (pretty_N_go x s))
  = Z.of_N x * 10 ^ zlen (bytes_of_string s) + digits_value (bytes_of_string s).
Proof.
  revert s. induction (N.lt_wf_0 x) as [x _ IH]; intros s.
  destruct (decide (x = 0)%N) as [->|Hx]; [rewrite pretty_N_go_0; lia|].
  rewrite pretty_N_go_step by lia. rewrite IH by (apply N.div_lt; lia).
  rewrite bytes_of_string_cons.
  change (Ascii.byte_of_ascii ?c :: ?l) with ([Ascii.byte_of_ascii c] ++ l).
  rewrite digits_value_app, zlen_app. change (zlen [_]) with 1.
  rewrite Z.pow_add_r by (pose proof (zlen_nonneg (bytes_of_string s)); lia).
  assert (digits_value [Ascii.byte_of_ascii (pretty_N_char (x `mod` 10))] = Z.of_N (x `mod` 10)) as ->.
  { unfold digits_value. simpl. rewrite pretty_char_value by (apply N.mod_lt; lia). lia. }
  pose proof (N.div_mod x 10 ltac:(lia)) as Hdm.
  assert (Z.of_N x = 10 * Z.of_N (x `div` 10) + Z.of_N (x `mod` 10)) as -> by lia.
  lia.
Qed.

Lemma pretty_Z_value (z : Z) : 0 ≤ z → digits_value (bytes_of_string (pretty z)) = z.
Proof.
  intros Hz. destruct z as [|p|p]; [done| |lia]. change (pretty (Zpos p)) with (pretty (N.pos p)).
  unfold pretty, pretty_N. case_decide as Hn; [done|]. rewrite pretty_N_go_value.
  change (bytes_of_string "") with ([] : list byte). rewrite zlen_nil. unfold digits_value. simpl. lia.
Qed.

(** Parsing a non-empty string of digits whose value fits. *)
Lemma ParseInt_digits l :
  Forall is_digit l → l ≠ [] → digits_value l < 2 ^ 63 →
  ParseInt (string_of_bytes l) = Some (digits_value l).
Proof.
  intros Hl Hne Hv. unfold ParseInt. rewrite bytes_of_string_of_bytes.
  assert (Hd : forallb is_digit l = true).
  { apply forallb_forall. intros b Hb%list_elem_of_In. rewrite Forall_forall in Hl.
    by apply Is_true_true, Hl. }
  assert (Hz : (zlen l =? 0) = false) by (apply Z.eqb_neq; by intros ?%zlen_0_nil).
  destruct l as [|b l]; [done|].
  assert (Hb : is_digit b) by by apply Forall_cons in Hl as [Hb _].
  assert (Hmatch : match b :: l with
    | x2d :: l => (true, l) | x2b :: l => (false, l) | l => (false, l) end = (false, b :: l))
    by by destruct b.
  rewrite Hmatch, Hz, Hd. simpl negb. cbn [orb]. destruct (Z.leb_spec (2 ^ 63) (digits_value (b :: l))); [lia|done].
Qed.

(** ** Time stamps *)

(** The stamped part of a payload, up to the first separator. *)
Definition stamp_field (t : Z) : list byte := bytes_of_string ("ts=" +:+ pretty t)%string.

Lemma stampedPayload_bytes t id kind :
  ∃ rest, bytes_of_string (stampedPayload t id kind) = stamp_field t ++ semicolon :: rest.
Proof.
  exists (bytes_of_string ("client=" +:+ id +:+ ";kind=" +:+ kind)%string).
  unfold stampedPayload, stamp_field. rewrite !FS.bytes_of_string_app. by rewrite <-!app_assoc.
Qed.

Lemma stamp_field_eq t : stamp_field t = [x74; x73; x3d] ++ bytes_of_string (pretty t).
Proof. unfold stamp_field. by rewrite FS.bytes_of_string_app. Qed.

(** The first field decides. *)
Lemma parse_field ds l :
  Forall is_digit ds → (l = [x74; x73; x3d] ++ ds ∨ ∃ rest, l = [x74; x73; x3d] ++ ds ++ semicolon :: rest) →
  parseStampedPayload (string_of_bytes l) = ParseInt (string_of_bytes ds).
Proof.
  intros Hds Hl. unfold parseStampedPayload, Split. rewrite bytes_of_string_of_bytes.
  assert (Hno : semicolon ∉ [x74; x73; x3d] ++ ds).
  { rewrite elem_of_app, !elem_of_cons. intros [Hin|Hin]; [by destruct Hin as [[=]|[[=]|[[=]|?%elem_of_nil]]]|].
    by apply (digits_not_in semicolon ds). }
  assert (∃ parts, split_on semicolon l = ([x74; x73; x3d] ++ ds) :: parts) as [parts ->].
  { destruct Hl as [->|[rest ->]].
    - rewrite split_on_none by done. eauto.
    - rewrite app_assoc, split_on_app, (split_on_none _ ([x74; x73; x3d] ++ ds)) by done. simpl. eauto. }
  cbn [map parse_parts]. unfold HasPrefix, TrimPrefix. rewrite bytes_of_string_of_bytes.
  assert (strip_prefix (bytes_of_string "ts=") ([x74; x73; x3d] ++ ds) = Some ds) as ->
    by by apply strip_prefix_spec.
  done.
Qed.

(** A digit string cut short is the number with its last digits dropped. *)
Lemma digits_value_take n l :
  Forall is_digit l → (n ≤ length l)%nat →
  digits_value (take n l) = digits_value l / 10 ^ (zlen l - Z.of_nat n).
Proof.
  intros Hl Hn. rewrite <-(take_drop n l) at 2. rewrite digits_value_app.
  assert (Hz : zlen (drop n l) = zlen l - Z.of_nat n) by (unfold zlen; rewrite length_drop; lia).
  pose proof (digits_value_range (drop n l) (Forall_drop _ _ _ Hl)) as Hr. rewrite Hz in *.
  symmetry. rewrite Z.add_comm, Z.div_add by lia. rewrite Z.div_small by lia. lia.
Qed.

Lemma parse_stamp t l :
  0 ≤ t < 2 ^ 63 → (l = stamp_field t ∨ ∃ rest, l = stamp_field t ++ semicolon :: rest) →
  parseStampedPayload (string_of_bytes l) = Some t.
Proof.
  intros Ht Hl. destruct (pretty_Z_digits t ltac:(lia)) as [Hd Hn].
  rewrite (parse_field (bytes_of_string (pretty t))); [|done|].
  - rewrite ParseInt_digits; rewrite ?pretty_Z_value by lia; [done|done| |lia].
    intros E. rewrite <-bytes_of_string_length, E in Hn. simpl in Hn. lia.
  - rewrite stamp_field_eq in Hl. destruct Hl as [?|[rest ?]]; [by left|right].
    exists rest. by rewrite app_assoc.
Qed.

(** The bytes of a telemetry payload: the stamped field, cut or continued. *)
Lemma telemetry_payload_spec t id size :
  0 < size →
  ∃ payload, telemetry_payload t id size = Ok payload ∧ zlen payload = size ∧
    if size <=? zlen (stamp_field t) then payload = take (Z.to_nat size) (stamp_field t)
    else ∃ rest, payload = stamp_field t ++ semicolon :: rest.
Proof.
  intros Hs. unfold telemetry_payload. destruct (stampedPayload_bytes t id "telemetry") as [rest ->].
  set (full := stamp_field t ++ semicolon :: rest). cbv zeta.
  set (padded := if zlen full <? size then _ else full).
  assert (∃ rest', padded = stamp_field t ++ semicolon :: rest' ∧ size ≤ zlen padded) as (rest' & Hp & Hlen).
  { unfold padded. destruct (Z.ltb_spec (zlen full) size).
    - eexists. split; [unfold full; by rewrite <-app_assoc|].
      rewrite zlen_app. unfold zlen at 2. rewrite length_replicate. lia.
    - exists rest. split; [done|lia]. }
  rewrite slice_ok by lia. rewrite Z.sub_0_r, drop_0. eexists. split; [done|]. split.
  { unfold zlen in *. rewrite length_take. lia. }
  rewrite Hp. destruct (Z.leb_spec size (zlen (stamp_field t))).
  - rewrite take_app_le; [done|]. unfold zlen in *. lia.
  - rewrite take_app_ge by (unfold zlen in *; lia).
    destruct (Z.to_nat size - length (stamp_field t))%nat as [|k] eqn:E; [unfold zlen in *; lia|].
    eexists. by simpl.
Qed.

(** C28: time stamps reach the subscriber. A telemetry payload of [size] bytes
    published at time [t] is parsed back as [t], whatever the client ID, as long as
    the size leaves room for the stamped field; a smaller size drops the last
    digits of the number, and a size of at most 3 leaves nothing to parse. A
    command payload is always parsed back as [t]. The latency a subscriber with
    metrics then observes is the time since [t]. *)
Theorem stamps_reach_subscriber {W} `{Clock W} t id size kind :
  0 ≤ t < 2 ^ 63 → 0 < size →
  let digits := zlen (bytes_of_string (pretty t)) in
  (∃ payload, telemetry_payload t id size = Ok payload ∧ zlen payload = size ∧
     parseStampedPayload (string_of_bytes payload) =
       (if size <=? 3 then None else Some (t / 10 ^ Z.max 0 (3 + digits - size))) ∧
     (3 + digits ≤ size → parseStampedPayload (string_of_bytes payload) = Some t)) ∧
  parseStampedPayload (stampedPayload t id kind) = Some t ∧
  ∀ (m : PubSubMessage) counts (e : env W) obs,
    msg_Payload m = bytes_of_string (stampedPayload t id kind) → metrics e = Some obs →
    PublishLatency <$> metrics (receive_message m counts e).2 = Some (PublishLatency obs ++ [since e t]).
Proof.
  intros Ht Hs digits.
  assert (Hcmd : parseStampedPayload (stampedPayload t id kind) = Some t).
  { rewrite <-(string_of_bytes_of_string (stampedPayload t id kind)).
    apply parse_stamp; [done|]. right. apply stampedPayload_bytes. }
  split; [|split; [done|]].
  2: { intros m counts e obs Hm He. unfold receive_message. simpl. rewrite He, Hm.
       rewrite string_of_bytes_of_string, Hcmd. simpl. by rewrite He. }
  destruct (telemetry_payload_spec t id size Hs) as (payload & Hp & Hlen & Hshape).
  assert (Hfield : zlen (stamp_field t) = 3 + digits) by (by rewrite stamp_field_eq, zlen_app).
  exists payload. split; [done|]. split; [done|].
  assert (Hgoal : parseStampedPayload (string_of_bytes payload) =
    (if size <=? 3 then None else Some (t / 10 ^ Z.max 0 (3 + digits - size)))).
  { rewrite Hfield in Hshape. destruct (Z.leb_spec size (3 + digits)) as [Hle|Hgt].
    - rewrite stamp_field_eq in Hshape. destruct (Z.leb_spec size 3) as [H3|H3].
      + assert (size = 1 ∨ size = 2 ∨ size = 3) as [->|[->| ->]] by lia; subst payload; done.
      + destruct (pretty_Z_digits t ltac:(lia)) as [Hd _].
        rewrite take_app_ge in Hshape by (simpl; lia).
        set (n := (Z.to_nat size - length [x74; x73; x3d])%nat) in Hshape.
        assert (Hn : Z.of_nat n = size - 3 ∧ (n ≤ length (bytes_of_string (pretty t)))%nat)
          by (unfold n, digits, zlen in *; simpl; lia).
        assert (Hdv : digits_value (take n (bytes_of_string (pretty t)))
                      = t / 10 ^ Z.max 0 (3 + digits - size)).
        { rewrite digits_value_take by (done || lia). rewrite pretty_Z_value by lia.
          do 2 f_equal. fold digits. lia. }
        rewrite (parse_field (take n (bytes_of_string (pretty t)))); [|by apply Forall_take|by left].
        rewrite ParseInt_digits, Hdv; [done|by apply Forall_take| |].
        * intros E. apply (f_equal length) in E. rewrite length_take in E. simpl in E. lia.
        * pose proof (Z.pow_pos_nonneg 10 (Z.max 0 (3 + digits - size)) ltac:(lia) ltac:(lia)).
          pose proof (Z.div_le_upper_bound t (10 ^ Z.max 0 (3 + digits - size)) t ltac:(lia)). nia.
    - destruct (Z.leb_spec size 3); [unfold digits in *; pose proof (zlen_nonneg (bytes_of_string (pretty t))); lia|].
      rewrite Z.max_l by lia. rewrite Z.pow_0_r, Z.div_1_r. apply parse_stamp; [done|by right]. }
  split; [done|]. intros Hroom. rewrite Hgoal.
  assert (0 < digits).
  { destruct (pretty_Z_digits t ltac:(lia)) as [_ Hn]. rewrite <-bytes_of_string_length in Hn.
    unfold digits, zlen. lia. }
  destruct (Z.leb_spec size 3); [lia|]. rewrite Z.max_l by lia. by rewrite Z.pow_0_r, Z.div_1_r.
Qed.

#[local] Instance unit_clock : Clock Z := λ w, w.

Lemma stamps_reach_subscriber_witness :
  ∃ payload, telemetry_payload 1234567 "client-1" 8 = Ok payload ∧
    parseStampedPayload (string_of_bytes payload) = Some 12345.
Proof.
  destruct (stamps_reach_subscriber (W:=Z) 1234567 "client-1" 8 "command"
    ltac:(split; vm_compute; congruence) ltac:(lia)) as [(payload & Hp & _ & Hparse & _) _].
  exists payload. split; [exact Hp|]. rewrite Hparse. vm_compute. reflexivity.
Defined.

(** ** Uploads *)

Lemma safeID_runes_ok l fuel :
  Forall safe_byte (concat (map safeID_rune (runes_loop fuel l))).
Proof.
  apply Forall_concat, Forall_fmap, Forall_forall. intros [r bs] Hin. simpl.
  assert (Hs : r < 128 → (∃ b, bs = [b] ∧ byte_Z b = r)).
  { intros Hr. by eapply runes_loop_ascii_single. }
  assert (Hsafe : safe_rune r = true → Forall safe_byte bs).
  { intros Hsr. destruct (Hs (safe_rune_lt r Hsr)) as (b & -> & <-).
    constructor; [|constructor]. unfold safe_byte. by rewrite Hsr. }
  unfold safeID_rune, safe_rune, in_range in *.
  repeat case_match; try (apply Hsafe; by rewrite ?orb_true_r); [|by repeat constructor].
  apply Hsafe. apply orb_true_iff. right. apply bool_decide_eq_true.
  match goal with E : (_ || _) = true |- _ =>
    apply orb_true_iff in E as [E|E]; apply Z.eqb_eq in E; rewrite E; set_solver end.
Qed.

Lemma safeID_ok id : safeID id ≠ ""%string ∧ Forall safe_byte (bytes_of_string (safeID id)).
Proof.
  unfold safeID. case_match eqn:E; [split; [done|by repeat constructor]|].
  rewrite bytes_of_string_of_bytes. split; [|apply safeID_runes_ok].
  intros Hs%string_of_bytes_empty. rewrite Hs in E. done.
Qed.

Lemma digit_safe b : is_digit b → safe_byte b.
Proof.
  unfold is_digit, safe_byte, safe_rune, in_range. intros Hd%Is_true_true.
  rewrite Hd. by rewrite orb_true_r.
Qed.

Lemma pad3_digits z : 0 ≤ z →
  Forall is_digit (bytes_of_string (pad3 z)) ∧ digits_value (bytes_of_string (pad3 z)) = z.
Proof.
  intros Hz. unfold pad3. destruct (Z.ltb_spec z 0); [lia|]. cbv zeta.
  destruct (pretty_Z_digits z Hz) as [Hd _].
  rewrite FS.bytes_of_string_app, bytes_of_string_of_bytes. split.
  - apply Forall_app. split; [|done]. by apply Forall_replicate.
  - rewrite digits_value_app, pretty_Z_value by done.
    assert (Hr : ∀ n, digits_value (replicate n x30) = 0).
    { induction n as [|n IH]; [done|]. rewrite replicate_S_end, digits_value_app, IH. done. }
    rewrite Hr. lia.
Qed.

(** The server stores an uploader's files under the names it chose. Every name
    UploadOnce generates is left unchanged by the sanitizing of the upload handler,
    whatever the client ID; names of different uploads of one client differ, and
    so do their seeds. *)
Theorem upload_names_accepted id seq seq' :
  0 ≤ seq < max_int64 → 0 ≤ seq' < max_int64 →
  sanitizeFilename (upload_name id seq) = inr (upload_name id seq) ∧
  (upload_name id seq = upload_name id seq' → seq = seq') ∧
  (wrap64 (seq + 1) = wrap64 (seq' + 1) → seq = seq').
Proof.
  intros Hs Hs'. split_and!.
  - apply safe_name_fixed. destruct (safeID_ok id) as [Hne Hsafe].
    destruct (pad3_digits seq ltac:(lia)) as [Hd _].
    assert (Hb : bytes_of_string (upload_name id seq) =
      bytes_of_string (safeID id) ++ [x2d] ++ bytes_of_string (pad3 seq) ++ bytes_of_string ".bin").
    { unfold upload_name. by rewrite !FS.bytes_of_string_app. }
    assert (Hlen : (6 ≤ length (bytes_of_string (upload_name id seq)))%nat).
    { rewrite Hb, !length_app. simpl. destruct (bytes_of_string (safeID id)) eqn:E; simpl; [|lia].
      apply (f_equal string_of_bytes) in E. by rewrite string_of_bytes_of_string in E. }
    rewrite bytes_of_string_length in Hlen. split_and!.
    + intros E. rewrite E in Hlen. simpl in Hlen. lia.
    + unfold is_dots. apply orb_false_iff.
      split; apply String.eqb_neq; intros E; rewrite E in Hlen; simpl in Hlen; lia.
    + rewrite Hb, !Forall_app. split_and!; [done|by repeat constructor| |by repeat constructor].
      eapply Forall_impl; [exact Hd|]. apply digit_safe.
  - intros E. apply (f_equal bytes_of_string) in E. unfold upload_name in E.
    rewrite !FS.bytes_of_string_app in E. apply app_inv_head, app_inv_head in E.
    apply app_inv_tail in E. destruct (pad3_digits seq ltac:(lia)) as [_ <-].
    destruct (pad3_digits seq' ltac:(lia)) as [_ <-]. congruence.
  - rewrite !wrap64_small by (unfold min_int64; lia). lia.
Qed.

Lemma upload_names_accepted_witness :
  upload_name "kiosk #7" 12 = "kiosk--7-012.bin"%string ∧
  sanitizeFilename "kiosk--7-012.bin" = inr "kiosk--7-012.bin"%string.
Proof.
  split; [vm_compute; reflexivity|].
  exact (proj1 (upload_names_accepted "kiosk #7" 12 13
    ltac:(split; vm_compute; congruence) ltac:(split; vm_compute; congruence))).
Defined.

(** ** The mixed role *)

(** The errors the roles report, in order: those of the goroutines that finish
    before the context is cancelled. *)
Fixpoint reports (cancelled : bool) (acts : list mixed_action) : list string :=
  match acts with
  | [] => []
  | MxCancel :: acts => reports true acts
  | MxFinish r (Some err) :: acts =>
      (if cancelled then [] else [(role_name r +:+ ": " +:+ err)%string]) ++ reports cancelled acts
  | _ :: acts => reports cancelled acts
  end.

(** The reported errors, the one [Run] returned included. *)
Definition seen (m : mixed) : list string :=
  match mpc m with MReturned (Some err) => err :: errCh m | _ => errCh m end.

Definition to_start (m : mixed) : Z := match mpc m with MStart => 3 | _ => 0 end.

Definition mixed_ok (m : mixed) : Prop :=
  zlen (seen m) + zlen (running m) + to_start m ≤ 4 ∧
  match mpc m with
  | MWait => ctx_done m = true
  | MReturned None => ctx_done m = true ∧ running m = []
  | _ => True
  end.

Lemma zlen_remove_role r l : r ∈ l → zlen (filter (λ r' : role, r' ≠ r) l) < zlen l.
Proof.
  intros Hr. unfold zlen. apply inj_lt. induction l as [|x l IH]; [by apply elem_of_nil in Hr|].
  rewrite filter_cons. case_decide as Hx; simpl.
  - apply elem_of_cons in Hr as [->|Hr]; [done|]. specialize (IH Hr). lia.
  - pose proof (length_filter (λ r' : role, r' ≠ r) l). lia.
Qed.

Lemma seen_ge m : zlen (errCh m) ≤ zlen (seen m).
Proof. unfold seen. repeat case_match; rewrite ?zlen_cons; lia. Qed.

Lemma mixed_step_ok a m m' :
  mixed_ok m → mixed_step a m = Some m' →
  mixed_ok m' ∧ seen m' = seen m ++ reports (ctx_done m) [a] ∧
  ctx_done m' = match a with MxCancel => true | _ => ctx_done m end.
Proof.
  intros [Hn Hpc] Hst. unfold mixed_step in Hst. unfold mixed_ok, to_start.
  destruct a as [|r e| | | |].
  - simplify_eq. unfold seen in *. simpl. rewrite app_nil_r. split_and!; try done.
    destruct (mpc m) as [| | |[]]; intuition.
  - case_bool_decide as Hr; [|done]. pose proof (zlen_remove_role r _ Hr) as Hlen.
    unfold to_start in Hn. pose proof (seen_ge m) as Hsg.
    assert (Hnone : mpc m ≠ MReturned None).
    { intros E. rewrite E in Hpc. destruct Hpc as [_ Hpc]. rewrite Hpc in Hr. by apply elem_of_nil in Hr. }
    assert (Hwait : mpc m = MWait → ctx_done m = true) by (intros E; by rewrite E in Hpc).
    destruct e as [err|]; [destruct (ctx_done m) eqn:Ec; [|destruct (_ <? _) eqn:Ecap; [|done]]|];
      simplify_eq; unfold seen in *; simpl; rewrite ?app_nil_r;
      destruct (mpc m) as [| | |[]]; try done;
      autorewrite with go_len in *; split_and!; auto; lia.
  - unfold seen, to_start in *. destruct (mpc m); simplify_eq. simpl. rewrite app_nil_r.
    rewrite zlen_app. split_and!; try done. unfold zlen at 3. simpl. lia.
  - unfold seen, to_start in *. destruct (mpc m); try done; destruct (ctx_done m) eqn:Ec; simplify_eq;
      simpl; rewrite app_nil_r; split_and!; try done; lia.
  - unfold seen, to_start in *. destruct (mpc m), (running m); simplify_eq. simpl.
    rewrite app_nil_r. by split_and!.
  - unfold seen, to_start in *. destruct (mpc m), (errCh m); simplify_eq. simpl.
    rewrite app_nil_r. by split_and!.
Qed.

Lemma reports_cons c a acts :
  reports c (a :: acts) =
    reports c [a] ++ reports (match a with MxCancel => true | _ => c end) acts.
Proof. destruct a as [|r []| | | |]; simpl; by rewrite ?app_nil_r. Qed.

Lemma mixed_steps_ok acts m m' :
  mixed_ok m → mixed_steps acts m = Some m' →
  mixed_ok m' ∧ seen m' = seen m ++ reports (ctx_done m) acts.
Proof.
  revert m. induction acts as [|a acts IH]; intros m Hm Hst; cbn [mixed_steps] in Hst.
  { simplify_eq. split; [done|]. simpl. by rewrite app_nil_r. }
  destruct (mixed_step a m) as [m1|] eqn:E; [|done].
  destruct (mixed_step_ok a m m1 Hm E) as (Hm1 & Hseen & Hctx).
  destruct (IH m1 Hm1 Hst) as [Hm' ->]. split; [done|].
  by rewrite Hseen, (reports_cons (ctx_done m) a acts), Hctx, app_assoc.
Qed.

(** C27: the mixed role returns for the right reason. In every schedule, Run
    returns nil only once the context is cancelled and all its roles have
    finished; it returns an error only if that is the first error a role reported
    before the cancellation. Errors wait in the channel, in the order in which they
    were reported, until Run returns; those that it does not return are then left
    there unread: all of them when it returns nil, all but the first when it returns
    that. Errors after the cancellation are not reported at all. No role is ever
    blocked on reporting, whether or not Run has returned. *)
Theorem Mixed_Run_returns c m0 acts m :
  Mixed_start true true true true c = inr m0 → mixed_steps acts m0 = Some m →
  (mpc m = MReturned None → ctx_done m = true ∧ running m = []) ∧
  (∀ err, mpc m = MReturned (Some err) → reports c acts = err :: errCh m) ∧
  ((∀ err, mpc m ≠ MReturned (Some err)) → errCh m = reports c acts) ∧
  (∀ r e, r ∈ running m → is_Some (mixed_step (MxFinish r e) m)).
Proof.
  intros [= <-] Hst.
  destruct (mixed_steps_ok acts (mkMixed MStart [RSubscriber] [] c) m
    ltac:(split; [vm_compute; congruence|done]) Hst) as [[Hn Hpc] Hseen].
  change (seen m = reports c acts) in Hseen. split_and!.
  - intros E. by rewrite E in Hpc.
  - intros err E. rewrite <-Hseen. unfold seen. by rewrite E.
  - intros Hne. rewrite <-Hseen. unfold seen.
    destruct (mpc m) as [| | |[err|]] eqn:E; try done. by destruct (Hne err).
  - intros r e Hr. simpl. rewrite bool_decide_eq_true_2 by done.
    pose proof (seen_ge m). assert (0 < zlen (running m)).
    { destruct (running m); [by apply elem_of_nil in Hr|]. rewrite zlen_cons.
      pose proof (zlen_nonneg l). lia. }
    assert (zlen (errCh m) < 4) by (unfold to_start in Hn; destruct (mpc m); lia).
    destruct e as [err|]; [|eauto]. destruct (ctx_done m); [eauto|].
    unfold errCh_cap. destruct (Z.ltb_spec (zlen (errCh m)) 4); [eauto|lia].
Qed.

Definition two_errors : list mixed_action :=
  [MxTimer; MxFinish RPoller (Some "boom"%string); MxFinish RUploader (Some "full"%string); MxError].

(** The error of the poller is returned, that of the uploader stays unread. *)
Lemma Mixed_Run_returns_witness :
  ∃ m, mixed_steps two_errors (mkMixed MStart [RSubscriber] [] false) = Some m ∧
    mpc m = MReturned (Some "poller: boom"%string) ∧ errCh m = ["uploader: full"%string] ∧
    reports false two_errors = "poller: boom"%string :: errCh m.
Proof.
  eexists. split; [vm_compute; reflexivity|]. split; [reflexivity|]. split; [reflexivity|].
  refine (proj1 (proj2 (Mixed_Run_returns false (mkMixed MStart [RSubscriber] [] false)
    two_errors _ eq_refl _)) _ _); vm_compute; reflexivity.
Defined.
