(* ===== verification/ClientPubSub.v ===== *)
(** * ClientPubSub: the pub/sub session of a client
    ([internal/client/pubsub.go], and the session part of [shared_conn.go])

    A session publishes frames and delivers what it receives to a channel of
    messages. Its goroutines are the datagram reader, one reader per incoming
    stream, the stream acceptor, the handlers of arriving streams, whoever closes
    the transport session, and the goroutine that closes the message channel once
    the context is cancelled. [step] is one step of one of them. A send on a closed
    channel panics, and in a select it counts as ready; a vector of metrics panics on
    label values that it does not take. *)

From S2P Require Import Prelude Wire Collectors Roles.

Definition maxDatagramLen : Z := 1024.
Definition incomingDepth : Z := 256.
Definition uniQueueDepth : Z := 256.

(** ** Sending *)

Inductive client_error :=
| ErrEncode (e : wire_error)
| ErrDatagramTooLarge (n : Z)
| ErrSendDatagram (e : string)
| ErrContext (e : string)
| ErrSetDeadline (e : string)
| ErrWriteControl (e : wire_error).

(** [metrics.ClientMetrics.Datagrams] by direction and topic; [None] without
    metrics. *)
Abbreviation datagram_counts := (option (gmap (string * string) Z)) (only parsing).

Definition count_datagram `{Labels} {E : Type} (dir topic : string) (m : datagram_counts) : outcome E datagram_counts :=
  match m with
  | None => Ok None
  | Some g =>
      if WithLabelValues (cm_Datagrams clientMetrics) [dir; topic]
      then Ok (Some (<[(dir, topic) := default 0 (g !! (dir, topic)) + 1]> g))
      else Panic
  end.

Section sending.
Context `{Varint} `{Labels} (max_alloc : Z) {S : Type}.

(** [send] is [SendDatagram] of the transport session. *)
Definition PublishDatagram (send : list byte → S → option string * S)
    (topic : string) (payload : list byte) (s : S) (m : datagram_counts)
    : outcome client_error (S * datagram_counts) :=
  let! d := Encode max_alloc (mkFrame KindPub topic payload) else ErrEncode in
  if maxDatagramLen <? zlen d then Err (ErrDatagramTooLarge (zlen d))
  else
    match send d s with
    | (Some e, _) => Err (ErrSendDatagram e)
    | (None, s) => let! m := count_datagram "out" topic m in Ok (s, m)
    end.

(** [ctx_err] is [ctx.Err()], [set_deadline] the result of [SetWriteDeadline]. *)
Definition writeControl (ctx_err set_deadline : option string)
    (write : list byte → S → outcome io_error S) (frame : Frame) (s : S)
    : outcome client_error S :=
  match ctx_err with
  | Some e => Err (ErrContext e)
  | None =>
      match set_deadline with
      | Some e => Err (ErrSetDeadline e)
      | None =>
          let! s := WriteStreamFrame max_alloc write s frame else ErrWriteControl in
          Ok s
      end
  end.

Definition Subscribe_frame (topic : string) : Frame := mkFrame KindSub topic [].
Definition Unsubscribe_frame (topic : string) : Frame := mkFrame KindUnsub topic [].
Definition PublishStream_frame (topic : string) (payload : list byte) : Frame :=
  mkFrame KindPub topic payload.
End sending.

(** ** Receiving *)

(** Where a reader goroutine is. *)
Inductive read_pc := RdReading | RdDelivering (m : PubSubMessage) | RdStopped.

(** A stream reader has the stream it reads, which was [rd_origin] at first; [taken]
    are the frames a reader has read, [delivered] the messages it has put on the
    channel. *)
Record reader := mkReader {
  rd_pc : read_pc;
  rd_origin : Reader;
  rd_stream : Reader;
  taken : list Frame;
  delivered : list PubSubMessage;
}.
Definition new_reader (str : Reader) : reader := mkReader RdReading str str [] [].

(** How far the one call that [closeOnce] admits has come. *)
Inductive closing := ClNone | ClUnregistered | ClCancelled | ClClosed.
#[global] Instance closing_eq_dec : EqDecision closing.
Proof. solve_decision. Defined.

Record session := mkSession {
  ctx_done : bool;
  close_pc : closing;
  registered : bool;
  uniQueue : list Reader;
  uni_closed : bool;
  handlers : list Reader;              (* streams looked up, not yet enqueued *)
  accepting : bool;
  incoming : list (nat * PubSubMessage);
  inc_closed : bool;
  dg_reader : reader;
  streams : list reader;
  counts : datagram_counts;
  received : list (nat * PubSubMessage);  (* what the user of the session took *)
}.

Definition new_session (m : datagram_counts) : session :=
  mkSession false ClNone true [] false [] true [] false
    (new_reader (Wire.mkReader [] EOF)) [] m [].

(** Tags of the readers on the channel: 0 is the datagram reader, [S i] the i-th
    stream reader. *)
Definition get_reader (s : session) (i : nat) : option reader :=
  match i with O => Some (dg_reader s) | S i => streams s !! i end.
Definition put_reader (s : session) (i : nat) (r : reader) : session :=
  match i with
  | O => mkSession (ctx_done s) (close_pc s) (registered s) (uniQueue s) (uni_closed s) (handlers s)
           (accepting s) (incoming s) (inc_closed s) r (streams s) (counts s) (received s)
  | S i => mkSession (ctx_done s) (close_pc s) (registered s) (uniQueue s) (uni_closed s) (handlers s)
           (accepting s) (incoming s) (inc_closed s) (dg_reader s) (<[i := r]> (streams s))
           (counts s) (received s)
  end.
Definition set_pc (r : reader) (pc : read_pc) : reader :=
  mkReader pc (rd_origin r) (rd_stream r) (taken r) (delivered r).
Definition take_frame (r : reader) (pc : read_pc) (rest : Reader) (f : Frame) : reader :=
  mkReader pc (rd_origin r) rest (taken r ++ [f]) (delivered r).
Definition add_delivered (r : reader) (m : PubSubMessage) : reader :=
  mkReader RdReading (rd_origin r) (rd_stream r) (taken r) (delivered r ++ [m]).

Definition set_transport (s : session) (done : bool) (pc : closing) (reg qclosed : bool) : session :=
  mkSession done pc reg (uniQueue s) qclosed (handlers s) (accepting s) (incoming s)
    (inc_closed s) (dg_reader s) (streams s) (counts s) (received s).
Definition set_streams (s : session) (q hs : list Reader) (acc : bool) (rs : list reader) : session :=
  mkSession (ctx_done s) (close_pc s) (registered s) q (uni_closed s) hs acc (incoming s)
    (inc_closed s) (dg_reader s) rs (counts s) (received s).
Definition set_incoming (s : session) (q rcv : list (nat * PubSubMessage)) (c : bool) : session :=
  mkSession (ctx_done s) (close_pc s) (registered s) (uniQueue s) (uni_closed s) (handlers s)
    (accepting s) q c (dg_reader s) (streams s) (counts s) rcv.
Definition set_counts (s : session) (m : datagram_counts) : session :=
  mkSession (ctx_done s) (close_pc s) (registered s) (uniQueue s) (uni_closed s) (handlers s)
    (accepting s) (incoming s) (inc_closed s) (dg_reader s) (streams s) m (received s).

Inductive disabled := Disabled.

(** [deliver] up to its select: frames that are not publications are dropped. *)
Definition frame_message (f : Frame) (surface : msg_surface) : option PubSubMessage :=
  if bool_decide (frame_Kind f = KindPub)
  then Some (mkPubSubMessage (frame_Topic f) (frame_Payload f) surface) else None.

(** The select of [deliver] on the message [m] by the reader [i]. *)
Definition deliver_select (pick_send : bool) (i : nat) (m : PubSubMessage) (r : reader) (s : session)
    : outcome disabled session :=
  let send_ready := inc_closed s || (zlen (incoming s) <? incomingDepth) in
  if send_ready && (pick_send || negb (ctx_done s)) then
    if inc_closed s then Panic
    else
      Ok (set_incoming (put_reader s i (add_delivered r m)) (incoming s ++ [(i, m)]) (received s) (inc_closed s))
  else if ctx_done s then Ok (put_reader s i (set_pc r RdReading))
  else Err Disabled.

(** The select of [enqueueUniStream] on the stream [str]. *)
Definition enqueueUniStream (pick_send : bool) (str : Reader) (rest : list Reader) (s : session)
    : outcome disabled session :=
  let send_ready := uni_closed s || (zlen (uniQueue s) <? uniQueueDepth) in
  if send_ready && (pick_send || negb (ctx_done s)) then
    if uni_closed s then Panic
    else Ok (set_streams s (uniQueue s ++ [str]) rest (accepting s) (streams s))
  else if ctx_done s then Ok (set_streams s (uniQueue s) rest (accepting s) (streams s))
  else Err Disabled.

(** [AcceptUniStream] receiving a stream, and returning an error; either way the
    loop of [readUniStreams] goes on, or ends. *)
Definition AcceptUniStream (s : session) : outcome disabled session :=
  match uniQueue s with
  | str :: q =>
      if accepting s then
        Ok (set_streams s q (handlers s) true (streams s ++ [new_reader str]))
      else Err Disabled
  | [] => Err Disabled
  end.
Definition accept_stop (s : session) : outcome disabled session :=
  if accepting s && (ctx_done s || uni_closed s)
  then Ok (set_streams s (uniQueue s) (handlers s) false (streams s)) else Err Disabled.

(** The statements of [closeWithCause] and [Close] under [closeOnce]. *)
Definition close_call (s : session) : outcome disabled session :=
  match close_pc s with
  | ClNone => Ok (set_transport s (ctx_done s) ClUnregistered false (uni_closed s))
  | _ => Ok s
  end.
Definition close_cancel (s : session) : outcome disabled session :=
  match close_pc s with
  | ClUnregistered => Ok (set_transport s true ClCancelled (registered s) (uni_closed s))
  | _ => Err Disabled
  end.
Definition close_queue (s : session) : outcome disabled session :=
  match close_pc s with
  | ClCancelled => Ok (set_transport s (ctx_done s) ClClosed (registered s) true)
  | _ => Err Disabled
  end.

(** [closeIncoming], called once the context is done. *)
Definition closeIncoming (s : session) : outcome disabled session :=
  if ctx_done s && negb (inc_closed s) then Ok (set_incoming s (incoming s) (received s) true)
  else Err Disabled.

Inductive action :=
| StreamArrives (str : Reader)         (* handleUnidirectionalStream: lookupSession *)
| StreamEnqueue (k : nat) (pick_send : bool) (* enqueueUniStream of the k-th handler *)
| StreamAccept                         (* AcceptUniStream receives *)
| AcceptStop                           (* AcceptUniStream returns an error *)
| Datagram (d : list byte)             (* ReceiveDatagram returns d *)
| DatagramError
| StreamRead (i : nat)                 (* ReadStreamFrame on the i-th stream *)
| Deliver (i : nat) (pick_send : bool) (* the select of deliver, by reader tag *)
| Consume                              (* the user receives from Messages() *)
| ParentCancelled                      (* the request context is cancelled *)
| CloseCall                            (* Close or closeWithCause: unregisterSession *)
| CloseCancel                          (* ... cancel *)
| CloseQueue                           (* ... close(uniQueue) *)
| CloseIncoming.                       (* closeIncoming *)

Section step.
Context `{Varint} `{Labels} (max_alloc : Z).

Definition step (a : action) (s : session) : outcome disabled session :=
  match a with
  | StreamArrives str =>
      if registered s
      then Ok (set_streams s (uniQueue s) (handlers s ++ [str]) (accepting s) (streams s))
      else Ok s
  | StreamEnqueue k pick =>
      match handlers s !! k with
      | Some str => enqueueUniStream pick str (delete k (handlers s)) s
      | None => Err Disabled
      end
  | StreamAccept => AcceptUniStream s
  | AcceptStop => accept_stop s
  | Datagram d =>
      match rd_pc (dg_reader s) with
      | RdReading =>
          match Decode max_alloc d with
          | Panic => Panic
          | Err _ => Ok s
          | Ok f =>
              match frame_message f MsgDatagram with
              | None =>
                  Ok (put_reader s 0 (take_frame (dg_reader s) RdReading (rd_stream (dg_reader s)) f))
              | Some m =>
                  let! c := count_datagram "in" (frame_Topic f) (counts s) in
                  Ok (set_counts
                        (put_reader s 0 (take_frame (dg_reader s) (RdDelivering m) (rd_stream (dg_reader s)) f)) c)
              end
          end
      | _ => Err Disabled
      end
  | DatagramError =>
      match rd_pc (dg_reader s) with
      | RdReading => Ok (put_reader s 0 (set_pc (dg_reader s) RdStopped))
      | _ => Err Disabled
      end
  | StreamRead i =>
      match streams s !! i with
      | Some r =>
          match rd_pc r with
          | RdReading =>
              match ReadStreamFrame max_alloc (rd_stream r) with
              | Panic => Panic
              | Err _ => Ok (put_reader s (S i) (set_pc r RdStopped))
              | Ok (f, rest) =>
                  Ok (put_reader s (S i)
                        (take_frame r (match frame_message f MsgStream with
                                       | Some m => RdDelivering m
                                       | None => RdReading
                                       end) rest f))
              end
          | _ => Err Disabled
          end
      | None => Err Disabled
      end
  | Deliver i pick =>
      match get_reader s i with
      | Some r =>
          match rd_pc r with
          | RdDelivering m => deliver_select pick i m r s
          | _ => Err Disabled
          end
      | None => Err Disabled
      end
  | Consume =>
      match incoming s with
      | m :: q => Ok (set_incoming s q (received s ++ [m]) (inc_closed s))
      | [] => Err Disabled
      end
  | ParentCancelled => Ok (set_transport s true (close_pc s) (registered s) (uni_closed s))
  | CloseCall => close_call s
  | CloseCancel => close_cancel s
  | CloseQueue => close_queue s
  | CloseIncoming => closeIncoming s
  end.

Fixpoint steps (acts : list action) (s : session) : outcome disabled session :=
  match acts with
  | [] => Ok s
  | a :: acts => let! s := step a s in steps acts s
  end.
End step.
