(* ===== verification/ClientPubSubTheorems.v ===== *)
(** * ClientPubSubTheorems: correctness of the client's pub/sub session

    An invariant of every interleaving of the session's goroutines, what it gives
    the user of the session (per reader, messages arrive in order and none is lost
    before the cancellation), the races of the cancellation with the senders, and
    the way of a datagram from a publisher through the broker to a subscriber. *)

From S2P Require Import Prelude Text Wire WireTheorems Collectors Broker BrokerTheorems Roles ClientPubSub.

Ltac unfold_step :=
  cbn [ClientPubSub.step];
  unfold AcceptUniStream, accept_stop, close_call, close_cancel, close_queue, closeIncoming.

(** The messages of the reader [i] on a channel. *)
Definition from_reader (i : nat) (l : list (nat * PubSubMessage)) : list PubSubMessage :=
  omap (λ p, if decide (p.1 = i) then Some p.2 else None) l.

Lemma from_reader_snoc i l j m :
  from_reader i (l ++ [(j, m)]) = from_reader i l ++ (if decide (j = i) then [m] else []).
Proof. unfold from_reader. rewrite omap_app. simpl. by destruct (decide (j = i)). Qed.

Definition pending (r : reader) : list PubSubMessage :=
  match rd_pc r with RdDelivering m => [m] | _ => [] end.

(** The session counts nothing, or the topic can be a label value. *)
Definition countable (topic : string) (m : option (gmap (string * string) Z)) : Prop :=
  m = None ∨ ValidString topic.

Section counting.
Context `{LabelsLaws}.

Lemma count_datagram_cases {E} dir topic m :
  ValidString dir = true →
  (countable topic m ∧ ∃ m', count_datagram (E:=E) dir topic m = Ok m') ∨
  (¬ countable topic m ∧ count_datagram (E:=E) dir topic m = Panic).
Proof.
  intros Hdir. unfold countable, count_datagram. destruct m as [g|]; [|left; split; [by left|by eauto]].
  destruct (WithLabelValues (cm_Datagrams clientMetrics) [dir; topic]) eqn:E'.
  - left. split; [|by eauto]. right. apply WithLabelValues_spec in E' as [_ Hv].
    apply Forall_cons in Hv as [_ Hv]. by apply Forall_cons in Hv as [Hv _].
  - right. split; [|done]. intros [|Hv]; [done|].
    assert (WithLabelValues (cm_Datagrams clientMetrics) [dir; topic] = true) as Ht; [|congruence].
    apply WithLabelValues_takes. split; [by eexists|]. by repeat apply Forall_cons_2; [apply Is_true_true|..|constructor].
Qed.

Lemma count_datagram_Ok {E E'} dir topic m m' :
  count_datagram (E:=E) dir topic m = Ok m' → count_datagram (E:=E') dir topic m = Ok m'.
Proof. unfold count_datagram. destruct m; [|by intros [= <-]]. case_match; [by intros [= <-]|done]. Qed.

Lemma count_datagram_countable {E} dir topic m :
  ValidString dir = true → countable topic m → ∃ m', count_datagram (E:=E) dir topic m = Ok m'.
Proof. intros Hdir Hc. by destruct (count_datagram_cases (E:=E) dir topic m Hdir) as [[_ ?]|[? _]]. Qed.

(** Label values that are constants are taken. *)
Lemma constant_accepted b (c : ServerMetrics → collector) ls vars :
  c_labels (c serverMetrics) = Some vars → length ls = length vars → forallb ValidString ls = true →
  accepted b c ls.
Proof.
  intros Hc Hl Hv. right. apply WithLabelValues_spec. split; [by eauto|].
  apply forallb_True. by apply Is_true_true.
Qed.
End counting.

Section session.
Context `{VarintLaws} `{LabelsLaws} (max_alloc : Z).
Notation step := (step max_alloc).
Notation steps := (steps max_alloc).
Notation read_frames := (read_frames max_alloc).

Lemma read_frames_snoc n r fs r1 f r2 :
  read_frames n r = Ok (fs, r1) → ReadStreamFrame max_alloc r1 = Ok (f, r2) →
  read_frames (S n) r = Ok (fs ++ [f], r2).
Proof.
  revert r fs. induction n as [|n IH]; intros r fs Hn Hf.
  - injection Hn as <- <-. simpl. by rewrite Hf.
  - cbn [WireTheorems.read_frames] in Hn. inv_ok. destruct x as [f0 r0].
    inv_ok. destruct x as [fs0 r3]. inv_ok.
    specialize (IH _ _ E0 Hf).
    change (read_frames (S (S n)) r) with
      (let! (f, r) := ReadStreamFrame max_alloc r in
       let! (fs, r) := read_frames (S n) r in Ok (f :: fs, r)).
    rewrite E. cbn [obind]. rewrite IH. done.
Qed.

(** What a reader has done with the frames it has taken: while the session is not
    cancelled, every publication among them is delivered or about to be; after the
    cancellation some may have been dropped. *)
Definition delivery_ok (done : bool) (sf : msg_surface) (r : reader) : Prop :=
  let ms := omap (λ f, frame_message f sf) (taken r) in
  (delivered r ++ pending r) `sublist_of` ms ∧
  (done = false → delivered r ++ pending r = ms).

(** A stream reader has taken the frames at the beginning of its stream. *)
Definition stream_ok (r : reader) : Prop :=
  read_frames (length (taken r)) (rd_origin r) = Ok (taken r, rd_stream r).

Definition closing_ok (s : session) : Prop :=
  uni_closed s = bool_decide (close_pc s = ClClosed) ∧
  registered s = bool_decide (close_pc s = ClNone) ∧
  (close_pc s = ClCancelled ∨ close_pc s = ClClosed → ctx_done s = true).

Record cinv (s : session) : Prop := {
  ci_queues : zlen (incoming s) ≤ incomingDepth ∧ zlen (uniQueue s) ≤ uniQueueDepth;
  ci_closed : inc_closed s = true → ctx_done s = true;
  ci_closing : closing_ok s;
  ci_sent i : from_reader i (received s ++ incoming s) = from_option delivered [] (get_reader s i);
  ci_datagrams : delivery_ok (ctx_done s) MsgDatagram (dg_reader s);
  ci_streams : Forall (λ r, stream_ok r ∧ delivery_ok (ctx_done s) MsgStream r) (streams s);
}.

Definition surface_of (i : nat) : msg_surface := match i with O => MsgDatagram | _ => MsgStream end.

Lemma get_put_reader s i j r :
  is_Some (get_reader s i) →
  get_reader (put_reader s i r) j = if decide (i = j) then Some r else get_reader s j.
Proof.
  intros [r0 Hr]. destruct (decide (i = j)) as [<-|Hij].
  - destruct i; [done|]. simpl in *. rewrite list_lookup_insert_eq; [done|].
    by eapply lookup_lt_Some.
  - destruct i, j; simpl in *; try done. rewrite list_lookup_insert_ne; [done|congruence].
Qed.

(** A reader moves on, and what it puts on the channel is recorded. *)
Lemma put_reader_cinv s i r r' :
  cinv s → get_reader s i = Some r →
  (i ≠ 0%nat → stream_ok r → stream_ok r') →
  (delivery_ok (ctx_done s) (surface_of i) r → delivery_ok (ctx_done s) (surface_of i) r') →
  delivered r' = delivered r →
  cinv (put_reader s i r').
Proof.
  intros [Hq Hc Hcl Hs Hd Hst] Hr Hso Hdo Hdel. split; try (by destruct i).
  - intros j. rewrite get_put_reader by eauto.
    replace (received (put_reader s i r') ++ incoming (put_reader s i r'))
      with (received s ++ incoming s) by by destruct i.
    rewrite Hs. destruct (decide (i = j)) as [<-|]; [|done]. rewrite Hr. simpl. by rewrite Hdel.
  - destruct i; simpl in *; [|done]. simplify_eq. auto.
  - destruct i as [|i]; simpl in *; [done|]. apply Forall_insert; [done|].
    rewrite Forall_lookup in Hst. destruct (Hst _ _ Hr). auto.
Qed.

Lemma delivery_ok_mono b b' sf r : (b' = false → b = false) → delivery_ok b sf r → delivery_ok b' sf r.
Proof. intros Hb [? He]. split; auto. Qed.

(** Cancelling and closing the transport. *)
Lemma set_transport_cinv s d pc reg qc :
  cinv s → (d = false → ctx_done s = false) → closing_ok (set_transport s d pc reg qc) →
  cinv (set_transport s d pc reg qc).
Proof.
  intros [Hq Hc Hcl Hs Hd Hst] Hmono Hcl'. split; simpl; try done.
  - destruct d; [done|]. intros Hi%Hc. by rewrite Hmono in Hi.
  - by eapply delivery_ok_mono.
  - eapply Forall_impl; [exact Hst|]. intros r [? ?]. split; [done|]. by eapply delivery_ok_mono.
Qed.

(** Streams arriving, waiting and being accepted. *)
Lemma set_streams_cinv s q hs acc :
  cinv s → zlen q ≤ uniQueueDepth → cinv (set_streams s q hs acc (streams s)).
Proof. by intros [[]] ?. Qed.

Lemma accept_stream_cinv s q hs acc str :
  cinv s → zlen q ≤ uniQueueDepth →
  cinv (set_streams s q hs acc (streams s ++ [new_reader str])).
Proof.
  intros [[? ?] Hc Hcl Hs Hd Hst] Hq. split; simpl; try done.
  - intros j. rewrite Hs. destruct j as [|j]; [done|]. simpl.
    destruct (streams s !! j) as [r|] eqn:E.
    + by rewrite (lookup_app_l_Some _ _ _ _ E).
    + destruct (decide (j = length (streams s))) as [->|].
      * by rewrite list_lookup_middle.
      * apply lookup_ge_None in E. rewrite lookup_ge_None_2; [done|]. rewrite length_app. simpl. lia.
  - apply Forall_app. split; [done|]. apply Forall_singleton. split; [done|]. split; done.
Qed.

(** Taking a frame: a publication becomes the pending message. *)
Lemma take_frame_delivery b sf r f rest :
  rd_pc r = RdReading → delivery_ok b sf r →
  delivery_ok b sf
    (take_frame r (match frame_message f sf with Some m => RdDelivering m | None => RdReading end) rest f).
Proof.
  intros Hpc [Hsub Heq]. unfold delivery_ok, pending in *. rewrite Hpc in *. simpl in *.
  rewrite app_nil_r in *. rewrite omap_app. simpl.
  destruct (frame_message f sf) as [m|]; simpl; rewrite ?app_nil_r.
  - split; [by apply sublist_app|]. intros ->. by rewrite Heq.
  - split; auto.
Qed.

(** Sending or dropping the pending message. *)
Lemma sent_delivery b sf r m : rd_pc r = RdDelivering m → delivery_ok b sf r → delivery_ok b sf (add_delivered r m).
Proof. intros Hpc. unfold delivery_ok, pending. rewrite Hpc. simpl. by rewrite app_nil_r. Qed.

Lemma dropped_delivery sf r m :
  rd_pc r = RdDelivering m → delivery_ok true sf r → delivery_ok true sf (set_pc r RdReading).
Proof.
  intros Hpc [Hsub _]. unfold delivery_ok, pending in *. rewrite Hpc in *. simpl. split; [|done].
  rewrite app_nil_r. etrans; [|exact Hsub]. by apply sublist_inserts_r.
Qed.

Lemma stopped_delivery b sf r :
  rd_pc r = RdReading → delivery_ok b sf r → delivery_ok b sf (set_pc r RdStopped).
Proof. intros Hpc. unfold delivery_ok, pending. by rewrite Hpc. Qed.

Lemma take_frame_stream r pc f rest :
  ReadStreamFrame max_alloc (rd_stream r) = Ok (f, rest) → stream_ok r → stream_ok (take_frame r pc rest f).
Proof.
  intros Hf Hr. unfold stream_ok. cbn [take_frame taken rd_origin rd_stream].
  rewrite length_app, Nat.add_1_r. by eapply read_frames_snoc.
Qed.

Lemma deliver_select_cinv pick i m r s s' :
  cinv s → get_reader s i = Some r → rd_pc r = RdDelivering m →
  deliver_select pick i m r s = Ok s' → cinv s'.
Proof.
  intros Hi Hr Hpc. unfold deliver_select.
  destruct (_ && (pick || _)) eqn:Hsend.
  - destruct (inc_closed s) eqn:Hic; [done|]. intros [= <-].
    assert (zlen (incoming s) < incomingDepth) as Hroom.
    { apply andb_true_iff in Hsend as [Hl _]. simpl in Hl. lia. }
    destruct Hi as [[Hq1 Hq2] Hc Hcl Hs Hd Hst]. split; simpl; try (by destruct i).
    + rewrite zlen_app, zlen_cons, zlen_nil. destruct i; simpl; lia.
    + intros j. rewrite app_assoc, from_reader_snoc, Hs.
      change (get_reader (set_incoming ?a _ _ _) j) with (get_reader a j).
      rewrite get_put_reader by eauto. destruct (decide (i = j)) as [<-|].
      * by rewrite Hr.
      * by rewrite app_nil_r.
    + destruct i; simpl in *; [|done]. simplify_eq. by apply sent_delivery.
    + destruct i as [|i]; simpl in *; [done|]. apply Forall_insert; [done|].
      rewrite Forall_lookup in Hst. destruct (Hst _ _ Hr). split; [done|]. by apply sent_delivery.
  - destruct (ctx_done s) eqn:Hcd; [|done]. intros [= <-].
    eapply put_reader_cinv; try done. rewrite Hcd. by eapply dropped_delivery.
Qed.

Lemma set_counts_cinv s m : cinv s → cinv (set_counts s m).
Proof. by intros [[]]. Qed.

Lemma stream_read_cinv s i s' : cinv s → step (StreamRead i) s = Ok s' → cinv s'.
Proof.
  intros Hi. unfold_step. destruct (streams s !! i) as [r|] eqn:Hr; [|done].
  destruct (rd_pc r) eqn:Hpc; [|done..].
  destruct (ReadStreamFrame max_alloc (rd_stream r)) as [[f rest]|e|] eqn:Ef; [| |done]; intros [= <-];
    (eapply (put_reader_cinv _ (S i)); [done..| | |done]); try done.
  - intros _. by apply take_frame_stream.
  - intros Hd. by apply (take_frame_delivery _ MsgStream).
  - intros Hd. by apply stopped_delivery.
Qed.

Lemma datagram_cinv s d s' : cinv s → step (Datagram d) s = Ok s' → cinv s'.
Proof.
  intros Hi. unfold_step. destruct (rd_pc (dg_reader s)) eqn:Hpc; [|done..].
  destruct (Decode max_alloc d) as [f|e|]; [|by intros [= <-]|done].
  assert (delivery_ok (ctx_done s) MsgDatagram (dg_reader s)) as Hd by apply Hi.
  apply (take_frame_delivery _ _ _ f (rd_stream (dg_reader s)) Hpc) in Hd.
  destruct (frame_message f MsgDatagram) as [m|]; intros Hs; inv_ok; subst; try apply set_counts_cinv;
    (eapply (put_reader_cinv _ 0); [done|done|done|by intros _|done]).
Qed.

Lemma step_cinv a s s' : cinv s → step a s = Ok s' → cinv s'.
Proof.
  intros Hi. pose proof (ci_queues _ Hi) as [Hq1 Hq2]. pose proof (ci_closing _ Hi) as (Hu & Hreg & Hctx).
  destruct a; try (by apply stream_read_cinv); try (by apply datagram_cinv); unfold_step.
  - destruct (registered s); intros [= <-]; [|done]. by apply set_streams_cinv.
  - destruct (handlers s !! k) as [str|]; [|done]. unfold enqueueUniStream.
    destruct (_ && (pick_send || _)) eqn:Hsend.
    + destruct (uni_closed s) eqn:Huc; [done|]. intros [= <-]. apply set_streams_cinv; [done|].
      apply andb_true_iff in Hsend as [Hl _]. simpl in Hl. rewrite zlen_app, zlen_cons, zlen_nil. lia.
    + destruct (ctx_done s); [|done]. intros [= <-]. by apply set_streams_cinv.
  - destruct (uniQueue s) as [|str q] eqn:Eq; [done|]. destruct (accepting s); [|done].
    intros [= <-]. apply accept_stream_cinv; [done|]. rewrite zlen_cons in Hq2. lia.
  - destruct (accepting s && _); [|done]. intros [= <-]. by apply set_streams_cinv.
  - destruct (rd_pc (dg_reader s)) eqn:Hpc; [|done..]. intros [= <-].
    eapply (put_reader_cinv _ 0); try done. by apply stopped_delivery.
  - destruct (get_reader s i) as [r|] eqn:Hr; [|done]. destruct (rd_pc r) eqn:Hpc; [done| |done].
    by apply deliver_select_cinv.
  - destruct (incoming s) as [|m q] eqn:Ein; [done|]. intros [= <-].
    destruct Hi as [_ Hc Hcl Hs Hd Hst]. rewrite zlen_cons in Hq1. split; simpl; try done; [lia|].
    intros j. rewrite Ein in Hs. by rewrite <-app_assoc.
  - intros [= <-]. by apply set_transport_cinv.
  - destruct (close_pc s) eqn:Ecl; intros [= <-]; try done. apply set_transport_cinv; [done..|].
    unfold closing_ok. simpl. rewrite Hu. split_and!; try done. by intros [].
  - destruct (close_pc s) eqn:Ecl; intros [= <-]; try done. apply set_transport_cinv; [done..|].
    unfold closing_ok. simpl. rewrite Hu, Hreg. by split_and!.
  - destruct (close_pc s) eqn:Ecl; intros [= <-]; try done. apply set_transport_cinv; [done..|].
    unfold closing_ok. simpl. rewrite Hreg. split_and!; try done. intros _. apply Hctx. by left.
  - destruct (ctx_done s) eqn:Hcd; [|done]. destruct (inc_closed s) eqn:Hic; [done|]. intros [= <-].
    destruct Hi as [_ Hc Hcl Hs Hd Hst]. split; simpl; try done; by rewrite Hcd.
Qed.

Lemma new_session_cinv m : cinv (new_session m).
Proof.
  split; try done; try (by intros [|]). split_and!; try done. by intros [].
Qed.

Lemma steps_cinv acts s s' : cinv s → steps acts s = Ok s' → cinv s'.
Proof.
  revert s. induction acts as [|a acts IH]; intros s Hi Hs; cbn in Hs; [by inv_ok|].
  inv_ok. eapply IH; [|done]. by eapply step_cinv.
Qed.

(** ** What arrives and what is taken, along a run *)

(** The frames of the datagrams of a run, and the streams that arrive in it. *)
Definition datagram_frames (acts : list action) : list Frame :=
  omap (λ a, match a with
             | Datagram d => match Decode max_alloc d with Ok f => Some f | _ => None end
             | _ => None
             end) acts.
Definition arrivals (acts : list action) : list Reader :=
  omap (λ a, match a with StreamArrives str => Some str | _ => None end) acts.

(** The streams the session has: those it reads, those waiting, and those about to
    be enqueued. *)
Definition held (s : session) : list Reader := (rd_origin <$> streams s) ++ uniQueue s ++ handlers s.

(** Steps that change neither the taken datagrams nor the streams. *)
Definition quiet (s s' : session) : Prop :=
  taken (dg_reader s') = taken (dg_reader s) ∧ held s' = held s.

Lemma put_reader_quiet s i r r' :
  get_reader s i = Some r → rd_origin r' = rd_origin r → (i = 0%nat → taken r' = taken r) →
  quiet s (put_reader s i r').
Proof.
  intros Hr Ho Ht. destruct i as [|i]; simpl in Hr; simplify_eq; [by split; [apply Ht|]|].
  split; [done|]. unfold held. simpl. rewrite list_fmap_insert, Ho, list_insert_id; [done|].
  by rewrite list_lookup_fmap, Hr.
Qed.

Lemma deliver_select_quiet pick i m r s s' :
  get_reader s i = Some r → deliver_select pick i m r s = Ok s' → quiet s s'.
Proof.
  intros Hr. unfold deliver_select. destruct (_ && (pick || _)).
  - destruct (inc_closed s); [done|]. intros [= <-].
    destruct (put_reader_quiet s i r (add_delivered r m) Hr) as [? ?]; done.
  - destruct (ctx_done s); [|done]. intros [= <-]. by eapply put_reader_quiet.
Qed.

Lemma step_taken a s s' :
  step a s = Ok s' → taken (dg_reader s') = taken (dg_reader s) ++ datagram_frames [a].
Proof.
  destruct a; cbn [datagram_frames omap list_omap]; unfold_step; rewrite ?app_nil_r; intros Hs;
    repeat case_match; inv_ok; simpl; rewrite ?app_nil_r; try done;
    first [unfold enqueueUniStream in Hs; repeat case_match; by inv_ok
          |by apply deliver_select_quiet in Hs as [? ?]].
Qed.

(** A stream that arrives stays held, unless the session is cancelled or no longer
    registered; no step brings in another one. *)
Definition held_step (new : list Reader) (s s' : session) : Prop :=
  held s' ⊆+ held s ++ new ∧
  (ctx_done s' = false → registered s' = true →
     ctx_done s = false ∧ registered s = true ∧ held s' ≡ₚ held s ++ new).

Lemma held_step_same s s' :
  held s' = held s → (ctx_done s' = false → ctx_done s = false) →
  (registered s' = true → registered s = true) → held_step [] s s'.
Proof. intros Hh Hc Hr. unfold held_step. rewrite Hh, app_nil_r. auto. Qed.

Lemma enqueue_held pick str rest s s' :
  (uni_closed s = true → ctx_done s = true) → handlers s ≡ₚ str :: rest →
  enqueueUniStream pick str rest s = Ok s' → held_step [] s s'.
Proof.
  intros Hu Hp. unfold enqueueUniStream. destruct (_ && (pick || _)).
  - destruct (uni_closed s) eqn:Huc; [done|]. intros [= <-].
    assert (held (set_streams s (uniQueue s ++ [str]) rest (accepting s) (streams s)) ≡ₚ held s ++ []) as Hh.
    { unfold held. simpl. by rewrite app_nil_r, <-app_assoc, Hp. }
    split; [by rewrite Hh|]. done.
  - destruct (ctx_done s) eqn:Hcd; [|done]. intros [= <-]. split; simpl; [|by rewrite Hcd].
    rewrite app_nil_r. unfold held. simpl. rewrite Hp.
    apply submseteq_app; [done|]. apply submseteq_app; [done|]. by apply submseteq_cons.
Qed.

Lemma step_held a s s' : cinv s → step a s = Ok s' → held_step (arrivals [a]) s s'.
Proof.
  intros Hi. pose proof (ci_closing _ Hi) as Hcl.
  assert (uni_closed s = true → ctx_done s = true) as Hu.
  { destruct Hcl as (-> & _ & Hx). intros Hb%bool_decide_eq_true. apply Hx. by right. }
  assert (∀ s0, quiet s s0 → ctx_done s0 = ctx_done s → registered s0 = registered s → held_step [] s s0) as Hquiet.
  { intros s0 [_ Hh] Hc Hr. apply held_step_same; congruence. }
  destruct a; cbn [arrivals omap list_omap]; unfold_step; intros Hs.
  - destruct (registered s) eqn:Hr; inv_ok.
    + unfold held_step, held. simpl. rewrite <-!app_assoc. by rewrite Hr.
    + split; [by apply submseteq_inserts_r|congruence].
  - destruct (handlers s !! k) eqn:Hk; [|done]. eapply enqueue_held; [done| |done].
    by apply delete_Permutation.
  - destruct (uniQueue s) as [|str q] eqn:Eq; [done|]. destruct (accepting s); inv_ok.
    apply held_step_same; [|done..]. unfold held. simpl. by rewrite fmap_app, Eq, <-app_assoc.
  - destruct (accepting s && _); inv_ok. by apply held_step_same.
  - repeat case_match; inv_ok; try (by apply held_step_same); done.
  - destruct (rd_pc (dg_reader s)); inv_ok. by apply held_step_same.
  - destruct (streams s !! i) as [r|] eqn:Hr; [|done].
    destruct (rd_pc r), (ReadStreamFrame max_alloc (rd_stream r)) as [[f rest]|e|]; inv_ok;
      by apply Hquiet; [apply (put_reader_quiet s (S i) r)|..].
  - destruct (get_reader s i) as [r|] eqn:Hr; [|done]. destruct (rd_pc r); [done| |done].
    apply Hquiet; [by eapply deliver_select_quiet|..];
      unfold deliver_select in Hs; repeat case_match; inv_ok; by destruct i.
  - destruct (incoming s); inv_ok. by apply held_step_same.
  - inv_ok. by apply held_step_same.
  - destruct (close_pc s); inv_ok; by apply held_step_same.
  - destruct (close_pc s); inv_ok; by apply held_step_same.
  - destruct (close_pc s); inv_ok; by apply held_step_same.
  - destruct (ctx_done s && negb (inc_closed s)); inv_ok. by apply held_step_same.
Qed.

Lemma steps_trace acts s0 s :
  cinv s0 → steps acts s0 = Ok s →
  taken (dg_reader s) = taken (dg_reader s0) ++ datagram_frames acts ∧
  held_step (arrivals acts) s0 s.
Proof.
  revert s0. induction acts as [|a acts IH]; intros s0 Hi Hs; cbn in Hs.
  { inv_ok. split; [by rewrite app_nil_r|]. by apply held_step_same. }
  inv_ok. destruct (IH x) as (Ht & Hsub & Hperm); [by eapply step_cinv|done|].
  destruct (step_held _ _ _ Hi E) as (Hsub1 & Hperm1). apply step_taken in E.
  assert (∀ (B : Type) (f : action → option B), omap f (a :: acts) = omap f [a] ++ omap f acts) as Hcons.
  { intros B f. apply (omap_app f [a] acts). }
  unfold datagram_frames, arrivals in *. rewrite !Hcons. split; [by rewrite Ht, E, <-app_assoc|].
  split.
  - etrans; [exact Hsub|]. rewrite (app_assoc _ _ (omap _ acts)). by apply submseteq_app.
  - intros Hc Hr. destruct (Hperm Hc Hr) as (Hc1 & Hr1 & Hp). destruct (Hperm1 Hc1 Hr1) as (? & ? & Hp1).
    split_and!; try done. by rewrite Hp, Hp1, <-app_assoc.
Qed.

(** Where a step panics before the cancellation: in the allocation for a frame read
    from a stream, or on a topic that is no label value. *)
Definition panic_point (a : action) (s : session) : Prop :=
  (∃ i r, a = StreamRead i ∧ streams s !! i = Some r ∧ ReadStreamFrame max_alloc (rd_stream r) = Panic) ∨
  (∃ d f, a = Datagram d ∧ Decode max_alloc d = Ok f ∧ frame_Kind f = KindPub ∧ ¬ countable (frame_Topic f) (counts s)).

Lemma step_panics a s :
  cinv s → ctx_done s = false → (∀ d, a = Datagram d → zlen d ≤ max_alloc) →
  max_alloc + 8 ≤ maxVarInt8 → step a s = Panic → panic_point a s.
Proof.
  intros Hi Hc Hd Hmax.
  assert (inc_closed s = false) as Hic.
  { destruct (inc_closed s) eqn:E; [|done]. apply (ci_closed _ Hi) in E. congruence. }
  assert (uni_closed s = false) as Huc.
  { destruct (ci_closing _ Hi) as (-> & _ & Hcl). apply bool_decide_eq_false. intros Hb.
    rewrite Hcl in Hc by auto. done. }
  destruct a as [| | | |d| | | | | | | | |]; unfold_step; unfold deliver_select, enqueueUniStream;
    rewrite ?Hic, ?Huc; repeat case_match; try done; intros Hp.
  - right. exists d, a. split; [done|]. split; [done|]. unfold frame_message in *. case_bool_decide; [|done].
    split; [done|]. by destruct (count_datagram_cases (E:=disabled) "in" (frame_Topic a) (counts s) eq_refl)
      as [[_ [m' Hm]]|[? _]]; [rewrite Hm in Hp|].
  - pose proof (Decode_safe_lemma max_alloc d (Hd d eq_refl) Hmax) as Hsafe.
    by match goal with Hx : Decode _ d = Panic |- _ => rewrite Hx in Hsafe end.
  - left. eauto.
Qed.
End session.

Section theorems.
Context `{VarintLaws} `{LabelsLaws} (max_alloc : Z).
Notation step := (step max_alloc).
Notation steps := (steps max_alloc).

(** C10: what a session gives its user, in every interleaving. Both channels stay
    within their 256 places. The datagram reader has taken the frames of the
    datagrams received, in order; a stream reader has taken frames of its stream,
    from the first on; the streams it has are among those that arrived. From each
    reader the messages received or waiting are, in order, publications it has
    taken; until the session is cancelled they are all of them but the one being
    delivered, and until it is unregistered no stream is missing. Until then no
    step panics, but for reading a frame whose size exceeds the allocation limit, and,
    in a session with metrics, for a datagram whose topic is not UTF-8. *)
Theorem pubsub_session_delivers m acts s :
  steps acts (new_session m) = Ok s →
  zlen (incoming s) ≤ 256 ∧ zlen (uniQueue s) ≤ 256 ∧
  taken (dg_reader s) = datagram_frames max_alloc acts ∧
  held s ⊆+ arrivals acts ∧
  (ctx_done s = false → registered s = true → held s ≡ₚ arrivals acts) ∧
  (∀ i r, streams s !! i = Some r →
     read_frames max_alloc (length (taken r)) (rd_origin r) = Ok (taken r, rd_stream r)) ∧
  (∀ i r, get_reader s i = Some r →
     let ms := omap (λ f, frame_message f (surface_of i)) (taken r) in
     from_reader i (received s ++ incoming s) `sublist_of` ms ∧
     (ctx_done s = false → from_reader i (received s ++ incoming s) ++ pending r = ms)) ∧
  (∀ a, ctx_done s = false → (∀ d, a = Datagram d → zlen d ≤ max_alloc) → max_alloc + 8 ≤ maxVarInt8 →
     step a s = Panic → panic_point max_alloc a s).
Proof.
  intros Hs. pose proof (new_session_cinv max_alloc m) as H0i.
  destruct (steps_trace _ _ _ _ H0i Hs) as (Ht & Hsub & Hperm). apply steps_cinv in Hs as Hi; [|done].
  pose proof (ci_queues _ _ Hi) as [Hq1 Hq2].
  split_and!; try done.
  - intros Hc Hr. by apply Hperm.
  - intros i r Hr. pose proof (ci_streams _ _ Hi) as Hst. rewrite Forall_lookup in Hst. by destruct (Hst i r Hr).
  - intros i r Hr. pose proof (ci_sent _ _ Hi i) as ->. rewrite Hr. simpl.
    assert (delivery_ok (ctx_done s) (surface_of i) r) as [Hsl He].
    { destruct i as [|i]; simpl in Hr; simplify_eq; [apply Hi|].
      pose proof (ci_streams _ _ Hi) as Hst. rewrite Forall_lookup in Hst. by destruct (Hst i r Hr). }
    split; [|done]. etrans; [|exact Hsl]. by apply sublist_inserts_r.
  - intros a Hc Hd Hmax. by apply (step_panics max_alloc).
Qed.

(** C32: closing a channel races with its senders. In any state in which a reader is
    about to deliver, the cancellation of the session and closeIncoming can come
    first, and then the select of deliver may take the send on the closed channel
    and panic (or the cancellation, and drop the message). Likewise a stream whose
    handler has looked up the session before closeWithCause or Close runs may be
    sent on the closed queue. *)
Theorem cancellation_races_senders s i r m k str :
  get_reader s i = Some r → rd_pc r = RdDelivering m → inc_closed s = false →
  handlers s !! k = Some str → close_pc s = ClNone →
  steps [ParentCancelled; CloseIncoming; Deliver i true] s = Panic ∧
  is_ok (steps [ParentCancelled; CloseIncoming; Deliver i false] s) = true ∧
  steps [CloseCall; CloseCancel; CloseQueue; StreamEnqueue k true] s = Panic ∧
  is_ok (steps [CloseCall; CloseCancel; CloseQueue; StreamEnqueue k false] s) = true.
Proof.
  intros Hr Hpc Hic Hk Hcl. cbn [ClientPubSub.steps]. unfold_step. simpl. rewrite Hic, Hcl. simpl. rewrite Hk.
  change (get_reader (set_incoming ?a _ _ _) i) with (get_reader a i).
  change (get_reader (set_transport s _ _ _ _) i) with (get_reader s i).
  rewrite Hr, Hpc. unfold deliver_select, enqueueUniStream. by simpl.
Qed.

(** ** From a publisher to a subscriber *)

(** A session that is not closed takes a message it has room for. *)
Lemma deliver_room s i r m :
  get_reader s i = Some r → rd_pc r = RdDelivering m → inc_closed s = false →
  zlen (incoming s) < incomingDepth →
  step (Deliver i true) s =
    Ok (set_incoming (put_reader s i (add_delivered r m)) (incoming s ++ [(i, m)]) (received s) false).
Proof.
  intros Hr Hpc Hic Hroom. unfold_step. rewrite Hr, Hpc. unfold deliver_select.
  rewrite Hic. destruct (Z.ltb_spec (zlen (incoming s)) incomingDepth); [done|lia].
Qed.

Lemma client_receives_datagram c d f :
  Decode max_alloc d = Ok f → frame_Kind f = KindPub → countable (frame_Topic f) (counts c) →
  rd_pc (dg_reader c) = RdReading → inc_closed c = false → zlen (incoming c) < incomingDepth →
  ∃ c', steps [Datagram d; Deliver 0 true] c = Ok c' ∧
    incoming c' = incoming c ++ [(0%nat, mkPubSubMessage (frame_Topic f) (frame_Payload f) MsgDatagram)] ∧
    count_datagram (E:=disabled) "in" (frame_Topic f) (counts c) = Ok (counts c').
Proof.
  intros Hd Hk Hcnt Hpc Hic Hroom.
  destruct (count_datagram_countable (E:=disabled) "in" _ _ eq_refl Hcnt) as [cs Hcs].
  set (m := mkPubSubMessage (frame_Topic f) (frame_Payload f) MsgDatagram).
  set (c1 := set_counts (put_reader c 0 (take_frame (dg_reader c) (RdDelivering m) (rd_stream (dg_reader c)) f)) cs).
  assert (step (Datagram d) c = Ok c1) as Hstep.
  { unfold_step. rewrite Hpc, Hd. unfold frame_message. rewrite bool_decide_true by done. by rewrite Hcs. }
  cbn [ClientPubSub.steps]. rewrite Hstep. cbn [obind]. erewrite (deliver_room c1 0 _ m) by done.
  cbn [obind]. eexists. split; [done|]. by split.
Qed.

Lemma client_reads_stream c j r f rest :
  streams c !! j = Some r → rd_pc r = RdReading → ReadStreamFrame max_alloc (rd_stream r) = Ok (f, rest) →
  frame_Kind f = KindPub → inc_closed c = false → zlen (incoming c) < incomingDepth →
  ∃ c' r', steps [StreamRead j; Deliver (1 + j) true] c = Ok c' ∧
    incoming c' = incoming c ++ [((1 + j)%nat, mkPubSubMessage (frame_Topic f) (frame_Payload f) MsgStream)] ∧
    streams c' !! j = Some r' ∧ rd_stream r' = rest.
Proof.
  intros Hj Hpc Hf Hk Hic Hroom. pose proof (lookup_lt_Some _ _ _ Hj).
  set (m := mkPubSubMessage (frame_Topic f) (frame_Payload f) MsgStream).
  set (r1 := take_frame r (RdDelivering m) rest f).
  assert (step (StreamRead j) c = Ok (put_reader c (S j) r1)) as Hstep.
  { unfold_step. rewrite Hj, Hpc, Hf. unfold frame_message. by rewrite bool_decide_true. }
  cbn [ClientPubSub.steps]. rewrite Hstep. cbn [obind Nat.add].
  erewrite (deliver_room _ (S j) r1 m); [|by simpl; rewrite list_lookup_insert_eq|done..].
  cbn [obind]. do 2 eexists. split; [done|]. split; [done|]. split.
  - simpl. rewrite list_insert_insert_eq, list_lookup_insert_eq; done.
  - done.
Qed.

Lemma PublishDatagram_inv {S} (send : list byte → S → option string * S) topic payload t t' counts0 counts1 :
  PublishDatagram max_alloc send topic payload t counts0 = Ok (t', counts1) →
  ∃ d, Encode max_alloc (mkFrame KindPub topic payload) = Ok d ∧ zlen d ≤ maxDatagramLen ∧
    send d t = (None, t') ∧ count_datagram (E:=disabled) "out" topic counts0 = Ok counts1.
Proof.
  intros Hpub. unfold PublishDatagram in Hpub. inv_ok.
  destruct (Z.ltb_spec maxDatagramLen (zlen x)) as [|Hlen]; [done|].
  destruct (send x t) as [[e|] t''] eqn:Hsend; inv_ok. subst. exists x. split_and!; try done.
  by eapply count_datagram_Ok.
Qed.

(** The way of a frame on streams, from the writer of the control stream to the
    channel of a subscriber. *)
Lemma stream_end_to_end topic payload b store bw c buf after e :
  live_store store → inc_closed c = false → zlen (incoming c) < incomingDepth →
  WriteStreamFrame max_alloc buffer_write [] (PublishStream_frame topic payload) = Ok buf →
  let f := mkFrame KindPub topic payload in
  ∃ b1, readControl_step max_alloc b (Wire.mkReader (buf ++ after) e) = Ok (b1, CtlPublish f, Wire.mkReader after e) ∧
   topics b1 = topics b ∧
   (∀ prefer order, order ≡ₚ elements (subscribers b topic) →
      ∃ b' o, Publish_stream prefer b1 store f order = Ok (b', o) ∧ topics b' = topics b ∧
        ((∀ i s, i ∈ subscribers b topic → store !! i = Some s → stream_room s) →
         ∃ store', o = Some store' ∧ ∀ j, store' !! j =
           if decide (j ∈ subscribers b topic) then receive_stream f <$> store !! j else store !! j) ∧
        (∀ i s, i ∈ subscribers b topic → store !! i = Some s → ¬ stream_room s → o = None)) ∧
   ∃ b2 str, streamWriter_step max_alloc buffer_write (Some []) bw f = Ok (b2, Some str, true) ∧
   ∀ j r rest, streams c !! j = Some r → rd_pc r = RdReading →
     rd_stream r = Wire.mkReader (str ++ rest) e →
     ∃ c' r', steps [StreamRead j; Deliver (1 + j) true] c = Ok c' ∧
       incoming c' = incoming c ++ [((1 + j)%nat, mkPubSubMessage topic payload MsgStream)] ∧
       streams c' !! j = Some r' ∧ rd_stream r' = Wire.mkReader rest e.
Proof.
  intros Hlive Hic Hroom Hw f. apply WriteStreamFrame_inv in Hw as Hw'.
  destruct Hw' as (d & Hd & Hl & ->). rewrite app_nil_l in *. rewrite <-!app_assoc.
  unfold readControl_step. rewrite (ReadStreamFrame_one max_alloc d f after e) by done. cbn [obind].
  unfold count_stream at 1. rewrite count_accepted by (by eapply constant_accepted). cbn [obind].
  eexists. split; [done|]. split; [done|]. split.
  - intros prefer order Ho.
    apply (Publish_stream_reaches prefer (BrokerTheorems.with_metrics (Broker.add_stream ["control"; "in"]%string) b) store f order Hlive Ho).
    by eapply constant_accepted.
  - unfold streamWriter_step, count_stream. rewrite count_accepted by (by eapply constant_accepted).
    cbn [obind]. change (PublishStream_frame topic payload) with f in *. rewrite Hw.
    unfold count_bytes. rewrite count_accepted by (by eapply constant_accepted). do 2 eexists. split; [done|].
    intros j r rest Hj Hrpc Hstr. rewrite <-app_assoc in Hstr.
    apply (client_reads_stream c j r f); try done. rewrite Hstr. by apply ReadStreamFrame_one.
Qed.

(** C9: a publication reaches the subscribers of its topic as it was published. A
    datagram that PublishDatagram has sent is accepted by the broker's reader as
    exactly this publication; publishing it, when nothing else runs in between and no
    session has ended, puts it at the end of the datagram queues of just the
    subscribers of the topic (a full queue drops its oldest frame) and changes no
    other session; the writer of a subscriber that takes it from the queue sends a
    datagram, and the client that receives it puts topic and payload on its channel.
    A publication that PublishStream has written to the control stream is read as it
    was and dispatched as a publication; it is put at the end of the stream queues of
    just the subscribers if all of them have room, and the publisher blocks if one has
    none; the writer writes it to a stream of its own, from which the client's reader
    delivers it, whatever follows on the streams. The two halves are independent: only
    a datagram is bounded by 1024 bytes. A client with metrics must be able to count
    the topic of a datagram. *)
Theorem publication_end_to_end {S} (send : list byte → S → option string * S) topic payload b store bw c :
  maxDatagramBytes ≤ max_alloc → max_alloc + 8 ≤ maxVarInt8 →
  live_store store → inc_closed c = false → zlen (incoming c) < incomingDepth →
  let f := mkFrame KindPub topic payload in
  let targets := subscribers b topic in
  (∀ t t' counts0 counts1, PublishDatagram max_alloc send topic payload t counts0 = Ok (t', counts1) →
   countable topic (counts c) → rd_pc (dg_reader c) = RdReading →
   count_datagram (E:=disabled) "out" topic counts0 = Ok counts1 ∧
   ∃ d, send d t = (None, t') ∧
   datagramReader_step max_alloc b d = Ok (b, Some f) ∧
   (∀ prefer order, order ≡ₚ elements targets →
      ∃ b' store', Publish_datagram prefer b store f order = Ok (b', store') ∧ topics b' = topics b ∧
        ∀ j, store' !! j = if decide (j ∈ targets) then receive_datagram f <$> store !! j else store !! j) ∧
   ∃ d' b1, datagramWriter_step max_alloc true bw f = Ok (b1, Some d', true) ∧
   ∃ c', steps [Datagram d'; Deliver 0 true] c = Ok c' ∧
     incoming c' = incoming c ++ [(0%nat, mkPubSubMessage topic payload MsgDatagram)] ∧
     count_datagram (E:=disabled) "in" topic (counts c) = Ok (counts c')) ∧
  (∀ buf after e, writeControl max_alloc None None buffer_write (PublishStream_frame topic payload) [] = Ok buf →
   ∃ b1, readControl_step max_alloc b (Wire.mkReader (buf ++ after) e) = Ok (b1, CtlPublish f, Wire.mkReader after e) ∧
   topics b1 = topics b ∧
   (∀ prefer order, order ≡ₚ elements targets →
      ∃ b' o, Publish_stream prefer b1 store f order = Ok (b', o) ∧ topics b' = topics b ∧
        ((∀ i s, i ∈ targets → store !! i = Some s → stream_room s) →
         ∃ store', o = Some store' ∧ ∀ j, store' !! j =
           if decide (j ∈ targets) then receive_stream f <$> store !! j else store !! j) ∧
        (∀ i s, i ∈ targets → store !! i = Some s → ¬ stream_room s → o = None)) ∧
   ∃ b2 str, streamWriter_step max_alloc buffer_write (Some []) bw f = Ok (b2, Some str, true) ∧
   ∀ j r rest, streams c !! j = Some r → rd_pc r = RdReading →
     rd_stream r = Wire.mkReader (str ++ rest) e →
     ∃ c' r', steps [StreamRead j; Deliver (1 + j) true] c = Ok c' ∧
       incoming c' = incoming c ++ [((1 + j)%nat, mkPubSubMessage topic payload MsgStream)] ∧
       streams c' !! j = Some r' ∧ rd_stream r' = Wire.mkReader rest e).
Proof.
  intros Hma Hmax Hlive Hic Hroom f targets. split.
  - intros t t' counts0 counts1 Hpub Hcnt Hpc.
    destruct (PublishDatagram_inv send topic payload t t' counts0 counts1 Hpub) as (d & Hd & Hlen & Hsend & Hc).
    split; [done|]. exists d. apply Decode_Encode_lemma in Hd as Hdec.
    assert ((maxDatagramBytes <? zlen d) = false) as Hsmall by (apply Z.ltb_ge; exact Hlen).
    split; [done|]. split; [unfold datagramReader_step; by rewrite Hsmall, Hdec|]. split.
    + intros prefer order Ho. apply (Publish_datagram_reaches prefer b store f order); [done|done|].
      by eapply constant_accepted.
    + exists d. unfold datagramWriter_step. fold f in Hd. rewrite Hd, Hsmall. unfold count_bytes.
      rewrite count_accepted by (by eapply constant_accepted). eexists. split; [done|].
      by apply (client_receives_datagram c d f).
  - intros buf after e Hw. unfold writeControl in Hw. inv_ok. subst. by apply stream_end_to_end.
Qed.
End theorems.

(** ** Instances *)

#[local] Existing Instances prometheus_Labels prometheus_LabelsLaws.

(** A stream with one publication on it. *)
Definition hello_stream : Reader := Wire.mkReader (varint_bytes (zlen hello_bytes) ++ hello_bytes) EOF.

(** A datagram is received and delivered, a second one waits; a stream has been
    accepted and read up to its delivery, and another one has just arrived. *)
Definition demo_run : list action :=
  [Datagram hello_bytes; Deliver 0 true; Consume; StreamArrives hello_stream; StreamEnqueue 0 true;
   StreamAccept; StreamRead 0; Datagram [x01; x00; x05]; Datagram hello_bytes; Deliver 0 false;
   StreamArrives hello_stream].
Definition demo_session : session :=
  match steps alloc_limit demo_run (new_session None) with Ok s => s | _ => new_session None end.

Lemma demo_session_run : steps alloc_limit demo_run (new_session None) = Ok demo_session.
Proof.
  unfold demo_session. destruct (steps alloc_limit demo_run (new_session None)) eqn:E; [done|..];
    vm_compute in E; discriminate E.
Qed.

Lemma pubsub_session_delivers_witness :
  (received demo_session ++ incoming demo_session).*1 = [0; 0]%nat ∧
  held demo_session ≡ₚ [hello_stream; hello_stream] ∧
  ∀ i r, get_reader demo_session i = Some r →
    let ms := omap (λ f, frame_message f (surface_of i)) (taken r) in
    from_reader i (received demo_session ++ incoming demo_session) `sublist_of` ms ∧
    (ctx_done demo_session = false →
       from_reader i (received demo_session ++ incoming demo_session) ++ pending r = ms).
Proof.
  split; [vm_compute; reflexivity|].
  destruct (pubsub_session_delivers alloc_limit None demo_run demo_session demo_session_run)
    as (_ & _ & _ & _ & Hheld & _ & Hd & _).
  split; [|exact Hd]. etrans; [apply Hheld; vm_compute; reflexivity|vm_compute; reflexivity].
Defined.

Lemma cancellation_races_senders_witness :
  steps alloc_limit [ParentCancelled; CloseIncoming; Deliver 1 true] demo_session = Panic ∧
  steps alloc_limit [CloseCall; CloseCancel; CloseQueue; StreamEnqueue 0 true] demo_session = Panic.
Proof.
  destruct (cancellation_races_senders alloc_limit demo_session 1
    (default (new_reader hello_stream) (streams demo_session !! 0%nat))
    (mkPubSubMessage "topic-a" (bytes_of_string "hello") MsgStream) 0 hello_stream)
    as (H1 & _ & H2 & _); [vm_compute; reflexivity..|]. exact (conj H1 H2).
Defined.

(** A payload that no datagram can carry, and a session that reads the stream it is
    delivered on. *)
Definition long_payload : list byte := replicate 1500 x61.
Definition long_buffer : list byte :=
  match WriteStreamFrame alloc_limit buffer_write [] (PublishStream_frame "topic-a" long_payload) with
  | Ok buf => buf | _ => [] end.
Definition long_session : session :=
  match steps alloc_limit [StreamArrives (Wire.mkReader long_buffer EOF); StreamEnqueue 0 true; StreamAccept]
          (new_session None) with Ok s => s | _ => new_session None end.

Lemma publication_end_to_end_witness :
  (∃ b' store' c', Publish_datagram true demo_broker demo_store hello [2; 1]%positive = Ok (b', store') ∧
     outDatagram <$> store' !! 1%positive = Some [hello] ∧ outDatagram <$> store' !! 3%positive = Some [] ∧
     steps alloc_limit [Datagram hello_bytes; Deliver 0 true] (new_session None) = Ok c' ∧
     incoming c' = [(0%nat, mkPubSubMessage "topic-a" (bytes_of_string "hello") MsgDatagram)]) ∧
  1024 < zlen long_buffer ∧
  (∃ b' store', Publish_stream true demo_broker demo_store (mkFrame KindPub "topic-a" long_payload) [2; 1]%positive
     = Ok (b', Some store')) ∧
  ∃ c', steps alloc_limit [StreamRead 0; Deliver 1 true] long_session = Ok c' ∧
     incoming c' = [(1%nat, mkPubSubMessage "topic-a" long_payload MsgStream)].
Proof.
  assert ([2; 1]%positive ≡ₚ elements (subscribers demo_broker "topic-a")) as Horder
    by (vm_compute; first [reflexivity|apply Permutation_swap]).
  split; [|split; [vm_compute; reflexivity|split]].
  - destruct (publication_end_to_end alloc_limit (λ d l, (None, l ++ [d])) "topic-a" (bytes_of_string "hello")
      demo_broker demo_store demo_broker (new_session None)) as [Hdg _];
      [vm_compute; discriminate|vm_compute; discriminate|exact demo_store_live|reflexivity|reflexivity|].
    destruct (Hdg [] [hello_bytes] (Some ∅) (Some {[("out", "topic-a")%string := 1]}))
      as (_ & d & Hd & _ & Hpub & d' & b1 & Hw & c' & Hs & Hin & _);
      [vm_compute; reflexivity|left; reflexivity|reflexivity|].
    destruct (Hpub true [2; 1]%positive Horder) as (b' & store' & Hp & _ & Hstore).
    exists b', store', c'. split; [exact Hp|]. rewrite !Hstore. split; [vm_compute; reflexivity|].
    split; [vm_compute; reflexivity|]. split; [|exact Hin]. vm_compute in Hw. injection Hw as _ <-. exact Hs.
  - eexists _, _. vm_compute. reflexivity.
  - destruct (publication_end_to_end alloc_limit (λ d (l : list (list byte)), (None, l ++ [d])) "topic-a" long_payload
      demo_broker demo_store demo_broker long_session) as [_ Hst];
      [vm_compute; discriminate|vm_compute; discriminate|exact demo_store_live|vm_compute; reflexivity..|].
    destruct (Hst long_buffer [] EOF) as (b1 & _ & _ & _ & b2 & str & Hw & Hclient); [vm_compute; reflexivity|].
    assert (str = long_buffer) as -> by (vm_compute in Hw; injection Hw as _ <-; vm_compute; reflexivity).
    destruct (Hclient 0%nat (new_reader (Wire.mkReader long_buffer EOF)) [])
      as (c' & r' & Hs & Hin & _); [vm_compute; reflexivity|reflexivity|reflexivity|].
    exists c'. split; [exact Hs|]. rewrite Hin. vm_compute. reflexivity.
Defined.
