(* ===== verification/SharedConn.v ===== *)
(** * SharedConn: the connection a client shares ([internal/client/shared_conn.go])

    All requests and pub/sub sessions of a client use one QUIC connection, made on
    demand under the client's mutex [sharedMu] and closed by whoever sees it fail.
    Goroutines are the calls of [getSharedConn] and [Client.Close] and the two
    accept loops of each connection; one step of a goroutine is one critical
    section, one blocking operation or one call of the transport. [sharedMu] is a
    [sync.Mutex], which its holder cannot lock again; of the calls of a [sync.Once]
    one runs and the others wait until it has returned. *)

From S2P Require Import Prelude Wire.

(** ** State *)

Inductive once := Fresh | Running | Finished.
#[global] Instance once_eq_dec : EqDecision once.
Proof. solve_decision. Defined.

(** A [sharedConn]: whether the context of its [quic.Conn] is done, its [closeOnce],
    and its sessions by stream id; [None] is the nil map. *)
Record conn := mkConn {
  conn_done : bool;
  conn_once : once;
  conn_sessions : option (gmap Z nat);
}.

(** A [pubsubTransportSessionImpl]: its connection and stream id, and whether it has
    been closed. *)
Record sess := mkSess { ss_conn : nat; ss_id : Z; ss_closed : bool }.

Inductive get_result := GotConn (c : nat) | ErrClientClosed | ErrSharedConn.

(** The caller of [sharedConn.close], and where the call is. *)
Inductive closer := ForGet | ForClose | ForAccept.
Inductive conn_close_pc :=
| AtOnce                        (* closeOnce.Do *)
| AtSnapshot                    (* snapshotSessions *)
| AtNil (snap : list nat)       (* sc.sessions = nil *)
| AtSessions (snap : list nat)  (* session.closeWithCause, then raw.CloseWithError *)
| AtClient.                     (* sharedMu.Lock *)
#[global] Instance conn_close_pc_eq_dec : EqDecision conn_close_pc.
Proof. solve_decision. Defined.

Inductive thread :=
| GetLock                       (* getSharedConn: sharedMu.Lock *)
| GetDial                       (* newSharedConn: dialQUIC, sharedMu held *)
| GetWait (c : nat)             (* newSharedConn: the select and the settings checks *)
| GetDone (r : get_result)
| CloseLock                     (* Client.Close: sharedMu.Lock *)
| CloseDone
| Accepting (c : nat)           (* acceptBidirectionalStreams, acceptUnidirectionalStreams *)
| AcceptDone
| InClose (k : closer) (c : nat) (p : conn_close_pc).

Record state := mkState {
  owner : option nat;           (* the goroutine that holds sharedMu *)
  shared : option nat;
  client_closed : bool;
  conns : list conn;
  objs : list sess;
  threads : list thread;
}.
Definition init : state := mkState None None false [] [] [].

Definition set_client (s : state) (o sh : option nat) (cl : bool) : state :=
  mkState o sh cl (conns s) (objs s) (threads s).
Definition set_conn (s : state) (c : nat) (k : conn) : state :=
  mkState (owner s) (shared s) (client_closed s) (<[c := k]> (conns s)) (objs s) (threads s).
Definition set_objs (s : state) (l : list sess) : state :=
  mkState (owner s) (shared s) (client_closed s) (conns s) l (threads s).
Definition set_thread (s : state) (t : nat) (th : thread) : state :=
  mkState (owner s) (shared s) (client_closed s) (conns s) (objs s) (<[t := th]> (threads s)).
Definition add_conn (s : state) (k : conn) : state :=
  mkState (owner s) (shared s) (client_closed s) (conns s ++ [k]) (objs s) (threads s).
Definition spawn (s : state) (l : list thread) : state :=
  mkState (owner s) (shared s) (client_closed s) (conns s) (objs s) (threads s ++ l).

(** ** Sessions of a connection *)

Definition lookupSession (m : option (gmap Z nat)) (id : Z) : option nat :=
  m ≫= lookup id.

(** [registerSession]; [None] is errClientClosed. *)
Definition registerSession (m : option (gmap Z nat)) (id : Z) (o : nat) : option (gmap Z nat) :=
  insert id o <$> m.

Definition unregisterSession (m : option (gmap Z nat)) (id : Z) (o : nat) : option (gmap Z nat) :=
  if bool_decide (lookupSession m id = Some o) then delete id <$> m else m.

Definition snapshotSessions (m : option (gmap Z nat)) : list nat :=
  match m with None => [] | Some g => (map_to_list g).*2 end.

(** [closeWithCause] (or [Close]) of the session [o]: only the first call acts. *)
Definition closeWithCause (o : nat) (s : state) : state :=
  match objs s !! o with
  | Some x =>
      if ss_closed x then s
      else
        let s := set_objs s (<[o := mkSess (ss_conn x) (ss_id x) true]> (objs s)) in
        match conns s !! ss_conn x with
        | Some k =>
            set_conn s (ss_conn x)
              (mkConn (conn_done k) (conn_once k) (unregisterSession (conn_sessions k) (ss_id x) o))
        | None => s
        end
  | None => s
  end.

(** The end of [connectPubSub] on the connection [c], whose request stream has the
    id [id]: the new session is registered, or closed when the map is nil. *)
Definition connect_session (c : nat) (id : Z) (s : state) : option state :=
  match conns s !! c with
  | Some k =>
      match registerSession (conn_sessions k) id (length (objs s)) with
      | Some m =>
          Some (set_objs (set_conn s c (mkConn (conn_done k) (conn_once k) (Some m)))
                  (objs s ++ [mkSess c id false]))
      | None => Some (set_objs s (objs s ++ [mkSess c id true]))
      end
  | None => None
  end.

(** ** The goroutines *)

(** [sharedConn.isClosed] *)
Definition isClosed (s : state) (c : nat) : bool := default true (conn_done <$> conns s !! c).

(** [getSharedConn] once it can lock [sharedMu], up to its return or the call of
    [newSharedConn]. *)
Definition getSharedConn (t : nat) (s : state) : state :=
  if client_closed s then set_thread s t (GetDone ErrClientClosed)
  else
    let sh := match shared s with Some c => if isClosed s c then None else Some c | None => None end in
    match sh with
    | Some c => set_thread s t (GetDone (GotConn c))
    | None => set_thread (set_client s (Some t) None false) t GetDial
    end.

(** [newSharedConn]: dialling, and waiting for the settings of the server. *)
Definition dial (ok : bool) (t : nat) (s : state) : state :=
  if ok then
    let c := length (conns s) in
    spawn (set_thread (add_conn s (mkConn false Fresh (Some ∅))) t (GetWait c)) [Accepting c; Accepting c]
  else set_thread (set_client s None (shared s) (client_closed s)) t (GetDone ErrSharedConn).

Definition wait_settings (ok : bool) (t c : nat) (s : state) : state :=
  if ok then set_thread (set_client s None (Some c) (client_closed s)) t (GetDone (GotConn c))
  else set_thread s t (InClose ForGet c AtOnce).

(** [Client.Close] once it can lock [sharedMu]. *)
Definition Close (t : nat) (s : state) : state :=
  set_thread (set_client s None None true) t
    (match shared s with None => CloseDone | Some c => InClose ForClose c AtOnce end).

(** What the caller does when [sharedConn.close] returns. *)
Definition close_returns (k : closer) (t : nat) (s : state) : state :=
  match k with
  | ForGet => set_thread (set_client s None (shared s) (client_closed s)) t (GetDone ErrSharedConn)
  | ForClose => set_thread s t CloseDone
  | ForAccept => set_thread s t AcceptDone
  end.

(** The next step of [sharedConn.close]; [None] when it has to wait. *)
Definition sharedConn_close (k : closer) (c : nat) (p : conn_close_pc) (t : nat) (s : state)
    : option state :=
  x ← conns s !! c;
  match p with
  | AtOnce =>
      match conn_once x with
      | Fresh =>
          Some (set_thread (set_conn s c (mkConn (conn_done x) Running (conn_sessions x))) t
                  (InClose k c AtSnapshot))
      | Running => None
      | Finished => Some (close_returns k t s)
      end
  | AtSnapshot => Some (set_thread s t (InClose k c (AtNil (snapshotSessions (conn_sessions x)))))
  | AtNil snap =>
      Some (set_thread (set_conn s c (mkConn (conn_done x) (conn_once x) None)) t
              (InClose k c (AtSessions snap)))
  | AtSessions (o :: snap) =>
      Some (set_thread (closeWithCause o s) t (InClose k c (AtSessions snap)))
  | AtSessions [] =>
      Some (set_thread (set_conn s c (mkConn true (conn_once x) (conn_sessions x))) t
              (InClose k c AtClient))
  | AtClient =>
      match owner s with
      | None =>
          let s := set_conn s c (mkConn (conn_done x) Finished (conn_sessions x)) in
          let sh := if bool_decide (shared s = Some c) then None else shared s in
          Some (close_returns k t (set_client s None sh (client_closed s)))
      | Some _ => None
      end
  end.

(** The next step of the goroutine [t]; [ok] is the answer of the transport. *)
Definition run (t : nat) (ok : bool) (s : state) : option state :=
  th ← threads s !! t;
  match th with
  | GetLock => match owner s with None => Some (getSharedConn t s) | Some _ => None end
  | GetDial => Some (dial ok t s)
  | GetWait c => Some (wait_settings ok t c s)
  | CloseLock => match owner s with None => Some (Close t s) | Some _ => None end
  | Accepting c => if isClosed s c then Some (set_thread s t (InClose ForAccept c AtOnce)) else None
  | InClose k c p => sharedConn_close k c p t s
  | GetDone _ | CloseDone | AcceptDone => None
  end.

Inductive action :=
| CallGet                        (* someone calls getSharedConn *)
| CallClose                      (* someone calls Client.Close *)
| Run (t : nat) (ok : bool)
| ConnDies (c : nat)             (* the context of the quic.Conn is done *)
| ConnectSession (c : nat) (id : Z)
| CloseSession (o : nat).        (* Close, or monitorRequestStream *)
#[global] Instance action_eq_dec : EqDecision action.
Proof. solve_decision. Defined.

Definition step (a : action) (s : state) : option state :=
  match a with
  | CallGet => Some (spawn s [GetLock])
  | CallClose => Some (spawn s [CloseLock])
  | Run t ok => run t ok s
  | ConnDies c =>
      x ← conns s !! c; Some (set_conn s c (mkConn true (conn_once x) (conn_sessions x)))
  | ConnectSession c id => connect_session c id s
  | CloseSession o => Some (closeWithCause o s)
  end.

Fixpoint steps (acts : list action) (s : state) : option state :=
  match acts with
  | [] => Some s
  | a :: acts => step a s ≫= steps acts
  end.

(** ** Streams the server opens *)

Definition webTransportFrameType : Z := 0x41.
Definition webTransportUniStreamType : Z := 0x54.

(** What becomes of a stream: left alone, given to the HTTP/3 connection, refused
    with a protocol error, refused because its session is gone, or enqueued for the
    session [o] after its header. *)
Inductive stream_fate :=
| StreamIgnored
| StreamHTTP3
| StreamProtocolError
| StreamSessionGone
| StreamFor (o : nat) (rest : Reader).

Section streams.
Context `{Varint}.

(** [quicvarint.Peek] reads a number without consuming it. *)
Definition handle_stream (marker : Z) (accept : Z → Reader → stream_fate) (str : Reader)
    : exec stream_fate :=
  match varint_read str with
  | Panic => Panic
  | Err _ => Ok StreamIgnored
  | Ok (typ, str1) =>
      if typ =? marker then
        match varint_read str1 with
        | Panic => Panic
        | Err _ => Ok StreamProtocolError
        | Ok (id, str2) => Ok (accept id str2)
        end
      else Ok StreamHTTP3
  end.

Definition handleBidirectionalStream : Reader → exec stream_fate :=
  handle_stream webTransportFrameType (λ _ _, StreamSessionGone).

Definition handleUnidirectionalStream (m : option (gmap Z nat)) : Reader → exec stream_fate :=
  handle_stream webTransportUniStreamType (λ id rest,
    match lookupSession m id with None => StreamSessionGone | Some o => StreamFor o rest end).

(** [newPubSubTransportSession]: the header of the streams a session opens. *)
Definition streamHdr (id : Z) : exec (list byte) :=
  let! h := quicvarint_Append [] webTransportFrameType in
  quicvarint_Append h id.
End streams.
