(* ===== verification/SharedConnTheorems.v ===== *)
(** * SharedConnTheorems: the client's shared connection

    An invariant of every interleaving: the mutex has one holder, a closed client
    shares no connection, no live connection is forgotten, sessions are registered
    under their own ids. From it the safety of the client, and the deadlock of a
    handshake that fails after the dial: [newSharedConn] calls [close], which locks
    the mutex its own caller holds. *)

From S2P Require Import Prelude Wire WireTheorems SharedConn.

(** The goroutine holds [sharedMu]. *)
Definition holds (th : thread) : bool :=
  match th with GetDial | GetWait _ | InClose ForGet _ _ => true | _ => false end.

(** The goroutine answers for the connection [c]: it will share it or close it. *)
Definition in_charge (c : nat) (th : thread) : bool :=
  match th with
  | GetWait c' | InClose _ c' _ => bool_decide (c' = c)
  | _ => false
  end.

(** What the position of a goroutine says about the connections. *)
Definition thread_ok (s : state) (th : thread) : Prop :=
  match th with
  | GetWait c => ∃ k, conns s !! c = Some k ∧ conn_once k ≠ Finished
  | InClose r c p =>
      ∃ k, conns s !! c = Some k ∧ (r = ForGet → conn_once k ≠ Finished) ∧
        (p = AtClient → conn_done k = true)
  | GetDone (GotConn c) | Accepting c => (c < length (conns s))%nat
  | _ => True
  end.

Definition conn_ok (s : state) (c : nat) (k : conn) : Prop :=
  (conn_once k = Finished → conn_done k = true) ∧
  (conn_done k = true ∨ shared s = Some c ∨ ∃ t th, threads s !! t = Some th ∧ in_charge c th = true).

Definition sess_ok (s : state) : Prop :=
  ∀ c k m id o, conns s !! c = Some k → conn_sessions k = Some m → m !! id = Some o →
    objs s !! o = Some (mkSess c id false).

Record sinv (s : state) : Prop := {
  si_owner t th : threads s !! t = Some th → (holds th = true ↔ owner s = Some t);
  si_held t : owner s = Some t → is_Some (threads s !! t) ∧ shared s = None ∧ client_closed s = false;
  si_closed : client_closed s = true → shared s = None;
  si_shared c : shared s = Some c → is_Some (conns s !! c);
  si_threads t th : threads s !! t = Some th → thread_ok s th;
  si_conns c k : conns s !! c = Some k → conn_ok s c k;
  si_sess : sess_ok s;
}.

Lemma init_sinv : sinv init.
Proof. by split. Qed.

(** ** Sessions *)

(** [closeWithCause] changes only the session and its entry in the map. *)
Definition same_conns (s s' : state) : Prop :=
  ∀ c, (λ k, (conn_done k, conn_once k)) <$> conns s' !! c = (λ k, (conn_done k, conn_once k)) <$> conns s !! c.

Lemma same_conns_set s c k k' :
  conns s !! c = Some k → conn_done k' = conn_done k → conn_once k' = conn_once k →
  same_conns s (set_conn s c k').
Proof.
  intros Hc Hd Ho c'. simpl. destruct (decide (c' = c)) as [->|].
  - rewrite list_lookup_insert_eq by (by eapply lookup_lt_Some). rewrite Hc. simpl. by rewrite Hd, Ho.
  - by rewrite list_lookup_insert_ne.
Qed.

Lemma same_conns_lookup s s' c k' :
  same_conns s s' → conns s' !! c = Some k' →
  ∃ k, conns s !! c = Some k ∧ conn_done k' = conn_done k ∧ conn_once k' = conn_once k.
Proof.
  intros Hs Hc. specialize (Hs c). rewrite Hc in Hs. simpl in Hs.
  destruct (conns s !! c) as [k|]; [|done]. simpl in Hs. injection Hs as ? ?. eauto.
Qed.

Lemma same_conns_lookup' s s' c k :
  same_conns s s' → conns s !! c = Some k →
  ∃ k', conns s' !! c = Some k' ∧ conn_done k' = conn_done k ∧ conn_once k' = conn_once k.
Proof.
  intros Hs Hc. specialize (Hs c). rewrite Hc in Hs. simpl in Hs.
  destruct (conns s' !! c) as [k'|]; [|done]. simpl in Hs. injection Hs as ? ?. eauto.
Qed.

Lemma same_conns_length s s' : same_conns s s' → length (conns s') = length (conns s).
Proof.
  intros Hs. apply Nat.le_antisymm; apply Nat.le_ngt; intros Hlt.
  - destruct (lookup_lt_is_Some_2 _ _ Hlt) as [k Hk].
    destruct (same_conns_lookup _ _ _ _ Hs Hk) as (k' & Hk' & _). apply lookup_lt_Some in Hk'. lia.
  - destruct (lookup_lt_is_Some_2 _ _ Hlt) as [k Hk].
    destruct (same_conns_lookup' _ _ _ _ Hs Hk) as (k' & Hk' & _). apply lookup_lt_Some in Hk'. lia.
Qed.

(** The invariant does not depend on the session maps, but for [sess_ok]. *)
Lemma same_conns_sinv s s' :
  sinv s → same_conns s s' → owner s' = owner s → shared s' = shared s →
  client_closed s' = client_closed s → threads s' = threads s → sess_ok s' → sinv s'.
Proof.
  intros [Ho Hh Hcl Hsh Hth Hc _] Hs Eo Es Ec Et Hsess.
  split; rewrite ?Eo, ?Es, ?Ec, ?Et; try done.
  - intros c Hc'%Hsh. destruct Hc' as [k Hk].
    destruct (same_conns_lookup' _ _ _ _ Hs Hk) as (k' & -> & _). done.
  - intros t th Ht. specialize (Hth _ _ Ht). unfold thread_ok in *.
    destruct th as [| |c|[c| |]| | |c| |r c p]; rewrite ?(same_conns_length _ _ Hs); try done.
    + destruct Hth as (k & Hk & ?). destruct (same_conns_lookup' _ _ _ _ Hs Hk) as (k' & ? & ? & E).
      exists k'. by rewrite E.
    + destruct Hth as (k & Hk & ?). destruct (same_conns_lookup' _ _ _ _ Hs Hk) as (k' & ? & E1 & E2).
      exists k'. by rewrite E1, E2.
  - intros c k' Hk'. destruct (same_conns_lookup _ _ _ _ Hs Hk') as (k & Hk & E1 & E2).
    unfold conn_ok. rewrite E1, E2, Es, Et. by apply Hc.
Qed.

Lemma unregister_lookup m id o id' o' :
  lookupSession (unregisterSession m id o) id' = Some o' →
  lookupSession m id' = Some o' ∧ (id' = id → o' ≠ o).
Proof.
  unfold unregisterSession, lookupSession. destruct m as [g|]; simpl.
  - case_bool_decide as Hb; simpl.
    + intros (Hne & Hl)%lookup_delete_Some. split; [done|]. congruence.
    + intros Hl. split; [done|]. intros -> ->. by rewrite Hl in Hb.
  - by repeat case_match.
Qed.

Lemma closeWithCause_sinv o s : sinv s → sinv (closeWithCause o s).
Proof.
  intros Hi. unfold closeWithCause. destruct (objs s !! o) as [x|] eqn:Ho; [|done].
  destruct (ss_closed x) eqn:Hx; [done|]. cbv zeta.
  pose proof (si_sess _ Hi) as Hs.
  assert (∀ c k m id o', conns s !! c = Some k → conn_sessions k = Some m → m !! id = Some o' → o' ≠ o →
    <[o := mkSess (ss_conn x) (ss_id x) true]> (objs s) !! o' = Some (mkSess c id false)) as Hother.
  { intros c k m id o' Hc Hm Hid Hne. rewrite list_lookup_insert_ne by done. by eapply Hs. }
  assert (∀ c k m id, conns s !! c = Some k → conn_sessions k = Some m → m !! id = Some o →
    ss_conn x = c ∧ ss_id x = id) as Hown.
  { intros c k m id Hc Hm Hid. specialize (Hs _ _ _ _ _ Hc Hm Hid). by simplify_eq/=. }
  change (conns (set_objs s ?l)) with (conns s).
  destruct (conns s !! ss_conn x) as [k|] eqn:Hk.
  - apply (same_conns_sinv s); try done.
    + intros c. apply (same_conns_set s (ss_conn x) k); done.
    + intros c k' m id o' Hc Hm Hid. cbn [conns objs set_conn set_objs] in *.
      destruct (decide (c = ss_conn x)) as [->|Hne].
      * rewrite list_lookup_insert_eq in Hc by (by eapply lookup_lt_Some). injection Hc as <-. simpl in Hm.
        assert (lookupSession (unregisterSession (conn_sessions k) (ss_id x) o) id = Some o') as Hl by by rewrite Hm.
        apply unregister_lookup in Hl as [Hl Hne]. destruct (conn_sessions k) as [g|] eqn:Hg; [|done].
        simpl in Hl. eapply Hother; try done. intros ->. destruct (Hown _ _ _ _ Hk Hg Hl) as [_ <-]. by apply Hne.
      * rewrite list_lookup_insert_ne in Hc by done. eapply Hother; try done. intros ->.
        by destruct (Hown _ _ _ _ Hc Hm Hid) as [<- _].
  - apply (same_conns_sinv s); try done. intros c k' m id o' Hc Hm Hid. simpl in *.
    eapply Hother; try done. intros ->. destruct (Hown _ _ _ _ Hc Hm Hid) as [<- _]. congruence.
Qed.

Lemma connect_session_sinv c id s s' : sinv s → connect_session c id s = Some s' → sinv s'.
Proof.
  intros Hi. unfold connect_session. destruct (conns s !! c) as [k|] eqn:Hk; [|done].
  pose proof (si_sess _ Hi) as Hs.
  assert (∀ c k m id o' x, conns s !! c = Some k → conn_sessions k = Some m → m !! id = Some o' →
    (objs s ++ [x]) !! o' = Some (mkSess c id false)) as Hold.
  { intros. apply lookup_app_l_Some. by eapply Hs. }
  unfold registerSession. destruct (conn_sessions k) as [g|] eqn:Hg; intros [= <-].
  - apply (same_conns_sinv s); try done.
    + intros c'. by apply (same_conns_set s c k).
    + intros c' k' m id' o' Hc Hm Hid. cbn [conns objs set_conn set_objs] in *.
      destruct (decide (c' = c)) as [->|].
      * rewrite list_lookup_insert_eq in Hc by (by eapply lookup_lt_Some). injection Hc as <-.
        injection Hm as <-. apply lookup_insert_Some in Hid as [[<- <-]|[Hne Hid]].
        -- by rewrite list_lookup_middle.
        -- by eapply Hold.
      * rewrite list_lookup_insert_ne in Hc by done. by eapply Hold.
  - apply (same_conns_sinv s); try done. intros c' k' m id' o' Hc Hm Hid. by eapply Hold.
Qed.

(** ** Moves of one goroutine *)

Lemma move_sinv s t th th' o sh cl :
  sinv s → threads s !! t = Some th →
  (holds th' = true ↔ o = Some t) →
  (∀ t', t' ≠ t → o = Some t' ↔ owner s = Some t') →
  (∀ t', o = Some t' → sh = None ∧ cl = false) →
  (cl = true → sh = None) →
  (∀ c, sh = Some c → is_Some (conns s !! c)) →
  thread_ok s th' →
  (∀ c k, conns s !! c = Some k → conn_done k = false → shared s = Some c ∨ in_charge c th = true →
     sh = Some c ∨ in_charge c th' = true) →
  sinv (set_thread (set_client s o sh cl) t th').
Proof.
  intros [Ho Hh Hcl Hsh Hth Hc Hs] Ht Hhold Ho' Hheld Hcl' Hsh' Hok Hcharge.
  pose proof (lookup_lt_Some _ _ _ Ht) as Hlt.
  assert (∀ t1 th1, <[t := th']> (threads s) !! t1 = Some th1 →
    (t1 = t ∧ th1 = th') ∨ (t1 ≠ t ∧ threads s !! t1 = Some th1)) as Hcase.
  { intros t1 th1 H1. destruct (decide (t1 = t)) as [->|].
    - rewrite list_lookup_insert_eq in H1 by done. left. by simplify_eq.
    - rewrite list_lookup_insert_ne in H1 by done. by right. }
  split; cbn [owner shared client_closed conns objs threads set_thread set_client]; try done.
  - intros t1 th1 [[-> ->]|[Hne H1]]%Hcase; [done|]. rewrite Ho' by done. by apply Ho.
  - intros t1 E. destruct (Hheld _ E). split_and!; try done.
    destruct (decide (t1 = t)) as [->|Hne]; [by rewrite list_lookup_insert_eq|].
    rewrite list_lookup_insert_ne by done. by apply Hh, Ho'.
  - intros t1 th1 [[-> ->]|[Hne H1]]%Hcase; [done|]. by apply (Hth t1).
  - intros c k Hk. destruct (Hc c k Hk) as [Hf Hd]. split; [done|].
    destruct (conn_done k) eqn:Edone; [by left|]. right.
    cbn [shared threads set_thread set_client].
    assert (shared s = Some c ∨ in_charge c th = true ∨
      ∃ t1 th1, t1 ≠ t ∧ threads s !! t1 = Some th1 ∧ in_charge c th1 = true) as Hd'.
    { destruct Hd as [|[|(t1 & th1 & H1 & Hin)]]; [done|by left|].
      destruct (decide (t1 = t)) as [->|]; [|by right; right; eauto]. simplify_eq. auto. }
    destruct Hd' as [Hs1|[Hs1|(t1 & th1 & Hne & H1 & Hin)]].
    + destruct (Hcharge c k Hk Edone (or_introl Hs1)) as [|Hin]; [by left|]. right. exists t, th'.
      by rewrite list_lookup_insert_eq.
    + destruct (Hcharge c k Hk Edone (or_intror Hs1)) as [|Hin]; [by left|]. right. exists t, th'.
      by rewrite list_lookup_insert_eq.
    + right. exists t1, th1. by rewrite list_lookup_insert_ne.
Qed.

(** A move that leaves the client alone. *)
Lemma set_thread_sinv s t th th' :
  sinv s → threads s !! t = Some th → holds th' = holds th → thread_ok s th' →
  (∀ c k, conns s !! c = Some k → conn_done k = false → in_charge c th = true → in_charge c th' = true) →
  sinv (set_thread s t th').
Proof.
  intros Hi Ht Hh Hok Hch.
  apply (move_sinv s t th th' (owner s) (shared s) (client_closed s)); try done.
  - rewrite Hh. by apply Hi.
  - intros t' E. apply (si_held _ Hi) in E. naive_solver.
  - apply Hi.
  - apply Hi.
  - intros c k Hk Hd [|Hin]; [by left|]. right. by eapply Hch.
Qed.

(** A move that gives [sharedMu] back. *)
Lemma unlock_sinv s t th th' sh :
  sinv s → threads s !! t = Some th → holds th = true → holds th' = false → thread_ok s th' →
  (∀ c, sh = Some c → is_Some (conns s !! c)) →
  (∀ c k, conns s !! c = Some k → conn_done k = false → in_charge c th = true →
     sh = Some c ∨ in_charge c th' = true) →
  sinv (set_thread (set_client s None sh (client_closed s)) t th').
Proof.
  intros Hi Ht Hh Hh' Hok Hsh Hch. apply (si_owner _ Hi _ _ Ht) in Hh as Ho.
  destruct (si_held _ Hi _ Ho) as (_ & Hs & Hcl). eapply move_sinv; try done.
  - by rewrite Hh'.
  - intros t' Hne. split; [done|]. congruence.
  - by rewrite Hcl.
  - intros c k Hk Hd [Hs'|Hin]; [congruence|]. by eapply Hch.
Qed.

(** A connection is updated. *)
Lemma set_conn_sinv s c k k' :
  sinv s → conns s !! c = Some k →
  (conn_done k = true → conn_done k' = true) →
  (conn_once k' = Finished → conn_done k' = true ∧
     (conn_once k = Finished ∨ ∀ t th, threads s !! t = Some th → holds th = true → in_charge c th = false)) →
  (conn_sessions k' = conn_sessions k ∨ conn_sessions k' = None) →
  sinv (set_conn s c k').
Proof.
  intros [Ho Hh Hcl Hsh Hth Hc Hs] Hk Hd Hf Hm. pose proof (lookup_lt_Some _ _ _ Hk) as Hlt.
  assert (∀ c1 k1, conns s !! c1 = Some k1 → ∃ k2, <[c := k']> (conns s) !! c1 = Some k2 ∧
     (k2 = k1 ∨ c1 = c ∧ k1 = k ∧ k2 = k')) as Hfwd.
  { intros c1 k1 H1. destruct (decide (c1 = c)) as [->|].
    - rewrite list_lookup_insert_eq by done. simplify_eq. exists k'. auto.
    - rewrite list_lookup_insert_ne by done. exists k1. auto. }
  assert (∀ c1 k1, <[c := k']> (conns s) !! c1 = Some k1 →
    (c1 = c ∧ k1 = k') ∨ (c1 ≠ c ∧ conns s !! c1 = Some k1)) as Hcase.
  { intros c1 k1 H1. destruct (decide (c1 = c)) as [->|].
    - rewrite list_lookup_insert_eq in H1 by done. left. by simplify_eq.
    - rewrite list_lookup_insert_ne in H1 by done. by right. }
  split; cbn [owner shared client_closed conns objs threads set_conn]; try done.
  - intros c1 (k1 & H1)%Hsh. destruct (Hfwd _ _ H1) as (k2 & -> & _). done.
  - intros t th Ht. specialize (Hth _ _ Ht).
    destruct th as [| |c1|[c1| |]| | |c1| |r c1 p]; simpl in *; rewrite ?length_insert; try done.
    + destruct Hth as (k1 & H1 & Hn). destruct (Hfwd _ _ H1) as (k2 & H2 & [->|(-> & -> & ->)]); [by eauto|].
      exists k'. split; [done|]. intros [_ [Hf'|Hf']]%Hf; [done|].
      specialize (Hf' _ _ Ht eq_refl). simpl in Hf'. by rewrite bool_decide_true in Hf'.
    + destruct Hth as (k1 & H1 & Hn & Hp). destruct (Hfwd _ _ H1) as (k2 & H2 & [->|(-> & -> & ->)]); [by eauto|].
      exists k'. split; [done|]. split; [|auto]. intros ->. intros [_ [Hf'|Hf']]%Hf; [by apply Hn|].
      specialize (Hf' _ _ Ht eq_refl). simpl in Hf'. by rewrite bool_decide_true in Hf'.
  - intros c1 k1 [[-> ->]|[Hne H1]]%Hcase; [|by apply Hc].
    destruct (Hc c k Hk) as [_ Ha]. split; [by intros [? _]%Hf|]. destruct Ha as [Ha|Ha]; [left; auto|by right].
  - intros c1 k1 m id o [[-> ->]|[Hne H1]]%Hcase Em Eid; [|by eapply Hs].
    destruct Hm as [Hm|Hm]; rewrite Hm in Em; [by eapply Hs|done].
Qed.

Lemma spawn_sinv s l :
  sinv s → (∀ th, th ∈ l → holds th = false ∧ thread_ok s th) → sinv (spawn s l).
Proof.
  intros [Ho Hh Hcl Hsh Hth Hc Hs] Hl.
  assert (∀ t th, (threads s ++ l) !! t = Some th → threads s !! t = Some th ∨
    (length (threads s) ≤ t)%nat ∧ th ∈ l) as Hcase.
  { intros t th [?|[? ?%list_elem_of_lookup_2]]%lookup_app_Some; auto. }
  split; cbn [owner shared client_closed conns objs threads spawn]; try done.
  - intros t th [H1|[Hge Hin]]%Hcase; [by apply Ho|]. destruct (Hl _ Hin) as [-> _]. split; [done|].
    intros (Ht & _)%Hh. apply lookup_lt_is_Some in Ht. lia.
  - intros t ([th Ht] & ? & ?)%Hh. split; [|done]. by rewrite (lookup_app_l_Some _ _ _ _ Ht).
  - intros t th [H1|[Hge Hin]]%Hcase; [by apply (Hth t)|]. by apply Hl.
  - intros c k Hk. destruct (Hc c k Hk) as [Hf Ha]. split; [done|].
    destruct Ha as [|[|(t & th & Ht & Hin)]]; [by left|by right; left|]. right; right. exists t, th.
    split; [by apply lookup_app_l_Some|done].
Qed.

(** ** Every step keeps the invariant *)

Lemma no_holder s : sinv s → owner s = None → ∀ t th, threads s !! t = Some th → holds th = false.
Proof.
  intros Hi Ho t th Ht. destruct (holds th) eqn:Hh; [|done].
  apply (si_owner _ Hi _ _ Ht) in Hh. congruence.
Qed.

Lemma getSharedConn_sinv t s :
  sinv s → threads s !! t = Some GetLock → owner s = None → sinv (getSharedConn t s).
Proof.
  intros Hi Ht Ho. unfold getSharedConn. destruct (client_closed s) eqn:Hcl.
  { by eapply set_thread_sinv. }
  assert (∀ c, shared s = Some c → is_Some (conns s !! c)) as Hsh by apply Hi.
  destruct (shared s) as [c|] eqn:Es; [destruct (Hsh c eq_refl) as [k Hk];
    unfold isClosed; rewrite Hk; simpl; destruct (conn_done k) eqn:Hd|].
  - eapply move_sinv; try done.
    + intros t' Hne. rewrite Ho. split; congruence.
    + intros c' k' Hk' Hd' [E|]; [|done]. simplify_eq. congruence.
  - eapply set_thread_sinv; try done. simpl. by eapply lookup_lt_Some.
  - eapply move_sinv; try done.
    + intros t' Hne. rewrite Ho. split; congruence.
    + intros c' k' Hk' Hd' [E|]; [congruence|done].
Qed.

Lemma dial_sinv ok t s : sinv s → threads s !! t = Some GetDial → sinv (dial ok t s).
Proof.
  intros Hi Ht. pose proof (si_owner _ Hi _ _ Ht) as [Ho _]. specialize (Ho eq_refl).
  destruct (si_held _ Hi _ Ho) as (_ & Hs & Hcl). unfold dial. destruct ok.
  - apply spawn_sinv.
    2: { intros th Hin. assert (th = Accepting (length (conns s))) as -> by set_solver. split; [done|].
         simpl. rewrite length_app. simpl. lia. }
    pose proof (lookup_lt_Some _ _ _ Ht) as Hlt.
    destruct Hi as [Ho' Hh' _ _ Hth Hc Hse].
    assert (∀ t1 th1, <[t := GetWait (length (conns s))]> (threads s) !! t1 = Some th1 →
      (t1 = t ∧ th1 = GetWait (length (conns s))) ∨ (t1 ≠ t ∧ threads s !! t1 = Some th1)) as Hcase.
    { intros t1 th1 H1. destruct (decide (t1 = t)) as [->|].
      - rewrite list_lookup_insert_eq in H1 by done. left. by simplify_eq.
      - rewrite list_lookup_insert_ne in H1 by done. by right. }
    split; cbn [owner shared client_closed conns objs threads set_thread add_conn]; rewrite ?Hs, ?Hcl; try done.
    + intros t1 th1 [[-> ->]|[Hne H1]]%Hcase; [by split|]. by apply Ho'.
    + intros t1 E. split; [|done]. rewrite E in Ho. injection Ho as ->. by rewrite list_lookup_insert_eq.
    + intros t1 th1 [[-> ->]|[Hne H1]]%Hcase.
      * eexists. split; [by apply list_lookup_middle|done].
      * specialize (Hth _ _ H1). destruct th1 as [| |c1|[c1| |]| | |c1| |r c1 p]; simpl in *;
          rewrite ?length_app; simpl; try done; try lia;
          destruct Hth as (k1 & H2 & ?); exists k1; (split; [by apply lookup_app_l_Some|done]).
    + intros c k [Hk|[Hge Hk]]%lookup_app_Some.
      * destruct (Hc c k Hk) as [Hf Ha]. split; [done|]. destruct Ha as [|[Ha|(t1 & th1 & H1 & Hin)]];
          [by left|congruence|]. right; right. exists t1, th1. split; [|done].
        simpl. rewrite list_lookup_insert_ne; [done|]. intros <-. by simplify_eq.
      * apply list_lookup_singleton_Some in Hk as [Hz <-]. split; [done|]. right; right.
        exists t, (GetWait (length (conns s))). simpl. rewrite list_lookup_insert_eq by done.
        split; [done|]. apply bool_decide_eq_true. lia.
    + intros c k m id o [Hk|[Hge Hk]]%lookup_app_Some Hm Hid; [by eapply Hse|].
      apply list_lookup_singleton_Some in Hk as [_ <-]. by injection Hm as <-.
  - eapply unlock_sinv; try done. by apply Hi.
Qed.

Lemma wait_settings_sinv ok t c s : sinv s → threads s !! t = Some (GetWait c) → sinv (wait_settings ok t c s).
Proof.
  intros Hi Ht. destruct (si_threads _ Hi _ _ Ht) as (k & Hk & Hn). unfold wait_settings. destruct ok.
  - eapply unlock_sinv; try done.
    + simpl. by eapply lookup_lt_Some.
    + intros c' [= <-]. by eexists.
    + intros c' k' _ _ Hb. left. f_equal. by apply bool_decide_eq_true in Hb.
  - eapply set_thread_sinv; try done. by exists k.
Qed.

Lemma Close_sinv t s : sinv s → threads s !! t = Some CloseLock → owner s = None → sinv (Close t s).
Proof.
  intros Hi Ht Ho. unfold Close. assert (∀ c, shared s = Some c → is_Some (conns s !! c)) as Hsh by apply Hi.
  eapply move_sinv; try done.
  - by destruct (shared s).
  - intros t' _. by rewrite Ho.
  - destruct (shared s) as [c|]; [|done]. destruct (Hsh c eq_refl) as [k Hk]. by exists k.
  - intros c k Hk Hd [Hs|]; [|done]. rewrite Hs. right. by apply bool_decide_eq_true.
Qed.

Lemma close_returns_sinv r c p t s k :
  sinv s → threads s !! t = Some (InClose r c p) → conns s !! c = Some k → conn_done k = true →
  sinv (close_returns r t s).
Proof.
  intros Hi Ht Hk Hd.
  assert (∀ c' k', conns s !! c' = Some k' → conn_done k' = false → in_charge c' (InClose r c p) = true → False) as Hx.
  { intros c' k' Hk' Hd' ->%bool_decide_eq_true. congruence. }
  destruct r; simpl.
  - eapply unlock_sinv; try done; [apply Hi|]. intros c' k' ? ? ?. by destruct (Hx c' k').
  - eapply set_thread_sinv; try done. intros c' k' ? ? ?. by destruct (Hx c' k').
  - eapply set_thread_sinv; try done. intros c' k' ? ? ?. by destruct (Hx c' k').
Qed.

(** A goroutine inside [close] goes on to [p'] after the connection became [k']. *)
Lemma close_goes_on r c p p' t s k k' :
  sinv (set_conn s c k') → threads s !! t = Some (InClose r c p) → conns s !! c = Some k →
  (r = ForGet → conn_once k' ≠ Finished) → (p' = AtClient → conn_done k' = true) →
  sinv (set_thread (set_conn s c k') t (InClose r c p')).
Proof.
  intros Hi Ht Hk Hn Hd. eapply set_thread_sinv; [done|exact Ht|by destruct r| |done].
  exists k'. simpl. rewrite list_lookup_insert_eq by (by eapply lookup_lt_Some). auto.
Qed.

Lemma sharedConn_close_sinv r c p t s s' :
  sinv s → threads s !! t = Some (InClose r c p) → sharedConn_close r c p t s = Some s' → sinv s'.
Proof.
  intros Hi Ht. unfold sharedConn_close.
  destruct (si_threads _ Hi _ _ Ht) as (k & Hk & Hn & Hp). rewrite Hk. cbn [mbind option_bind].
  assert (∀ k', conn_done k' = conn_done k → conn_once k' ≠ Finished →
    (conn_sessions k' = conn_sessions k ∨ conn_sessions k' = None) → sinv (set_conn s c k')) as Hset.
  { intros k' Hd Ho Hm. eapply set_conn_sinv; try done. by rewrite Hd. }
  destruct p as [| |snap|[|o snap]|].
  - destruct (conn_once k) eqn:Eo; [|done|]; intros [= <-].
    + eapply close_goes_on; try done. apply Hset; auto.
    + eapply close_returns_sinv; try done. by apply (si_conns _ Hi _ _ Hk).
  - intros [= <-]. eapply set_thread_sinv; try done; by exists k.
  - intros [= <-]. eapply close_goes_on; try done. eapply set_conn_sinv; try done; simpl; [|auto].
    intros Hf. split; [by apply (si_conns _ Hi _ _ Hk)|auto].
  - intros [= <-]. eapply close_goes_on; try done. eapply set_conn_sinv; try done; simpl; auto.
  - intros [= <-]. apply (closeWithCause_sinv o) in Hi as Hi'.
    assert (threads (closeWithCause o s) = threads s ∧ same_conns s (closeWithCause o s)) as [Et Hsame].
    { unfold closeWithCause. destruct (objs s !! o) as [x|]; [|done]. destruct (ss_closed x); [done|].
      change (conns (set_objs s ?l)) with (conns s). cbv zeta.
      destruct (conns s !! ss_conn x) as [kx|] eqn:Ekx; [|done]. split; [done|].
      intros c'. by apply (same_conns_set s (ss_conn x) kx). }
    destruct (same_conns_lookup' _ _ _ _ Hsame Hk) as (k' & Hk' & E1 & E2).
    eapply set_thread_sinv; [done|by rewrite Et|by destruct r| |done].
    exists k'. by rewrite E1, E2.
  - destruct (owner s) eqn:Ho; [done|]. intros [= <-]. set (k' := mkConn _ _ _).
    assert (sinv (set_conn s c k')) as Hi'.
    { eapply set_conn_sinv; try done; simpl; [|auto]. split; [auto|]. right. intros t' th' Ht' Hh.
      by rewrite (no_holder s Hi Ho _ _ Ht') in Hh. }
    assert (set_client (set_conn s c k') None
      (if bool_decide (shared s = Some c) then None else shared s) (client_closed s) =
      set_client (set_conn s c k') (owner s)
      (if bool_decide (shared s = Some c) then None else shared s) (client_closed s)) as Heq by by rewrite Ho.
    eapply (close_returns_sinv r c AtClient t _ k'); try done.
    2: { simpl. by rewrite list_lookup_insert_eq by (by eapply lookup_lt_Some). }
    2: { auto. }
    case_bool_decide as Hs; [|by destruct Hi'; destruct s; simpl in *; subst].
    destruct Hi' as [H1 H2 H3 H4 H5 H6 H7]. split; simpl; try done.
    + intros t' th' Ht'. rewrite (no_holder s Hi Ho _ _ Ht'). done.
    + intros c' kc Hkc. destruct (H6 _ _ Hkc) as [Hf Ha]. split; [done|]. simpl in *.
      destruct Ha as [|[Ha|]]; [by left| |by right; right]. left.
      assert (c' = c) as -> by congruence. rewrite list_lookup_insert_eq in Hkc by (by eapply lookup_lt_Some).
      injection Hkc as <-. auto.
Qed.

Lemma step_sinv a s s' : sinv s → step a s = Some s' → sinv s'.
Proof.
  intros Hi. destruct a as [| |t ok|c|c id|o]; cbn [step].
  - intros [= <-]. apply spawn_sinv; [done|]. intros th ->%list_elem_of_singleton. done.
  - intros [= <-]. apply spawn_sinv; [done|]. intros th ->%list_elem_of_singleton. done.
  - unfold run. destruct (threads s !! t) as [th|] eqn:Ht; [|done]. cbn [mbind option_bind].
    destruct th as [| |c|r| | |c| |r c p]; try done.
    + destruct (owner s) eqn:Ho; [done|]. intros [= <-]. by apply getSharedConn_sinv.
    + intros [= <-]. by apply dial_sinv.
    + intros [= <-]. by apply wait_settings_sinv.
    + destruct (owner s) eqn:Ho; [done|]. intros [= <-]. by apply Close_sinv.
    + destruct (isClosed s c) eqn:Hc; [|done]. intros [= <-].
      destruct (lookup_lt_is_Some_2 (conns s) c) as [k Hk]; [by apply (si_threads _ Hi _ _ Ht)|].
      eapply set_thread_sinv; try done. by exists k.
    + by apply sharedConn_close_sinv.
  - destruct (conns s !! c) as [k|] eqn:Hk; [|done]. intros [= <-].
    eapply set_conn_sinv; try done; simpl; auto.
  - by apply connect_session_sinv.
  - intros [= <-]. by apply closeWithCause_sinv.
Qed.

Lemma steps_sinv acts s s' : sinv s → steps acts s = Some s' → sinv s'.
Proof.
  revert s. induction acts as [|a acts IH]; intros s Hi; cbn [steps]; [by intros [= <-]|].
  intros (s1 & H1 & H2)%bind_Some. eapply IH; [|done]. by eapply step_sinv.
Qed.

(** ** A running [closeOnce] has a runner *)

Definition runs (c : nat) (th : thread) : Prop :=
  ∃ r p, th = InClose r c p ∧ p ≠ AtOnce.
Definition runner_ok (s : state) : Prop :=
  ∀ c k, conns s !! c = Some k → conn_once k = Running → ∃ t th, threads s !! t = Some th ∧ runs c th.

Lemma set_thread_runner s t th th' :
  runner_ok s → threads s !! t = Some th →
  (∀ c k, conns s !! c = Some k → conn_once k = Running → runs c th → runs c th') →
  runner_ok (set_thread s t th').
Proof.
  intros Hr Ht Hth c k Hk Hrun. destruct (Hr c k Hk Hrun) as (t1 & th1 & H1 & Hr1).
  destruct (decide (t1 = t)) as [->|Hne].
  - exists t, th'. simplify_eq. simpl. rewrite list_lookup_insert_eq by (by eapply lookup_lt_Some).
    split; [done|]. by eapply Hth.
  - exists t1, th1. simpl. by rewrite list_lookup_insert_ne.
Qed.

Lemma set_conn_runner s c k k' :
  runner_ok s → conns s !! c = Some k → (conn_once k' = Running → conn_once k = Running) →
  runner_ok (set_conn s c k').
Proof.
  intros Hr Hk Hk' c1 k1 H1 Hrun. simpl in H1. destruct (decide (c1 = c)) as [->|Hne].
  - rewrite list_lookup_insert_eq in H1 by (by eapply lookup_lt_Some). simplify_eq. by apply (Hr c k); auto.
  - rewrite list_lookup_insert_ne in H1 by done. by apply (Hr c1 k1).
Qed.

Lemma closeWithCause_same o s :
  threads (closeWithCause o s) = threads s ∧ same_conns s (closeWithCause o s) ∧
  owner (closeWithCause o s) = owner s ∧ shared (closeWithCause o s) = shared s ∧
  client_closed (closeWithCause o s) = client_closed s.
Proof.
  unfold closeWithCause. destruct (objs s !! o) as [x|]; [|done]. destruct (ss_closed x); [done|].
  change (conns (set_objs s ?l)) with (conns s). cbv zeta.
  destruct (conns s !! ss_conn x) as [k|] eqn:Hk; [|done]. split_and!; try done.
  intros c'. by apply (same_conns_set s (ss_conn x) k).
Qed.

Lemma same_conns_runner s s' :
  runner_ok s → same_conns s s' → threads s' = threads s → runner_ok s'.
Proof.
  intros Hr Hs Et c k' Hk' Hrun. destruct (same_conns_lookup _ _ _ _ Hs Hk') as (k & Hk & _ & E).
  rewrite Et. apply (Hr c k); [done|congruence].
Qed.

Lemma spawn_runner s l : runner_ok s → runner_ok (spawn s l).
Proof.
  intros Hr c k Hk Hrun. destruct (Hr c k Hk Hrun) as (t & th & Ht & ?). exists t, th.
  split; [by apply lookup_app_l_Some|done].
Qed.

Lemma not_runs c th : (∀ r p, th = InClose r c p → p = AtOnce) → ¬ runs c th.
Proof. intros Hth (r & p & -> & Hp). by apply Hp, (Hth r). Qed.

Lemma close_returns_runner r c p t s :
  runner_ok s → threads s !! t = Some (InClose r c p) →
  (∀ k, conns s !! c = Some k → conn_once k ≠ Running) → runner_ok (close_returns r t s).
Proof.
  intros Hr Ht Hc.
  assert (∀ th s', runner_ok s' → conns s' = conns s → threads s' = threads s → runner_ok (set_thread s' t th)) as Hx.
  { intros th s' Hr' Ec Et. eapply set_thread_runner; [done|by rewrite Et|].
    intros c' k Hk Hrun (? & ? & [= <- <- <-] & _). rewrite Ec in Hk. by apply Hc in Hk. }
  destruct r; by apply Hx.
Qed.

Lemma sharedConn_close_runner r c p t s s' :
  runner_ok s → threads s !! t = Some (InClose r c p) → sharedConn_close r c p t s = Some s' → runner_ok s'.
Proof.
  intros Hr Ht. unfold sharedConn_close. destruct (conns s !! c) as [k|] eqn:Hk; [|done].
  cbn [mbind option_bind].
  assert (∀ s' p', runner_ok s' → threads s' = threads s → p' ≠ AtOnce →
    runner_ok (set_thread s' t (InClose r c p'))) as Hgo.
  { intros s1 p' Hr1 Et Hp. eapply set_thread_runner; [done|by rewrite Et|].
    intros c1 k1 _ _ (r1 & p1 & [= <- <- <-] & _). by exists r, p'. }
  destruct p as [| |snap|[|o snap]|].
  - destruct (conn_once k) eqn:Eo; [|done|]; intros [= <-].
    + intros c1 k1 H1 Hrun. destruct (decide (c1 = c)) as [->|Hne].
      * exists t, (InClose r c AtSnapshot). simpl. rewrite list_lookup_insert_eq by (by eapply lookup_lt_Some).
        split; [done|]. by exists r, AtSnapshot.
      * simpl in H1. rewrite list_lookup_insert_ne in H1 by done.
        destruct (Hr c1 k1 H1 Hrun) as (t1 & th1 & Ht1 & Hr1). exists t1, th1. split; [|done].
        simpl. rewrite list_lookup_insert_ne; [done|]. intros <-. simplify_eq.
        by destruct Hr1 as (? & ? & [= _ <- _] & _).
    + eapply close_returns_runner; try done. intros k1 Hk1. by simplify_eq; rewrite Eo.
  - intros [= <-]. by apply Hgo.
  - intros [= <-]. apply Hgo; [|done..]. by eapply set_conn_runner.
  - intros [= <-]. apply Hgo; [|done..]. by eapply set_conn_runner.
  - intros [= <-]. destruct (closeWithCause_same o s) as (Et & Hs & _).
    apply Hgo; [|done..]. by eapply same_conns_runner.
  - destruct (owner s); [done|]. intros [= <-]. eapply close_returns_runner; [|done|].
    + apply (set_conn_runner s c k (mkConn (conn_done k) Finished (conn_sessions k))) in Hr; done.
    + intros k1. simpl. rewrite list_lookup_insert_eq by (by eapply lookup_lt_Some). by intros [= <-].
Qed.

Lemma step_runner a s s' : runner_ok s → step a s = Some s' → runner_ok s'.
Proof.
  intros Hr. destruct a as [| |t ok|c|c id|o]; cbn [step].
  - intros [= <-]. by apply spawn_runner.
  - intros [= <-]. by apply spawn_runner.
  - unfold run. destruct (threads s !! t) as [th|] eqn:Ht; [|done]. cbn [mbind option_bind].
    assert (∀ th' s1, (∀ r c p, th = InClose r c p → p = AtOnce) → runner_ok s1 → threads s1 = threads s →
      runner_ok (set_thread s1 t th')) as Hx.
    { intros th' s1 Hth Hr1 Et. eapply set_thread_runner; [done|by rewrite Et|].
      intros c k _ _ Hruns. exfalso. revert Hruns. apply not_runs. intros r p. apply Hth. }
    destruct th as [| |c|r| | |c| |r c p]; try done.
    + destruct (owner s); [done|]. intros [= <-]. unfold getSharedConn.
      repeat case_match; by apply Hx.
    + intros [= <-]. destruct ok; [|by apply Hx]. apply spawn_runner, Hx; [done| |done].
      intros c k [Hk|[_ Hk]]%lookup_app_Some Hrun; [by apply (Hr c k)|].
      apply list_lookup_singleton_Some in Hk as [_ <-]. done.
    + intros [= <-]. destruct ok; by apply Hx.
    + destruct (owner s); [done|]. intros [= <-]. by apply Hx.
    + destruct (isClosed s c); [|done]. intros [= <-]. by apply Hx.
    + by apply sharedConn_close_runner.
  - destruct (conns s !! c) as [k|] eqn:Hk; [|done]. intros [= <-]. by eapply set_conn_runner.
  - unfold connect_session. destruct (conns s !! c) as [k|] eqn:Hk; [|done].
    destruct (registerSession _ _ _); intros [= <-]; [|done].
    apply (set_conn_runner s c k (mkConn (conn_done k) (conn_once k) (Some g))) in Hr; done.
  - intros [= <-]. destruct (closeWithCause_same o s) as (Et & Hs & _). by eapply same_conns_runner.
Qed.

Lemma steps_runner acts s s' : runner_ok s → steps acts s = Some s' → runner_ok s'.
Proof.
  revert s. induction acts as [|a acts IH]; intros s Hi; cbn [steps]; [by intros [= <-]|].
  intros (s1 & H1 & H2)%bind_Some. eapply IH; [|done]. by eapply step_runner.
Qed.

(** ** The failed handshake *)

(** A step touches no goroutine but the one that runs. *)
Lemma step_frame a s s' t th :
  step a s = Some s' → (∀ ok, a ≠ Run t ok) → threads s !! t = Some th → threads s' !! t = Some th.
Proof.
  intros Hstep Ha Ht. destruct a as [| |t1 ok|c|c id|o]; cbn [step] in Hstep.
  - injection Hstep as <-. by apply lookup_app_l_Some.
  - injection Hstep as <-. by apply lookup_app_l_Some.
  - assert (t1 ≠ t) as Hne by (intros ->; by apply (Ha ok)).
    assert (∀ s1 th1, threads s1 = threads s → threads (set_thread s1 t1 th1) !! t = Some th) as Hset.
    { intros s1 th1 Et. simpl. by rewrite Et, list_lookup_insert_ne. }
    unfold run in Hstep. destruct (threads s !! t1) as [th1|]; [|done]. cbn [mbind option_bind] in Hstep.
    destruct th1 as [| |c|r| | |c| |r c p]; try done.
    + destruct (owner s); simplify_eq. unfold getSharedConn. repeat case_match; by apply Hset.
    + injection Hstep as <-. destruct ok; [apply lookup_app_l_Some|]; by apply Hset.
    + injection Hstep as <-. destruct ok; by apply Hset.
    + destruct (owner s); simplify_eq. by apply Hset.
    + destruct (isClosed s c); simplify_eq. by apply Hset.
    + unfold sharedConn_close in Hstep. destruct (conns s !! c); [|done]. cbn [mbind option_bind] in Hstep.
      assert (∀ s1, threads s1 = threads s → threads (close_returns r t1 s1) !! t = Some th) as Hret.
      { intros s1 Et. destruct r; by apply Hset. }
      destruct p as [| |snap|[|o snap]|]; repeat case_match; simplify_eq; try (by apply Hset); try (by apply Hret).
      apply Hset. apply closeWithCause_same.
  - destruct (conns s !! c); by simplify_eq/=.
  - unfold connect_session in Hstep. repeat case_match; by simplify_eq.
  - injection Hstep as <-. by destruct (closeWithCause_same o s) as [-> _].
Qed.

(** While a goroutine holds [sharedMu], no other one takes it. *)
Lemma step_owner a s s' t :
  sinv s → owner s = Some t → step a s = Some s' → (∀ ok, a ≠ Run t ok) → owner s' = Some t.
Proof.
  intros Hi Ho Hstep Ha. destruct a as [| |t1 ok|c|c id|o]; cbn [step] in Hstep.
  - by injection Hstep as <-.
  - by injection Hstep as <-.
  - assert (t1 ≠ t) as Hne by (intros ->; by apply (Ha ok)).
    unfold run in Hstep. destruct (threads s !! t1) as [th1|] eqn:H1; [|done]. cbn [mbind option_bind] in Hstep.
    assert (holds th1 = false) as Hno.
    { destruct (holds th1) eqn:Hh; [|done]. apply (si_owner _ Hi _ _ H1) in Hh. congruence. }
    destruct th1 as [| |c|r| | |c| |r c p]; rewrite ?Ho in Hstep; try done.
    + destruct (isClosed s c); by simplify_eq.
    + unfold sharedConn_close in Hstep. destruct (conns s !! c); [|done]. cbn [mbind option_bind] in Hstep.
      rewrite Ho in Hstep.
      destruct p as [| |snap|[|o snap]|]; repeat case_match; simplify_eq; try done.
      * by destruct r.
      * change (owner (closeWithCause o s) = Some t). by destruct (closeWithCause_same o s) as (_ & _ & -> & _).
  - destruct (conns s !! c); by simplify_eq/=.
  - unfold connect_session in Hstep. repeat case_match; by simplify_eq.
  - injection Hstep as <-. by destruct (closeWithCause_same o s) as (_ & _ & -> & _).
Qed.

(** The goroutine whose handshake has failed. *)
Definition stuck (t c : nat) (s : state) : Prop :=
  owner s = Some t ∧ ∃ p, threads s !! t = Some (InClose ForGet c p).

Lemma stuck_step t c a s s' : sinv s → stuck t c s → step a s = Some s' → stuck t c s'.
Proof.
  intros Hi [Ho [p Ht]] Hstep. pose proof (lookup_lt_Some _ _ _ Ht) as Hlt.
  destruct (si_threads _ Hi _ _ Ht) as (k & Hk & Hn & _). specialize (Hn eq_refl).
  destruct (decide (a = Run t true ∨ a = Run t false)) as [Ha|Ha].
  - assert (sharedConn_close ForGet c p t s = Some s') as Hc.
    { destruct Ha as [-> | ->]; cbn [step] in Hstep; unfold run in Hstep; by rewrite Ht in Hstep. }
    destruct (closeWithCause_same (match p with AtSessions (o :: _) => o | _ => 0%nat end) s) as (Et & _ & Eo & _).
    unfold sharedConn_close in Hc. rewrite Hk in Hc. cbn [mbind option_bind] in Hc. rewrite Ho in Hc.
    repeat case_match; simplify_eq; (split; [simpl; congruence|]); eexists; simpl;
      rewrite ?Et; by rewrite list_lookup_insert_eq.
  - assert (∀ ok, a ≠ Run t ok) as Hne by (intros [] ->; auto).
    split; [by eapply step_owner|]. exists p. by eapply step_frame.
Qed.

Lemma stuck_steps t c acts s s' : sinv s → stuck t c s → steps acts s = Some s' → stuck t c s'.
Proof.
  revert s. induction acts as [|a acts IH]; intros s Hi Hst; cbn [steps]; [by intros [= <-]|].
  intros (s1 & H1 & H2)%bind_Some. eapply (IH s1); [by eapply step_sinv|by eapply stuck_step|done].
Qed.

Lemma frame_waiting t acts s s' th owner_t :
  sinv s → stuck owner_t.1 owner_t.2 s → th = GetLock ∨ th = CloseLock →
  threads s !! t = Some th → steps acts s = Some s' → threads s' !! t = Some th.
Proof.
  destruct owner_t as [t0 c]. revert s. simpl.
  induction acts as [|a acts IH]; intros s Hi Hst Hth Ht; cbn [steps]; [by intros [= <-]|].
  intros (s1 & H1 & H2)%bind_Some.
  apply (IH s1); [by eapply step_sinv|by eapply stuck_step|done| |done].
  eapply step_frame; [done| |done]. intros ok ->. cbn [step] in H1. unfold run in H1. rewrite Ht in H1.
  destruct Hst as [Ho _]. by destruct Hth as [-> | ->]; cbn in H1; rewrite Ho in H1.
Qed.

(** Nothing more to do for this goroutine: it has returned, or it accepts streams. *)
Definition at_rest (th : thread) : bool :=
  match th with GetDone _ | CloseDone | AcceptDone | Accepting _ => true | _ => false end.

(** ** Theorems *)

(** C11: a handshake that fails after the dial deadlocks the client, and nothing else
    does. When a goroutine in getSharedConn sees the wait for the settings fail, it
    stays inside close whatever happens afterwards, with the client's mutex locked
    by itself; every call of getSharedConn or Client.Close that waits for the mutex
    waits for ever, and no connection is shared any more. As long as no goroutine
    has come there, some goroutine can take a step unless all calls have returned. *)
Theorem failed_handshake_deadlocks acts s t c :
  steps acts init = Some s →
  (threads s !! t = Some (GetWait c) →
   ∃ s1, step (Run t false) s = Some s1 ∧
     ∀ acts' s2, steps acts' s1 = Some s2 →
       owner s2 = Some t ∧ shared s2 = None ∧
       (∃ p, threads s2 !! t = Some (InClose ForGet c p)) ∧
       (∀ t' th, th = GetLock ∨ th = CloseLock →
          threads s2 !! t' = Some th → (∀ ok, step (Run t' ok) s2 = None) ∧
          ∀ acts'' s3, steps acts'' s2 = Some s3 → threads s3 !! t' = Some th)) ∧
  ((∀ t c p, threads s !! t ≠ Some (InClose ForGet c p)) →
   (∃ t th, threads s !! t = Some th ∧ at_rest th = false) →
   ∃ t s', step (Run t true) s = Some s').
Proof.
  intros Hs. apply steps_sinv in Hs as Hi; [|apply init_sinv].
  apply steps_runner in Hs as Hr; [|by intros ??].
  split.
  - intros Ht. cbn [step]. unfold run. rewrite Ht. cbn [mbind option_bind]. eexists. split; [done|].
    set (s1 := wait_settings false t c s). intros acts' s2 Hs2.
    assert (sinv s1) as Hi1 by by apply wait_settings_sinv.
    assert (stuck t c s1) as Hst1.
    { split; [by apply (si_owner _ Hi _ _ Ht)|]. exists AtOnce. simpl.
      by rewrite list_lookup_insert_eq by (by eapply lookup_lt_Some). }
    pose proof (steps_sinv _ _ _ Hi1 Hs2) as Hi2.
    pose proof (stuck_steps _ _ _ _ _ Hi1 Hst1 Hs2) as Hst2. pose proof Hst2 as [Ho Hp].
    split_and!; try done; [by apply (si_held _ Hi2 t)|].
    intros t' th Hth Ht'. split.
    + intros ok. cbn [step]. unfold run. rewrite Ht'. by destruct Hth as [-> | ->]; cbn; rewrite Ho.
    + intros acts'' s3 Hs3. by apply (frame_waiting _ _ _ _ _ (t, c) Hi2 Hst2 Hth Ht' Hs3).
  - intros Hno (t0 & th & Ht0 & Hrest). cbn [step]. unfold run.
    destruct (owner s) as [t1|] eqn:Ho.
    + destruct (si_held _ Hi _ Ho) as ([th1 H1] & _). exists t1. rewrite H1. cbn [mbind option_bind].
      apply (si_owner _ Hi _ _ H1) in Ho. destruct th1 as [| |c1|r| | |c1| |[] c1 p]; try done; [by eexists..|].
      by destruct (Hno t1 c1 p).
    + assert (∀ t r c p k, threads s !! t = Some (InClose r c p) → conns s !! c = Some k →
        p ≠ AtOnce ∨ conn_once k ≠ Running → ∃ s', sharedConn_close r c p t s = Some s') as Hrun.
      { intros t1 r c1 p k H1 Hk Hp. unfold sharedConn_close. rewrite Hk. cbn [mbind option_bind].
        destruct p as [| |snap|[|o snap]|]; rewrite ?Ho; try (by eexists).
        destruct (conn_once k); by eauto; by destruct Hp. }
      destruct th as [| |c0|r| | |c0| |r c0 p]; try done.
      * exists t0. rewrite Ht0. by eexists.
      * exists t0. rewrite Ht0. by eexists.
      * exists t0. rewrite Ht0. by eexists.
      * exists t0. rewrite Ht0. by eexists.
      * destruct (si_threads _ Hi _ _ Ht0) as (k & Hk & _).
        destruct (decide (p ≠ AtOnce ∨ conn_once k ≠ Running)) as [Hd|Hd].
        -- exists t0. rewrite Ht0. by eapply Hrun.
        -- assert (conn_once k = Running) as Eo by (apply dec_stable; tauto).
           destruct (Hr c0 k Hk Eo) as (t1 & th1 & H1 & r1 & p1 & -> & Hp1).
           exists t1. rewrite H1. eapply Hrun; eauto.
Qed.

(** C12: the shared connection under every interleaving. One goroutine at a time
    makes a connection; once the client is closed none is shared, and a later
    getSharedConn reports errClientClosed; no connection is forgotten: it is dead,
    or shared, or some goroutine is about to share or close it. A stream of the
    server goes, past its header, to the session registered for its id, and that
    session belongs to the connection, has this id and is not closed. *)
Theorem shared_connection_safe `{VarintLaws} acts s :
  steps acts init = Some s →
  (∀ t1 t2 th1 th2, threads s !! t1 = Some th1 → threads s !! t2 = Some th2 →
     holds th1 = true → holds th2 = true → t1 = t2) ∧
  (client_closed s = true → shared s = None ∧
     ∀ t ok s', threads s !! t = Some GetLock → step (Run t ok) s = Some s' →
       threads s' !! t = Some (GetDone ErrClientClosed)) ∧
  (∀ c k, conns s !! c = Some k →
     conn_done k = true ∨ shared s = Some c ∨ ∃ t th, threads s !! t = Some th ∧ in_charge c th = true) ∧
  (∀ c k id rest e, conns s !! c = Some k → 0 ≤ id ≤ maxVarInt8 →
     handleUnidirectionalStream (conn_sessions k)
       (mkReader (varint_bytes webTransportUniStreamType ++ varint_bytes id ++ rest) e) =
       Ok (match lookupSession (conn_sessions k) id with
           | Some o => StreamFor o (mkReader rest e)
           | None => StreamSessionGone
           end) ∧
     ∀ o, lookupSession (conn_sessions k) id = Some o → objs s !! o = Some (mkSess c id false)).
Proof.
  intros Hs. apply steps_sinv in Hs as Hi; [|apply init_sinv]. split_and!.
  - intros t1 t2 th1 th2 H1 H2 Hh1%(si_owner _ Hi _ _ H1) Hh2%(si_owner _ Hi _ _ H2). congruence.
  - intros Hcl. split; [by apply Hi|]. intros t ok s' Ht. cbn [step]. unfold run. rewrite Ht.
    cbn [mbind option_bind]. destruct (owner s); [done|]. intros [= <-]. unfold getSharedConn. rewrite Hcl.
    simpl. by rewrite list_lookup_insert_eq by (by eapply lookup_lt_Some).
  - intros c k Hk. by apply (si_conns _ Hi).
  - intros c k id rest e Hk Hid. split.
    + unfold handleUnidirectionalStream, handle_stream.
      erewrite varint_read_parse by (by apply varint_parse_bytes). cbn [rd_data rd_end].
      rewrite drop_app_length. cbn [Z.eqb webTransportUniStreamType Pos.eqb].
      erewrite varint_read_parse by (by apply varint_parse_bytes). cbn [rd_data rd_end].
      by rewrite drop_app_length.
    + intros o Ho. destruct (conn_sessions k) as [m|] eqn:Hm; [|done]. by eapply (si_sess _ Hi).
Qed.

(** ** Instances *)

(** Two callers: the first one dials, the second one waits. *)
Definition dialling : list action := [CallGet; CallGet; CallClose; Run 0 true].
(** The first caller shares its connection, a session is made, the client closes. *)
Definition sharing : list action :=
  [CallGet; Run 0 true; Run 0 true; Run 0 true; ConnectSession 0 4; ConnectSession 0 8; CallGet; Run 3 true].

Definition state_after (acts : list action) : state := default init (steps acts init).
Lemma state_after_eq acts : is_Some (steps acts init) → steps acts init = Some (state_after acts).
Proof. unfold state_after. by intros [s ->]. Qed.

Lemma failed_handshake_deadlocks_witness :
  (∃ t s', step (Run t true) (state_after dialling) = Some s') ∧
  ∃ s1, step (Run 0 false) (state_after (dialling ++ [Run 0 true])) = Some s1 ∧
    ∀ acts' s2, steps acts' s1 = Some s2 → owner s2 = Some 0%nat ∧ shared s2 = None.
Proof.
  split.
  - apply (failed_handshake_deadlocks dialling _ 0 0).
    + apply state_after_eq. vm_compute. by eexists.
    + intros t c p. do 4 (destruct t as [|t]; [vm_compute; discriminate|]). vm_compute. discriminate.
    + exists 0%nat, GetDial. split; vm_compute; reflexivity.
  - destruct (failed_handshake_deadlocks (dialling ++ [Run 0 true]) (state_after (dialling ++ [Run 0 true])) 0 0)
      as [Hst _]; [apply state_after_eq; vm_compute; by eexists|].
    destruct Hst as (s1 & H1 & H2); [vm_compute; reflexivity|]. exists s1. split; [exact H1|].
    intros acts' s2 Hs2. destruct (H2 acts' s2 Hs2) as (? & ? & _). by split.
Defined.

Lemma shared_connection_safe_witness :
  threads (state_after sharing) !! 3%nat = Some (GetDone (GotConn 0)) ∧
  match conns (state_after sharing) !! 0%nat with
  | Some k =>
      handleUnidirectionalStream (conn_sessions k)
        (mkReader (varint_bytes webTransportUniStreamType ++ varint_bytes 8 ++ hello_bytes) EOF) =
      Ok (StreamFor 1 (mkReader hello_bytes EOF))
  | None => False
  end.
Proof.
  split; [vm_compute; reflexivity|].
  destruct (shared_connection_safe sharing (state_after sharing)) as (_ & _ & _ & Hstr);
    [apply state_after_eq; vm_compute; by eexists|].
  destruct (conns (state_after sharing) !! 0%nat) as [k|] eqn:Hk; [|vm_compute in Hk; discriminate Hk].
  destruct (Hstr 0%nat k 8 hello_bytes EOF Hk) as [-> _]; [vm_compute; split; discriminate|].
  vm_compute in Hk. injection Hk as <-. vm_compute. reflexivity.
Defined.
