(* ===== verification/ClientHTTP.v ===== *)
(** * ClientHTTP: the HTTP calls of a client ([internal/client/client.go])

    Fetching the state and the configuration, and uploading a body that is
    generated from a seed. The body is the output of [math/rand], read in whatever
    pieces the transport asks for; the digest the server must report is computed
    from a second reader with the same seed. The generator behind [rand.NewSource],
    the HTTP transport, and [encoding/json] are parameters. *)

From S2P Require Import Prelude Text Url Sha256 Varint Wire Roles.

(** ** [math/rand]: bytes out of a source of 63-bit numbers *)

Class RandSource := {
  source : Type;
  NewSource : Z → source;
  Int63 : source → Z * source;
}.

Section reader.
Context `{RandSource}.

(** A [rand.Rand]: [readVal] has the bytes left of the last number, [readPos] of
    them. *)
Record Rand := mkRand { rand_src : source; readVal : Z; readPos : Z }.
Definition rand_New (seed : Z) : Rand := mkRand (NewSource seed) 0 0.

Definition next_byte (r : Rand) : byte * Rand :=
  let '(val, src, pos) :=
    if readPos r =? 0 then let '(v, s) := Int63 (rand_src r) in (v, s, 7)
    else (readVal r, rand_src r, readPos r) in
  (byte_of_Z val, mkRand src (Z.shiftr val 8) (pos - 1)).

(** [Rand.Read] into a slice of [n] bytes. *)
Fixpoint rand_Read (n : nat) (r : Rand) : list byte * Rand :=
  match n with
  | O => ([], r)
  | S n =>
      let '(b, r) := next_byte r in
      let '(bs, r) := rand_Read n r in
      (b :: bs, r)
  end.

Record deterministicReader := mkReader { remaining : Z; rnd : Rand }.
Definition newDeterministicReader (size seed : Z) : deterministicReader := mkReader size (rand_New seed).

(** [Read] into a slice of [n] bytes: what it holds, and whether io.EOF comes with
    it. *)
Definition Read (n : Z) (r : deterministicReader) : exec (list byte * bool * deterministicReader) :=
  if remaining r =? 0 then Ok ([], true, r)
  else
    let! n :=
      if remaining r <? n then (if 0 <=? remaining r then Ok (remaining r) else Panic) else Ok n in
    let '(bs, rnd) := rand_Read (Z.to_nat n) (rnd r) in
    let r := mkReader (wrap64 (remaining r - n)) rnd in
    Ok (bs, remaining r =? 0, r).

(** [io.Copy] to a hash, which takes every write, through a buffer of 32 KiB; [None]
    when the fuel runs out. *)
Definition copy_buffer : Z := 32 * 1024.
Fixpoint Copy (fuel : nat) (h : list byte) (r : deterministicReader) : option (exec (list byte)) :=
  match fuel with
  | O => None
  | S fuel =>
      match Read copy_buffer r with
      | Panic => Some Panic
      | Err e => Some (Err e)
      | Ok (bs, eof, r) => if eof then Some (Ok (h ++ bs)) else Copy fuel (h ++ bs) r
      end
  end.

Definition deterministicSHA256 (fuel : nat) (size seed : Z) : option (exec string) :=
  match Copy fuel [] (newDeterministicReader size seed) with
  | None => None
  | Some m => Some (let! h := m in Ok (EncodeToString (sha256 h)))
  end.
End reader.

(** ** [url.PathEscape] *)

Definition PathEscape (s : string) : string := string_of_bytes (escape encodePathSegment (bytes_of_string s)).

(** ** Requests *)

Record http_response := mkResponse { StatusCode : Z; Status : string; resp_Body : list byte }.

Section client.
Context `{RandSource} {W : Type}.

Record http_request := mkRequest {
  req_Method : string;
  req_URL : string;
  req_Body : option deterministicReader;
  req_ContentLength : Z;
}.

(** [baseURL] of the client, the error of [http.NewRequestWithContext] on a URL,
    [httpClient.Do], and the JSON decoders that disallow unknown fields. *)
Context (baseURL : string) (new_request : string → option error)
        (Do : http_request → W → reply http_response * W).

Definition body_limit : nat := 4096.
Definition body_text (resp : http_response) : string :=
  TrimSpace (string_of_bytes (take body_limit (resp_Body resp))).

Definition getJSON {A} (decode : list byte → reply A) (path : string) (w : W) : reply A * W :=
  match new_request (baseURL +:+ path)%string with
  | Some e => (inl ("client: build GET " +:+ path +:+ ": " +:+ e)%string, w)
  | None =>
      match Do (mkRequest "GET" (baseURL +:+ path)%string None 0) w with
      | (inl e, w) => (inl ("client: GET " +:+ path +:+ ": " +:+ e)%string, w)
      | (inr resp, w) =>
          (if StatusCode resp =? 200 then
             match decode (resp_Body resp) with
             | inl e => inl ("client: decode " +:+ path +:+ ": " +:+ e)%string
             | inr x => inr x
             end
           else inl ("client: GET " +:+ path +:+ ": unexpected status " +:+ Status resp +:+ ": " +:+
                     body_text resp)%string, w)
      end
  end.

Context (decode_state : list byte → reply State) (decode_config : list byte → reply DeviceConfig)
        (decode_result : list byte → reply UploadResult).

Definition GetState : W → reply State * W := getJSON decode_state "/state".

Definition GetConfig (clientID : string) (w : W) : reply DeviceConfig * W :=
  if String.eqb clientID "" then (inl "client: client ID is required"%string, w)
  else getJSON decode_config ("/config/" +:+ PathEscape clientID)%string w.

(** The checks of [UploadDeterministic] on the answer. *)
Definition check_result (path : string) (size : Z) (expectedSHA : string) (resp : http_response)
    : reply UploadResult :=
  if StatusCode resp =? 200 then
    match decode_result (resp_Body resp) with
    | inl e => inl ("client: decode " +:+ path +:+ ": " +:+ e)%string
    | inr out =>
        if negb (ur_Bytes out =? size) then
          inl ("client: upload bytes mismatch: want " +:+ pretty size +:+ " got " +:+ pretty (ur_Bytes out))%string
        else if negb (String.eqb (SHA256 out) expectedSHA) then
          inl ("client: upload sha mismatch: want " +:+ expectedSHA +:+ " got " +:+ SHA256 out)%string
        else inr out
    end
  else inl ("client: POST " +:+ path +:+ ": unexpected status " +:+ Status resp +:+ ": " +:+
            body_text resp)%string.

Definition UploadDeterministic (fuel : nat) (name : string) (size seed : Z) (w : W)
    : option (exec (reply UploadResult * W)) :=
  if String.eqb name "" then Some (Ok (inl "client: upload name is required"%string, w))
  else if size <? 0 then Some (Ok (inl "client: upload size must be non-negative"%string, w))
  else
    match deterministicSHA256 fuel size seed with
    | None => None
    | Some m =>
        Some (let! expectedSHA := m in
          let path := ("/files/" +:+ PathEscape name)%string in
          match new_request (baseURL +:+ path)%string with
          | Some e => Ok (inl ("client: build POST " +:+ path +:+ ": " +:+ e)%string, w)
          | None =>
              match Do (mkRequest "POST" (baseURL +:+ path)%string
                          (Some (newDeterministicReader size seed)) size) w with
              | (inl e, w) => Ok (inl ("client: POST " +:+ path +:+ ": " +:+ e)%string, w)
              | (inr resp, w) => Ok (check_result path size expectedSHA resp, w)
              end
          end)
    end.
End client.
