(* ===== verification/ClientHTTPTheorems.v ===== *)
(** * ClientHTTPTheorems: the generated body and its upload

    However the body is read, its bytes are the same prefix of the generator's
    output; the digest computed from a second reader is the digest of these bytes;
    and an upload through the server's handler ends in the stored file or in the
    handler's refusal, never in a mismatch. *)

From S2P Require Import Prelude Text FS Sha256 Upload UploadNames UploadProofs UploadServe Varint Roles ClientHTTP.

(** ** The generator, independent of how it is read *)

Section reader.
Context `{RandSource}.

(** The first [n] bytes for a seed. *)
Definition rand_bytes (n : Z) (seed : Z) : list byte := (rand_Read (Z.to_nat n) (rand_New seed)).1.

Lemma rand_Read_app n m r :
  rand_Read (n + m) r =
  ((rand_Read n r).1 ++ (rand_Read m (rand_Read n r).2).1, (rand_Read m (rand_Read n r).2).2).
Proof.
  revert r. induction n as [|n IH]; intros r; cbn [rand_Read Nat.add];
    [by simpl; destruct (rand_Read m r)|].
  destruct (next_byte r) as [b r1]. rewrite IH.
  destruct (rand_Read n r1) as [bs r2]. simpl. by destruct (rand_Read m r2).
Qed.

Lemma length_rand_Read n r : length (rand_Read n r).1 = n.
Proof.
  revert r. induction n as [|n IH]; intros r; cbn [rand_Read]; [done|].
  destruct (next_byte r) as [b r1]. specialize (IH r1). destruct (rand_Read n r1). simpl in *. by f_equal.
Qed.

Lemma zlen_rand_bytes n seed : 0 ≤ n → zlen (rand_bytes n seed) = n.
Proof. intros. unfold zlen, rand_bytes. rewrite length_rand_Read. lia. Qed.

(** A reader of [size] bytes of which [k] have been read. *)
Definition reader_at (size seed k : Z) : deterministicReader :=
  mkReader (size - k) (rand_Read (Z.to_nat k) (rand_New seed)).2.

Lemma Read_at size seed k n :
  0 ≤ k ≤ size → size ≤ max_int64 → 0 ≤ n →
  let k' := Z.min (k + n) size in
  ∃ bs, Read n (reader_at size seed k) = Ok (bs, size <=? k + n, reader_at size seed k') ∧
    rand_bytes k' seed = rand_bytes k seed ++ bs.
Proof.
  intros Hk Hsize Hn k'. unfold max_int64 in *. unfold Read, reader_at. cbn [remaining rnd].
  destruct (Z.eqb_spec (size - k) 0) as [He|He].
  - exists []. assert (k' = k) as -> by (subst k'; lia). rewrite app_nil_r.
    destruct (Z.leb_spec size (k + n)); [done|lia].
  - set (m := k' - k).
    assert ((if size - k <? n then if 0 <=? size - k then Ok (size - k) else Panic else Ok n) = @Ok Empty_set Z m) as ->.
    { subst m k'. destruct (Z.ltb_spec (size - k) n); [|f_equal; lia].
      destruct (Z.leb_spec 0 (size - k)); [f_equal; lia|lia]. }
    cbn [obind]. set (r := (rand_Read (Z.to_nat k) (rand_New seed)).2).
    assert (Z.to_nat k' = (Z.to_nat k + Z.to_nat m)%nat) as Ek by (subst m k'; lia).
    exists (rand_Read (Z.to_nat m) r).1. split.
    + rewrite Ek, rand_Read_app. cbn [snd]. fold r. destruct (rand_Read (Z.to_nat m) r) as [bs r'].
      cbn [fst snd remaining]. rewrite wrap64_small by (unfold min_int64, max_int64; subst m k'; lia).
      replace (size - k - m) with (size - k') by (subst m; lia).
      do 3 f_equal. subst k'.
      destruct (Z.eqb_spec (size - Z.min (k + n) size) 0), (Z.leb_spec size (k + n)); lia || done.
    + unfold rand_bytes. by rewrite Ek, rand_Read_app.
Qed.

(** Successive reads into slices of the given sizes. *)
Fixpoint reads (ns : list Z) (r : deterministicReader) : exec (list (list byte * bool) * deterministicReader) :=
  match ns with
  | [] => Ok ([], r)
  | n :: ns =>
      let! (bs, eof, r) := Read n r in
      let! (l, r) := reads ns r in
      Ok ((bs, eof) :: l, r)
  end.
Definition total (ns : list Z) : Z := foldr Z.add 0 ns.

Lemma reads_at size seed k ns :
  0 ≤ k ≤ size → size ≤ max_int64 → Forall (λ n, 0 ≤ n) ns →
  let k' := Z.min (k + total ns) size in
  ∃ l, reads ns (reader_at size seed k) = Ok (l, reader_at size seed k') ∧
    rand_bytes k' seed = rand_bytes k seed ++ concat l.*1 ∧
    length l = length ns ∧
    ∀ i bs eof, l !! i = Some (bs, eof) → eof = (size <=? k + total (take (S i) ns)).
Proof.
  intros Hk Hsize Hns. revert k Hk. induction Hns as [|n ns Hn Hns IH]; intros k Hk k'; cbn [reads].
  - exists []. subst k'. cbn [total foldr]. replace (Z.min (k + 0) size) with k by lia.
    split_and!; try done. by rewrite app_nil_r.
  - destruct (Read_at size seed k n Hk Hsize Hn) as (bs & Hr & Hb). rewrite Hr. cbn [obind].
    destruct (IH (Z.min (k + n) size)) as (l & Hl & Hbl & Hlen & Heof); [lia|]. rewrite Hl. cbn [obind].
    exists ((bs, size <=? k + n) :: l).
    assert (0 ≤ total ns) as Ht.
    { clear -Hns. induction Hns as [|x l Hx _ IH]; cbn [total foldr]; [lia|]. unfold total in IH. lia. }
    assert (Z.min (Z.min (k + n) size + total ns) size = k') as Hk' by (subst k'; cbn [total foldr]; unfold total in *; lia).
    rewrite Hk' in *. split_and!; try done.
    + rewrite Hbl, Hb, <-app_assoc. done.
    + simpl. by f_equal.
    + intros [|i] bs' eof; simpl.
      * intros [= <- <-]. by rewrite Z.add_0_r.
      * intros Hi. apply Heof in Hi as ->.
        assert (∀ j, 0 ≤ total (take j ns)) as Htj.
        { intros j. assert (Forall (λ n, 0 ≤ n) (take j ns)) as Hf by by apply Forall_take.
          clear -Hf. induction Hf as [|x l Hx _ IH]; cbn [total foldr]; [lia|]. unfold total in IH. lia. }
        specialize (Htj (S i)). cbn [take] in Htj. unfold total in *.
        destruct ns as [|n0 ns]; cbn [take foldr] in *;
          apply Bool.eq_iff_eq_true; rewrite !Z.leb_le; lia.
Qed.

Lemma Copy_at fuel h size seed k :
  0 ≤ k ≤ size → size ≤ max_int64 →
  Copy fuel h (reader_at size seed k) =
    if bool_decide (fuel ≠ 0%nat ∧ size ≤ k + Z.of_nat fuel * copy_buffer)
    then Some (Ok (h ++ drop (Z.to_nat k) (rand_bytes size seed))) else None.
Proof.
  revert h k. induction fuel as [|fuel IH]; intros h k Hk Hsize; [done|]. cbn [Copy].
  assert (0 ≤ copy_buffer) as Hbuf by done.
  destruct (Read_at size seed k copy_buffer Hk Hsize Hbuf) as (bs & -> & Hb).
  destruct (Z.leb_spec size (k + copy_buffer)) as [Hle|Hgt].
  - rewrite bool_decide_true by (split; [done|unfold copy_buffer in *; lia]). do 3 f_equal.
    rewrite Z.min_r in Hb by lia. rewrite Hb.
    assert (length (rand_bytes k seed) = Z.to_nat k) as <-.
    { unfold rand_bytes. apply length_rand_Read. }
    by rewrite drop_app_length.
  - rewrite Z.min_l in * by lia. rewrite IH by (unfold copy_buffer in *; lia).
    destruct (decide (fuel = 0%nat)) as [->|Hf].
    { rewrite bool_decide_false by naive_solver. rewrite bool_decide_false by (intros [_ Hx]; lia). done. }
    destruct (decide (size ≤ k + copy_buffer + Z.of_nat fuel * copy_buffer)).
    + rewrite !bool_decide_true by (split; [done|lia]). do 2 f_equal. rewrite <-app_assoc. f_equal.
      assert (rand_bytes size seed = rand_bytes (k + copy_buffer) seed ++
        drop (Z.to_nat (k + copy_buffer)) (rand_bytes size seed)) as E.
      { destruct (Read_at size seed (k + copy_buffer) (size - (k + copy_buffer))) as (rest & _ & Hrest);
          [lia|done|lia|]. rewrite Z.min_r in Hrest by lia. rewrite Hrest at 1 2.
        assert (length (rand_bytes (k + copy_buffer) seed) = Z.to_nat (k + copy_buffer)) as <-
          by apply length_rand_Read. by rewrite drop_app_length. }
      assert (drop (Z.to_nat k) (rand_bytes size seed) =
        drop (Z.to_nat k) (rand_bytes (k + copy_buffer) seed ++ drop (Z.to_nat (k + copy_buffer)) (rand_bytes size seed)))
        as -> by by rewrite <-E.
      rewrite Hb, <-app_assoc.
      assert (length (rand_bytes k seed) = Z.to_nat k) as <- by apply length_rand_Read.
      by rewrite drop_app_length.
    + rewrite !bool_decide_false by (intros [_ Hx]; lia). done.
Qed.

Lemma deterministicSHA256_at fuel size seed :
  0 ≤ size ≤ max_int64 →
  deterministicSHA256 fuel size seed =
    if bool_decide (fuel ≠ 0%nat ∧ size ≤ Z.of_nat fuel * copy_buffer)
    then Some (Ok (EncodeToString (sha256 (rand_bytes size seed)))) else None.
Proof.
  intros Hsize. unfold deterministicSHA256.
  assert (newDeterministicReader size seed = reader_at size seed 0) as ->.
  { unfold newDeterministicReader, reader_at. by rewrite Z.sub_0_r. }
  rewrite Copy_at by lia. rewrite Z.add_0_l. destruct (bool_decide _); reflexivity.
Qed.
End reader.

(** ** Theorems *)

(** The body of an upload does not depend on how it is read. Whatever slices the
    reads are given, what they return is the sequence of the first bytes of the
    generator for the seed, up to the size, and a read reports io.EOF exactly when
    the whole body has been returned; so two readers of one seed return the same
    bytes, though they are read in different pieces. *)
Theorem deterministic_body `{RandSource} size seed ns :
  0 ≤ size ≤ max_int64 → Forall (λ n, 0 ≤ n) ns →
  ∃ l r, reads ns (newDeterministicReader size seed) = Ok (l, r) ∧
    concat l.*1 = rand_bytes (Z.min (total ns) size) seed ∧
    remaining r = size - Z.min (total ns) size ∧
    length l = length ns ∧
    ∀ i bs eof, l !! i = Some (bs, eof) → (eof = true ↔ size ≤ total (take (S i) ns)).
Proof.
  intros [H0 Hsize] Hns. destruct (reads_at size seed 0 ns) as (l & Hl & Hb & Hlen & He); [lia|done|done|].
  replace (reader_at size seed 0) with (newDeterministicReader size seed) in Hl
    by (unfold newDeterministicReader, reader_at; by rewrite Z.sub_0_r).
  eexists l, _. split; [exact Hl|]. split_and!; try done.
  intros i bs eof Hi. rewrite (He _ _ _ Hi). by rewrite Z.leb_le.
Qed.

(** C17: the digest of an upload terminates. io.Copy returns after the smallest number
    of reads of 32 KiB, at least one, that covers the size, and the result is the
    SHA-256 of the generated bytes. *)
Theorem deterministicSHA256_terminates `{RandSource} size seed fuel :
  0 ≤ size ≤ max_int64 →
  (is_Some (deterministicSHA256 fuel size seed) ↔
     (Z.to_nat (Z.max 1 ((size + 32767) / 32768)) ≤ fuel)%nat) ∧
  ∀ m, deterministicSHA256 fuel size seed = Some m →
    m = Ok (EncodeToString (sha256 (rand_bytes size seed))).
Proof.
  intros Hsize. rewrite deterministicSHA256_at by done. unfold copy_buffer.
  pose proof (Z.div_mod (size + 32767) 32768). pose proof (Z.mod_pos_bound (size + 32767) 32768).
  case_bool_decide as Hf; (split; [|naive_solver]).
  - split; [intros _|by eexists]. lia.
  - split; [by intros [? ?]|]. intros Hle. destruct Hf. lia.
Qed.

(** ** An upload through the handler *)

Section upload.
Context `{RandSource}.
Context (h : Handler) (name : string) (ns : list Z) (randoms : list string) (elapsed : Z)
        (render : Response → list byte) (status_text : Z → string) (refusal : upload_error → list byte).

(** The transport to the handler: the body is read into slices of the sizes [ns],
    and the handler gets the pieces under the name in the path. *)
Definition serve (r : http_request) (fs : FS) : reply http_response * FS :=
  match req_Body r with
  | Some body =>
      match reads ns body with
      | Ok (l, _) =>
          let '((status, ans), _, fs) :=
            ServeHTTP h (Upload.mkRequest name (req_ContentLength r) l.*1 BodyEOF) randoms elapsed fs in
          (inr (ClientHTTP.mkResponse status (status_text status)
                  (match ans with inr resp => render resp | inl e => refusal e end)), fs)
      | _ => (inl "body", fs)%string
      end
  | None => (inl "no body", fs)%string
  end.
End upload.

Lemma upload_end_to_end_lemma `{RandSource} h name ns randoms elapsed render status_text refusal
    baseURL new_request decode fuel size seed fs :
  name ≠ ""%string → 0 ≤ size ≤ max_int64 →
  Forall (λ n, 0 ≤ n) ns → size ≤ total ns → size ≤ Z.of_nat fuel * copy_buffer → fuel ≠ 0%nat →
  (∀ url, new_request url = None) →
  (∀ resp, decode (render resp) =
     inr (mkUploadResult (rs_Bytes resp) (rs_SHA256 resp) (rs_DurationMillis resp))) →
  Forall no_slash randoms → entries_ok fs (resolve (h_Dir h)) →
  ∃ res fs', UploadDeterministic baseURL new_request
      (serve h name ns randoms elapsed render status_text refusal) decode fuel name size seed fs
    = Some (Ok (res, fs')) ∧
  match res with
  | inr out =>
      ur_Bytes out = size ∧ SHA256 out = EncodeToString (sha256 (rand_bytes size seed)) ∧
      ∃ stored m, sanitizeFilename name = inr stored ∧
        nodes fs' !! child (resolve (h_Dir h)) stored = Some (File (rand_bytes size seed) m)
  | inl e =>
      ∃ status err l st, status ≠ StatusOK ∧
        ServeHTTP h (Upload.mkRequest name size l BodyEOF) randoms elapsed fs = ((status, inl err), st, fs') ∧
        concat l = rand_bytes size seed ∧
        e = ("client: POST /files/" +:+ PathEscape name +:+ ": unexpected status " +:+ status_text status +:+
             ": " +:+ TrimSpace (string_of_bytes (take body_limit (refusal err))))%string
  end.
Proof.
  intros Hname Hsize Hns Htot Hfuel Hf0 Hnew Hdec Hrnd Hok. unfold UploadDeterministic.
  destruct (String.eqb_spec name ""); [done|]. destruct (Z.ltb_spec size 0); [lia|].
  rewrite deterministicSHA256_at, bool_decide_true by done. cbn [obind]. rewrite Hnew.
  destruct (reads_at size seed 0 ns) as (l & Hl & Hb & _); [lia|lia|done|].
  replace (reader_at size seed 0) with (newDeterministicReader size seed) in Hl
    by (unfold newDeterministicReader, reader_at; by rewrite Z.sub_0_r).
  rewrite Z.add_0_l, Z.min_r in Hb by lia. change (rand_bytes 0 seed) with (@nil byte) in Hb. simpl in Hb.
  unfold serve. cbn [req_Body req_ContentLength]. rewrite Hl. cbv zeta.
  destruct (ServeHTTP h _ randoms elapsed fs) as [[[status ans] st] fs'] eqn:Hserve.
  pose proof (ServeHTTP_status _ _ _ _ _ _ _ _ _ Hserve) as Hst.
  eexists _, fs'. split; [reflexivity|]. unfold check_result. cbn [StatusCode resp_Body Status].
  destruct ans as [err|resp].
  - destruct (Z.eqb_spec status 200) as [->|]; [done|]. exists status, err, l.*1, st. split_and!; try done.
  - subst status. apply upload_stored_lemma in Hserve as (stored & m & Hsan & _ & _ & Hresp & Hfile & _); [|done..].
    cbn [rq_chunks rq_name] in *. rewrite <-Hb in *.
    cbn [Z.eqb StatusOK Pos.eqb]. rewrite Hdec. subst resp. cbn [rs_Bytes rs_SHA256 rs_DurationMillis ur_Bytes SHA256].
    rewrite zlen_rand_bytes, Z.eqb_refl, String.eqb_refl by lia. simpl. split_and!; try done. by eexists _, _.
Qed.

(** C13: an upload end to end. Through any transport that reads the whole body in
    slices of any sizes and hands the pieces to the upload handler, and whatever
    calls of the server's file system fail, UploadDeterministic returns. It succeeds
    exactly when the handler answers 200, and then the file under the sanitized name
    holds the generated bytes, and the result has their number and SHA-256; else its
    error is the handler's status. A mismatch is never reported. *)
Theorem upload_end_to_end `{RandSource} h name ns randoms elapsed render status_text refusal
    baseURL new_request decode fuel size seed fs :
  name ≠ ""%string → 0 ≤ size ≤ max_int64 →
  Forall (λ n, 0 ≤ n) ns → size ≤ total ns → size ≤ Z.of_nat fuel * copy_buffer → fuel ≠ 0%nat →
  (∀ url, new_request url = None) →
  (∀ resp, decode (render resp) =
     inr (mkUploadResult (rs_Bytes resp) (rs_SHA256 resp) (rs_DurationMillis resp))) →
  Forall no_slash randoms → entries_ok fs (resolve (h_Dir h)) →
  ∃ res fs', UploadDeterministic baseURL new_request
      (serve h name ns randoms elapsed render status_text refusal) decode fuel name size seed fs
    = Some (Ok (res, fs')) ∧
  match res with
  | inr out =>
      ur_Bytes out = size ∧ SHA256 out = EncodeToString (sha256 (rand_bytes size seed)) ∧
      ∃ stored m, sanitizeFilename name = inr stored ∧
        nodes fs' !! child (resolve (h_Dir h)) stored = Some (File (rand_bytes size seed) m)
  | inl e =>
      ∃ status err l st, status ≠ StatusOK ∧
        ServeHTTP h (Upload.mkRequest name size l BodyEOF) randoms elapsed fs = ((status, inl err), st, fs') ∧
        concat l = rand_bytes size seed ∧
        e = ("client: POST /files/" +:+ PathEscape name +:+ ": unexpected status " +:+ status_text status +:+
             ": " +:+ TrimSpace (string_of_bytes (take body_limit (refusal err))))%string
  end.
Proof. apply upload_end_to_end_lemma. Qed.

(** ** Instances *)

(** A generator, for the instances only. *)
Definition demo_source : RandSource := {|
  source := Z;
  NewSource seed := seed;
  Int63 s := let v := (s * 6364136223846793005 + 1442695040888963407) `mod` 2 ^ 63 in (v, v);
|}.

Lemma deterministic_body_witness :
  ∃ l r, @reads demo_source [3; 0; 4; 9] (@newDeterministicReader demo_source 10 1) = Ok (l, r) ∧
    concat l.*1 = @rand_bytes demo_source 10 1 ∧ length l = 4%nat ∧
    ∀ bs eof, l !! 3%nat = Some (bs, eof) → eof = true.
Proof.
  destruct (@deterministic_body demo_source 10 1 [3; 0; 4; 9]) as (l & r & Hl & Hb & _ & Hlen & He);
    [unfold max_int64; lia|by repeat (constructor; [lia|])|].
  exists l, r. split; [exact Hl|]. split; [exact Hb|]. split; [exact Hlen|].
  intros bs eof Hi. apply (He 3%nat bs eof Hi). vm_compute. discriminate.
Defined.

Lemma deterministicSHA256_terminates_witness :
  is_Some (@deterministicSHA256 demo_source 2 40000 1) ∧ ¬ is_Some (@deterministicSHA256 demo_source 1 40000 1).
Proof.
  assert (0 ≤ 40000 ≤ max_int64) as Hsize by (unfold max_int64; lia).
  assert (Z.to_nat (Z.max 1 ((40000 + 32767) / 32768)) = 2%nat) as Hn by reflexivity.
  split.
  - apply (proj1 (@deterministicSHA256_terminates demo_source 40000 1 2 Hsize)). rewrite Hn. lia.
  - intros Hs. apply (proj1 (@deterministicSHA256_terminates demo_source 40000 1 1 Hsize)) in Hs.
    rewrite Hn in Hs. lia.
Defined.

(** A text for responses, and its decoder. *)
Fixpoint pos_bytes (p : positive) : list byte :=
  match p with xH => [] | xO p => x00 :: pos_bytes p | xI p => x01 :: pos_bytes p end.
Fixpoint bytes_pos (l : list byte) : positive :=
  match l with [] => xH | x00 :: l => xO (bytes_pos l) | _ :: l => xI (bytes_pos l) end.
Lemma bytes_pos_bytes p : bytes_pos (pos_bytes p) = p.
Proof. induction p; simpl; congruence. Qed.

Definition demo_render (r : Response) : list byte :=
  pos_bytes (encode (rs_Bytes r, rs_SHA256 r, rs_DurationMillis r)).
Definition demo_decode (b : list byte) : string + UploadResult :=
  match decode (A := Z * string * Z) (bytes_pos b) with
  | Some (n, s, d) => inr (mkUploadResult n s d)
  | None => inl "not a response"%string
  end.

Lemma upload_end_to_end_witness :
  ∃ res fs', @UploadDeterministic demo_source FS "https://h" (λ _, None)
    (@serve demo_source (up_handler 12) "a b" [4; 0; 9] ["123"%string] 9 demo_render (λ _, ""%string) (λ _, []))
    demo_decode 1 "a b" 10 1 (up_fs []) = Some (Ok (res, fs')) ∧
    ∀ out, res = inr out → ur_Bytes out = 10 ∧ SHA256 out = EncodeToString (sha256 (@rand_bytes demo_source 10 1)).
Proof.
  destruct (@upload_end_to_end demo_source (up_handler 12) "a b" [4; 0; 9] ["123"%string] 9 demo_render
    (λ _, ""%string) (λ _, []) "https://h" (λ _, None) demo_decode 1 10 1 (up_fs [])) as (res & fs' & Hres & Hm).
  - discriminate.
  - unfold max_int64; lia.
  - by repeat (constructor; [lia|]).
  - vm_compute. discriminate.
  - vm_compute. discriminate.
  - discriminate.
  - reflexivity.
  - intros resp. unfold demo_decode, demo_render. rewrite bytes_pos_bytes, decode_encode. reflexivity.
  - exact digits_no_slash.
  - exact (up_entries []).
  - exists res, fs'. split; [exact Hres|]. intros out ->. destruct Hm as (H1 & H2 & _). exact (conj H1 H2).
Defined.
