(* ===== verification/Certs.v ===== *)
(** * Certs: the local certificates ([internal/tlsutil/tlsutil.go])

    A certificate authority and a server certificate signed by it are made and
    written as four PEM files, each by way of a temporary file that is renamed over
    the old one. Keys, serial numbers, signatures and the PEM text come from package
    [crypto] and [encoding/pem] and are parameters: a call that can fail is its
    result. File modes are not modelled; the calls that set them may fail. *)

From S2P Require Import Prelude Text FS.

Definition CAFile : string := "ca.pem".
Definition CAKeyFile : string := "ca.key".
Definition ServerFile : string := "server.pem".
Definition ServerKeyFile : string := "server.key".

Record Paths := mkPaths { CA : string; CAKey : string; Server : string; ServerKey : string }.
Definition PathsIn (outDir : string) : Paths :=
  mkPaths (Join outDir CAFile) (Join outDir CAKeyFile) (Join outDir ServerFile) (Join outDir ServerKeyFile).

(** ** Files *)

(** [filepath.Base]: trailing separators are removed first. *)
Definition filepath_Base (s : string) : string :=
  if String.eqb s "" then "."
  else
    match drop_while (λ x, String.eqb x "") (reverse (Split slash s)) with
    | x :: _ => x
    | [] => "/"
    end.

(** [file.Chmod] of an open file, and [os.Chmod]. *)
Definition FileChmod : io unit := syscall (λ fs, (inr tt, fs)).
Definition Chmod (s : string) : io unit :=
  syscall (λ fs, match node_at fs (resolve s) with Some _ => (inr tt, fs) | None => (inl ErrNotExist, fs) end).

(** [pem.Encode]: the pieces of the text are written one after the other. *)
Fixpoint write_chunks (p : path) (chunks : list (list byte)) (fs : FS) : option os_error * FS :=
  match chunks with
  | [] => (None, fs)
  | c :: chunks =>
      match FileWrite p c fs with
      | ((_, Some e), fs) => (Some e, fs)
      | ((_, None), fs) => write_chunks p chunks fs
      end
  end.

Inductive pem_error :=
| ErrCreateTemp (e : os_error)
| ErrChmodTemp (e : os_error)
| ErrWritePEM (e : os_error)
| ErrCloseTemp (e : os_error)
| ErrReplace (e : os_error)
| ErrChmod (e : os_error).

(** The deferred [os.Remove], whose error is ignored. *)
Definition discard_temp (tmpPath : string) (fs : FS) : FS := (Remove tmpPath fs).2.

(** [randoms] are the names [os.CreateTemp] tries. *)
Definition writePEM (path : string) (chunks : list (list byte)) (randoms : list string) (fs : FS)
    : option pem_error * FS :=
  match CreateTemp (filepath_Dir path) (filepath_Base path +:+ ".tmp-") randoms fs with
  | (inl e, fs) => (Some (ErrCreateTemp e), fs)
  | (inr tmpPath, fs) =>
      match FileChmod fs with
      | (inl e, fs) => (Some (ErrChmodTemp e), discard_temp tmpPath (FileClose fs).2)
      | (inr _, fs) =>
          match write_chunks (resolve tmpPath) chunks fs with
          | (Some e, fs) => (Some (ErrWritePEM e), discard_temp tmpPath (FileClose fs).2)
          | (None, fs) =>
              match FileClose fs with
              | (inl e, fs) => (Some (ErrCloseTemp e), discard_temp tmpPath fs)
              | (inr _, fs) =>
                  match Rename tmpPath path fs with
                  | (inl e, fs) => (Some (ErrReplace e), discard_temp tmpPath fs)
                  | (inr _, fs) =>
                      match Chmod path fs with
                      | (inl e, fs) => (Some (ErrChmod e), discard_temp tmpPath fs)
                      | (inr _, fs) => (None, fs)
                      end
                  end
              end
          end
      end
  end.

(** ** Certificates *)

Definition Hour : Z := 3600 * 10 ^ 9.

(** [None] is the error that no name is left. *)
Definition normalizeSANs (sans : list string) : option (list string) :=
  match trim_nonempty sans with [] => None | out => Some out end.

(** [splitSANs] of [cmd/server/main.go]. *)
Definition splitSANs (s : string) : list string := trim_nonempty (Split x2c s).

(** The validity of the authority, in [int64] nanoseconds. *)
Definition caValid (validFor : Z) : Z :=
  let v := wrap64 (10 * validFor) in
  let max := 10 * 365 * 24 * Hour in
  if max <? v then max else v.

(** The fields of [x509.Certificate] that depend on the arguments. *)
Record template := mkTemplate {
  NotBefore : Z;
  NotAfter : Z;
  IsCA : bool;
  DNSNames : list string;
  IPAddresses : list string;
}.

Inductive gen_error :=
| ErrValidity
| ErrNoSAN
| ErrMkdir (e : os_error)
| ErrCrypto (msg : string)
| ErrPEM (file : string) (e : pem_error).

Section generate.
(** [net.ParseIP] succeeds; [ecdsa.GenerateKey] and [randomSerial] by number of the
    call; [x509.CreateCertificate] of a template, its parent (the template itself,
    or a certificate), the key to be certified and the key that signs;
    [x509.MarshalECPrivateKey]; and the pieces [pem.Encode] writes. *)
Context {key cert : Type}.
Context (is_IP : string → bool) (GenerateKey randomSerial : nat → string + key)
        (CreateCertificate : template → option cert → key → key → string + list byte)
        (ParseCertificate : list byte → string + cert)
        (MarshalECPrivateKey : key → string + list byte)
        (pem_chunks : string → list byte → list (list byte)).

Definition ca_template (now validFor : Z) : template :=
  mkTemplate (now - Hour) (now + caValid validFor) true [] [].
Definition leaf_template (now validFor : Z) (sans : list string) : template :=
  mkTemplate (now - Hour) (now + validFor) false
    (filter (λ s, is_IP s = false) sans) (filter (λ s, is_IP s = true) sans).

Definition crypto {A} (r : string + A) : gen_error + A :=
  match r with inl e => inl (ErrCrypto e) | inr a => inr a end.

(** [writeCertPEM] and [writeECKeyPEM] *)
Definition write_file (file : string) (text : string + list (list byte)) (randoms : list string) (fs : FS)
    : option gen_error * FS :=
  match text with
  | inl e => (Some (ErrCrypto e), fs)
  | inr chunks =>
      match writePEM file chunks randoms fs with
      | (Some e, fs) => (Some (ErrPEM file e), fs)
      | (None, fs) => (None, fs)
      end
  end.
Definition cert_text (der : list byte) : string + list (list byte) := inr (pem_chunks "CERTIFICATE" der).
Definition key_text (k : key) : string + list (list byte) :=
  match MarshalECPrivateKey k with inl e => inl e | inr der => inr (pem_chunks "EC PRIVATE KEY" der) end.

(** The certificates and keys that are to be written. *)
Definition make_certs (sans : list string) (validFor now : Z)
    : string + (list byte * key * list byte * key) :=
  match GenerateKey 0 with inl e => inl e | inr caKey =>
  match randomSerial 0 with inl e => inl e | inr _ =>
  match CreateCertificate (ca_template now validFor) None caKey caKey with inl e => inl e | inr caDER =>
  match ParseCertificate caDER with inl e => inl e | inr caCert =>
  match GenerateKey 1 with inl e => inl e | inr leafKey =>
  match randomSerial 1 with inl e => inl e | inr _ =>
  match CreateCertificate (leaf_template now validFor sans) (Some caCert) leafKey caKey with inl e => inl e
  | inr leafDER => inr (caDER, caKey, leafDER, leafKey)
  end end end end end end end.

(** The writes stop at the first that fails. *)
Fixpoint write_files (files : list (string * (string + list (list byte)))) (randoms : list string) (fs : FS)
    : option gen_error * FS :=
  match files with
  | [] => (None, fs)
  | (file, text) :: files =>
      match write_file file text randoms fs with
      | (Some e, fs) => (Some e, fs)
      | (None, fs) => write_files files randoms fs
      end
  end.

Definition GenerateLocal (outDir : string) (sans : list string) (validFor now : Z) (randoms : list string)
    (fs : FS) : (gen_error + Paths) * FS :=
  if validFor <=? 0 then (inl ErrValidity, fs)
  else
    match normalizeSANs sans with
    | None => (inl ErrNoSAN, fs)
    | Some sans =>
        match MkdirAll outDir fs with
        | (inl e, fs) => (inl (ErrMkdir e), fs)
        | (inr _, fs) =>
            match make_certs sans validFor now with
            | inl e => (inl (ErrCrypto e), fs)
            | inr (caDER, caKey, leafDER, leafKey) =>
                let paths := PathsIn outDir in
                match write_files [(CA paths, cert_text caDER); (CAKey paths, key_text caKey);
                                   (Server paths, cert_text leafDER); (ServerKey paths, key_text leafKey)]
                        randoms fs with
                | (Some e, fs) => (inl e, fs)
                | (None, fs) => (inr paths, fs)
                end
            end
        end
    end.
End generate.
#[global] Arguments writePEM : simpl never.
