(* ===== verification/CertsTheorems.v ===== *)
(** * CertsTheorems: the certificate files

    Each file is replaced in one step or not at all; the generated files hold the
    certificates for the names and the validity that were asked for; and the
    validity of the authority, whose computation overflows. *)

From S2P Require Import Prelude Text FS Upload UploadNames UploadProofs UploadServe LoggingProofs Certs.

#[local] Arguments resolve : simpl never.

(** ** Calls on a temporary file *)

Lemma CreateTemp_cases dir prefix randoms fs r fs' :
  dir ≠ ""%string →
  (∀ rnd, rnd ∈ randoms → ordinary (prefix +:+ rnd) ∧ no_slash (prefix +:+ rnd)) →
  CreateTemp dir prefix randoms fs = (r, fs') →
  (faults fs = [] → faults fs' = []) ∧
  match r with
  | inl _ => nodes fs' = nodes fs
  | inr t => ∃ rnd m, rnd ∈ randoms ∧ resolve t = child (resolve dir) (prefix +:+ rnd) ∧
      nodes fs !! child (resolve dir) (prefix +:+ rnd) = None ∧
      nodes fs' = <[child (resolve dir) (prefix +:+ rnd) := File [] m]> (nodes fs)
  end.
Proof.
  intros Hdir Hrnd H. apply syscall_cases in H as (fs1 & Hn & Hf & [(e & -> & -> & _)|H]); [done|].
  cbv zeta in H. destruct (bool_decide _).
  - destruct (list_find _ _) as [[i t]|] eqn:E; injection H as <- <-; [|done]. split; [done|].
    apply list_find_Some in E as (Hi & Hnone & _).
    apply list_elem_of_lookup_2, list_elem_of_fmap in Hi as (rnd & -> & Hin).
    destruct (Hrnd rnd Hin) as [Ho Hs].
    pose proof (resolve_child dir (prefix +:+ rnd) Hdir Ho Hs) as Hres. rewrite Hres in *.
    exists rnd, (clock fs1). rewrite node_at_child, Hn in Hnone. simpl. by rewrite Hn.
  - unfold not_dir in H. destruct (node_at fs1 _); by injection H as <- <-.
Qed.

Lemma Rename_cases t s d x y c m fs r fs' :
  resolve t = child d y → resolve s = child d x → nodes fs !! child d y = Some (File c m) →
  Rename t s fs = (r, fs') →
  (faults fs = [] → faults fs' = []) ∧
  match r with
  | inl _ => nodes fs' = nodes fs
  | inr _ => nodes fs' = <[child d x := File c m]> (delete (child d y) (nodes fs))
  end.
Proof.
  intros Ht Hs Hc H. apply syscall_cases in H as (fs1 & Hn & Hf & [(er & -> & -> & _)|H]); [done|].
  cbv zeta in H. rewrite Ht, Hn, Hc, Hs in H.
  destruct (bool_decide _); [by injection H as <- <-|]. destruct (negb _).
  - unfold not_dir in H. destruct (node_at fs1 _); by injection H as <- <-.
  - injection H as <- <-. by rewrite ?Hn.
Qed.

(** A call that may fail and does nothing to the tree. *)
Lemma idle_cases (op : io unit) fs r fs' :
  (∀ fs1, ∃ r1, op fs1 = (r1, fs1)) → syscall op fs = (r, fs') →
  nodes fs' = nodes fs ∧ (faults fs = [] → faults fs' = []).
Proof.
  intros Hop H. apply syscall_cases in H as (fs1 & Hn & Hf & [(e & -> & -> & _)|H]); [done|].
  destruct (Hop fs1) as [r1 H1]. rewrite H1 in H. by injection H as _ <-.
Qed.

Lemma discard_temp_cases t p fs :
  resolve t = p → nodes fs !! p ≠ Some Dir →
  nodes (discard_temp t fs) = delete p (nodes fs) ∨ nodes (discard_temp t fs) = nodes fs ∧ faults fs ≠ [].
Proof.
  intros <- Hd. unfold discard_temp. destruct (Remove t fs) as [r fs'] eqn:E. simpl.
  apply syscall_cases in E as (fs1 & Hn & _ & [(e & -> & -> & Hf)|E]); [by rewrite Hn; right|]. left.
  cbv zeta in E. rewrite Hn in E. destruct (nodes fs !! resolve t) as [[| |]|] eqn:Ep; try done;
    injection E as _ <-; simpl; rewrite ?Hn; try done.
  by rewrite delete_id.
Qed.

Lemma discard_temp_faults t fs : faults fs = [] → faults (discard_temp t fs) = [].
Proof.
  intros Hf. unfold discard_temp. destruct (Remove t fs) as [r fs'] eqn:E. simpl.
  apply syscall_cases in E as (fs1 & _ & Hf1 & [(? & _ & -> & ?)|E]); [auto|].
  specialize (Hf1 Hf). cbv zeta in E. repeat case_match; by injection E as _ <-.
Qed.

Lemma write_chunks_inv d y chunks : ∀ fs c m r fs',
  nodes fs !! child d y = Some (File c m) → write_chunks (child d y) chunks fs = (r, fs') →
  same_but (child d y) (nodes fs) (nodes fs') ∧ (faults fs = [] → faults fs' = []) ∧
  (∃ c' m', nodes fs' !! child d y = Some (File c' m')) ∧
  (r = None → ∃ m', nodes fs' !! child d y = Some (File (c ++ concat chunks) m')).
Proof.
  induction chunks as [|p chunks IH]; intros fs c m r fs' Hc H; simpl in H.
  { injection H as <- <-. split_and!; [done|done|by eexists _, _|]. intros _. rewrite app_nil_r. by eexists. }
  destruct (FileWrite (child d y) p fs) as [[n err] fs1] eqn:E.
  destruct (FileWrite_inv _ _ _ _ _ _ _ _ Hc (eq_trans (node_at_child _ _ _) eq_refl) E) as (Hs & Hf & Hex & Hok).
  destruct err as [e|]; [by injection H as <- <-|].
  destruct Hok as [m1 Hm1]; [done|]. destruct (IH _ _ _ _ _ Hm1 H) as (Hs2 & Hf2 & Hex2 & Hok2).
  split_and!; [by eapply same_but_trans|auto|done|]. intros Hr. rewrite concat_cons, app_assoc. auto.
Qed.

(** ** Replacing one file *)

Section write.
Context (file : string) (ss : list string) (x : string).
Hypothesis (Hfile : log_path file ss x).
Let d : path := log_dir file ss.

Lemma resolve_file_path : resolve file = child d x.
Proof. destruct Hfile as (H1 & H2 & H3). by apply resolve_snoc. Qed.

Lemma Base_file : filepath_Base file = x.
Proof.
  destruct Hfile as (H1 & H2 & H3 & _). unfold filepath_Base.
  destruct (String.eqb_spec file ""); [done|]. rewrite H2, reverse_app. simpl.
  by destruct (String.eqb_spec x "").
Qed.

Lemma Dir_not_empty : filepath_Dir file ≠ ""%string.
Proof.
  unfold filepath_Dir, Clean. destruct (resolve (dir_part file)) as [r segs] eqn:E.
  pose proof (resolve_ok (dir_part file)) as Hok. rewrite E in Hok. simpl in Hok.
  destruct r; [done|]. destruct segs as [|s segs]; [done|]. simpl. intros Hr.
  apply (f_equal bytes_of_string) in Hr. unfold render_segs in Hr. rewrite bytes_of_string_of_bytes in Hr.
  assert (s ≠ ""%string) as Hs.
  { rewrite reverse_cons in Hok. clear -Hok.
    induction (reverse segs) as [|z st IH]; simpl in Hok; [tauto|]. apply IH. tauto. }
  apply Hs, (inj bytes_of_string). destruct segs as [|s2 segs]; simpl in Hr; [done|].
  by apply app_nil in Hr as [? _].
Qed.

Lemma temp_ordinary rnd : no_slash rnd →
  ordinary ((x +:+ ".tmp-") +:+ rnd) ∧ no_slash ((x +:+ ".tmp-") +:+ rnd).
Proof.
  intros Hr. destruct Hfile as (_ & Hs & _). split.
  - assert (5 ≤ String.length ((x +:+ ".tmp-") +:+ rnd))%nat as Hl by (rewrite !string_length_app; simpl; lia).
    split_and!; intros E; rewrite E in Hl; simpl in Hl; lia.
  - assert (no_slash x) as Hx.
    { pose proof (Split_no_slash file) as Hn. rewrite Hs in Hn. apply Forall_app in Hn as [_ Hn].
      by apply Forall_cons in Hn as [Hn _]. }
    unfold no_slash. rewrite !bytes_of_string_app, !not_elem_of_app. split_and!; [done| |done].
    intros Hin. by repeat (apply elem_of_cons in Hin as [?|Hin]; [done|]); apply elem_of_nil in Hin.
Qed.

Definition temp_name (rnd : string) : path := child d ((x +:+ ".tmp-") +:+ rnd).

Lemma temp_name_ne rnd : temp_name rnd ≠ child d x.
Proof.
  intros H. apply child_inj, (f_equal String.length) in H. rewrite !string_length_app in H. simpl in H. lia.
Qed.

(** The tree before, with a file at [t] that is not there before. *)
Definition temp_at (t : path) (fs fs' : FS) : Prop :=
  nodes fs !! t = None ∧ same_but t (nodes fs) (nodes fs') ∧ (faults fs = [] → faults fs' = []) ∧
  nodes fs' !! t ≠ Some Dir.

(** Everything but [t] is as before, and so is [t] unless a call has failed. *)
Definition undone (t : path) (fs fs' : FS) : Prop :=
  ∀ q, nodes fs' !! q = nodes fs !! q ∨ q = t ∧ nodes fs !! q = None ∧ faults fs ≠ [].

Lemma discard_undone tmp t fs fs' :
  resolve tmp = t → temp_at t fs fs' → undone t fs (discard_temp tmp fs').
Proof.
  intros Ht (Hn & Hs & Hf & Hd) q. destruct (discard_temp_cases tmp t fs' Ht Hd) as [-> | [-> Hne]].
  - left. destruct (decide (q = t)) as [->|]; [by rewrite lookup_delete_eq|]. rewrite lookup_delete_ne by done. by apply Hs.
  - destruct (decide (q = t)) as [->|]; [right|left; by apply Hs]. split_and!; auto.
Qed.

Lemma temp_at_nodes t fs fs1 fs2 :
  temp_at t fs fs1 → nodes fs2 = nodes fs1 → (faults fs1 = [] → faults fs2 = []) → temp_at t fs fs2.
Proof. intros (? & ? & ? & ?) Hn Hf. split_and!; rewrite ?Hn; auto. Qed.

Lemma FileClose_temp t fs fs1 : temp_at t fs fs1 → temp_at t fs (FileClose fs1).2.
Proof.
  intros Ht. destruct (FileClose fs1) as [r fs2] eqn:E. apply FileClose_nodes in E as [? ?].
  by eapply temp_at_nodes.
Qed.

(** The last two calls of [writePEM], with the text in the temporary file. *)
Definition finish_write (tmp : string) (fs : FS) : option pem_error * FS :=
  match Rename tmp file fs with
  | (inl e, fs) => (Some (ErrReplace e), discard_temp tmp fs)
  | (inr _, fs) =>
      match Chmod file fs with
      | (inl e, fs) => (Some (ErrChmod e), discard_temp tmp fs)
      | (inr _, fs) => (None, fs)
      end
  end.

(** The file has the content [c], and all else is as before. *)
Definition replaced (c : list byte) (fs fs' : FS) : Prop :=
  (∃ m, nodes fs' !! child d x = Some (File c m)) ∧ ∀ q, q ≠ child d x → nodes fs' !! q = nodes fs !! q.

(** A failed call is followed by the removal of the temporary file. *)
Lemma write_fails tmp rnd fs fs1 (e : pem_error) r fs' :
  resolve tmp = temp_name rnd → temp_at (temp_name rnd) fs fs1 → (Some e, discard_temp tmp fs1) = (r, fs') →
  (faults fs = [] → faults fs' = []) ∧ r ≠ None ∧ undone (temp_name rnd) fs fs'.
Proof.
  intros Ht Hat [= <- <-]. split; [|split; [done|by apply discard_undone]].
  intros Hf. by apply discard_temp_faults, Hat.
Qed.

Lemma finish_write_cases tmp rnd c m fs fs1 r fs' :
  resolve tmp = temp_name rnd → temp_at (temp_name rnd) fs fs1 →
  nodes fs1 !! temp_name rnd = Some (File c m) → finish_write tmp fs1 = (r, fs') →
  (faults fs = [] → faults fs' = []) ∧
  ((r ≠ None ∧ undone (temp_name rnd) fs fs') ∨ replaced c fs fs').
Proof.
  intros Ht Hat Hc. unfold finish_write. destruct (Rename tmp file fs1) as [r5 fs5] eqn:E5.
  destruct (Rename_cases tmp file d x _ _ _ fs1 r5 fs5 Ht resolve_file_path Hc E5) as [Hf5 H5].
  destruct r5 as [e|u5].
  { intros H. apply (write_fails _ rnd fs) in H; [naive_solver|done|]. by eapply temp_at_nodes. }
  assert (nodes fs5 !! temp_name rnd = None) as Hgone.
  { rewrite H5, lookup_insert_ne by (intros E; symmetry in E; by apply temp_name_ne in E). apply lookup_delete_eq. }
  assert (replaced c fs fs5) as Hdone.
  { split; [exists m; by rewrite H5, lookup_insert_eq|]. intros q Hq.
    destruct (decide (q = temp_name rnd)) as [->|Hqt]; [rewrite Hgone; symmetry; apply Hat|].
    rewrite H5, lookup_insert_ne, lookup_delete_ne by done. by apply Hat. }
  destruct (Chmod file fs5) as [[e|u6] fs6] eqn:E6;
    (assert (nodes fs6 = nodes fs5 ∧ (faults fs5 = [] → faults fs6 = [])) as [Hn6 Hf6]
      by (eapply idle_cases; [|exact E6]; intros fs0; simpl; destruct (node_at fs0 (resolve file)); by eexists));
    intros [= <- <-].
  - split; [intros Hf; by apply discard_temp_faults, Hf6, Hf5, Hat|]. right. unfold replaced.
    destruct (discard_temp_cases tmp _ fs6 Ht) as [-> |[-> _]]; [by rewrite Hn6, Hgone|..|by rewrite Hn6].
    by rewrite Hn6, delete_id.
  - split; [intros Hf; by apply Hf6, Hf5, Hat|]. right. unfold replaced. by rewrite Hn6.
Qed.

(** The temporary file, new and empty. *)
Lemma CreateTemp_temp randoms fs tmp fs1 :
  Forall no_slash randoms → CreateTemp (filepath_Dir file) (x +:+ ".tmp-") randoms fs = (inr tmp, fs1) →
  ∃ rnd m, rnd ∈ randoms ∧ resolve tmp = temp_name rnd ∧ temp_at (temp_name rnd) fs fs1 ∧
    nodes fs1 !! temp_name rnd = Some (File [] m).
Proof.
  intros Hrnd Ec. apply CreateTemp_cases in Ec as [Hf1 H1]; [|apply Dir_not_empty|].
  2: { intros rnd Hin. apply temp_ordinary. by eapply (proj1 (Forall_forall _ _)) in Hrnd. }
  rewrite (resolve_Dir _ _ _ Hfile) in H1. fold d in H1. destruct H1 as (rnd & m & Hin & Ht & Hnone & H1).
  exists rnd, m. split; [done|]. split; [done|]. fold (temp_name rnd) in H1. split; [|by rewrite H1, lookup_insert_eq].
  split_and!; [done| |done|by rewrite H1, lookup_insert_eq]. intros q Hq. by rewrite H1, lookup_insert_ne.
Qed.

(** What [writePEM] does: nothing, or it replaces the file. *)
Lemma writePEM_cases chunks randoms fs r fs' :
  Forall no_slash randoms → writePEM file chunks randoms fs = (r, fs') →
  (faults fs = [] → faults fs' = []) ∧
  ((r ≠ None ∧ (nodes fs' = nodes fs ∨ ∃ rnd, rnd ∈ randoms ∧ undone (temp_name rnd) fs fs')) ∨
   replaced (concat chunks) fs fs').
Proof.
  intros Hrnd. unfold writePEM. rewrite Base_file.
  destruct (CreateTemp _ _ randoms fs) as [[e|tmp] fs1] eqn:Ec.
  { apply CreateTemp_cases in Ec as [Hf1 H1]; [|apply Dir_not_empty|].
    - intros [= <- <-]. split; [done|]. left. split; [done|]. by left.
    - intros rnd Hin. apply temp_ordinary. by eapply (proj1 (Forall_forall _ _)) in Hrnd. }
  apply CreateTemp_temp in Ec as (rnd & m0 & Hin & Ht & Hat1 & H1); [|done].
  assert (∀ fs2 (e : pem_error), temp_at (temp_name rnd) fs fs2 → (Some e, discard_temp tmp fs2) = (r, fs') →
    (faults fs = [] → faults fs' = []) ∧
    ((r ≠ None ∧ (nodes fs' = nodes fs ∨ ∃ rnd, rnd ∈ randoms ∧ undone (temp_name rnd) fs fs')) ∨
     replaced (concat chunks) fs fs')) as Hfail.
  { intros fs2 e Hat H. apply (write_fails _ rnd fs) in H as (? & ? & ?); [|done..]. eauto 8. }
  destruct (FileChmod fs1) as [[e|u] fs2] eqn:E2;
    apply idle_cases in E2 as [Hn2 Hf2]; try (intros ?; by eexists);
    (assert (temp_at (temp_name rnd) fs fs2) as Hat2 by by eapply temp_at_nodes).
  { by apply Hfail, FileClose_temp. }
  rewrite Ht. destruct (write_chunks (temp_name rnd) chunks fs2) as [[e|] fs3] eqn:E3;
    eapply write_chunks_inv in E3 as (Hs3 & Hf3 & (c3 & m3' & Hex3) & Hok3);
    try (rewrite Hn2; exact H1);
    (assert (temp_at (temp_name rnd) fs fs3) as Hat3 by (destruct Hat2 as (? & ? & ? & ?); split_and!;
       [done|by eapply same_but_trans|auto|unfold temp_name; by rewrite Hex3])).
  { by apply Hfail, FileClose_temp. }
  destruct Hok3 as [m3 Hm3]; [done|]. simpl in Hm3.
  destruct (FileClose fs3) as [[e|u4] fs4] eqn:E4; apply FileClose_nodes in E4 as [Hn4 Hf4];
    (assert (temp_at (temp_name rnd) fs fs4) as Hat4 by by eapply temp_at_nodes).
  { by apply Hfail. }
  rewrite <-Hn4 in Hm3. intros H. apply (finish_write_cases tmp rnd (concat chunks) m3 fs) in H as [? [[? ?]|?]]; eauto 8.
Qed.
End write.

(** ** The four files *)

(** An entry whose name is too short for a temporary file of one of the four. *)
Definition cert_name (x : string) : Prop :=
  ordinary x ∧ no_slash x ∧ (6 ≤ String.length x ≤ 10)%nat.

Lemma cert_names : Forall cert_name [CAFile; CAKeyFile; ServerFile; ServerKeyFile].
Proof.
  repeat (apply Forall_cons; split); [..|by apply Forall_nil]; (split; [by split_and!|]; split; [|simpl; lia]);
    intros Hin; by repeat (apply elem_of_cons in Hin as [?|Hin]; [done|]); apply elem_of_nil in Hin.
Qed.

Section files.
Context (outDir : string) (Hdir : outDir ≠ ""%string).
Let d : path := resolve outDir.

Lemma Split_Join x : ordinary x → no_slash x → ∃ ss, Split slash (Join outDir x) = ss ++ [x].
Proof.
  intros Hx Hs. unfold Join. destruct (String.eqb_spec outDir ""); [done|]. unfold Clean.
  rewrite (resolve_child _ _ Hdir Hx Hs). unfold child.
  pose proof (resolve_ok outDir) as Hok. apply stack_no_slash in Hok. rewrite Forall_reverse in Hok.
  fold d in Hok |- *. destruct d as [r segs]. simpl in *.
  assert (Split slash (render_segs (segs ++ [x])) = segs ++ [x]) as Hsplit.
  { apply render_segs_split; [by destruct segs|]. apply Forall_app. split; [done|]. by apply Forall_cons. }
  destruct r; cbn [render].
  - exists (""%string :: segs).
    assert (∀ z, Split slash ("/" +:+ z) = ""%string :: Split slash z) as ->
      by (intros z; unfold Split; by rewrite bytes_of_string_app).
    by rewrite Hsplit.
  - exists segs. destruct (segs ++ [x]) eqn:E; [by destruct segs|]. done.
Qed.

Lemma Join_log_path x : ordinary x → no_slash x →
  ∃ ss, log_path (Join outDir x) ss x ∧ log_dir (Join outDir x) ss = d.
Proof.
  intros Hx Hs. destruct (Split_Join x Hx Hs) as [ss Hss]. exists ss.
  assert (log_path (Join outDir x) ss x) as Hp.
  { split; [|done]. intros E. rewrite E in Hss. destruct ss as [|s0 [|? ?]]; [|done..].
    injection Hss as <-. by destruct Hx. }
  split; [done|]. pose proof (resolve_file_path _ _ _ Hp) as H1.
  rewrite (resolve_Join outDir Hdir x Hx Hs) in H1. unfold child in H1. fold d in H1.
  destruct d as [r segs], (log_dir (Join outDir x) ss) as [r' segs']. simpl in H1. injection H1 as <- H1.
  by apply app_inj_tail in H1 as [<- _].
Qed.

(** One file: nothing else of the directory's certificate names changes. *)
Lemma write_file_cases x text randoms fs r fs' :
  cert_name x → Forall no_slash randoms → write_file (Join outDir x) text randoms fs = (r, fs') →
  (∀ y, cert_name y → y ≠ x → nodes fs' !! child d y = nodes fs !! child d y) ∧
  ((r ≠ None ∧ nodes fs' !! child d x = nodes fs !! child d x) ∨
   ∃ chunks m, text = inr chunks ∧ nodes fs' !! child d x = Some (File (concat chunks) m)).
Proof.
  intros (Hx & Hs & Hl) Hrnd. unfold write_file. destruct text as [e|chunks].
  { intros [= <- <-]. split; [done|]. by left. }
  destruct (Join_log_path x Hx Hs) as (ss & Hp & Hd).
  destruct (writePEM _ chunks randoms fs) as [r0 fs0] eqn:E.
  apply (writePEM_cases _ _ _ Hp) in E as [_ Hcase]; [|done]. unfold replaced in Hcase. rewrite Hd in Hcase.
  intros H. assert (fs' = fs0 ∧ (r0 ≠ None → r ≠ None)) as [-> Hr] by (destruct r0; by injection H as <- <-).
  destruct Hcase as [[Hne Hcase]|[(m & Hm) Hother]].
  - assert (∀ y, cert_name y → nodes fs0 !! child d y = nodes fs !! child d y) as Hall.
    { intros y (_ & _ & Hly). destruct Hcase as [->|(rnd & _ & Hu)]; [done|].
      destruct (Hu (child d y)) as [|(Hy & _)]; [done|]. unfold temp_name in Hy. rewrite Hd in Hy.
      apply child_inj, (f_equal String.length) in Hy. rewrite !string_length_app in Hy. simpl in Hy. lia. }
    split; [auto|]. left. split; [auto|]. apply Hall. exact (conj Hx (conj Hs Hl)).
  - split; [|right; by eauto]. intros y _ Hy. apply Hother. by intros ?%child_inj.
Qed.

Lemma write_files_cases files randoms : ∀ fs r fs',
  Forall cert_name files.*1 → NoDup files.*1 → Forall no_slash randoms →
  write_files (map (λ p, (Join outDir p.1, p.2)) files) randoms fs = (r, fs') →
  (∀ y, cert_name y → y ∉ files.*1 → nodes fs' !! child d y = nodes fs !! child d y) ∧
  ∀ x text, (x, text) ∈ files →
    (r ≠ None ∧ nodes fs' !! child d x = nodes fs !! child d x) ∨
    ∃ chunks m, text = inr chunks ∧ nodes fs' !! child d x = Some (File (concat chunks) m).
Proof.
  induction files as [|[x text] files IH]; intros fs r fs' Hn Hnd Hrnd H; simpl in H.
  { injection H as <- <-. split; [done|]. by intros ? ? ?%elem_of_nil. }
  apply Forall_cons in Hn as [Hx Hn]. apply NoDup_cons in Hnd as [Hnin Hnd].
  destruct (write_file (Join outDir x) text randoms fs) as [r1 fs1] eqn:E.
  apply write_file_cases in E as [Hother1 Hx1]; [|done..].
  destruct r1 as [e|].
  - injection H as <- <-. split.
    + intros y Hy Hyn. apply Hother1; [done|]. intros ->. apply Hyn. by left.
    + intros x' text' [[= -> ->]|Hin]%elem_of_cons; [destruct Hx1 as [[_ ?]|?]; auto|].
      left. split; [done|]. apply (list_elem_of_fmap_2 fst) in Hin. apply Hother1.
      * by eapply (proj1 (Forall_forall _ _)) in Hn.
      * intros ->. done.
  - destruct (IH _ _ _ Hn Hnd Hrnd H) as [Hother2 Hfiles]. split.
    + intros y Hy Hyn. rewrite Hother2; [|done|]; [apply Hother1; [done|]|].
      * intros ->. apply Hyn. by left.
      * intros Hin. apply Hyn. by right.
    + intros x' text' [[= -> ->]|Hin]%elem_of_cons.
      * destruct Hx1 as [[? _]|(chunks & m & -> & Hm)]; [done|]. right. exists chunks, m.
        split; [done|]. by rewrite Hother2.
      * destruct (Hfiles _ _ Hin) as [[? Hsame]|?]; [|by right]. left. split; [done|]. rewrite Hsame.
        apply (list_elem_of_fmap_2 fst) in Hin. apply Hother1.
        -- by eapply (proj1 (Forall_forall _ _)) in Hn.
        -- intros ->. done.
Qed.
End files.

(** ** Theorems *)

(** The two filters of a decision divide a list. *)
Lemma filter_split_perm (p : string → bool) l :
  filter (λ s, p s = false) l ++ filter (λ s, p s = true) l ≡ₚ l.
Proof.
  induction l as [|s l IH]; [done|]. rewrite !filter_cons. destruct (p s) eqn:E.
  - rewrite decide_False, decide_True by done. by rewrite <-Permutation_middle, IH.
  - rewrite decide_True, decide_False by done. simpl. by rewrite IH.
Qed.

(** The files that are written, with their texts. *)
Definition cert_files {key} (Marshal : key → string + list byte) pem_chunks caDER caKey leafDER leafKey :=
  [(CAFile, cert_text pem_chunks caDER); (CAKeyFile, key_text Marshal pem_chunks caKey);
   (ServerFile, cert_text pem_chunks leafDER); (ServerKeyFile, key_text Marshal pem_chunks leafKey)].

(** The certificates and keys of one generation, stated on the calls: the authority
    certifies the first key with that key, its certificate is parsed, and the leaf
    certifies the second key, for the names, signed with the first. *)
Definition issued {key cert} (is_IP : string → bool) (GenerateKey : nat → string + key)
    (CreateCertificate : template → option cert → key → key → string + list byte)
    (ParseCertificate : list byte → string + cert) (names : list string) (validFor now : Z)
    (caDER : list byte) (caKey : key) (leafDER : list byte) (leafKey : key) : Prop :=
  GenerateKey 0%nat = inr caKey ∧ GenerateKey 1%nat = inr leafKey ∧
  ∃ caCert,
    CreateCertificate (mkTemplate (now - Hour) (now + caValid validFor) true [] []) None caKey caKey = inr caDER ∧
    ParseCertificate caDER = inr caCert ∧
    CreateCertificate
      (mkTemplate (now - Hour) (now + validFor) false
         (filter (λ s, is_IP s = false) names) (filter (λ s, is_IP s = true) names))
      (Some caCert) leafKey caKey = inr leafDER.

Lemma make_certs_issued {key cert} is_IP GenerateKey randomSerial CreateCertificate ParseCertificate
    names validFor now caDER caKey leafDER leafKey :
  @make_certs key cert is_IP GenerateKey randomSerial CreateCertificate ParseCertificate names validFor now =
    inr (caDER, caKey, leafDER, leafKey) →
  issued is_IP GenerateKey CreateCertificate ParseCertificate names validFor now caDER caKey leafDER leafKey.
Proof.
  unfold make_certs. intros H. repeat case_match; simplify_eq.
  split; [done|]. split; [done|]. eexists. by split_and!.
Qed.

(** The entry [x] of the directory holds the PEM text of [der]; of the key [k]. *)
Definition pem_at (pem_chunks : string → list byte → list (list byte)) (outDir : string) (fs : FS)
    (x type : string) (der : list byte) : Prop :=
  holds fs (child (resolve outDir) x) (Some (concat (pem_chunks type der))).
Definition key_at {key} (Marshal : key → string + list byte) pem_chunks outDir fs x (k : key) : Prop :=
  ∃ der, Marshal k = inr der ∧ pem_at pem_chunks outDir fs x "EC PRIVATE KEY" der.

Definition same_entry (outDir : string) (fs fs' : FS) (x : string) : Prop :=
  nodes fs' !! child (resolve outDir) x = nodes fs !! child (resolve outDir) x.

(** Each file is left alone or holds its text; if all went well, they hold theirs. *)
Lemma cert_files_written {key} (Marshal : key → string + list byte) pem_chunks caDER caKey leafDER leafKey
    outDir randoms fs r fs' :
  outDir ≠ ""%string → Forall no_slash randoms →
  write_files (map (λ p, (Join outDir p.1, p.2)) (cert_files Marshal pem_chunks caDER caKey leafDER leafKey))
    randoms fs = (r, fs') →
  let or_same x P := (r ≠ None ∧ same_entry outDir fs fs' x) ∨ P in
  or_same CAFile (pem_at pem_chunks outDir fs' CAFile "CERTIFICATE" caDER) ∧
  or_same CAKeyFile (key_at Marshal pem_chunks outDir fs' CAKeyFile caKey) ∧
  or_same ServerFile (pem_at pem_chunks outDir fs' ServerFile "CERTIFICATE" leafDER) ∧
  or_same ServerKeyFile (key_at Marshal pem_chunks outDir fs' ServerKeyFile leafKey).
Proof.
  intros Hdir Hrnd Ew or_same. set (files := cert_files Marshal pem_chunks caDER caKey leafDER leafKey) in *.
  apply write_files_cases in Ew as [_ Hfiles]; [|exact Hdir|exact cert_names| |exact Hrnd].
  2: { by_computation. }
  assert (∀ x der, (x, cert_text pem_chunks der) ∈ files → or_same x (pem_at pem_chunks outDir fs' x "CERTIFICATE" der)) as Hc.
  { intros x der Hin. destruct (Hfiles _ _ Hin) as [?|(chunks & m & [= <-] & E)]; [by left|right; by exists m]. }
  assert (∀ x k, (x, key_text Marshal pem_chunks k) ∈ files → or_same x (key_at Marshal pem_chunks outDir fs' x k)) as Hk.
  { intros x k Hin. destruct (Hfiles _ _ Hin) as [?|(chunks & m & E1 & E)]; [by left|right].
    unfold key_text in E1. destruct (Marshal k) as [|der] eqn:Ek; [done|]. injection E1 as <-.
    exists der. split; [done|]. by exists m. }
  split_and!; [apply Hc; by left|apply Hk; right; by left|apply Hc; do 2 right; by left|apply Hk; do 3 right; by left].
Qed.

Lemma certs_generated_lemma {key cert} is_IP GenerateKey randomSerial CreateCertificate ParseCertificate
    MarshalECPrivateKey pem_chunks outDir sans validFor now randoms fs r fs' :
  outDir ≠ ""%string → Forall no_slash randoms →
  @GenerateLocal key cert is_IP GenerateKey randomSerial CreateCertificate ParseCertificate
    MarshalECPrivateKey pem_chunks outDir sans validFor now randoms fs = (r, fs') →
  let names := filter (λ s, s ≠ ""%string) (map TrimSpace sans) in
  let or_same x P := same_entry outDir fs fs' x ∨ P in
  (Forall (same_entry outDir fs fs') [CAFile; CAKeyFile; ServerFile; ServerKeyFile] ∨
   ∃ caDER caKey leafDER leafKey,
     issued is_IP GenerateKey CreateCertificate ParseCertificate names validFor now caDER caKey leafDER leafKey ∧
     or_same CAFile (pem_at pem_chunks outDir fs' CAFile "CERTIFICATE" caDER) ∧
     or_same CAKeyFile (key_at MarshalECPrivateKey pem_chunks outDir fs' CAKeyFile caKey) ∧
     or_same ServerFile (pem_at pem_chunks outDir fs' ServerFile "CERTIFICATE" leafDER) ∧
     or_same ServerKeyFile (key_at MarshalECPrivateKey pem_chunks outDir fs' ServerKeyFile leafKey)) ∧
  ∀ paths, r = inr paths →
    paths = PathsIn outDir ∧ 0 < validFor ∧ names ≠ [] ∧
    ∃ caDER caKey leafDER leafKey,
      issued is_IP GenerateKey CreateCertificate ParseCertificate names validFor now caDER caKey leafDER leafKey ∧
      pem_at pem_chunks outDir fs' CAFile "CERTIFICATE" caDER ∧
      key_at MarshalECPrivateKey pem_chunks outDir fs' CAKeyFile caKey ∧
      pem_at pem_chunks outDir fs' ServerFile "CERTIFICATE" leafDER ∧
      key_at MarshalECPrivateKey pem_chunks outDir fs' ServerKeyFile leafKey.
Proof.
  intros Hdir Hrnd H names or_same. unfold GenerateLocal in H.
  match goal with |- ?G =>
    assert (∀ (e : gen_error) fs0, (inl e, fs0) = (r, fs') →
      (∀ x, same_entry outDir fs fs0 x) → G) as Hsame end.
  { intros e fs0 [= <- <-] Hn. split; [left|by intros]. apply Forall_forall. intros x _. apply Hn. }
  destruct (Z.leb_spec validFor 0); [by eapply Hsame|].
  unfold normalizeSANs in H. rewrite trim_nonempty_spec in H. fold names in H.
  destruct names as [|n0 names'] eqn:En; [by eapply Hsame|]. rewrite <-En in *.
  destruct (MkdirAll outDir fs) as [u0 fs1] eqn:Em.
  assert (∀ x, same_entry outDir fs fs1 x) as Hn1.
  { intros x. eapply MkdirAll_on_path; [exact Em|]. intros k. apply child_not_on_path. }
  destruct u0 as [e|u]; [by eapply Hsame|].
  destruct (make_certs _ _ _ _ _ names validFor now) as [e|[[[caDER caKey] leafDER] leafKey]] eqn:Ec;
    [by eapply Hsame|]. cbv zeta in H. apply make_certs_issued in Ec.
  destruct (write_files _ randoms fs1) as [r2 fs2] eqn:Ew.
  assert (fs2 = fs' ∧ (∀ p, r = inr p → r2 = None ∧ p = PathsIn outDir)) as [-> Hr].
  { destruct r2; injection H as <- <-; (split; [done|]); [by intros|by intros p [= <-]]. }
  change (write_files (map (λ p, (Join outDir p.1, p.2))
    (cert_files MarshalECPrivateKey pem_chunks caDER caKey leafDER leafKey)) randoms fs1 = (r2, fs')) in Ew.
  apply cert_files_written in Ew as (H1 & H2 & H3 & H4); [|done..].
  unfold same_entry in *. split.
  - right. exists caDER, caKey, leafDER, leafKey. split; [done|]. unfold or_same, same_entry.
    split_and!; rewrite <-Hn1; tauto.
  - intros paths [-> ->]%Hr. split; [done|]. split; [done|]. split; [by rewrite En|].
    exists caDER, caKey, leafDER, leafKey. split; [done|]. by intuition.
Qed.

(** C35: generated certificates are complete or untouched, and are the right ones. When
    GenerateLocal succeeds, the validity is positive, the names are the trimmed
    non-empty ones asked for, of which there is one, and the four files hold the PEM
    texts of the authority, certified with its own key; of that key; of the leaf, for
    the DNS names and the IP addresses among the names, which certifies the second key
    and is signed with the authority's; and of the second key. Whatever call fails, all
    four files are as they were, or each of them is as it was or holds the whole new
    text of its own: none is ever cut short, or mixed up with another. *)
Theorem certs_generated {key cert} is_IP GenerateKey randomSerial CreateCertificate ParseCertificate
    MarshalECPrivateKey pem_chunks outDir sans validFor now randoms fs r fs' :
  outDir ≠ ""%string → Forall no_slash randoms →
  @GenerateLocal key cert is_IP GenerateKey randomSerial CreateCertificate ParseCertificate
    MarshalECPrivateKey pem_chunks outDir sans validFor now randoms fs = (r, fs') →
  let names := filter (λ s, s ≠ ""%string) (map TrimSpace sans) in
  let or_same x P := same_entry outDir fs fs' x ∨ P in
  (Forall (same_entry outDir fs fs') [CAFile; CAKeyFile; ServerFile; ServerKeyFile] ∨
   ∃ caDER caKey leafDER leafKey,
     issued is_IP GenerateKey CreateCertificate ParseCertificate names validFor now caDER caKey leafDER leafKey ∧
     or_same CAFile (pem_at pem_chunks outDir fs' CAFile "CERTIFICATE" caDER) ∧
     or_same CAKeyFile (key_at MarshalECPrivateKey pem_chunks outDir fs' CAKeyFile caKey) ∧
     or_same ServerFile (pem_at pem_chunks outDir fs' ServerFile "CERTIFICATE" leafDER) ∧
     or_same ServerKeyFile (key_at MarshalECPrivateKey pem_chunks outDir fs' ServerKeyFile leafKey)) ∧
  ∀ paths, r = inr paths →
    paths = PathsIn outDir ∧ 0 < validFor ∧ names ≠ [] ∧
    ∃ caDER caKey leafDER leafKey,
      issued is_IP GenerateKey CreateCertificate ParseCertificate names validFor now caDER caKey leafDER leafKey ∧
      pem_at pem_chunks outDir fs' CAFile "CERTIFICATE" caDER ∧
      key_at MarshalECPrivateKey pem_chunks outDir fs' CAKeyFile caKey ∧
      pem_at pem_chunks outDir fs' ServerFile "CERTIFICATE" leafDER ∧
      key_at MarshalECPrivateKey pem_chunks outDir fs' ServerKeyFile leafKey.
Proof. apply certs_generated_lemma. Qed.

(** C36: the validity of the authority overflows. Up to about 29 years it is ten times
    the validity asked for, at most ten years; but between 29 and 58 years the
    product wraps around to a negative duration, and the authority has expired
    before it is made. *)
Theorem ca_validity_overflows now validFor :
  0 < validFor →
  (validFor ≤ max_int64 / 10 →
     NotAfter (ca_template now validFor) = now + Z.min (10 * validFor) (10 * 365 * 24 * Hour)) ∧
  (max_int64 / 10 < validFor < 2 ^ 64 / 10 → NotAfter (ca_template now validFor) < now).
Proof.
  intros Hv. unfold ca_template, caValid. cbn [NotAfter]. unfold Hour, max_int64 in *.
  change ((2 ^ 63 - 1) / 10) with 922337203685477580. change (2 ^ 64 / 10) with 1844674407370955161.
  split; intros Hr.
  - rewrite wrap64_small by (unfold min_int64, max_int64; lia).
    destruct (Z.ltb_spec (10 * 365 * 24 * (3600 * 10 ^ 9)) (10 * validFor)); lia.
  - assert (wrap64 (10 * validFor) = 10 * validFor - 2 ^ 64) as ->.
    { unfold wrap64. replace (10 * validFor + 2 ^ 63) with (10 * validFor - 2 ^ 63 + 1 * 2 ^ 64) by lia.
      rewrite Z.mod_add, Z.mod_small by lia. lia. }
    destruct (Z.ltb_spec (10 * 365 * 24 * (3600 * 10 ^ 9)) (10 * validFor - 2 ^ 64)); lia.
Qed.

(** ** Instances *)

(** Keys are numbers, texts have two pieces, and the last name is an address. *)
Definition demo_fs (fl : list (option fault)) : FS :=
  mkFS {[(false, ["certs"; "ca.key"]%string) := File (bytes_of_string "old") 1]} 9 fl.
Definition demo_chunks (type : string) (der : list byte) : list (list byte) := [bytes_of_string type; der].
Definition demo_generate (validFor : Z) (fl : list (option fault)) : (gen_error + Paths) * FS :=
  GenerateLocal (λ s, String.eqb s "127.0.0.1") (λ i, inr (Z.of_nat i)) (λ _, inr 7)
    (λ t _ pub _, inr [if IsCA t then x01 else x02; if pub =? 0 then x03 else x04]) (λ _, inr tt)
    (λ k, inr [if k =? 0 then x05 else x06]) demo_chunks
    "certs" [" localhost "; ""; "127.0.0.1"]%string validFor 0 ["1"%string; "2"%string] (demo_fs fl).

Lemma demo_no_slash : Forall no_slash ["1"%string; "2"%string].
Proof.
  repeat (apply Forall_cons; split); [..|by apply Forall_nil]; intros Hin;
    by repeat (apply elem_of_cons in Hin as [?|Hin]; [done|]); apply elem_of_nil in Hin.
Qed.

Lemma certs_generated_witness :
  pem_at demo_chunks "certs" (demo_generate 5 []).2 ServerFile "CERTIFICATE" [x02; x04] ∧
  pem_at demo_chunks "certs" (demo_generate 5 []).2 ServerKeyFile "EC PRIVATE KEY" [x06] ∧
  ∀ fl, same_entry "certs" (demo_fs fl) (demo_generate 5 fl).2 CAKeyFile ∨
    pem_at demo_chunks "certs" (demo_generate 5 fl).2 CAKeyFile "EC PRIVATE KEY" [x05].
Proof.
  assert ("certs" ≠ ""%string) as Hdir by discriminate.
  pose proof (λ fl, certs_generated _ _ _ _ _ _ _ _ _ _ _ _ _ (demo_generate 5 fl).1 (demo_generate 5 fl).2
    Hdir demo_no_slash (surjective_pairing (demo_generate 5 fl))) as Hall. split; [|split].
  - destruct (Hall []) as [_ Hok].
    destruct (Hok (PathsIn "certs")) as (_ & _ & _ & caDER & caKey & leafDER & leafKey & (_ & Hk & caCert & _ & _ & Hl) & _ & _ & Hf & _);
      [vm_compute; reflexivity|].
    injection Hk as <-. vm_compute in Hl. injection Hl as <-. exact Hf.
  - destruct (Hall []) as [_ Hok].
    destruct (Hok (PathsIn "certs")) as (_ & _ & _ & caDER & caKey & leafDER & leafKey & (_ & Hk & _) & _ & _ & _ & kd & Hm & Hf);
      [vm_compute; reflexivity|].
    injection Hk as <-. vm_compute in Hm. injection Hm as <-. exact Hf.
  - intros fl. destruct (Hall fl) as [[Hs|(caDER & caKey & leafDER & leafKey & (Hk & _) & _ & Hf & _)] _].
    + left. rewrite !Forall_cons in Hs. apply Hs.
    + destruct Hf as [Hf|(kd & Hm & Hf)]; [by left|right]. injection Hk as <-. vm_compute in Hm. injection Hm as <-. exact Hf.
Defined.

Lemma ca_validity_overflows_witness :
  NotAfter (ca_template 0 (365 * 24 * Hour)) = 10 * 365 * 24 * Hour ∧
  NotAfter (ca_template 0 (30 * 365 * 24 * Hour)) < 0.
Proof.
  split.
  - assert (0 < 365 * 24 * Hour) as H by (vm_compute; reflexivity).
    rewrite (proj1 (ca_validity_overflows 0 (365 * 24 * Hour) H)); vm_compute; [reflexivity|discriminate].
  - apply (ca_validity_overflows 0 (30 * 365 * 24 * Hour)); [vm_compute; reflexivity|].
    vm_compute. split; reflexivity.
Defined.
