(* ===== verification/Config.v ===== *)
(** * Config: defaults, YAML file, flags ([internal/config/config.go])

    The binaries start from their defaults, overlay a YAML file, and overlay the
    flags that were set explicitly. What a configuration is to this scheme is the
    class [Configuration]: its settings by field, the assignment of one field, and
    the cases of the overlay, from flag names to fields. Parsing flags and YAML is
    the work of package [flag] and of a YAML library: the parsed values and the
    decoder are parameters. *)

From S2P Require Import Prelude.

Inductive setting := Str (s : string) | Num (z : Z) | Bool (b : bool).
#[global] Instance setting_eq_dec : EqDecision setting.
Proof. solve_decision. Defined.

(** [pick field] takes the settings of [field] from the first list, the others from
    the second. *)
Definition pick (pred : string → bool) (a b : string * setting) : string * setting :=
  if pred b.1 then a else b.

Class Configuration (cfg : Type) := {
  settings : cfg → list (string * setting);
  (** [cfg.X = *x] for the field X *)
  assign : string → cfg → cfg → cfg;
  cases : list (string * string);
  settings_fields c c' : (settings c).*1 = (settings c').*1;
  settings_inj c c' : settings c = settings c' → c = c';
  settings_assign f p c :
    settings (assign f p c) = zip_with (pick (String.eqb f)) (settings p) (settings c);
  cases_fields c : cases.*2 ≡ₚ (settings c).*1;
  cases_NoDup : NoDup cases.*1 ∧ NoDup cases.*2;
}.

Section config.
Context `{Configuration cfg}.

(** The error of reading the file, and of decoding it; the decoder fills in what the
    file has and rejects unknown fields. *)
Context (ReadFile : string → string + list byte) (Decode : list byte → cfg → string + cfg).

Definition LoadFile (path : string) (target : cfg) : string + cfg :=
  if String.eqb path "" then inr target
  else
    match ReadFile path with
    | inl e => inl ("config: read " +:+ path +:+ ": " +:+ e)%string
    | inr d =>
        match Decode d target with
        | inl e => inl ("config: parse " +:+ path +:+ ": " +:+ e)%string
        | inr c => inr c
        end
    end.

(** The field that a flag sets, if the overlay has a case for it. *)
Definition case_of (flag : string) : option string :=
  (λ x : nat * (string * string), x.2.2) <$> list_find (λ x : string * string, x.1 = flag) cases.

(** [fs.Visit] over the flags that were set, whose values are in [parsed]. *)
Definition overlay (parsed : cfg) (visited : list string) (c : cfg) : cfg :=
  foldl (λ c flag, match case_of flag with Some f => assign f parsed c | None => c end) c visited.

Definition load_config (defaults : cfg) (path : string) (parsed : cfg) (visited : list string)
    : string + cfg :=
  match LoadFile path defaults with
  | inl e => inl e
  | inr c => inr (overlay parsed visited c)
  end.
End config.

(** The laws of a configuration given by a record. *)
Ltac solve_assign f :=
  cbn -[String.eqb]; unfold pick; cbn -[String.eqb];
  repeat match goal with |- _ :: _ = _ :: _ => apply (f_equal2 cons) end;
  [try (rewrite (String.eqb_sym f); by destruct (String.eqb _ f))..|]; try done.
