(* ===== verification/Flags.v ===== *)
(** * Flags: the command lines of the binaries

    Package [flag] as the binaries use it: a set of flags with their defaults, and
    [Parse] of a command line, which stops at the first argument that is no flag.
    [CommandLine] is the class of the configurations that are made of a command line;
    [load_args] is what every [run] begins with. The reading of durations, which
    computes with floating-point numbers, is a parameter. *)

From S2P Require Import Prelude Text Config.

(** ** Numbers *)

Definition digit_of (b : byte) : option Z :=
  let z := byte_Z b in
  if is_digit b then Some (z - 48)
  else if (97 <=? z) && (z <=? 122) then Some (z - 87)
  else if (65 <=? z) && (z <=? 90) then Some (z - 55)
  else None.
Definition lower_byte (b : byte) : Z := Z.lor (byte_Z b) 32.

(** [strconv.underscoreOK], after its sign and its prefix: underscores stand between
    digits only. [seen] is the class of the byte before: a digit, an underscore, or
    something else. *)
Inductive seen := SeenStart | SeenDigit | SeenUnderscore | SeenOther.
Fixpoint underscores_between (hex : bool) (i : seen) (l : list byte) : bool :=
  match l with
  | [] => match i with SeenUnderscore => false | _ => true end
  | b :: l =>
      if is_digit b || (hex && (97 <=? lower_byte b) && (lower_byte b <=? 102)) then underscores_between hex SeenDigit l
      else if bool_decide (b = x5f) then match i with SeenDigit => underscores_between hex SeenUnderscore l | _ => false end
      else match i with SeenUnderscore => false | _ => underscores_between hex SeenOther l end
  end.

(** The base that a prefix stands for, and what follows it. *)
Definition base_prefix (l : list byte) : Z * list byte :=
  match l with
  | z :: p :: d :: l' =>
      if bool_decide (z = x30) then
        if lower_byte p =? 98 then (2, d :: l')
        else if lower_byte p =? 111 then (8, d :: l')
        else if lower_byte p =? 120 then (16, d :: l')
        else (8, p :: d :: l')
      else (10, l)
  | z :: l' => if bool_decide (z = x30) then (8, l') else (10, l)
  | [] => (10, [])
  end.
Definition underscoreOK (l : list byte) : bool :=
  match l with
  | z :: p :: l' =>
      if bool_decide (z = x30) && ((lower_byte p =? 98) || (lower_byte p =? 111) || (lower_byte p =? 120))
      then underscores_between (lower_byte p =? 120) SeenDigit l'
      else underscores_between false SeenStart l
  | _ => underscores_between false SeenStart l
  end.

(** The number without sign in base [base]; underscores are passed over. *)
Fixpoint digits_in (base : Z) (n : Z) (l : list byte) : option Z :=
  match l with
  | [] => Some n
  | b :: l =>
      if bool_decide (b = x5f) then digits_in base n l
      else match digit_of b with
           | Some d => if d <? base then digits_in base (n * base + d) l else None
           | None => None
           end
  end.

(** [strconv.ParseInt(s, 0, 64)]; an error is [None]. *)
Definition ParseInt0 (s : string) : option Z :=
  let '(neg, l) :=
    match bytes_of_string s with
    | b :: l => if bool_decide (b = x2d) then (true, l) else if bool_decide (b = x2b) then (false, l) else (false, b :: l)
    | [] => (false, [])
    end in
  match l with
  | [] => None
  | _ =>
      let '(base, ds) := base_prefix l in
      match digits_in base 0 ds with
      | None => None
      | Some n =>
          if bool_decide (x5f ∈ ds) && negb (underscoreOK l) then None
          else if neg then (if 2 ^ 63 <? n then None else Some (- n))
          else if 2 ^ 63 <=? n then None else Some n
      end
  end.

(** [strconv.ParseBool] *)
Definition ParseBool (s : string) : option bool :=
  if bool_decide (s ∈ ["1"; "t"; "T"; "true"; "TRUE"; "True"]%string) then Some true
  else if bool_decide (s ∈ ["0"; "f"; "F"; "false"; "FALSE"; "False"]%string) then Some false
  else None.

(** ** Sets of flags *)

(** The methods of a [FlagSet] that define a flag. [Int] and [Int64] take the same
    numbers. *)
Inductive flag_kind := FString | FInt | FInt64 | FDuration | FBool.
Record flag := mkFlag { flag_name : string; kind : flag_kind; default_value : setting }.

(** The variables of the flags. *)
Abbreviation values := (gmap string setting).
Definition str (vs : values) (name : string) : string := match vs !! name with Some (Str s) => s | _ => "" end.
Definition num (vs : values) (name : string) : Z := match vs !! name with Some (Num z) => z | _ => 0 end.
Definition truth (vs : values) (name : string) : bool := match vs !! name with Some (Bool b) => b | _ => false end.

Inductive flag_error :=
| ErrBadSyntax (arg : string)
| ErrHelp
| ErrUndefined (name : string)
| ErrNeedsArgument (name : string)
| ErrInvalidValue (value name : string).

(** What an argument is. *)
Inductive argument := NoFlag | Terminator | BadSyntax | FlagArg (name : string) (value : option string).
Fixpoint cut_equals (l : list byte) : list byte * option (list byte) :=
  match l with
  | [] => ([], None)
  | b :: l => if bool_decide (b = x3d) then ([], Some l) else let '(x, y) := cut_equals l in (b :: x, y)
  end.
Definition argument_of (s : string) : argument :=
  match bytes_of_string s with
  | a :: b :: l =>
      if negb (bool_decide (a = x2d)) then NoFlag
      else
        let name := if bool_decide (b = x2d) then l else b :: l in
        if bool_decide (b = x2d) && bool_decide (l = []) then Terminator
        else
          match name with
          | [] => BadSyntax
          | c :: rest =>
              if bool_decide (c = x2d) || bool_decide (c = x3d) then BadSyntax
              else let '(n, v) := cut_equals rest in FlagArg (string_of_bytes (c :: n)) (string_of_bytes <$> v)
          end
  | _ => NoFlag
  end.

Definition find_flag (flags : list flag) (name : string) : option flag :=
  List.find (λ f, String.eqb (flag_name f) name) flags.

Section flags.
(** [time.ParseDuration] *)
Context (ParseDuration : string → option Z).

Definition Set_value (k : flag_kind) (s : string) : option setting :=
  match k with
  | FString => Some (Str s)
  | FInt | FInt64 => Num <$> ParseInt0 s
  | FDuration => Num <$> ParseDuration s
  | FBool => Bool <$> ParseBool s
  end.

(** The values and the names of the flags that were set, in the order of the line. *)
Fixpoint parse_args (flags : list flag) (args : list string) (vs : values) (visited : list string)
    : flag_error + (values * list string) :=
  match args with
  | [] => inr (vs, visited)
  | s :: args =>
      match argument_of s with
      | NoFlag | Terminator => inr (vs, visited)
      | BadSyntax => inl (ErrBadSyntax s)
      | FlagArg name value =>
          match find_flag flags name with
          | None => inl (if String.eqb name "help" || String.eqb name "h" then ErrHelp else ErrUndefined name)
          | Some f =>
              match kind f with
              | FBool =>
                  match Set_value FBool (default "true"%string value) with
                  | None => inl (ErrInvalidValue (default "true"%string value) name)
                  | Some v => parse_args flags args (<[name := v]> vs) (visited ++ [name])
                  end
              | k =>
                  match value, args with
                  | Some x, _ =>
                      match Set_value k x with
                      | None => inl (ErrInvalidValue x name)
                      | Some v => parse_args flags args (<[name := v]> vs) (visited ++ [name])
                      end
                  | None, x :: args =>
                      match Set_value k x with
                      | None => inl (ErrInvalidValue x name)
                      | Some v => parse_args flags args (<[name := v]> vs) (visited ++ [name])
                      end
                  | None, [] => inl (ErrNeedsArgument name)
                  end
              end
          end
      end
  end.

Definition default_values (flags : list flag) : values :=
  list_to_map (map (λ f, (flag_name f, default_value f)) flags).
Definition Parse (flags : list flag) (args : list string) : flag_error + (values * list string) :=
  parse_args flags args (default_values flags) [].

(** ** Configurations made of command lines *)

Definition typed (k : flag_kind) (v : setting) : bool :=
  match k, v with
  | FString, Str _ | FInt, Num _ | FInt64, Num _ | FDuration, Num _ | FBool, Bool _ => true
  | _, _ => false
  end.


(** The flags that [run] defines from the defaults, and the configuration whose fields
    are the variables of the flags. Every case of the overlay has a flag of its own
    kind, whose default is the field it sets and whose variable is what it is set to. *)
Class CommandLine (cfg : Type) `{Configuration cfg} := {
  command_flags : cfg → list flag;
  of_values : values → cfg;
  flags_NoDup def : NoDup (map flag_name (command_flags def));
  flags_typed def : Forall (λ f, typed (kind f) (default_value f)) (command_flags def);
  case_flag def name field : (name, field) ∈ cases →
    ∃ f, find_flag (command_flags def) name = Some f ∧ (field, default_value f) ∈ settings def ∧
      ∀ vs v, vs !! name = Some v → typed (kind f) v → (field, v) ∈ settings (of_values vs);
}.

Inductive args_error := ErrFlags (e : flag_error) | ErrConfig (e : string).

(** How every [run] begins. *)
Definition load_args `{CommandLine cfg} (ReadFile : string → string + list byte) (Decode : list byte → cfg → string + cfg)
    (def : cfg) (args : list string) : args_error + (cfg * values) :=
  match Parse (command_flags def) args with
  | inl e => inl (ErrFlags e)
  | inr (vs, visited) =>
      match load_config ReadFile Decode def (str vs "config") (of_values vs) visited with
      | inl e => inl (ErrConfig e)
      | inr c => inr (c, vs)
      end
  end.
End flags.

(** The laws of a command line given by its flags. *)
Ltac solve_cases :=
  repeat match goal with
  | H : (_, _) ∈ _ :: _ |- _ => apply elem_of_cons in H as [[= -> ->]|H]
  | H : (_, _) ∈ [] |- _ => by apply elem_of_nil in H
  end.
Ltac solve_elem := repeat first [by apply list_elem_of_here | apply list_elem_of_further].
