(* ===== verification/FlagsTheorems.v ===== *)
(** * FlagsTheorems: what a command line means *)

From S2P Require Import Prelude Text Wire Roles RolesTheorems Config Flags.

(** ** Numbers *)

(** A numeral without sign does not begin with a zero, unless it is zero. *)
Lemma pretty_N_go_head x s : (0 < x)%N → head (bytes_of_string (pretty_N_go x s)) ≠ Some x30.
Proof.
  revert s. induction (N.lt_wf_0 x) as [x _ IH]; intros s Hx. rewrite pretty_N_go_step by lia.
  destruct (decide (x `div` 10 = 0)%N) as [Hd|Hd].
  - rewrite Hd, pretty_N_go_0. assert (x < 10)%N as Hlt by (by apply N.div_small_iff).
    rewrite N.mod_small by done. clear IH Hd. destruct x as [|p]; [lia|].
    do 4 (destruct p as [p|p|]; [..|done]); lia.
  - apply IH; [apply N.div_lt; [done|lia]|by apply N.neq_0_lt_0].
Qed.

Lemma digits_in_value n l : Forall is_digit l → digits_in 10 n l = Some (foldl (λ n b, 10 * n + (byte_Z b - 48)) n l).
Proof.
  revert n. induction l as [|b l IH]; intros n; [done|]. intros [Hb Hl]%Forall_cons. cbn [digits_in].
  assert (bool_decide (b = x5f) = false) as ->.
  { apply bool_decide_eq_false. intros ->. done. }
  unfold digit_of. apply Is_true_true in Hb. rewrite Hb. unfold is_digit in Hb. apply andb_true_iff in Hb as [H1 H2].
  destruct (Z.ltb_spec (byte_Z b - 48) 10); [|lia]. rewrite IH by done. cbn [foldl]. do 2 f_equal. lia.
Qed.

(** The part of [ParseInt0] after the sign. *)
Lemma parse_digits l n : Forall is_digit l → digits_value l = n → l = [x30] ∨ (l ≠ [] ∧ head l ≠ Some x30) →
  l ≠ [] ∧ ∃ base ds, base_prefix l = (base, ds) ∧ digits_in base 0 ds = Some n ∧ x5f ∉ ds.
Proof.
  intros Hl Hn Hh. destruct Hh as [->|[Hne Hh]].
  - split; [done|]. exists 8, []. split_and!; [done|by subst|by apply not_elem_of_nil].
  - split; [done|]. exists 10, l. split_and!.
    + destruct l as [|z [|p [|d l]]]; [done|..]; cbn [base_prefix]; by rewrite bool_decide_false by (intros ->; done).
    + rewrite digits_in_value by done. by subst.
    + by apply digits_not_in.
Qed.

Lemma ParseInt0_digits z : 0 ≤ z → let l := bytes_of_string (pretty z) in
  Forall is_digit l ∧ l ≠ [] ∧ ∃ base ds, base_prefix l = (base, ds) ∧ digits_in base 0 ds = Some z ∧ x5f ∉ ds.
Proof.
  intros Hz l. destruct (pretty_Z_digits z Hz) as [Hl Hlen]. split; [done|].
  apply parse_digits; [done|by apply pretty_Z_value|]. destruct z as [|p|]; [by left| |lia]. right. split.
  - intros E. fold l in Hlen. subst l. destruct (pretty (Z.pos p)); [simpl in Hlen; lia|done].
  - subst l. change (pretty (Zpos p)) with (pretty (N.pos p)). unfold pretty, pretty_N.
    destruct (decide _) as [E|_]; [done|]. by apply pretty_N_go_head.
Qed.

Lemma ParseInt0_pretty z : min_int64 ≤ z ≤ max_int64 → ParseInt0 (pretty z) = Some z.
Proof.
  unfold min_int64, max_int64. intros Hz. unfold ParseInt0. destruct (decide (0 ≤ z)) as [Hp|Hp].
  - destruct (ParseInt0_digits z Hp) as (Hl & Hne & base & ds & Hb & Hd & Hu).
    destruct (bytes_of_string (pretty z)) as [|b l]; [done|]. apply Forall_cons in Hl as [Hl _].
    rewrite !bool_decide_false by (intros ->; done). rewrite Hb, Hd, bool_decide_false by done. cbn [andb].
    destruct (Z.leb_spec (2 ^ 63) z); [lia|done].
  - destruct (ParseInt0_digits (- z) ltac:(lia)) as (Hl & Hne & base & ds & Hb & Hd & Hu).
    assert (bytes_of_string (pretty z) = x2d :: bytes_of_string (pretty (- z))) as ->.
    { destruct z; [lia..|]. done. }
    rewrite bool_decide_true by done. destruct (bytes_of_string (pretty (- z))) as [|b l] eqn:E; [done|].
    rewrite Hb, Hd, bool_decide_false by done. cbn [andb].
    destruct (Z.ltb_spec (2 ^ 63) (- z)); [lia|]. f_equal. lia.
Qed.

(** ** Command lines *)

Section flags.
Context (ParseDuration : string → option Z).

Lemma Set_value_typed k s v : Set_value ParseDuration k s = Some v → typed k v.
Proof.
  destruct k; simpl; [by intros [= <-]|..]; intros Hv; apply fmap_Some in Hv as (x & _ & ->); exact I.
Qed.

Lemma find_flag_some flags name f : find_flag flags name = Some f → f ∈ flags ∧ flag_name f = name.
Proof. intros [H1 H2]%List.find_some. split; [by apply list_elem_of_In|by apply String.eqb_eq]. Qed.

(** Every flag has a value of its kind. *)
Definition well_typed (flags : list flag) (vs : values) : Prop :=
  ∀ f, f ∈ flags → ∃ v, vs !! flag_name f = Some v ∧ typed (kind f) v.

Lemma well_typed_insert flags name f v vs : NoDup (map flag_name flags) →
  find_flag flags name = Some f → typed (kind f) v → well_typed flags vs → well_typed flags (<[name := v]> vs).
Proof.
  intros Hnd [Hf Hn]%find_flag_some Hv Hvs g Hg. destruct (decide (name = flag_name g)) as [->|Hne].
  - rewrite lookup_insert_eq. exists v. split; [done|]. assert (g = f) as ->; [|done].
    apply list_elem_of_lookup in Hf as [i Hi], Hg as [j Hj].
    assert (i = j) as ->; [|by simplify_eq]. apply (NoDup_lookup _ i j (flag_name g) Hnd); rewrite list_lookup_fmap, ?Hi, ?Hj; simpl; congruence.
  - rewrite lookup_insert_ne by done. by apply Hvs.
Qed.

(** What one flag does. *)
Lemma parse_args_spec flags args vs visited vs' visited' :
  NoDup (map flag_name flags) → well_typed flags vs →
  parse_args ParseDuration flags args vs visited = inr (vs', visited') →
  well_typed flags vs' ∧ ∃ new, visited' = visited ++ new ∧ ∀ name, name ∉ new → vs' !! name = vs !! name.
Proof.
  intros Hnd. revert vs visited. induction args as [args IH] using (induction_ltof1 _ (length (A:=string))).
  unfold ltof in IH. intros vs visited Hvs. destruct args as [|s args]; cbn [parse_args].
  { intros [= <- <-]. split; [done|]. exists []. by rewrite app_nil_r. }
  assert (∀ f name v rest, (length rest < S (length args))%nat → find_flag flags name = Some f → typed (kind f) v →
    parse_args ParseDuration flags rest (<[name := v]> vs) (visited ++ [name]) = inr (vs', visited') →
    well_typed flags vs' ∧ ∃ new, visited' = visited ++ new ∧ ∀ name, name ∉ new → vs' !! name = vs !! name) as Hset.
  { intros f name v rest Hlen Hf Hv Hp. apply IH in Hp as [Ht (new & -> & Hnew)]; [|done|by eapply well_typed_insert].
    split; [done|]. exists (name :: new). rewrite <- app_assoc. split; [done|].
    intros x [Hx Hxn]%not_elem_of_cons. rewrite Hnew by done. by rewrite lookup_insert_ne. }
  destruct (argument_of s) as [| | |name value]; try done.
  1, 2: intros [= <- <-]; split; [done|]; exists []; by rewrite app_nil_r.
  destruct (find_flag flags name) as [f|] eqn:Hf; [|done].
  destruct (kind f) eqn:Hk.
  5: { destruct (Set_value _ FBool _) eqn:Hv; [|done]. apply Hset with f; [simpl; lia|done|].
       rewrite Hk. by eapply Set_value_typed. }
  all: destruct value as [x|]; [|destruct args as [|x args]; [done|]];
    (destruct (Set_value _ _ x) eqn:Hv; [|done]; apply Hset with f; [simpl; lia|done|];
     rewrite Hk; by eapply Set_value_typed).
Qed.

Lemma default_typed flags : NoDup (map flag_name flags) → Forall (λ f, typed (kind f) (default_value f)) flags →
  well_typed flags (default_values flags).
Proof.
  intros Hnd Ht f Hf. exists (default_value f). rewrite Forall_forall in Ht. split; [|by apply Ht].
  apply elem_of_list_to_map_1; [by rewrite <- list_fmap_compose|].
  apply list_elem_of_fmap. by exists f.
Qed.

(** A flag and its value in two arguments. *)
Lemma parse_pair flags s x args vs visited name f v :
  argument_of s = FlagArg name None → find_flag flags name = Some f → kind f ≠ FBool →
  Set_value ParseDuration (kind f) x = Some v →
  parse_args ParseDuration flags (s :: x :: args) vs visited =
  parse_args ParseDuration flags args (<[name := v]> vs) (visited ++ [name]).
Proof. intros Hs Hf Hk Hv. cbn [parse_args]. rewrite Hs, Hf. destruct (kind f); first [done|by rewrite Hv]. Qed.

(** A line of flags with their values, by name, text and value. *)
Definition pair_ok (flags : list flag) (x : string * string * setting) : Prop :=
  ∃ f, argument_of ("--" +:+ x.1.1) = FlagArg x.1.1 None ∧ find_flag flags x.1.1 = Some f ∧ kind f ≠ FBool ∧
    Set_value ParseDuration (kind f) x.1.2 = Some x.2.
Definition pair_args (l : list (string * string * setting)) : list string :=
  concat (map (λ x, [("--" +:+ x.1.1)%string; x.1.2]) l).
Definition set_pairs (vs : values) (l : list (string * string * setting)) : values :=
  foldl (λ vs x, <[x.1.1 := x.2]> vs) vs l.

Lemma parse_pairs flags l vs visited : Forall (pair_ok flags) l →
  parse_args ParseDuration flags (pair_args l) vs visited = inr (set_pairs vs l, visited ++ map (λ x, x.1.1) l).
Proof.
  intros Hl. revert vs visited. induction Hl as [|x l (f & Ha & Hf & Hk & Hv) _ IH]; intros vs visited.
  - simpl. by rewrite app_nil_r.
  - change (pair_args (x :: l)) with (("--" +:+ x.1.1)%string :: x.1.2 :: pair_args l).
    erewrite parse_pair by done. rewrite IH. simpl. by rewrite <- app_assoc.
Qed.

End flags.

(** ** Variables of flags *)

Lemma str_insert_eq vs name s : str (<[name := Str s]> vs) name = s.
Proof. unfold str. by rewrite lookup_insert_eq. Qed.
Lemma str_insert_ne vs name name' v : name ≠ name' → str (<[name := v]> vs) name' = str vs name'.
Proof. intros Hne. unfold str. by rewrite lookup_insert_ne. Qed.
Lemma num_insert_eq vs name z : num (<[name := Num z]> vs) name = z.
Proof. unfold num. by rewrite lookup_insert_eq. Qed.
Lemma num_insert_ne vs name name' v : name ≠ name' → num (<[name := v]> vs) name' = num vs name'.
Proof. intros Hne. unfold num. by rewrite lookup_insert_ne. Qed.

(** Looks up the variables of flags that were set one after the other. *)
Ltac look_up :=
  repeat first [rewrite str_insert_eq | rewrite num_insert_eq
               | rewrite str_insert_ne by discriminate | rewrite num_insert_ne by discriminate].
