(* ===== verification/ClientCmd.v ===== *)
(** * ClientCmd: the command [cmd/client/main.go] *)

From S2P Require Import Prelude Text Logging Roles Config Flags.

Record clientConfig := mk {
  ServerURL : string;
  CAFile : string;
  ClientID : string;
  Role : string;
  PollInterval : Z;
  UploadInterval : Z;
  UploadSize : Z;
  TelemetryInterval : Z;
  CommandInterval : Z;
  PubSubPayloadSize : Z;
  TelemetryTopic : string;
  CommandTopic : string;
  SubscribeTopics : string;
  MetricsAddr : string;
  LogLevel : string;
  LogFile : string;
  LogMaxBytes : Z;
  LogMaxFiles : Z;
}.

Definition defaults : clientConfig :=
  mk "https://localhost:4444" "var/certs/ca.pem" "client-local" "poller" (5 * 10 ^ 9) (30 * 10 ^ 9)
  (2 ^ 20) (2 * 10 ^ 9) (7 * 10 ^ 9) 256 "" "" "" "" "info" "" DefaultFileMaxBytes
  DefaultFileMaxFiles.

(** [cfg.X = *x] for the field X; the fields; and the cases of the overlay. *)
Definition assign_field (field : string) (p c : clientConfig) : clientConfig :=
  let f {A} (x : string) (get : clientConfig → A) : A := if String.eqb x field then get p else get c in
  mk (f "ServerURL" ServerURL) (f "CAFile" CAFile) (f "ClientID" ClientID) (f "Role" Role)
  (f "PollInterval" PollInterval) (f "UploadInterval" UploadInterval) (f "UploadSize" UploadSize)
  (f "TelemetryInterval" TelemetryInterval) (f "CommandInterval" CommandInterval)
  (f "PubSubPayloadSize" PubSubPayloadSize) (f "TelemetryTopic" TelemetryTopic)
  (f "CommandTopic" CommandTopic) (f "SubscribeTopics" SubscribeTopics)
  (f "MetricsAddr" MetricsAddr) (f "LogLevel" LogLevel) (f "LogFile" LogFile)
  (f "LogMaxBytes" LogMaxBytes) (f "LogMaxFiles" LogMaxFiles).
Definition settings_list (c : clientConfig) : list (string * setting) := [
  ("ServerURL", Str (ServerURL c)); ("CAFile", Str (CAFile c)); ("ClientID", Str (ClientID c));
  ("Role", Str (Role c)); ("PollInterval", Num (PollInterval c));
  ("UploadInterval", Num (UploadInterval c)); ("UploadSize", Num (UploadSize c));
  ("TelemetryInterval", Num (TelemetryInterval c)); ("CommandInterval", Num (CommandInterval c));
  ("PubSubPayloadSize", Num (PubSubPayloadSize c)); ("TelemetryTopic", Str (TelemetryTopic c));
  ("CommandTopic", Str (CommandTopic c)); ("SubscribeTopics", Str (SubscribeTopics c));
  ("MetricsAddr", Str (MetricsAddr c)); ("LogLevel", Str (LogLevel c));
  ("LogFile", Str (LogFile c)); ("LogMaxBytes", Num (LogMaxBytes c));
  ("LogMaxFiles", Num (LogMaxFiles c))].
Definition flag_cases : list (string * string) := [
  ("server-url", "ServerURL"); ("ca-file", "CAFile"); ("client-id", "ClientID"); ("role", "Role");
  ("poll-interval", "PollInterval"); ("upload-interval", "UploadInterval");
  ("upload-size", "UploadSize"); ("telemetry-interval", "TelemetryInterval");
  ("command-interval", "CommandInterval"); ("pubsub-payload-size", "PubSubPayloadSize");
  ("telemetry-topic", "TelemetryTopic"); ("command-topic", "CommandTopic");
  ("subscribe-topics", "SubscribeTopics"); ("metrics-addr", "MetricsAddr");
  ("log-level", "LogLevel"); ("log-file", "LogFile"); ("log-max-bytes", "LogMaxBytes");
  ("log-max-files", "LogMaxFiles")].

#[export] Program Instance configuration : Configuration clientConfig := {|
  settings := settings_list;
  assign := assign_field;
  cases := flag_cases;
|}.
Next Obligation. done. Qed.
Next Obligation. intros [] [] [=]. by subst. Qed.
Next Obligation. intros f p c. unfold settings_list, assign_field. solve_assign f. Qed.
Next Obligation. done. Qed.
Next Obligation. split; by_computation. Qed.

(** ** The command line *)

(** The flags of [run], with their defaults, and the variables they set. *)
Definition flag_list (def : clientConfig) : list flag := [
  mkFlag "config" FString (Str ""); mkFlag "server-url" FString (Str (ServerURL def));
  mkFlag "ca-file" FString (Str (CAFile def)); mkFlag "client-id" FString (Str (ClientID def));
  mkFlag "role" FString (Str (Role def)); mkFlag "poll-interval" FDuration (Num (PollInterval def));
  mkFlag "upload-interval" FDuration (Num (UploadInterval def));
  mkFlag "upload-size" FInt64 (Num (UploadSize def));
  mkFlag "telemetry-interval" FDuration (Num (TelemetryInterval def));
  mkFlag "command-interval" FDuration (Num (CommandInterval def));
  mkFlag "pubsub-payload-size" FInt (Num (PubSubPayloadSize def));
  mkFlag "telemetry-topic" FString (Str (TelemetryTopic def));
  mkFlag "command-topic" FString (Str (CommandTopic def));
  mkFlag "subscribe-topics" FString (Str (SubscribeTopics def));
  mkFlag "metrics-addr" FString (Str (MetricsAddr def)); mkFlag "log-level" FString (Str (LogLevel def));
  mkFlag "log-file" FString (Str (LogFile def)); mkFlag "log-max-bytes" FInt64 (Num (LogMaxBytes def));
  mkFlag "log-max-files" FInt (Num (LogMaxFiles def))
].
Definition flag_values (vs : values) : clientConfig :=
  mk (str vs "server-url") (str vs "ca-file") (str vs "client-id") (str vs "role") (num vs "poll-interval")
    (num vs "upload-interval") (num vs "upload-size") (num vs "telemetry-interval") (num vs "command-interval")
    (num vs "pubsub-payload-size") (str vs "telemetry-topic") (str vs "command-topic")
    (str vs "subscribe-topics") (str vs "metrics-addr") (str vs "log-level") (str vs "log-file")
    (num vs "log-max-bytes") (num vs "log-max-files").

#[export] Program Instance command_line : CommandLine clientConfig := {|
  command_flags := flag_list;
  of_values := flag_values;
|}.
Next Obligation. intros def. by_computation. Qed.
Next Obligation. intros def. repeat constructor. Qed.
Next Obligation.
  intros def name field H. unfold cases, configuration, flag_cases in H. solve_cases.
  all: eexists; split; [reflexivity|]; split; [by solve_elem|].
  all: intros vs v Hv Ht; unfold settings, configuration, settings_list, flag_values, str, num; cbn -[lookup].
  all: rewrite Hv; destruct v; try done; by solve_elem.
Qed.

(** ** The roles *)

Fixpoint firstNonEmpty (values : list string) : string :=
  match values with
  | [] => ""
  | v :: values => if String.eqb v "" then firstNonEmpty values else v
  end.

Definition splitList (raw : string) : list string := trim_nonempty (Split x2c raw).

Inductive run_error :=
| ErrLogging (e : string)
| ErrRole (role : string)
| ErrClient (e : string)
| ErrMetrics (e : string)
| ErrGetConfig (e : string)
| ErrConnect (e : string).

(** The role that is run, with its parameters. *)
Inductive role_run :=
| RunPoller (p : Poller)
| RunUploader (u : Uploader)
| RunPublisher (p : Publisher)
| RunSubscriber (s : Subscriber)
| RunMixed (p : Poller) (u : Uploader) (pu : Publisher) (s : Subscriber).

Definition known_roles : list string := ["poller"; "uploader"; "publisher"; "subscriber"; "mixed"]%string.

Definition poller_of (cfg : clientConfig) : Poller := mkPoller true (ClientID cfg) (PollInterval cfg).
Definition uploader_of (cfg : clientConfig) : Uploader :=
  mkUploader true (ClientID cfg) (UploadInterval cfg) (UploadSize cfg).
Definition telemetry_topic (cfg : clientConfig) (dev : DeviceConfig) : string :=
  firstNonEmpty [TelemetryTopic cfg; dc_TelemetryTopic dev].
Definition command_topic (cfg : clientConfig) (dev : DeviceConfig) : string :=
  firstNonEmpty [CommandTopic cfg; dc_CommandTopic dev].
Definition publisher_of (cfg : clientConfig) (dev : DeviceConfig) : Publisher :=
  mkPublisher true (ClientID cfg) (telemetry_topic cfg dev) (command_topic cfg dev)
    (TelemetryInterval cfg) (CommandInterval cfg) (PubSubPayloadSize cfg).
Definition subscriber_of (cfg : clientConfig) (dev : DeviceConfig) : Subscriber :=
  let topics := splitList (SubscribeTopics cfg) in
  mkSubscriber true
    (if bool_decide (topics = []) then [telemetry_topic cfg dev; command_topic cfg dev] else topics).

(** [run] once the configuration is loaded. The arguments are the errors of
    [logging.New], [client.New] and [startMetricsServer], and the results of
    [GetConfig] and [ConnectPubSub]. *)
Definition run (cfg : clientConfig) (logging new metrics : option string)
    (get_config : string → string + DeviceConfig) (connect : string → option string)
    : run_error + role_run :=
  match logging with
  | Some e => inl (ErrLogging e)
  | None =>
      if negb (bool_decide (Role cfg ∈ known_roles)) then inl (ErrRole (Role cfg))
      else
        match new with
        | Some e => inl (ErrClient e)
        | None =>
            match metrics with
            | Some e => inl (ErrMetrics e)
            | None =>
                let with_session k :=
                  match get_config (ClientID cfg) with
                  | inl e => inl (ErrGetConfig e)
                  | inr dev =>
                      match connect (ClientID cfg) with Some e => inl (ErrConnect e) | None => inr (k dev) end
                  end in
                if String.eqb (Role cfg) "poller" then inr (RunPoller (poller_of cfg))
                else if String.eqb (Role cfg) "uploader" then inr (RunUploader (uploader_of cfg))
                else if String.eqb (Role cfg) "publisher" then
                  with_session (λ dev, RunPublisher (publisher_of cfg dev))
                else if String.eqb (Role cfg) "subscriber" then
                  with_session (λ dev, RunSubscriber (subscriber_of cfg dev))
                else if String.eqb (Role cfg) "mixed" then
                  with_session (λ dev, RunMixed (poller_of cfg) (uploader_of cfg) (publisher_of cfg dev)
                                         (subscriber_of cfg dev))
                else inl (ErrRole (Role cfg))
            end
        end
  end.
