(* ===== verification/ProxyCmd.v ===== *)
(** * ProxyCmd: the command [cmd/proxy/main.go] *)

From S2P Require Import Prelude Text FS Certs Logging Profile Config Flags.

Record proxyConfig := mk {
  Listen : string;
  Upstream : string;
  Profile : string;
  MetricsAddr : string;
  LogLevel : string;
  LogFile : string;
  LogMaxBytes : Z;
  LogMaxFiles : Z;
}.

Definition defaults : proxyConfig :=
  mk "127.0.0.1:4443" "127.0.0.1:4444" "passthrough" "127.0.0.1:9104" "info" "" DefaultFileMaxBytes
  DefaultFileMaxFiles.

(** [cfg.X = *x] for the field X; the fields; and the cases of the overlay. *)
Definition assign_field (field : string) (p c : proxyConfig) : proxyConfig :=
  let f {A} (x : string) (get : proxyConfig → A) : A := if String.eqb x field then get p else get c in
  mk (f "Listen" Listen) (f "Upstream" Upstream) (f "Profile" Profile)
  (f "MetricsAddr" MetricsAddr) (f "LogLevel" LogLevel) (f "LogFile" LogFile)
  (f "LogMaxBytes" LogMaxBytes) (f "LogMaxFiles" LogMaxFiles).
Definition settings_list (c : proxyConfig) : list (string * setting) := [
  ("Listen", Str (Listen c)); ("Upstream", Str (Upstream c)); ("Profile", Str (Profile c));
  ("MetricsAddr", Str (MetricsAddr c)); ("LogLevel", Str (LogLevel c));
  ("LogFile", Str (LogFile c)); ("LogMaxBytes", Num (LogMaxBytes c));
  ("LogMaxFiles", Num (LogMaxFiles c))].
Definition flag_cases : list (string * string) := [
  ("listen", "Listen"); ("upstream", "Upstream"); ("profile", "Profile");
  ("metrics-addr", "MetricsAddr"); ("log-level", "LogLevel"); ("log-file", "LogFile");
  ("log-max-bytes", "LogMaxBytes"); ("log-max-files", "LogMaxFiles")].

#[export] Program Instance configuration : Configuration proxyConfig := {|
  settings := settings_list;
  assign := assign_field;
  cases := flag_cases;
|}.
Next Obligation. done. Qed.
Next Obligation. intros [] [] [=]. by subst. Qed.
Next Obligation. intros f p c. unfold settings_list, assign_field. solve_assign f. Qed.
Next Obligation. done. Qed.
Next Obligation. split; by_computation. Qed.

(** ** The command line *)

(** The flags of [run], with their defaults, and the variables they set. *)
Definition flag_list (def : proxyConfig) : list flag := [
  mkFlag "config" FString (Str ""); mkFlag "listen" FString (Str (Listen def));
  mkFlag "upstream" FString (Str (Upstream def)); mkFlag "profile" FString (Str (Profile def));
  mkFlag "metrics-addr" FString (Str (MetricsAddr def)); mkFlag "log-level" FString (Str (LogLevel def));
  mkFlag "log-file" FString (Str (LogFile def)); mkFlag "log-max-bytes" FInt64 (Num (LogMaxBytes def));
  mkFlag "log-max-files" FInt (Num (LogMaxFiles def))
].
Definition flag_values (vs : values) : proxyConfig :=
  mk (str vs "listen") (str vs "upstream") (str vs "profile") (str vs "metrics-addr") (str vs "log-level")
    (str vs "log-file") (num vs "log-max-bytes") (num vs "log-max-files").

#[export] Program Instance command_line : CommandLine proxyConfig := {|
  command_flags := flag_list;
  of_values := flag_values;
|}.
Next Obligation. intros def. by_computation. Qed.
Next Obligation. intros def. repeat constructor. Qed.
Next Obligation.
  intros def name field H. unfold cases, configuration, flag_cases in H. solve_cases.
  all: eexists; split; [reflexivity|]; split; [by solve_elem|].
  all: intros vs v Hv Ht; unfold settings, configuration, settings_list, flag_values, str, num; cbn -[lookup].
  all: rewrite Hv; destruct v; try done; by solve_elem.
Qed.

(** ** The impairment profile *)

(** [filepath.Ext]: from the last dot of the last element. *)
Fixpoint ext_loop (l : list byte) (suffix : list byte) : list byte :=
  match l with
  | [] => []
  | b :: l =>
      if bool_decide (b = slash) then []
      else if bool_decide (b = x2e) then b :: suffix
      else ext_loop l (b :: suffix)
  end.
Definition filepath_Ext (s : string) : string := string_of_bytes (ext_loop (reverse (bytes_of_string s)) []).

Definition resolveProfilePath (raw : string) : string :=
  if bool_decide (slash ∈ bytes_of_string raw) || HasSuffix raw ".yaml" || HasSuffix raw ".yml" then raw
  else Join "configs" ("proxy-" +:+ raw +:+ ".yaml")%string.

Inductive profile_error :=
| ErrLoadProfile (raw e : string)
| ErrValidateProfile (raw : string) (e : Profile.error).

Section profile.
Context (ReadFile : string → string + list byte) (Decode : list byte → Profile.Profile → string + Profile.Profile).

(** The profile and its source. *)
Definition loadProfile (raw : string) : outcome profile_error (Profile.Profile * string) :=
  let raw := if String.eqb raw "" then "passthrough"%string else raw in
  match BuiltinProfile raw with
  | Some p => Ok (p, ("builtin:" +:+ raw)%string)
  | None =>
      let path := resolveProfilePath raw in
      match LoadFile ReadFile Decode path zero_Profile with
      | inl e => Err (ErrLoadProfile raw e)
      | inr p =>
          let! p := NormalizeProfile p else (ErrValidateProfile raw) in
          Ok (if String.eqb (Name p) "custom"
              then mkProfile (TrimSuffix (filepath_Base path) (filepath_Ext path)) (Seed p) (ToServer p) (ToClient p)
              else p, path)
      end
  end.
End profile.
