(* ===== verification/ServerCmd.v ===== *)
(** * ServerCmd: the command [cmd/server/main.go] *)

From S2P Require Import Prelude Text Logging Config Flags.

Record serverConfig := mk {
  Addr : string;
  CertFile : string;
  KeyFile : string;
  CAFile : string;
  UploadDir : string;
  UploadMaxBytes : Z;
  MetricsPlainAddr : string;
  LogLevel : string;
  LogFile : string;
  LogMaxBytes : Z;
  LogMaxFiles : Z;
}.

Definition defaults : serverConfig :=
  mk ":4444" "var/certs/server.pem" "var/certs/server.key" "var/certs/ca.pem" "var/uploads"
  (2 ^ 30) "127.0.0.1:9103" "info" "" DefaultFileMaxBytes DefaultFileMaxFiles.

(** [cfg.X = *x] for the field X; the fields; and the cases of the overlay. *)
Definition assign_field (field : string) (p c : serverConfig) : serverConfig :=
  let f {A} (x : string) (get : serverConfig → A) : A := if String.eqb x field then get p else get c in
  mk (f "Addr" Addr) (f "CertFile" CertFile) (f "KeyFile" KeyFile) (f "CAFile" CAFile)
  (f "UploadDir" UploadDir) (f "UploadMaxBytes" UploadMaxBytes)
  (f "MetricsPlainAddr" MetricsPlainAddr) (f "LogLevel" LogLevel) (f "LogFile" LogFile)
  (f "LogMaxBytes" LogMaxBytes) (f "LogMaxFiles" LogMaxFiles).
Definition settings_list (c : serverConfig) : list (string * setting) := [
  ("Addr", Str (Addr c)); ("CertFile", Str (CertFile c)); ("KeyFile", Str (KeyFile c));
  ("CAFile", Str (CAFile c)); ("UploadDir", Str (UploadDir c));
  ("UploadMaxBytes", Num (UploadMaxBytes c)); ("MetricsPlainAddr", Str (MetricsPlainAddr c));
  ("LogLevel", Str (LogLevel c)); ("LogFile", Str (LogFile c));
  ("LogMaxBytes", Num (LogMaxBytes c)); ("LogMaxFiles", Num (LogMaxFiles c))].
Definition flag_cases : list (string * string) := [
  ("addr", "Addr"); ("cert-file", "CertFile"); ("key-file", "KeyFile"); ("ca-file", "CAFile");
  ("upload-dir", "UploadDir"); ("upload-max-bytes", "UploadMaxBytes");
  ("metrics-plain-addr", "MetricsPlainAddr"); ("log-level", "LogLevel"); ("log-file", "LogFile");
  ("log-max-bytes", "LogMaxBytes"); ("log-max-files", "LogMaxFiles")].

#[export] Program Instance configuration : Configuration serverConfig := {|
  settings := settings_list;
  assign := assign_field;
  cases := flag_cases;
|}.
Next Obligation. done. Qed.
Next Obligation. intros [] [] [=]. by subst. Qed.
Next Obligation. intros f p c. unfold settings_list, assign_field. solve_assign f. Qed.
Next Obligation. done. Qed.
Next Obligation. split; by_computation. Qed.

(** ** The command line *)

(** The flags of [run], with their defaults, and the variables they set. *)
Definition flag_list (def : serverConfig) : list flag := [
  mkFlag "config" FString (Str ""); mkFlag "addr" FString (Str (Addr def));
  mkFlag "cert-file" FString (Str (CertFile def)); mkFlag "key-file" FString (Str (KeyFile def));
  mkFlag "ca-file" FString (Str (CAFile def)); mkFlag "upload-dir" FString (Str (UploadDir def));
  mkFlag "upload-max-bytes" FInt64 (Num (UploadMaxBytes def));
  mkFlag "metrics-plain-addr" FString (Str (MetricsPlainAddr def));
  mkFlag "log-level" FString (Str (LogLevel def)); mkFlag "log-file" FString (Str (LogFile def));
  mkFlag "log-max-bytes" FInt64 (Num (LogMaxBytes def)); mkFlag "log-max-files" FInt (Num (LogMaxFiles def));
  mkFlag "gen-certs" FBool (Bool false); mkFlag "cert-dir" FString (Str "var/certs");
  mkFlag "cert-valid-for" FDuration (Num (365 * 24 * 3600 * 10 ^ 9));
  mkFlag "sans" FString (Str "127.0.0.1,localhost,::1")
].
Definition flag_values (vs : values) : serverConfig :=
  mk (str vs "addr") (str vs "cert-file") (str vs "key-file") (str vs "ca-file") (str vs "upload-dir")
    (num vs "upload-max-bytes") (str vs "metrics-plain-addr") (str vs "log-level") (str vs "log-file")
    (num vs "log-max-bytes") (num vs "log-max-files").

#[export] Program Instance command_line : CommandLine serverConfig := {|
  command_flags := flag_list;
  of_values := flag_values;
|}.
Next Obligation. intros def. by_computation. Qed.
Next Obligation. intros def. repeat constructor. Qed.
Next Obligation.
  intros def name field H. unfold cases, configuration, flag_cases in H. solve_cases.
  all: eexists; split; [reflexivity|]; split; [by solve_elem|].
  all: intros vs v Hv Ht; unfold settings, configuration, settings_list, flag_values, str, num; cbn -[lookup].
  all: rewrite Hv; destruct v; try done; by solve_elem.
Qed.
