(* ===== verification/Server.v ===== *)
(** * Server: the HTTP side of the server ([internal/server/server.go])

    Making a server, its request handlers and their instrumentation, and closing it.
    The routes to the upload handler and to the broker lead to the components
    [Upload] and [Broker]; the multiplexer, QUIC and HTTP/3 are those of the
    libraries. *)

From S2P Require Import Prelude Text FS Collectors Upload.

Definition DefaultUploadMaxBytes : Z := 2 ^ 30.
Definition defaultPollIntervalSeconds : Z := 5.

(** ** New *)

(** A missing connection or configuration is [false]; [StartedAt] is [None] for the
    zero time. *)
Record Options := mkOptions {
  opt_PacketConn : bool;
  opt_TLSConfig : bool;
  opt_Version : string;
  opt_StartedAt : option Z;
  opt_UploadDir : string;
  opt_UploadMaxBytes : Z;
  opt_Metrics : bool;
}.

(** The HTTP metrics of [metrics.ServerMetrics]: the observed requests by method,
    route and status, the bytes in and out, and the uploads. *)
Record HTTPMetrics := mkHTTPMetrics {
  HTTPDuration : list (string * string * Z);
  h3_in : Z;
  h3_out : Z;
  UploadBytes : list Z;
}.

Record Server := mkServer {
  srv_version : string;
  srv_startedAt : Z;
  srv_upload : Handler;
  srv_metrics : option HTTPMetrics;
  srv_reqSeq : Z;
  srv_closed : bool;
}.

Inductive new_error :=
| ErrPacketConnRequired
| ErrTLSRequired
| ErrNegativeMaxBytes
| ErrCreateUploadDir (e : os_error)
| ErrPruneUploads (e : prune_error)
| ErrListen (e : string).

(** [now] is the time of the call, [listen] the error of [ListenEarly]. *)
Definition New (opts : Options) (now : Z) (listen : option string) (fs : FS) : (new_error + Server) * FS :=
  if negb (opt_PacketConn opts) then (inl ErrPacketConnRequired, fs)
  else if negb (opt_TLSConfig opts) then (inl ErrTLSRequired, fs)
  else
    let uploadDir := if String.eqb (opt_UploadDir opts) "" then "var/uploads"%string else opt_UploadDir opts in
    if opt_UploadMaxBytes opts <? 0 then (inl ErrNegativeMaxBytes, fs)
    else
      let uploadMaxBytes :=
        if opt_UploadMaxBytes opts =? 0 then DefaultUploadMaxBytes else opt_UploadMaxBytes opts in
      match MkdirAll uploadDir fs with
      | (inl e, fs) => (inl (ErrCreateUploadDir e), fs)
      | (inr _, fs) =>
          match PruneDir uploadDir uploadMaxBytes "" fs with
          | ((_, Some e), fs) => (inl (ErrPruneUploads e), fs)
          | ((_, None), fs) =>
              match listen with
              | Some e => (inl (ErrListen e), fs)
              | None =>
                  (inr (mkServer (if String.eqb (opt_Version opts) "" then "dev" else opt_Version opts)
                          (default now (opt_StartedAt opts)) (mkHandler uploadDir uploadMaxBytes)
                          (if opt_Metrics opts then Some (mkHTTPMetrics [] 0 0 []) else None) 0 false), fs)
              end
          end
      end.

(** ** Handlers *)

Record stateResponse := mkState { st_Version : string; st_StartedAt : Z; st_UptimeMillis : Z }.
Record configResponse := mkConfig {
  cr_ClientID : string;
  cr_DesiredRole : string;
  cr_PollIntervalSeconds : Z;
  cr_TelemetryTopic : string;
  cr_CommandTopic : string;
}.

(** The request id that [requestLogger] takes, an atomic [uint64] counter. *)
Definition next_request (s : Server) : Z * Server :=
  let n := wrapu64 (srv_reqSeq s + 1) in
  (n, mkServer (srv_version s) (srv_startedAt s) (srv_upload s) (srv_metrics s) n (srv_closed s)).

(** [time.Since] saturates; [Milliseconds] truncates. *)
Definition handleState (now : Z) (s : Server) : stateResponse * Server :=
  let '(_, s) := next_request s in
  (mkState (srv_version s) (srv_startedAt s)
     (Z.quot (Z.max min_int64 (Z.min max_int64 (now - srv_startedAt s))) (10 ^ 6)), s).

Definition handleConfig (clientID : string) (s : Server) : configResponse * Server :=
  let '(_, s) := next_request s in
  (mkConfig clientID "poller" defaultPollIntervalSeconds
     ("clients/" +:+ clientID +:+ "/telemetry")%string ("clients/" +:+ clientID +:+ "/commands")%string, s).

(** ** Instrumentation *)

(** What a handler does to its response writer; a write reports how much of it was
    written. *)
Inductive response_op := OpWriteHeader (status : Z) | OpWrite (n : Z).
Record statusRecorder := mkRecorder { rec_status : Z; rec_bytes : Z }.
Definition record_op (r : statusRecorder) (op : response_op) : statusRecorder :=
  match op with
  | OpWriteHeader status => mkRecorder status (rec_bytes r)
  | OpWrite n => mkRecorder (rec_status r) (wrap64 (rec_bytes r + n))
  end.

(** The pattern after its method, else the path of the URL. *)
Definition routeLabel (pattern : string) (url_path : option string) : string :=
  let pattern :=
    match split_on x20 (bytes_of_string pattern) with
    | _ :: (_ :: _) as rest => string_of_bytes (join_with x20 (tail rest))
    | _ => pattern
    end in
  if negb (String.eqb pattern "") then pattern
  else match url_path with
       | Some p => if String.eqb p "" then "/" else p
       | None => "/"
       end.

(** [instrumentHTTP] around a handler that does [ops]; [None] without metrics. *)
Definition instrument `{Labels} (method pattern : string) (url_path : option string) (content_length : Z)
    (ops : list response_op) (m : HTTPMetrics) : exec HTTPMetrics :=
  let r := foldl record_op (mkRecorder 200 0) ops in
  let path := routeLabel pattern url_path in
  let count ls := WithLabelValues (sm_Bytes serverMetrics) ls in
  if negb (WithLabelValues (sm_HTTPDuration serverMetrics) [method; path; pretty (rec_status r)]) then Panic
  else if (0 <? content_length) && negb (count ["h3"; "in"]%string) then Panic
  else if (0 <? rec_bytes r) && negb (count ["h3"; "out"]%string) then Panic
  else
    Ok (mkHTTPMetrics (HTTPDuration m ++ [(method, path, rec_status r)])
          (if 0 <? content_length then h3_in m + content_length else h3_in m)
          (if 0 <? rec_bytes r then h3_out m + rec_bytes r else h3_out m)
          (UploadBytes m)).

(** [OnStored] of the upload handler. *)
Definition on_stored (resp : Response) (m : HTTPMetrics) : HTTPMetrics :=
  mkHTTPMetrics (HTTPDuration m) (h3_in m) (h3_out m) (UploadBytes m ++ [rs_Bytes resp]).

(** ** Closing *)

(** The errors of closing the WebTransport server, the listener and the transport:
    the first call reports the first of them, the others nothing. *)
Definition Close (wt listener transport : option string) (s : Server) : option string * Server :=
  if srv_closed s then (None, s)
  else
    let first e e' := match e with Some _ => e | None => e' end in
    (first (first wt listener) transport,
     mkServer (srv_version s) (srv_startedAt s) (srv_upload s) (srv_metrics s) (srv_reqSeq s) true).

(** The loop of [Serve], by what [Accept] returns: a connection to serve, or an error
    that may be the closing of the listener; [ctx_done] is the state of the context. *)
Inductive accept_event := Accepted | AcceptError (closed ctx_done : bool) (e : string).
Fixpoint Serve (evs : list accept_event) (served : nat) : option (option string) * nat :=
  match evs with
  | [] => (None, served)
  | Accepted :: evs => Serve evs (S served)
  | AcceptError closed ctx_done e :: _ =>
      (Some (if ctx_done || closed then None else Some ("server: accept quic conn: " +:+ e)%string), served)
  end.
