(* ===== verification/CollectorsTheorems.v ===== *)
(** * CollectorsTheorems: the registries are made, and what the label values allow

    The collectors of each command have names of their own, so that registering them
    does not panic; and a request is counted by the server unless its path is shown
    as it came and is not UTF-8. *)

From S2P Require Import Prelude Text FS Collectors Upload Server.

(** ** Registries *)

(** The names and label names that every naming scheme of the library admits. *)
Definition is_name_byte (b : byte) : bool :=
  let x := byte_Z b in ((97 <=? x) && (x <=? 122)) || ((65 <=? x) && (x <=? 90)) || (x =? 95).
Definition well_named (c : collector) : bool :=
  forallb (λ s, negb (String.eqb s "") && forallb is_name_byte (bytes_of_string s))
    (c_Name c :: default [] (c_labels c)) &&
  bool_decide (NoDup (default [] (c_labels c))).

Definition full_name (c : collector) : string := namespace +:+ "_" +:+ c_Name c.
Definition own_names (rs : list registrable) : list collector :=
  omap (λ r, match r with Own c => Some c | _ => None end) rs.

(** What the library documents: a name is the namespace and the name joined by an
    underscore; registering well-named collectors whose names are new succeeds, and
    adds the names; a name that is not new makes it panic. *)
Class RegistererLaws (R : Type) `{Registerer R} := {
  registered_new : registered (R:=R) NewRegistry = ∅;
  describe_own c : describe (R:=R) (Own c) = [full_name c];
  describe_library :
    NoDup (describe (R:=R) GoCollector ++ describe (R:=R) ProcessCollector) ∧
    Forall (λ n, HasPrefix n (namespace +:+ "_") = false)
      (describe (R:=R) GoCollector ++ describe (R:=R) ProcessCollector);
  MustRegister_new rs r :
    let names := rs ≫= describe (R:=R) in
    NoDup names → (∀ n, n ∈ names → n ∉ registered r) → forallb well_named (own_names rs) = true →
    ∃ r', MustRegister rs r = Ok r' ∧ registered r' = registered r ∪ list_to_set names;
  MustRegister_twice rs r n :
    n ∈ rs ≫= describe (R:=R) → n ∈ registered r → MustRegister rs r = Panic;
}.

Section registered.
Context (R : Type) `{RegistererLaws R}.

Definition library_names : gset string :=
  list_to_set (describe (R:=R) GoCollector ++ describe (R:=R) ProcessCollector).

Lemma newRegistry_ok : ∃ r : R, newRegistry = Ok r ∧ registered r = library_names.
Proof.
  destruct describe_library as [Hnd _]. apply NoDup_app in Hnd as (Hgo & Hdis & Hpr).
  unfold newRegistry.
  destruct (MustRegister_new (R:=R) [GoCollector] NewRegistry) as (r1 & -> & Hr1); simpl; rewrite ?app_nil_r; try done.
  { intros n _. rewrite registered_new. set_solver. }
  destruct (MustRegister_new (R:=R) [ProcessCollector] r1) as (r2 & -> & Hr2); simpl; rewrite ?app_nil_r; try done.
  { intros n Hn. rewrite Hr1, registered_new. simpl. rewrite app_nil_r. set_solver. }
  exists r2. split; [done|]. rewrite Hr2, Hr1, registered_new. unfold library_names. simpl.
  rewrite !app_nil_r. set_solver.
Qed.

Lemma own_describe (cs : list collector) : (map Own cs ≫= describe (R:=R)) = map full_name cs.
Proof. induction cs as [|c cs IH]; [done|]. cbn [map]. by rewrite bind_cons, describe_own, IH. Qed.

Lemma own_collectors (cs : list collector) : own_names (map Own cs) = cs.
Proof. induction cs as [|c cs IH]; [done|]. simpl. by rewrite IH. Qed.

Lemma full_name_prefix c : HasPrefix (full_name c) (namespace +:+ "_") = true.
Proof.
  unfold HasPrefix, full_name.
  destruct (strip_prefix _ _) eqn:E; [done|].
  assert (strip_prefix (bytes_of_string (namespace +:+ "_")) (bytes_of_string (namespace +:+ "_" +:+ c_Name c)) =
    Some (bytes_of_string (c_Name c))) as Hs by (apply strip_prefix_spec; done). congruence.
Qed.

(** Distinct good names in a new registry. *)
Lemma register_ok (cs : list collector) (r : R) :
  registered r = library_names → NoDup (map full_name cs) → forallb well_named cs = true →
  ∃ r', register r cs = Ok r' ∧ registered r' = library_names ∪ list_to_set (map full_name cs).
Proof.
  intros Hr Hnd Hw. unfold register.
  destruct (MustRegister_new (R:=R) (map Own cs) r) as (r' & Hr' & Hn); rewrite ?own_describe, ?own_collectors in *; try done.
  - intros n Hn. rewrite Hr. unfold library_names. rewrite elem_of_list_to_set. intros Hl.
    destruct describe_library as [_ Hp]. rewrite Forall_forall in Hp. specialize (Hp n Hl). simpl in Hp.
    apply list_elem_of_fmap in Hn as (c & -> & _). by rewrite full_name_prefix in Hp.
  - exists r'. split; [done|]. by rewrite Hn, Hr.
Qed.

(** Server, client and proxy get their metrics: no constructor panics, whatever the
    library registers for itself outside the namespace of the program. *)
Theorem metrics_registered :
  (∃ r : R, NewServer = Ok (serverMetrics, r) ∧ size (registered r ∖ library_names) = 10%nat) ∧
  (∃ r : R, NewClient = Ok (clientMetrics, r) ∧ size (registered r ∖ library_names) = 7%nat) ∧
  (∃ r : R, NewProxy = Ok (proxyMetrics, r) ∧ size (registered r ∖ library_names) = 9%nat).
Proof.
  destruct newRegistry_ok as (r0 & Hr0 & Hn0).
  assert (∀ cs, NoDup (map full_name cs) → forallb well_named cs = true →
    ∃ r : R, register r0 cs = Ok r ∧ size (registered r ∖ library_names) = length cs) as Hreg.
  { intros cs Hnd Hw. destruct (register_ok cs r0 Hn0 Hnd Hw) as (r & Hr & Hn). exists r. split; [done|].
    assert (registered r ∖ library_names = list_to_set (map full_name cs)) as ->.
    { rewrite Hn. apply set_eq. intros n. rewrite elem_of_difference, elem_of_union, elem_of_list_to_set. split; [naive_solver|].
      intros Hc. split; [by right|]. unfold library_names. rewrite elem_of_list_to_set. intros Hl.
      destruct describe_library as [_ Hp]. rewrite Forall_forall in Hp. specialize (Hp n Hl). simpl in Hp.
      apply list_elem_of_fmap in Hc as (c & -> & _). by rewrite full_name_prefix in Hp. }
    rewrite size_list_to_set by done. apply length_map. }
  unfold NewServer, NewClient, NewProxy. rewrite Hr0. cbn [obind].
  split_and!; edestruct Hreg as (r & -> & Hs); try (by exists r);
    first [apply (bool_decide_unpack _); vm_compute; done|vm_compute; done].
Qed.
End registered.

(** The proxy counts by direction, which is one of two constants. *)
Lemma directions_taken `{LabelsLaws} (v : ProxyMetrics → collector) dir :
  c_labels (v proxyMetrics) = Some ["direction"%string] → dir ∈ ["to_server"; "to_client"]%string →
  WithLabelValues (v proxyMetrics) [dir] = true.
Proof.
  intros Hv Hd. apply WithLabelValues_takes. split; [by eexists|]. constructor; [|by constructor].
  apply elem_of_cons in Hd as [->|Hd]; [done|]. by apply list_elem_of_singleton in Hd as ->.
Qed.

(** ** Requests *)

Lemma ValidString_pretty (z : Z) : ValidString (pretty z) = true.
Proof.
  apply ValidString_ascii.
  assert (∀ n : N, Forall is_ascii (bytes_of_string (pretty n))) as HN.
  { intros n. eapply Forall_impl; [apply pretty_N_digits|]. intros b Hb.
    unfold is_digit, is_ascii in *. apply Is_true_true, andb_true_iff in Hb as [_ Hb]. lia. }
  destruct z as [|p|p]; [apply (HN 0%N)|apply (HN (Npos p))|].
  change (bytes_of_string (pretty (Z.neg p))) with (x2d :: bytes_of_string (pretty (Npos p))).
  constructor; [by vm_compute|apply HN].
Qed.

(** A request is counted unless its method, or its path where no route matches, is not
    UTF-8; then the handler panics after it has answered. *)
Theorem instrument_panics `{LabelsLaws} method pattern url_path n ops m :
  instrument method pattern url_path n ops m = Panic ↔
  ¬ (ValidString method ∧ ValidString (routeLabel pattern url_path)).
Proof.
  set (ls := [method; routeLabel pattern url_path; pretty (rec_status (foldl record_op (mkRecorder 200 0) ops))]).
  assert (WithLabelValues (sm_HTTPDuration serverMetrics) ls = true ↔
    ValidString method ∧ ValidString (routeLabel pattern url_path)) as Hls.
  { rewrite WithLabelValues_spec. unfold takes, ls. rewrite !Forall_cons. split; [tauto|].
    intros [? ?]. split; [by eexists|]. split_and!; [done|done| |done]. apply Is_true_true, ValidString_pretty. }
  assert (∀ dir, ValidString dir = true → WithLabelValues (sm_Bytes serverMetrics) ["h3"%string; dir] = true) as Hb.
  { intros dir Hd. apply WithLabelValues_takes. split; [by eexists|].
    repeat apply Forall_cons_2; [done|by apply Is_true_true|constructor]. }
  unfold instrument. cbv zeta. fold ls. rewrite !Hb, !andb_false_r by done.
  destruct (WithLabelValues (sm_HTTPDuration serverMetrics) ls); simpl; split; try done.
  - intros Hn. by destruct Hn; apply Hls.
  - intros _ Hv. by apply Hls in Hv.
Qed.
