(* ===== verification/CommandsTheorems.v ===== *)
(** * CommandsTheorems: configuring the binaries, and the topics of the clients *)

From S2P Require Import Prelude Text FS Logging Profile Config Flags FlagsTheorems Certs Upload Server Roles ClientHTTP ClientCmd ProxyCmd ServerCmd.

(** ** The overlay *)

Section overlay.
Context `{Configuration cfg}.
Implicit Types (p c : cfg) (visited : list string).

Lemma case_of_spec flag field : case_of flag = Some field ↔ (flag, field) ∈ cases.
Proof.
  unfold case_of. destruct cases_NoDup as [Hnd _]. split.
  - destruct (list_find _ cases) as [[i [fl f]]|] eqn:E; [|done]. simpl. intros [= <-].
    apply list_find_Some in E as (Hi & Hx & _). simpl in Hx. subst. by eapply list_elem_of_lookup_2.
  - intros Hin. destruct (list_find (λ x : string * string, x.1 = flag) cases) as [[i [fl f]]|] eqn:E.
    + apply list_find_Some in E as (Hi & Hx & _). simpl in *. subst.
      apply list_elem_of_lookup in Hin as [j Hj].
      assert (i = j) as ->; [|by simplify_eq].
      eapply NoDup_lookup; [exact Hnd|..]; by rewrite list_lookup_fmap, ?Hi, ?Hj.
    + apply list_find_None in E. rewrite Forall_forall in E. by destruct (E _ Hin).
Qed.

Lemma pick_pick P Q (a b : list (string * setting)) : a.*1 = b.*1 →
  zip_with (pick P) a (zip_with (pick Q) a b) = zip_with (pick (λ x, Q x || P x)) a b.
Proof.
  revert b. induction a as [|x a IH]; intros [|y b] Hab; try done. injection Hab as Hx Hab.
  simpl. f_equal; [|by apply IH]. unfold pick. destruct (Q y.1) eqn:EQ; simpl.
  - by destruct (P x.1).
  - by destruct (P y.1).
Qed.

Lemma pick_none (a b : list (string * setting)) : a.*1 = b.*1 → zip_with (pick (λ _, false)) a b = b.
Proof. revert b. induction a as [|x a IH]; intros [|y b] Hab; try done. injection Hab as ? ?. simpl. by rewrite IH. Qed.

Lemma pick_ext P Q (a b : list (string * setting)) :
  (∀ x, P x = Q x) → zip_with (pick P) a b = zip_with (pick Q) a b.
Proof.
  intros HPQ. revert b. induction a as [|x a IH]; intros [|y b]; try done. simpl. rewrite IH. unfold pick.
  by rewrite HPQ.
Qed.

Definition sets (visited : list string) (field : string) : bool :=
  existsb (λ flag, bool_decide (case_of flag = Some field)) visited.

Lemma overlay_settings p visited c :
  settings (overlay p visited c) = zip_with (pick (sets visited)) (settings p) (settings c).
Proof.
  induction visited as [|flag visited IH] using rev_ind; [symmetry; apply pick_none, settings_fields|].
  unfold overlay in *. rewrite foldl_app. simpl. destruct (case_of flag) as [f|] eqn:Hf.
  - rewrite settings_assign, IH, pick_pick by apply settings_fields. apply pick_ext. intros x.
    unfold sets. rewrite existsb_app. simpl. rewrite orb_false_r, Hf. f_equal.
    destruct (String.eqb_spec f x) as [->|Hne]; [by rewrite bool_decide_true|].
    rewrite bool_decide_false; congruence.
  - rewrite IH. apply pick_ext. intros x. unfold sets. rewrite existsb_app. simpl.
    by rewrite Hf, bool_decide_false, !orb_false_r.
Qed.

(** A setting of the overlay. *)
Lemma elem_of_pick P (a b : list (string * setting)) x v : a.*1 = b.*1 →
  (x, v) ∈ zip_with (pick P) a b ↔ (x, v) ∈ (if P x then a else b).
Proof.
  revert b. induction a as [|[y va] a IH]; intros [|[y' vb] b] Hab; try done; [by destruct (P x)|].
  injection Hab as <- Hab. simpl. rewrite elem_of_cons, IH by done. unfold pick. simpl.
  destruct (P x) eqn:EP; rewrite elem_of_cons; destruct (P y) eqn:EQ; (split; [|]); intros [[= -> ->]|?]; auto; congruence.
Qed.

Lemma sets_spec visited field : sets visited field = true ↔ ∃ flag, flag ∈ visited ∧ (flag, field) ∈ cases.
Proof.
  unfold sets. rewrite existsb_exists. split.
  - intros (flag & Hin & Hc). exists flag. rewrite <-case_of_spec. split; [by apply list_elem_of_In|].
    by apply bool_decide_eq_true in Hc.
  - intros (flag & Hin & Hc). exists flag. rewrite <-case_of_spec in Hc. split; [by apply list_elem_of_In|].
    by apply bool_decide_eq_true.
Qed.

Lemma settings_unique c field v v' : (field, v) ∈ settings c → (field, v') ∈ settings c → v = v'.
Proof.
  intros Hv Hv'. destruct cases_NoDup as [_ Hnd]. rewrite (cases_fields c) in Hnd.
  apply list_elem_of_lookup in Hv as [i Hi], Hv' as [j Hj]. assert (i = j) as ->; [|by simplify_eq].
  eapply NoDup_lookup; [exact Hnd|..]; by rewrite list_lookup_fmap, ?Hi, ?Hj.
Qed.

Lemma cases_functional name name' field : (name, field) ∈ cases → (name', field) ∈ cases → name = name'.
Proof.
  intros Hin Hin'. destruct cases_NoDup as [_ Hnd].
  apply list_elem_of_lookup in Hin as [i Hi], Hin' as [j Hj]. assert (i = j) as ->; [|by simplify_eq].
  eapply NoDup_lookup; [exact Hnd|..]; by rewrite list_lookup_fmap, ?Hi, ?Hj.
Qed.

(** A setting of the overlay, by its flag. *)
Lemma overlay_case p visited c name field v : (name, field) ∈ cases →
  (field, v) ∈ settings (overlay p visited c) ↔ (field, v) ∈ settings (if decide (name ∈ visited) then p else c).
Proof.
  intros Hcase. rewrite overlay_settings, elem_of_pick by apply settings_fields. destruct (decide _) as [Hin|Hin].
  - assert (sets visited field = true) as -> by (apply sets_spec; eauto). done.
  - destruct (sets visited field) eqn:Hs; [|done]. apply sets_spec in Hs as (name' & Hin' & Hc').
    by assert (name = name') as -> by by eapply cases_functional.
Qed.

Context `{!CommandLine cfg}.

Lemma of_values_case def vs name field v : well_typed (command_flags def) vs → (name, field) ∈ cases →
  (field, v) ∈ settings (of_values vs) ↔ vs !! name = Some v.
Proof.
  intros Hvs Hc. destruct (case_flag def name field Hc) as (f & Hf & _ & Hset).
  apply find_flag_some in Hf as [Hf <-]. destruct (Hvs f Hf) as (v0 & Hv0 & Ht). pose proof (Hset vs v0 Hv0 Ht) as Hin.
  rewrite Hv0. split; [|by intros [= <-]]. intros Hv. f_equal. by eapply settings_unique.
Qed.

Context (ParseDuration : string → option Z) (ReadFile : string → string + list byte) (Decode : list byte → cfg → string + cfg).

(** C37: flags win over the file, the file over the defaults. When a command line is
    accepted, each setting of the configuration is the value of its flag if the flag is
    on the command line, and otherwise that of the defaults overlaid by the file that
    the line names, whatever the order of the flags; every setting has exactly one
    flag, so that each can be overridden and no flag sets another one's field; and a
    flag that is not given has its default, which is the default of the setting. *)
Theorem flags_win def args c vs :
  load_args ParseDuration ReadFile Decode def args = inr (c, vs) →
  ∃ visited file, Parse ParseDuration (command_flags def) args = inr (vs, visited) ∧
  LoadFile ReadFile Decode (str vs "config") def = inr file ∧ (str vs "config" = ""%string → file = def) ∧
  (∀ name field v, (name, field) ∈ cases →
     (field, v) ∈ settings c ↔ if decide (name ∈ visited) then vs !! name = Some v else (field, v) ∈ settings file) ∧
  (∀ field, field ∈ (settings c).*1 → ∃ name, (name, field) ∈ cases ∧ ∀ name', (name', field) ∈ cases → name' = name) ∧
  (∀ name field v, (name, field) ∈ cases → name ∉ visited → vs !! name = Some v ↔ (field, v) ∈ settings def).
Proof.
  unfold load_args. destruct (Parse _ _ args) as [|[vs' visited]] eqn:Hp; [done|]. unfold load_config.
  destruct (LoadFile _ _ _ def) as [|file] eqn:Hfile; [done|]. intros [= <- ->]. exists visited, file.
  pose proof (default_typed _ (flags_NoDup def) (flags_typed def)) as Hdef.
  pose proof (parse_args_spec _ _ _ _ _ _ _ (flags_NoDup def) Hdef Hp) as [Hvs (new & Hnew & Hkeep)].
  simpl in Hnew. subst new. split_and!; [done|done| |..].
  - intros Hempty. unfold LoadFile in Hfile. rewrite Hempty in Hfile. by injection Hfile as ->.
  - intros name field v Hc. rewrite (overlay_case _ _ _ _ _ _ Hc). destruct (decide _); [|done].
    by apply (of_values_case def).
  - intros field Hin. rewrite <-(cases_fields (overlay (of_values vs) visited file)) in Hin.
    apply list_elem_of_fmap in Hin as ([name f] & -> & Hin). exists name. split; [done|].
    intros name' Hin'. by eapply cases_functional.
  - intros name field v Hc Hn. rewrite Hkeep by done. destruct (case_flag def name field Hc) as (f & Hf & Hd & _).
    apply find_flag_some in Hf as [Hf <-].
    assert (default_values (command_flags def) !! flag_name f = Some (default_value f)) as ->.
    { apply elem_of_list_to_map_1; [rewrite <- list_fmap_compose; apply flags_NoDup|].
      apply list_elem_of_fmap. by exists f. }
    split; [by intros [= <-]|]. intros Hv. f_equal. by eapply settings_unique.
Qed.
End overlay.

(** ** Topics *)

(** The client's structure for what [handleConfig] answers: the JSON fields have the
    same names. *)
Definition device_of (r : configResponse) : DeviceConfig :=
  mkDeviceConfig (cr_ClientID r) (cr_DesiredRole r) (cr_PollIntervalSeconds r) (cr_TelemetryTopic r) (cr_CommandTopic r).

Definition publishers (r : role_run) : list Publisher :=
  match r with RunPublisher p | RunMixed _ _ p _ => [p] | _ => [] end.
Definition subscribers (r : role_run) : list Subscriber :=
  match r with RunSubscriber s | RunMixed _ _ _ s => [s] | _ => [] end.

(** No topics are configured, neither for publishing nor for subscribing. *)
Definition default_topics (c : clientConfig) : Prop :=
  TelemetryTopic c = ""%string ∧ CommandTopic c = ""%string ∧ splitList (SubscribeTopics c) = [].

Definition client_telemetry (id : string) : string := ("clients/" +:+ id +:+ "/telemetry")%string.
Definition client_commands (id : string) : string := ("clients/" +:+ id +:+ "/commands")%string.

Lemma string_app_inj_r a b c : a +:+ c = b +:+ c → a = b.
Proof.
  intros Heq. apply (inj bytes_of_string). apply (f_equal bytes_of_string) in Heq.
  rewrite !bytes_of_string_app in Heq. by simplify_list_eq.
Qed.

Lemma client_topics_inj id id' :
  (client_telemetry id = client_telemetry id' → id = id') ∧
  (client_commands id = client_commands id' → id = id') ∧
  client_telemetry id ≠ client_commands id'.
Proof.
  unfold client_telemetry, client_commands. split_and!.
  - by intros Heq%string_app_inj_l%string_app_inj_r.
  - by intros Heq%string_app_inj_l%string_app_inj_r.
  - intros Heq%string_app_inj_l. apply (f_equal (last ∘ bytes_of_string)) in Heq. simpl in Heq.
    rewrite !bytes_of_string_app in Heq.
    change (bytes_of_string "/telemetry") with (bytes_of_string "/telemetr" ++ [x79]) in Heq.
    change (bytes_of_string "/commands") with (bytes_of_string "/command" ++ [x73]) in Heq.
    rewrite !app_assoc, !last_snoc in Heq. done.
Qed.

Lemma run_roles cfg get connect r :
  run cfg None None None get connect = inr r →
  Role cfg ∈ known_roles ∧
  (∀ p, p ∈ publishers r → ∃ dev, get (ClientID cfg) = inr dev ∧ p = publisher_of cfg dev) ∧
  (∀ s, s ∈ subscribers r → ∃ dev, get (ClientID cfg) = inr dev ∧ s = subscriber_of cfg dev).
Proof.
  unfold run. intros Hr. destruct (bool_decide (Role cfg ∈ known_roles)) eqn:Hb; [|done]. simpl in Hr.
  split; [by apply bool_decide_eq_true in Hb|].
  repeat case_match; simplify_eq; simpl; split; intros x Hx;
    try (by apply elem_of_nil in Hx); apply list_elem_of_singleton in Hx as ->; by eexists.
Qed.

(** The topics of a publisher and of a subscriber that use what the server answers. *)
Lemma topics_of_devices cfg cfg' srv (p := publisher_of cfg (device_of (handleConfig (ClientID cfg) srv).1))
    (s := subscriber_of cfg' (device_of (handleConfig (ClientID cfg') srv).1)) :
  default_topics cfg → default_topics cfg' →
  pu_TelemetryTopic p ≠ ""%string ∧ pu_CommandTopic p ≠ ""%string ∧
  (ClientID cfg = ClientID cfg' → su_Topics s = [pu_TelemetryTopic p; pu_CommandTopic p]) ∧
  (ClientID cfg ≠ ClientID cfg' → (pu_TelemetryTopic p ∉ su_Topics s) ∧ (pu_CommandTopic p ∉ su_Topics s)).
Proof.
  intros (Ht & Hc & _) (Ht' & Hc' & Hs'). subst p s.
  unfold publisher_of, subscriber_of, telemetry_topic, command_topic.
  rewrite Ht, Hc, Ht', Hc', Hs'. cbn [pu_TelemetryTopic pu_CommandTopic su_Topics firstNonEmpty String.eqb].
  rewrite bool_decide_true by done.
  change (dc_TelemetryTopic (device_of (handleConfig ?id srv).1)) with (client_telemetry id).
  change (dc_CommandTopic (device_of (handleConfig ?id srv).1)) with (client_commands id).
  destruct (client_topics_inj (ClientID cfg) (ClientID cfg')) as (H1 & H2 & H3).
  destruct (client_topics_inj (ClientID cfg') (ClientID cfg)) as (_ & _ & H3').
  set (t := client_telemetry) in *. set (u := client_commands) in *.
  assert (∀ id, String.eqb (t id) "" = false) as Et by (intros id; by apply String.eqb_neq).
  assert (∀ id, String.eqb (u id) "" = false) as Eu by (intros id; by apply String.eqb_neq).
  rewrite !Et, !Eu. split_and!; try by apply String.eqb_neq.
  - by intros ->.
  - intros Hid. rewrite !not_elem_of_cons. split_and!; auto using not_elem_of_nil.
Qed.

(** C38: the topics of the clients. When the server answers the clients [ids] with
    their configurations, every role that is known runs and no other. For clients with
    no telemetry, command or subscribe topics of their own, a subscriber listens to just
    the two topics that a publisher of the same client uses, none of them empty, and to
    none of the topics of any other client. *)
Theorem client_topics `{RandSource} (ids : list string) baseURL new_request Do decode render srv :
  (∀ url, new_request url = None) →
  (∀ id, id ∈ ids → id ≠ ""%string) →
  (∀ id, id ∈ ids → decode (render (handleConfig id srv).1) = inr (device_of (handleConfig id srv).1)) →
  (∀ id, id ∈ ids → Do (mkRequest "GET" (baseURL +:+ "/config/" +:+ PathEscape id)%string None 0) () =
     (inr (ClientHTTP.mkResponse 200 "200 OK" (render (handleConfig id srv).1)), ())) →
  let get id := (ClientHTTP.GetConfig baseURL new_request Do decode id ()).1 in
  (∀ cfg, ClientID cfg ∈ ids →
     (Role cfg ∈ known_roles ↔ (∃ r, run cfg None None None get (λ _, None) = inr r))) ∧
  ∀ cfg cfg' r r' p s, ClientID cfg ∈ ids → ClientID cfg' ∈ ids → default_topics cfg → default_topics cfg' →
    run cfg None None None get (λ _, None) = inr r → run cfg' None None None get (λ _, None) = inr r' →
    p ∈ publishers r → s ∈ subscribers r' →
    pu_TelemetryTopic p ≠ ""%string ∧ pu_CommandTopic p ≠ ""%string ∧
    (ClientID cfg = ClientID cfg' → su_Topics s = [pu_TelemetryTopic p; pu_CommandTopic p]) ∧
    (ClientID cfg ≠ ClientID cfg' → (pu_TelemetryTopic p ∉ su_Topics s) ∧ (pu_CommandTopic p ∉ su_Topics s)).
Proof.
  intros Hnew Hids Hdec Hdo get.
  assert (∀ id, id ∈ ids → get id = inr (device_of (handleConfig id srv).1)) as Hget.
  { intros id Hid. unfold get, ClientHTTP.GetConfig, getJSON. destruct (String.eqb_spec id ""); [by destruct (Hids id)|].
    rewrite Hnew, Hdo by done. cbn [ClientHTTP.StatusCode ClientHTTP.resp_Body]. by rewrite Hdec. }
  split.
  - intros cfg Hid. split; [|intros [r Hr]; by apply run_roles in Hr as [? _]].
    intros Hrole. unfold run. rewrite bool_decide_true by done. cbn [negb]. rewrite (Hget _ Hid).
    repeat case_match; try by eexists. exfalso.
    repeat match goal with E : String.eqb _ _ = false |- _ => apply String.eqb_neq in E end.
    unfold known_roles in Hrole. rewrite !elem_of_cons, elem_of_nil in Hrole. tauto.
  - intros cfg cfg' r r' p s Hin Hin' Ht Ht' Hr Hr' Hp Hs.
    apply run_roles in Hr as (_ & Hpub & _), Hr' as (_ & _ & Hsub).
    destruct (Hpub _ Hp) as (dev & Hdev & ->), (Hsub _ Hs) as (dev' & Hdev' & ->).
    rewrite Hget in Hdev, Hdev' by done. injection Hdev as <-. injection Hdev' as <-.
    exact (topics_of_devices cfg cfg' srv Ht Ht').
Qed.

(** ** The profile of the proxy *)

Lemma NormalizeProfile_renamed p q name :
  NormalizeProfile p = Ok q → name ≠ ""%string →
  NormalizeProfile (mkProfile name (Seed q) (ToServer q) (ToClient q)) =
    Ok (mkProfile name (Seed q) (ToServer q) (ToClient q)).
Proof.
  intros H Hname. apply NormalizeProfile_spec in H as (Hs & Hc & _).
  assert (Profile_Validate (mkProfile name (Seed q) (ToServer q) (ToClient q)) = Ok tt) as Hv
    by (by apply Profile_Validate_ok_iff).
  unfold NormalizeProfile, Profile_eqb. simpl. destruct (String.eqb_spec name ""); [done|]. simpl.
  destruct (String.eqb_spec name ""); [done|]. by rewrite Hv.
Qed.

Lemma filepath_Base_not_empty s : filepath_Base s ≠ ""%string.
Proof.
  unfold filepath_Base. destruct (String.eqb_spec s ""); [done|].
  destruct (drop_while _ _) as [|x l] eqn:E; [done|]. apply drop_while_head in E. by apply String.eqb_neq.
Qed.

Lemma TrimSuffix_empty s p : s ≠ ""%string → TrimSuffix s p = ""%string → s = p.
Proof.
  intros Hs. unfold TrimSuffix, strip_suffix. destruct (strip_prefix _ _) as [l|] eqn:E; simpl; [|done].
  intros Hl. apply (f_equal bytes_of_string) in Hl. rewrite bytes_of_string_of_bytes in Hl.
  change (bytes_of_string "") with (@nil byte) in Hl. apply (f_equal reverse) in Hl.
  rewrite reverse_involutive in Hl. subst l. apply strip_prefix_spec in E. rewrite app_nil_r in E.
  by apply (inj reverse), (inj bytes_of_string) in E.
Qed.

(** What loading reads of a profile file is a profile of binary64 numbers. *)
Lemma LoadFile_binary64 ReadFile Decode path p :
  (∀ d p, Decode d zero_Profile = inr p → binary64_profile p) →
  LoadFile ReadFile Decode path zero_Profile = inr p → binary64_profile p.
Proof.
  intros Hdec. unfold LoadFile. repeat case_match; intros [= <-]; [|by eapply Hdec].
  split; repeat constructor.
Qed.

(** Normalising a profile again that has lost its name gives it a standard one. *)
Lemma NormalizeProfile_unnamed p :
  accepted_direction (ToServer p) → accepted_direction (ToClient p) → Name p = ""%string →
  ∃ q, NormalizeProfile p = Ok q ∧ (Name q = "custom"%string ∨ Name q = "passthrough"%string).
Proof.
  intros Hs Hc Hn. assert (Profile_Validate p = Ok tt) as Hv by (by apply Profile_Validate_ok_iff).
  unfold NormalizeProfile. destruct (Profile_eqb p zero_Profile); simpl; [eauto|].
  rewrite Hn. simpl. change (Profile_Validate (mkProfile _ _ _ _)) with (Profile_Validate p).
  rewrite Hv. simpl. eauto.
Qed.

(** C40: the proxy command loads just the profiles that are valid. The
    probabilities of a profile that it loads are numbers from 0 to 1 (or NaN, which
    a file can give and no check refuses), and its times and rates are not negative;
    this is stated on the numbers, for a decoder that yields binary64 numbers. A file
    that gives anything else is refused. The profile has a name, and then normalising
    it again as [proxy.New] does changes nothing, unless it comes from a file whose
    name is only an extension: such a profile is not the one that runs, since New
    calls it custom or passthrough. Names of built-in profiles never read a file, and
    loading does not panic. *)
Theorem loadProfile_accepted ReadFile Decode raw :
  (∀ d p, Decode d zero_Profile = inr p → binary64_profile p) →
  match loadProfile ReadFile Decode raw with
  | Ok (p, source) =>
      valid_direction (ToServer p) ∧ valid_direction (ToClient p) ∧
      (Name p ≠ ""%string → NormalizeProfile p = Ok p) ∧
      (Name p = ""%string → filepath_Base source = filepath_Ext source ∧ BuiltinProfile raw = None ∧
         ∃ q, NormalizeProfile p = Ok q ∧ (Name q = "custom"%string ∨ Name q = "passthrough"%string)) ∧
      (∀ q, BuiltinProfile raw = Some q → p = q ∧ source = ("builtin:" +:+ raw)%string)
  | Err _ => BuiltinProfile raw = None ∧ raw ≠ ""%string ∧
      ∀ p, LoadFile ReadFile Decode (resolveProfilePath raw) zero_Profile = inr p →
        ¬ (valid_direction (ToServer p) ∧ valid_direction (ToClient p))
  | Panic => False
  end.
Proof.
  intros Hdec. unfold loadProfile. set (raw' := if String.eqb raw "" then "passthrough"%string else raw).
  assert (∀ q, BuiltinProfile raw = Some q → raw' = raw) as Hraw.
  { intros q. unfold raw'. destruct (String.eqb_spec raw "") as [Hr|]; [|done].
    rewrite Hr. intros H. vm_compute in H. discriminate H. }
  destruct (BuiltinProfile raw') as [q|] eqn:E.
  - destruct (BuiltinProfile_normal _ _ E) as (Hname & Hnorm & Hsame & _ & Hbin & _).
    destruct (NormalizeProfile_spec _ _ Hnorm) as (Hs & Hc & _ & Hne & _).
    apply accepted_valid in Hs; [|done]. apply accepted_valid in Hc; [|by rewrite <-Hsame].
    split_and!; try done. intros q' Hq'. rewrite (Hraw q' Hq') in *. by simplify_eq.
  - assert (BuiltinProfile raw = None ∧ raw ≠ ""%string ∧ raw' = raw) as (Hnone & Hne & Hr).
    { unfold raw' in *. destruct (String.eqb_spec raw ""); [vm_compute in E; discriminate E|done]. }
    rewrite Hr. destruct (LoadFile _ _ _ _) as [e|p] eqn:El; [by split_and!|].
    apply (LoadFile_binary64 _ _ _ _ Hdec) in El. pose proof (NormalizeProfile_iff p El) as Hiff.
    destruct (NormalizeProfile p) as [q|e|] eqn:Hq; simpl.
    + destruct (NormalizeProfile_spec _ _ Hq) as (Hs & Hc & _ & Hnq & Hsame & Hidem).
      assert (binary64_profile q) as [Hbs Hbc] by (by eapply NormalizeProfile_binary64).
      pose proof Hs as Hvs. pose proof Hc as Hvc. apply accepted_valid in Hvs, Hvc; [|done..].
      destruct (String.eqb_spec (Name q) "custom"); split_and!; try done; try (intros ? Hb; by rewrite Hnone in Hb).
      * simpl. intros Hn. by eapply NormalizeProfile_renamed.
      * simpl. intros Hn. split; [by apply TrimSuffix_empty; [apply filepath_Base_not_empty|]|].
        split; [done|by apply NormalizeProfile_unnamed].
    + split_and!; [done..|]. intros p' [= <-] Hv. apply Hiff in Hv as [? Hv]. done.
    + by apply NormalizeProfile_no_panic in Hq.
Qed.

(** ** Instances *)

(** A client started with a role and an identifier on the command line, and a file
    that sets the role and the log level: the flags win, the level is that of the file. *)
Definition cmd_file (c : clientConfig) : clientConfig :=
  ClientCmd.assign_field "LogLevel" (ClientCmd.mk "" "" "" "" 0 0 0 0 0 0 "" "" "" "" "debug" "" 0 0)
    (ClientCmd.assign_field "Role" (ClientCmd.mk "" "" "" "uploader" 0 0 0 0 0 0 "" "" "" "" "" "" 0 0) c).
Definition cmd_line : list string := ["--role=mixed"; "-client-id"; "dev"; "-upload-size=0x1_000"; "-config"; "client.yaml"].
Definition cmd_load : args_error + (clientConfig * values) :=
  load_args (λ _, None) (λ _, inr []) (λ _ c, inr (cmd_file c)) ClientCmd.defaults cmd_line.

(** Whether a flag was set, and its value. *)
Definition cmd_parsed (name : string) : bool * option setting :=
  match Parse (λ _, None) (command_flags ClientCmd.defaults) cmd_line with
  | inr (vs, visited) => (bool_decide (name ∈ visited), vs !! name)
  | inl _ => (false, None)
  end.

Lemma flags_win_witness :
  ∃ c vs, cmd_load = inr (c, vs) ∧ ("Role", Str "mixed") ∈ settings c ∧ ("UploadSize", Num 4096) ∈ settings c ∧
    ("LogLevel", Str "debug") ∈ settings c ∧ ("TelemetryTopic", Str "") ∈ settings c.
Proof.
  assert (match cmd_load with inl _ => false | inr _ => true end = true) as Hload by (vm_compute; reflexivity).
  destruct cmd_load as [|[c vs]] eqn:E; [discriminate|].
  destruct (flags_win (λ _, None) (λ _, inr []) (λ _ c, inr (cmd_file c)) ClientCmd.defaults cmd_line c vs E)
    as (visited & file & Hp & Hfile & _ & Hset & _ & _).
  assert (∀ name, (cmd_parsed name).1 = bool_decide (name ∈ visited)) as Hv1 by (intros name; unfold cmd_parsed; by rewrite Hp).
  assert (∀ name, (cmd_parsed name).2 = vs !! name) as Hv2 by (intros name; unfold cmd_parsed; by rewrite Hp).
  assert (str vs "config" = "client.yaml"%string) as Hpath.
  { unfold str. rewrite <- Hv2. vm_compute. reflexivity. }
  rewrite Hpath in Hfile. injection Hfile as <-.
  assert (∀ name field v, (name, field) ∈ cases (cfg := clientConfig) →
    (if (cmd_parsed name).1 then bool_decide ((cmd_parsed name).2 = Some v)
     else bool_decide ((field, v) ∈ settings (cmd_file ClientCmd.defaults))) = true → (field, v) ∈ settings c) as Hin.
  { intros name field v Hc Hx. apply (Hset name field v Hc). rewrite Hv1, Hv2 in Hx.
    destruct (decide (name ∈ visited)); [rewrite bool_decide_true in Hx by done|rewrite bool_decide_false in Hx by done];
      by apply bool_decide_eq_true in Hx. }
  exists c, vs. split; [reflexivity|].
  split_and!; [apply (Hin "role"%string)|apply (Hin "upload-size"%string)|apply (Hin "log-level"%string)|apply (Hin "telemetry-topic"%string)];
    (apply (bool_decide_unpack _) || idtac); vm_compute; first [exact I|reflexivity].
Defined.

(** A server that knows two clients, one that publishes and one that subscribes. *)
Definition topics_Do `{RandSource} (req : http_request) (w : unit)
    : (string + ClientHTTP.http_response) * unit :=
  (inr (ClientHTTP.mkResponse 200 "200 OK"
     (bytes_of_string (if String.eqb (req_URL req) "https://h/config/a" then "a" else "b"))), w).
Definition topics_server : Server := mkServer "dev" 0 (mkHandler "up" 1) None 0 false.
Definition topics_decode (d : list byte) : string + DeviceConfig :=
  inr (device_of (handleConfig (string_of_bytes d) topics_server).1).
Definition topics_client (id role : string) : clientConfig :=
  ClientCmd.assign_field "ClientID" (ClientCmd.mk "" "" id "" 0 0 0 0 0 0 "" "" "" "" "" "" 0 0)
    (ClientCmd.assign_field "Role" (ClientCmd.mk "" "" "" role 0 0 0 0 0 0 "" "" "" "" "" "" 0 0) ClientCmd.defaults).
Definition demo_rand : RandSource := {| source := unit; NewSource _ := tt; Int63 _ := (0, tt) |}.
Definition topics_get (id : string) : string + DeviceConfig :=
  (@ClientHTTP.GetConfig demo_rand unit "https://h" (λ _, None) topics_Do topics_decode id ()).1.

Lemma client_topics_witness :
  (∃ r, run (topics_client "a" "mixed") None None None topics_get (λ _, None) = inr r) ∧
  ∀ r r' p s, run (topics_client "a" "mixed") None None None topics_get (λ _, None) = inr r →
    run (topics_client "b" "subscriber") None None None topics_get (λ _, None) = inr r' →
    p ∈ publishers r → s ∈ subscribers r' → pu_TelemetryTopic p ∉ su_Topics s.
Proof.
  destruct (@client_topics demo_rand ["a"; "b"]%string "https://h" (λ _, None) topics_Do topics_decode
    (λ r, bytes_of_string (cr_ClientID r)) topics_server) as [Hrun Htop].
  - done.
  - intros id. rewrite !elem_of_cons, elem_of_nil. by intros [->|[->|[]]].
  - intros id _. unfold topics_decode. by rewrite string_of_bytes_of_string.
  - intros id. rewrite !elem_of_cons, elem_of_nil. intros [->|[->|[]]]; reflexivity.
  - split.
    + apply Hrun; [by left|]. unfold known_roles. do 4 right. by left.
    + intros r r' p s Hr Hr' Hp Hs. apply (Htop (topics_client "a" "mixed") (topics_client "b" "subscriber") r r');
        try done; [by left|by right; left].
Defined.

(** A profile file with the probability [n/d] of a drop towards the server. *)
Definition drop_profile (n d : Z) : Profile.Profile :=
  Profile.mkProfile "" 7 (mkDirectionConfig (f64 n d) f64_0 f64_0 0 Millisecond 0 0) zero_DirectionConfig.
Definition read_any (path : string) : string + list byte := inr [].
Definition decode_drop (n d : Z) (_ : list byte) (_ : Profile.Profile) : string + Profile.Profile :=
  inr (drop_profile n d).

Lemma loadProfile_accepted_witness :
  loadProfile read_any (decode_drop 1 4) "lab" =
    Ok (Profile.mkProfile "proxy-lab" 7 (ToServer (drop_profile 1 4)) zero_DirectionConfig, "configs/proxy-lab.yaml"%string) ∧
  unit_number (DropProbability (ToServer (drop_profile 1 4))) ∧
  ¬ (valid_direction (ToServer (drop_profile 3 2)) ∧ valid_direction (ToClient (drop_profile 3 2))).
Proof.
  assert (H14 : loadProfile read_any (decode_drop 1 4) "lab" =
    Ok (Profile.mkProfile "proxy-lab" 7 (ToServer (drop_profile 1 4)) zero_DirectionConfig, "configs/proxy-lab.yaml"%string))
    by (vm_compute; reflexivity).
  split; [exact H14|]. split.
  - pose proof (loadProfile_accepted read_any (decode_drop 1 4) "lab") as Hload. rewrite H14 in Hload.
    destruct Hload as [[Hp _] _]; [intros d p [= <-]; split; repeat constructor|].
    apply Forall_cons in Hp as [[Hp|Hp] _]; [exact Hp|vm_compute in Hp; discriminate Hp].
  - pose proof (loadProfile_accepted read_any (decode_drop 3 2) "lab") as Hload.
    destruct (loadProfile read_any (decode_drop 3 2) "lab") as [[p source]|e|] eqn:E;
      [vm_compute in E; discriminate E| |vm_compute in E; discriminate E].
    destruct Hload as (_ & _ & Hload); [intros d p [= <-]; split; repeat constructor|].
    apply Hload. reflexivity.
Defined.
