(* ===== verification/UploadCap.v ===== *)
(** * UploadCap: the storage cap of a server, under concurrent uploads

    Every request runs in a goroutine of its own. Its two phases, [store] up to the
    renaming of the file and [finish] with the pruning, interleave with those of the
    other requests; each is taken as one step, the calls within are not interleaved
    further. *)

From S2P Require Import Prelude Text FS Sha256 Upload UploadNames UploadProofs UploadTheorems UploadServe Server.

#[local] Arguments resolve : simpl never.

(** ** Interleaved uploads *)

Record upload := mkUpload { u_request : Request; u_randoms : list string; u_elapsed : Z }.

(** A request whose file is stored, and one that is answered. *)
Inductive upload_pc :=
| Storing (target : string) (resp : Response)
| Answered (rep : reply) (on_stored : list Response).

Record uploads := mkUploads { ups : gmap nat upload_pc; ups_fs : FS }.

(** The request [i] arrives and is stored, or refused, at some time; or it is
    finished. *)
Inductive upload_event :=
| EvStore (i : nat) (u : upload) (now : Z)
| EvFinish (i : nat).

Definition set_clock (t : Z) (fs : FS) : FS := mkFS (nodes fs) t (faults fs).

Definition upload_step (h : Handler) (ev : upload_event) (st : uploads) : option uploads :=
  match ev with
  | EvStore i u now =>
      match ups st !! i with
      | Some _ => None
      | None =>
          match store h (u_request u) (u_randoms u) (u_elapsed u) (set_clock now (ups_fs st)) with
          | (inl rep, fs) => Some (mkUploads (<[i := Answered rep []]> (ups st)) fs)
          | (inr (target, resp), fs) => Some (mkUploads (<[i := Storing target resp]> (ups st)) fs)
          end
      end
  | EvFinish i =>
      match ups st !! i with
      | Some (Storing target resp) =>
          let '(rep, stored, fs) := finish h target resp (ups_fs st) in
          Some (mkUploads (<[i := Answered rep stored]> (ups st)) fs)
      | _ => None
      end
  end.

Fixpoint run_uploads (h : Handler) (evs : list upload_event) (st : uploads) : option uploads :=
  match evs with
  | [] => Some st
  | ev :: evs => match upload_step h ev st with Some st => run_uploads h evs st | None => None end
  end.

Definition is_storing (pc : upload_pc) : Prop := match pc with Storing _ _ => True | _ => False end.
#[global] Instance is_storing_dec pc : Decision (is_storing pc).
Proof. destruct pc; simpl; apply _. Defined.

(** The number of requests between their phases. *)
Definition pending (st : uploads) : Z := Z.of_nat (size (filter (λ x : nat * upload_pc, is_storing x.2) (ups st))).

(** ** The bytes in the directory *)

Definition zsum {A} (f : A → Z) (l : list A) : Z := foldr (λ x n, f x + n) 0 l.

Lemma zsum_app {A} (f : A → Z) l k : zsum f (l ++ k) = zsum f l + zsum f k.
Proof. induction l as [|x l IH]; simpl; lia. Qed.
Lemma zsum_perm {A} (f : A → Z) l k : l ≡ₚ k → zsum f l = zsum f k.
Proof. induction 1; simpl; lia. Qed.
Lemma zsum_ext {A} (f g : A → Z) l : (∀ x, x ∈ l → f x = g x) → zsum f l = zsum g l.
Proof.
  induction l as [|x l IH]; intros Hfg; [done|]. simpl. rewrite Hfg by left. f_equal. apply IH. intros. apply Hfg. by right.
Qed.
Lemma zsum_zero {A} (f : A → Z) l : (∀ x, x ∈ l → f x = 0) → zsum f l = 0.
Proof.
  induction l as [|x l IH]; intros Hf; [done|]. simpl. rewrite Hf by left. apply IH. intros. apply Hf. by right.
Qed.

Lemma sublist_map {A B} (f : A → B) l k : l `sublist_of` k → map f l `sublist_of` map f k.
Proof. induction 1; simpl; by constructor. Qed.

Section stored.
Context (dir : string) (Hdir : dir ≠ ""%string).
Let d : path := resolve dir.

Definition bytes_stored (fs : FS) : Z := total_size (files_of dir fs).
Definition fsize (fs : FS) (x : string) : Z :=
  match nodes fs !! child d x with Some (File c _) => zlen c | _ => 0 end.

Lemma fsize_nonneg fs x : 0 ≤ fsize fs x.
Proof. unfold fsize. repeat case_match; first [apply zlen_nonneg|done]. Qed.

Lemma bytes_stored_names fs : bytes_stored fs = zsum (fsize fs) (dir_names fs d).
Proof.
  unfold bytes_stored, files_of. change (resolve dir) with d. induction (dir_names fs d) as [|x l IH]; [done|].
  simpl. unfold file_of at 1, fsize at 1. change (resolve dir) with d.
  destruct (nodes fs !! child d x) as [[c m| |]|]; [exact (f_equal (Z.add (zlen c)) IH)|exact IH..].
Qed.

(** Any list of names that has those of the directory will do. *)
Lemma bytes_stored_superset fs xs :
  NoDup xs → (∀ x, x ∈ dir_names fs d → x ∈ xs) → bytes_stored fs = zsum (fsize fs) xs.
Proof.
  intros Hnd Hsub. rewrite bytes_stored_names.
  assert (dir_names fs d ⊆+ xs) as [rest Hperm]%submseteq_Permutation
    by (apply NoDup_submseteq; [apply NoDup_dir_names|done]).
  rewrite (zsum_perm _ _ _ Hperm), zsum_app, (zsum_zero _ rest); [lia|].
  intros x Hx. assert (x ∉ dir_names fs d) as Hn.
  { rewrite Hperm, NoDup_app in Hnd. intros Hin. by apply (proj1 (proj2 Hnd) x). }
  rewrite elem_of_dir_names in Hn. unfold fsize. by destruct (nodes fs !! child d x) eqn:E; [destruct Hn|].
Qed.

(** A change of one entry. *)
Lemma bytes_stored_change fs fs' x :
  (∀ y, y ≠ x → fsize fs' y = fsize fs y) → bytes_stored fs' + fsize fs x = bytes_stored fs + fsize fs' x.
Proof.
  intros Hsame. set (xs := remove_dups (x :: dir_names fs d ++ dir_names fs' d)).
  assert (NoDup xs) as Hnd by apply NoDup_remove_dups.
  rewrite (bytes_stored_superset fs xs), (bytes_stored_superset fs' xs); try done;
    [|intros y Hy; apply elem_of_remove_dups; set_solver..].
  assert (x ∈ xs) as [xs' Hperm]%elem_of_Permutation by (apply elem_of_remove_dups; left).
  rewrite !(zsum_perm _ _ _ Hperm). simpl. rewrite (zsum_ext (fsize fs') (fsize fs)); [lia|].
  intros y Hy. apply Hsame. intros ->. rewrite Hperm in Hnd. by apply NoDup_cons in Hnd as [? _].
Qed.

Lemma bytes_stored_two fs x y : x ≠ y → fsize fs x + fsize fs y ≤ bytes_stored fs.
Proof.
  intros Hne. rewrite (bytes_stored_superset fs (remove_dups (x :: y :: dir_names fs d))).
  2: apply NoDup_remove_dups. 2: { intros z Hz. apply elem_of_remove_dups. by do 2 right. }
  set (xs := remove_dups _). assert (Hnd : NoDup xs) by apply NoDup_remove_dups.
  assert ([x; y] ⊆+ xs) as [rest Hperm]%submseteq_Permutation.
  { apply NoDup_submseteq; [|intros z Hz; apply elem_of_remove_dups; set_solver].
    apply NoDup_cons. split; [|apply NoDup_singleton]. by intros ?%list_elem_of_singleton. }
  rewrite (zsum_perm _ _ _ Hperm). simpl.
  assert (0 ≤ zsum (fsize fs) rest); [|lia]. clear. induction rest as [|z l IH]; simpl; [lia|].
  pose proof (fsize_nonneg fs z). lia.
Qed.

Lemma bytes_stored_ext fs fs' : (∀ y, fsize fs' y = fsize fs y) → bytes_stored fs' = bytes_stored fs.
Proof. intros Hsame. pose proof (bytes_stored_change fs fs' "" (λ y _, Hsame y)). rewrite Hsame in *. lia. Qed.

(** Removing files of the directory. *)
Definition is_file (fs : FS) (f : uploadFile) : Prop :=
  ∃ x c m, resolve (uf_path f) = child d x ∧ nodes fs !! child d x = Some (File c m) ∧ uf_size f = zlen c.

Lemma bytes_stored_delete gone : ∀ fs fl t,
  NoDup (map (λ f, resolve (uf_path f)) gone) → Forall (is_file fs) gone →
  bytes_stored (mkFS (delete_files gone (nodes fs)) t fl) = bytes_stored fs - total_size gone.
Proof.
  induction gone as [|f gone IH]; intros fs fl t Hnd Hall; simpl.
  { rewrite Z.sub_0_r. by apply bytes_stored_ext. }
  apply NoDup_cons in Hnd as [Hf Hnd]. apply Forall_cons in Hall as [(x & c & m & Hk & Hx & Hs) Hall].
  specialize (IH (set_nodes fs (delete (resolve (uf_path f)) (nodes fs))) fl t Hnd). simpl in IH. rewrite IH.
  - pose proof (bytes_stored_change fs (set_nodes fs (delete (resolve (uf_path f)) (nodes fs))) x) as Hch.
    unfold fsize in Hch. cbn [nodes set_nodes] in Hch. rewrite Hk, lookup_delete_eq, Hx in Hch. rewrite Hk. lapply Hch; [lia|].
    intros y Hy. rewrite lookup_delete_ne; [done|]. intros E. by apply child_inj in E.
  - rewrite Forall_forall in *. intros g Hg. destruct (Hall g Hg) as (y & cy & my & Hky & Hy & Hsy).
    exists y, cy, my. split; [done|]. split; [|done]. simpl. rewrite lookup_delete_ne; [done|].
    rewrite <-Hky. intros E. apply Hf. rewrite E. apply list_elem_of_fmap. by exists g.
Qed.

(** Pruning without failing calls: the files that go, and what is left. *)
Lemma evictable_split keep (files : list uploadFile) :
  total_size files = total_size (evictable keep files) +
    total_size (filter (λ f, resolve (uf_path f) = resolve keep) files).
Proof.
  unfold evictable. induction files as [|f l IH]; [done|]. rewrite !filter_cons.
  destruct (decide (resolve (uf_path f) = resolve keep)); (rewrite decide_False by tauto) || rewrite decide_True by done;
    simpl; lia.
Qed.

Lemma kept_size keep max files :
  NoDup (map (λ f, resolve (uf_path f)) files) → 0 ≤ max →
  (∀ f, f ∈ files → resolve (uf_path f) = resolve keep → uf_size f ≤ max) →
  total_size (filter (λ f, resolve (uf_path f) = resolve keep) files) ≤ max.
Proof.
  intros Hnd Hmax Hk. induction files as [|f l IH]; [done|]. simpl in Hnd. apply NoDup_cons in Hnd as [Hf Hnd].
  rewrite filter_cons. case_decide as Hfk; [|apply IH; [done|]; intros g Hg; apply Hk; by right].
  simpl. replace (filter _ l) with (@nil uploadFile); [simpl; rewrite Z.add_0_r; apply Hk; [by left|done]|].
  symmetry. apply elem_of_nil_inv. intros g [Hgk Hg]%list_elem_of_filter. apply Hf. rewrite Hfk, <-Hgk.
  apply list_elem_of_fmap. by exists g.
Qed.

Record capped_by (max : Z) (keep : string) (fs fs' : FS) : Prop := {
  capped_bytes : bytes_stored fs' ≤ max;
  capped_entries : entries_ok fs' d;
  capped_dir : node_at fs' d = Some Dir;
  capped_faults : faults fs' = [];
  capped_keep : nodes fs' !! resolve keep = nodes fs !! resolve keep;
  capped_rest q : nodes fs' !! q = nodes fs !! q ∨ nodes fs' !! q = None;
}.

Lemma PruneDir_capped max keep fs :
  faults fs = [] → node_at fs d = Some Dir → entries_ok fs d → 0 < max → bytes_stored fs ≤ max_int64 →
  (∀ x c m, resolve keep = child d x → nodes fs !! child d x = Some (File c m) → zlen c ≤ max) →
  ∃ res fs', PruneDir dir max keep fs = ((res, None), fs') ∧ capped_by max keep fs fs'.
Proof.
  intros Hf Hd Hok Hmax Htot Hkeep.
  destruct (PruneDir_lemma dir Hdir max keep fs Hf Hd Hok Hmax Htot) as (gone & [Hpre _ Henough] & E). cbv zeta in E.
  set (files := merge_sort older (files_of dir fs)) in *.
  assert (Hperm : files ≡ₚ files_of dir fs) by apply merge_sort_Permutation.
  assert (Hnd : NoDup (map (λ f, resolve (uf_path f)) files)) by (rewrite Hperm; by apply files_of_NoDup).
  assert (Hsub : gone `sublist_of` files).
  { apply (transitivity (y := evictable keep files)); [|apply sublist_filter].
    destruct Hpre as [k ->]. by apply sublist_inserts_r. }
  assert (Hfile : Forall (is_file fs) gone).
  { apply Forall_forall. intros f Hin. assert (f ∈ files_of dir fs) as Hin'
      by (rewrite <-Hperm; by eapply elem_of_sublist).
    destruct (files_of_keys dir Hdir fs f Hok Hin') as (x & c & m & Hk & Hx & _ & _ & ->). by exists x, c, m. }
  assert (Hndg : NoDup (map (λ f, resolve (uf_path f)) gone)) by (eapply sublist_NoDup; [exact Hnd|by apply sublist_map]).
  assert (Hleft : total_size (files_of dir fs) - total_size gone ≤ max).
  { destruct Henough as [|Hall]; [done|]. rewrite <-(total_size_perm _ _ Hperm), (evictable_split keep files), <-Hall.
    assert (total_size (filter (λ f, resolve (uf_path f) = resolve keep) files) ≤ max); [|lia].
    apply kept_size; [done|lia|]. intros f Hin Hfk. rewrite Hperm in Hin.
    destruct (files_of_keys dir Hdir fs f Hok Hin) as (x & c & m & Hk & Hx & _ & _ & ->). simpl.
    apply (Hkeep x c m); [rewrite <-Hfk; exact Hk|exact Hx]. }
  rewrite E. destruct (Z.ltb_spec max (total_size (files_of dir fs) - total_size gone)); [lia|]. eexists _, _. split; [done|].
  assert (Hrest : ∀ q, delete_files gone (nodes fs) !! q = nodes fs !! q ∨
    (delete_files gone (nodes fs) !! q = None ∧ ∃ f, f ∈ gone ∧ resolve (uf_path f) = q)).
  { intros q. rewrite (delete_files_lookup dir). case_decide as Hin; [|by left]. right. split; [done|].
    apply list_elem_of_fmap in Hin as (f & Hq & Hin). by exists f. }
  split; simpl; try done.
  - unfold bytes_stored at 1. change (total_size (files_of dir ?fs)) with (bytes_stored fs).
    rewrite bytes_stored_delete by done. exact Hleft.
  - intros x Hx. apply Hok. intros Hn. apply Hx. simpl. destruct (Hrest (child d x)) as [->|[-> _]]; done.
  - unfold node_at in *. destruct d as [b [|s segs]] eqn:Ed; [done|]. simpl. destruct (Hrest (b, s :: segs)) as [->|(_ & f & Hin & Hk)]; [done|].
    rewrite Forall_forall in Hfile. destruct (Hfile f Hin) as (x & c & m & Hk' & Hx & _). rewrite Hk in Hk'.
    rewrite Ed in Hk'. symmetry in Hk'. by apply child_ne in Hk'.
  - destruct (Hrest (resolve keep)) as [->|(_ & f & Hin & Hk)]; [done|].
    destruct Hpre as [k Hpre]. assert (f ∈ evictable keep files) as Hev by (rewrite Hpre; apply elem_of_app; by left).
    by apply list_elem_of_filter in Hev as [? _].
  - intros q. destruct (Hrest q) as [->|[-> _]]; auto.
Qed.

End stored.

(** ** One phase *)

Section phases.
Context (h : Handler).
Hypothesis (Hdir : h_Dir h ≠ ""%string) (Hcap : 0 < MaxStorageBytes h).
Let d : path := resolve (h_Dir h).
Abbreviation cap := (MaxStorageBytes h).
Abbreviation sz := (fsize (h_Dir h)).
Abbreviation bytes := (bytes_stored (h_Dir h)).

(** A file that is waiting to be finished. *)
Definition waiting (fs : FS) (target : string) : Prop :=
  node_at fs d = Some Dir ∧ ∃ name, safe_name name ∧ target = Join (h_Dir h) name ∧ sz fs name ≤ cap.

Lemma waiting_mono fs fs' target :
  waiting fs target → node_at fs' d = Some Dir → (∀ x, sz fs' x = sz fs x ∨ sz fs' x ≤ cap) → waiting fs' target.
Proof.
  intros (_ & name & Hn & Ht & Hs) Hd Hsz. split; [done|]. exists name. split_and!; [done|done|].
  destruct (Hsz name) as [->|]; done.
Qed.

(** What storing does without failing calls. *)
Record store_effect (fs fs' : FS) (res : reply + string * Response) : Prop := {
  se_faults : faults fs' = [];
  se_entries : entries_ok fs' d;
  se_dir : node_at fs d = Some Dir → node_at fs' d = Some Dir;
  se_sizes x : sz fs' x = sz fs x ∨ sz fs' x ≤ cap;
  se_result :
    match res with
    | inl rep => bytes fs' = bytes fs ∧ ∀ status pe, rep ≠ (status, inl (ErrPrune pe))
    | inr (target, resp) => bytes fs' ≤ bytes fs + cap ∧ waiting fs' target
    end;
}.

Lemma no_trace_effect fs fs' : faults fs = [] → no_trace h fs fs' →
  (node_at fs d = Some Dir → node_at fs' d = Some Dir) ∧ (∀ x, sz fs' x = sz fs x).
Proof.
  intros Hf Hnt.
  assert (∀ q, nodes fs' !! q = nodes fs !! q ∨ (nodes fs !! q = None ∧ nodes fs' !! q = Some Dir)) as Hq.
  { intros q. destruct (Hnt q) as [|[Hn [|[Hne _]]]]; [by left|by right|done]. }
  split.
  - unfold node_at. destruct d as [b [|s segs]]; [done|]. intros Hd.
    destruct (Hq (b, s :: segs)) as [->|[? _]]; [done|congruence].
  - intros x. unfold fsize. fold d. by destruct (Hq (child d x)) as [->|[-> ->]].
Qed.

Lemma store_capped r randoms elapsed fs res fs' :
  faults fs = [] → entries_ok fs d → Forall no_slash randoms →
  store h r randoms elapsed fs = (res, fs') → store_effect fs fs' res.
Proof.
  intros Hf Hok Hrnd H.
  destruct (store_checks _ _ _ _ _ _ _ H) as [(-> & status & e & -> & _ & Hpe)|(_ & name & Hsan & Hname)].
  { split; try done; [by left|]. split; [done|]. intros ? pe [= _ ->]. by destruct (Hpe pe). }
  pose proof (store_spec h name Hdir Hname _ _ _ _ _ _ Hsan Hrnd Hok H) as Hs. destruct res as [rep|[target resp]].
  - destruct Hs as (status & e & -> & _ & Hpe & [Hnt Hok' Hf']).
    destruct (no_trace_effect _ _ Hf Hnt) as [Hd Hsz]. split; auto.
    split; [by apply bytes_stored_ext|]. intros ? pe [= _ ->]. by destruct (Hpe pe).
  - destruct Hs as [-> _ _ [m Hm] Hlim Hok' Hd Ho Hf'].
    assert (sz fs' name = zlen (concat (rq_chunks r))) as Hsn by (unfold fsize; by rewrite Hm).
    specialize (Hlim Hcap).
    assert (∀ x, x ≠ name → sz fs' x = sz fs x) as Hsz.
    { intros x Hx. unfold fsize. by destruct (Ho x Hx) as [->|[-> ->]]. }
    split; auto.
    + intros x. destruct (decide (x = name)) as [->|]; [right; lia|left; auto].
    + split.
      * pose proof (bytes_stored_change _ Hdir fs fs' name Hsz). pose proof (fsize_nonneg (h_Dir h) fs name). lia.
      * split; [done|]. exists name. split_and!; [done|done|lia].
Qed.

(** What finishing does: the cap holds again, and pruning does not fail. *)
Lemma finish_capped target resp fs :
  faults fs = [] → entries_ok fs d → bytes fs ≤ max_int64 → waiting fs target →
  ∃ fs', finish h target resp fs = ((StatusOK, inr resp), [resp], fs') ∧
    capped_by (h_Dir h) cap target fs fs' ∧ ∀ x, sz fs' x = sz fs x ∨ sz fs' x ≤ cap.
Proof.
  intros Hf Hok Htot (Hd & name & Hname & -> & Hsz). destruct (safe_name_ordinary name Hname).
  destruct (PruneDir_capped (h_Dir h) Hdir cap (Join (h_Dir h) name) fs) as (res & fs' & E & Hc); try done.
  { intros x c m Hx Hc. rewrite resolve_Join in Hx by done. apply child_inj in Hx as <-.
    unfold fsize in Hsz. by rewrite Hc in Hsz. }
  exists fs'. unfold finish. destruct (Z.ltb_spec 0 cap); [|lia]. rewrite E. split_and!; [done|done|].
  intros x. unfold fsize. destruct (capped_rest _ _ _ _ _ Hc (child (resolve (h_Dir h)) x)) as [->| ->]; [by left|right; lia].
Qed.
End phases.

(** ** Every interleaving *)

Section interleaved.
Context (h : Handler).
Hypothesis (Hdir : h_Dir h ≠ ""%string) (Hcap : 0 < MaxStorageBytes h).
Let d : path := resolve (h_Dir h).
Abbreviation cap := (MaxStorageBytes h).

Record capped_inv (st : uploads) : Prop := {
  ci_faults : faults (ups_fs st) = [];
  ci_entries : entries_ok (ups_fs st) d;
  ci_bytes : bytes_stored (h_Dir h) (ups_fs st) ≤ cap * (1 + pending st);
  ci_waiting i target resp : ups st !! i = Some (Storing target resp) → waiting h (ups_fs st) target;
  ci_answers i rep stored : ups st !! i = Some (Answered rep stored) →
    ∀ status pe, rep ≠ (status, inl (ErrPrune pe));
}.

Definition event_ok (ev : upload_event) : Prop :=
  match ev with EvStore _ u _ => Forall no_slash (u_randoms u) | EvFinish _ => True end.

Lemma pending_storing i target resp m fs fs' : m !! i = None →
  pending (mkUploads (<[i := Storing target resp]> m) fs') = pending (mkUploads m fs) + 1.
Proof.
  intros Hi. unfold pending. simpl. rewrite map_filter_insert_True by done.
  rewrite map_size_insert_None; [lia|]. apply map_lookup_filter_None. by left.
Qed.

Lemma pending_refused i rep stored m fs fs' : m !! i = None →
  pending (mkUploads (<[i := Answered rep stored]> m) fs') = pending (mkUploads m fs).
Proof.
  intros Hi. unfold pending. simpl. rewrite map_filter_insert_False by (intros []).
  by rewrite delete_id.
Qed.

Lemma pending_answered i target resp rep stored m fs fs' : m !! i = Some (Storing target resp) →
  pending (mkUploads (<[i := Answered rep stored]> m) fs') = pending (mkUploads m fs) - 1.
Proof.
  intros Hi. unfold pending. simpl. rewrite map_filter_insert_False by (intros []).
  rewrite map_filter_delete. set (fm := filter _ m).
  assert (fm !! i = Some (Storing target resp)) as Hfi by (by apply map_lookup_filter_Some).
  rewrite map_size_delete_Some by eauto.
  assert (size fm ≠ 0%nat) as Hne by (intros E%map_size_empty_inv; by rewrite E in Hfi). lia.
Qed.

Lemma pending_nonneg st : 0 ≤ pending st.
Proof. unfold pending. lia. Qed.

(** The other uploads are not disturbed. *)
Lemma insert_waiting i pc (m : gmap nat upload_pc) fs fs' :
  (∀ j target resp, m !! j = Some (Storing target resp) → waiting h fs target) →
  (node_at fs d = Some Dir → node_at fs' d = Some Dir) →
  (∀ x, fsize (h_Dir h) fs' x = fsize (h_Dir h) fs x ∨ fsize (h_Dir h) fs' x ≤ cap) →
  (∀ target resp, pc = Storing target resp → waiting h fs' target) →
  ∀ j target resp, <[i := pc]> m !! j = Some (Storing target resp) → waiting h fs' target.
Proof.
  intros Hw Hd Hsz Hpc j target resp. rewrite lookup_insert_Some. intros [[_ Hj]|[_ Hj]]; [eauto|].
  specialize (Hw _ _ _ Hj). eapply waiting_mono; [exact Hw|apply Hd, Hw|exact Hsz].
Qed.

Lemma insert_answers i pc (m : gmap nat upload_pc) :
  (∀ j rep stored, m !! j = Some (Answered rep stored) → ∀ status pe, rep ≠ (status, inl (ErrPrune pe))) →
  (∀ rep stored, pc = Answered rep stored → ∀ status pe, rep ≠ (status, inl (ErrPrune pe))) →
  ∀ j rep stored, <[i := pc]> m !! j = Some (Answered rep stored) → ∀ status pe, rep ≠ (status, inl (ErrPrune pe)).
Proof. intros Hm Hpc j rep stored. rewrite lookup_insert_Some. intros [[_ Hj]|[_ Hj]]; [by eapply Hpc|by eapply Hm]. Qed.

Lemma upload_step_capped ev st st' :
  capped_inv st → event_ok ev → cap * (1 + pending st) ≤ max_int64 → upload_step h ev st = Some st' →
  capped_inv st' ∧ pending st' ≤ pending st + 1.
Proof.
  intros [Hf Hok Hb Hw Ha] Hev Hmax. destruct st as [m fs]. cbn [ups ups_fs] in *. destruct ev as [i u now|i]; simpl.
  - destruct (m !! i) eqn:Hi; [done|]. destruct (store _ _ _ _ _) as [res fs'] eqn:E.
    assert (store_effect h (set_clock now fs) fs' res) as [Hf' Hok' Hd Hsz Hres]
      by (by eapply store_capped; [..|exact E]).
    destruct res as [rep|[target resp]]; intros [= <-].
    + destruct Hres as [Hbytes Hrep]. split; [|rewrite (pending_refused _ _ _ _ fs) by done; lia].
      split; simpl; try done; [|eapply insert_waiting; eauto; done|].
      * rewrite (pending_refused _ _ _ _ fs), Hbytes by done. exact Hb.
      * eapply insert_answers; [done|]. by intros ?? [= <- _].
    + destruct Hres as [Hbytes Hnew]. split; [|rewrite (pending_storing _ _ _ _ fs) by done; lia].
      split; simpl; try done; [|eapply insert_waiting; eauto|by eapply insert_answers].
      * rewrite (pending_storing _ _ _ _ fs) by done. change (bytes_stored _ (set_clock now fs)) with (bytes_stored (h_Dir h) fs) in Hbytes. lia.
      * by intros ?? [= <- _].
  - destruct (m !! i) as [[target resp|]|] eqn:Hi; [|done..].
    destruct (finish_capped h Hdir Hcap target resp fs) as (fs' & -> & Hc & Hsz); [done|done|lia|by eapply Hw|].
    intros [= <-]. assert (pending (mkUploads (<[i := Answered (StatusOK, inr resp) [resp]]> m) fs') = pending (mkUploads m fs) - 1)
      as Hp by (by eapply pending_answered).
    pose proof (pending_nonneg (mkUploads (<[i := Answered (StatusOK, inr resp) [resp]]> m) fs')).
    split; [|lia]. destruct Hc as [Hbytes Hok' Hd' Hf' _ _]. split; simpl; try done.
    + rewrite Hp. nia.
    + eapply insert_waiting; eauto. done.
    + eapply insert_answers; [done|]. by intros ?? [= <- _].
Qed.

Lemma run_uploads_capped evs : ∀ st st',
  capped_inv st → Forall event_ok evs → cap * (1 + pending st + zlen evs) ≤ max_int64 →
  run_uploads h evs st = Some st' → capped_inv st' ∧ pending st' ≤ pending st + zlen evs.
Proof.
  induction evs as [|ev evs IH]; intros st st' Hinv Hevs Hmax; simpl.
  { intros [= <-]. rewrite zlen_nil. split; [done|lia]. }
  apply Forall_cons in Hevs as [Hev Hevs]. rewrite zlen_cons in Hmax. pose proof (zlen_nonneg evs).
  destruct (upload_step h ev st) as [st1|] eqn:E; [|done].
  destruct (upload_step_capped _ _ _ Hinv Hev ltac:(nia) E) as [Hinv1 Hp]. rewrite zlen_cons.
  intros Hrun. destruct (IH _ _ Hinv1 Hevs ltac:(nia) Hrun). split; [done|lia].
Qed.
End interleaved.

(** ** A server *)

Lemma MkdirAll_dir s fs r fs' : MkdirAll s fs = (inr r, fs') → node_at fs' (resolve s) = Some Dir.
Proof.
  intros H. apply syscall_cases in H as (fs1 & _ & _ & [(e & [=] & _)|H]). destruct r.
  apply mkdirs_inv in H as (_ & _ & _ & H). specialize (H eq_refl eq_refl). by destruct (resolve s).
Qed.

Lemma grows_sizes dir fs fs' x : grows fs fs' → fsize dir fs' x = fsize dir fs x.
Proof. intros [Hg _]. unfold fsize. by destruct (Hg (child (resolve dir) x)) as [->|[-> ->]]. Qed.

Lemma New_capped opts now listen fs srv fs1 (h := srv_upload srv) :
  New opts now listen fs = (inr srv, fs1) →
  faults fs = [] → entries_ok fs (resolve (h_Dir h)) → bytes_stored (h_Dir h) fs ≤ max_int64 →
  h_Dir h ≠ ""%string ∧ 0 < MaxStorageBytes h ∧ faults fs1 = [] ∧ entries_ok fs1 (resolve (h_Dir h)) ∧
  bytes_stored (h_Dir h) fs1 ≤ MaxStorageBytes h.
Proof.
  unfold New. intros H Hf Hok Htot. destruct (negb _); [done|]. destruct (negb _); [done|]. cbv zeta in H.
  set (dir := if String.eqb (opt_UploadDir opts) "" then _ else _) in *.
  assert (dir ≠ ""%string) as Hdir by (unfold dir; by destruct (String.eqb_spec (opt_UploadDir opts) "")).
  destruct (Z.ltb_spec (opt_UploadMaxBytes opts) 0); [done|].
  set (cap := if opt_UploadMaxBytes opts =? 0 then _ else _) in *.
  assert (0 < cap) as Hcap by (unfold cap; destruct (Z.eqb_spec (opt_UploadMaxBytes opts) 0); [done|lia]).
  destruct (MkdirAll dir fs) as [[e|u] fs2] eqn:Em; [done|].
  destruct (PruneDir dir cap "" fs2) as [[res err] fs3] eqn:Ep. destruct err as [e|]; [done|].
  destruct listen as [e|]; [done|]. injection H as <- <-. subst h. cbn [srv_upload h_Dir MaxStorageBytes] in *.
  pose proof (MkdirAll_dir _ _ _ _ Em) as Hd. pose proof (MkdirAll_grows _ _ _ _ Em) as Hg.
  destruct (PruneDir_capped dir Hdir cap "" fs2) as (res' & fs3' & Ep' & [Hb He _ Hf3 _ _]); try done.
  - by apply Hg.
  - by eapply (MkdirAll_entries_ok (mkHandler dir cap)); [..|exact Em|exact Hok]; [|left].
  - rewrite (bytes_stored_ext dir Hdir fs fs2); [done|]. intros y. by apply grows_sizes.
  - intros x c m Hx _. apply (f_equal (length ∘ snd)) in Hx. simpl in Hx. unfold child in Hx. simpl in Hx.
    rewrite length_app in Hx. simpl in Hx. change (resolve "") with (false, @nil string) in Hx. simpl in Hx. lia.
  - rewrite Ep in Ep'. injection Ep' as <- <-. done.
Qed.

(** C14: the storage cap holds. After a server has been made, and whatever uploads it
    then serves and however their phases interleave, the regular files of its
    directory take up no more than the cap for each upload between its phases and
    once more; so no more than the cap when none is, nor just after an upload has
    finished. No upload is refused for want of space to make. *)
Theorem storage_capped opts now listen fs srv fs1 evs st (h := srv_upload srv) :
  New opts now listen fs = (inr srv, fs1) →
  faults fs = [] → entries_ok fs (resolve (h_Dir h)) → bytes_stored (h_Dir h) fs ≤ max_int64 →
  Forall event_ok evs → MaxStorageBytes h * (1 + zlen evs) ≤ max_int64 →
  run_uploads h evs (mkUploads ∅ fs1) = Some st →
  bytes_stored (h_Dir h) fs1 ≤ MaxStorageBytes h ∧
  bytes_stored (h_Dir h) (ups_fs st) ≤ MaxStorageBytes h * (1 + pending st) ∧
  (∀ i st', upload_step h (EvFinish i) st = Some st' → bytes_stored (h_Dir h) (ups_fs st') ≤ MaxStorageBytes h) ∧
  ∀ i rep stored, ups st !! i = Some (Answered rep stored) → ∀ status pe, rep ≠ (status, inl (ErrPrune pe)).
Proof.
  intros HNew Hf Hok Htot Hevs Hmax Hrun.
  destruct (New_capped _ _ _ _ _ _ HNew Hf Hok Htot) as (Hdir & Hcap & Hf1 & Hok1 & Hb1). fold h in Hdir, Hcap, Hf1, Hok1, Hb1.
  assert (pending (mkUploads ∅ fs1) = 0) as Hp0 by done.
  destruct (run_uploads_capped h Hdir Hcap evs (mkUploads ∅ fs1) st) as [[Hf2 Hok2 Hb2 Hw Ha] Hp]; try done.
  { split; try done. rewrite Hp0. simpl. lia. }
  rewrite Hp0 in Hp. split_and!; [done|done| |done].
  intros i st'. simpl. destruct (ups st !! i) as [[target resp|]|] eqn:Hi; [|done..].
  destruct (finish_capped h Hdir Hcap target resp (ups_fs st)) as (fs' & -> & [Hb _ _ _ _ _] & _);
    [done|done|nia|by eapply Hw|]. by intros [= <-].
Qed.

(** ** Overlapping uploads *)

Lemma store_inv h i u now st st' g r :
  upload_step h (EvStore i u now) st = Some st' → ups st' !! i = Some (Storing g r) →
  ∃ fs', st' = mkUploads (<[i := Storing g r]> (ups st)) fs' ∧
    store h (u_request u) (u_randoms u) (u_elapsed u) (set_clock now (ups_fs st)) = (inr (g, r), fs').
Proof.
  simpl. destruct (ups st !! i); [done|]. destruct (store _ _ _ _ _) as [[rep|[target resp]] fs'];
    intros [= <-]; simpl; rewrite lookup_insert_eq; [done|]. intros [= -> ->]. by exists fs'.
Qed.

Lemma store_others h i u now st st' j :
  upload_step h (EvStore i u now) st = Some st' → j ≠ i → ups st' !! j = ups st !! j.
Proof.
  simpl. destruct (ups st !! i); [done|]. destruct (store _ _ _ _ _) as [[rep|[target resp]] fs'];
    intros [= <-] Hj; by apply lookup_insert_ne.
Qed.

(** The file of a stored upload. *)
Lemma store_file h r randoms elapsed fs target resp fs' :
  h_Dir h ≠ ""%string → entries_ok fs (resolve (h_Dir h)) → Forall no_slash randoms →
  store h r randoms elapsed fs = (inr (target, resp), fs') →
  ∃ name, target = Join (h_Dir h) name ∧ safe_name name ∧ fsize (h_Dir h) fs' name = rs_Bytes resp ∧
    ∀ x, x ≠ name → fsize (h_Dir h) fs' x = fsize (h_Dir h) fs x.
Proof.
  intros Hdir Hok Hrnd H.
  destruct (store_checks _ _ _ _ _ _ _ H) as [(_ & ? & ? & [=] & _)|(_ & name & Hsan & Hname)].
  pose proof (store_spec h name Hdir Hname _ _ _ _ _ _ Hsan Hrnd Hok H) as [-> -> _ [m Hm] _ _ _ Ho _].
  exists name. split_and!; [done|done|unfold fsize; by rewrite Hm|].
  intros x Hx. unfold fsize. by destruct (Ho x Hx) as [->|[-> ->]].
Qed.

(** C15: overlapping uploads can lose a file that both report as stored. Whenever two
    uploads under different names are both stored before the first is finished, and
    together exceed the cap, finishing the first removes the file of the second;
    both are then answered with 200 and reported to [OnStored]. *)
Theorem overlapping_upload_lost h fs u1 u2 t1 t2 st g1 g2 r1 r2 :
  h_Dir h ≠ ""%string → 0 < MaxStorageBytes h → 4 * MaxStorageBytes h ≤ max_int64 →
  faults fs = [] → entries_ok fs (resolve (h_Dir h)) → bytes_stored (h_Dir h) fs ≤ MaxStorageBytes h →
  Forall no_slash (u_randoms u1) → Forall no_slash (u_randoms u2) →
  run_uploads h [EvStore 1 u1 t1; EvStore 2 u2 t2] (mkUploads ∅ fs) = Some st →
  ups st !! 1%nat = Some (Storing g1 r1) → ups st !! 2%nat = Some (Storing g2 r2) → g1 ≠ g2 →
  MaxStorageBytes h < rs_Bytes r1 + rs_Bytes r2 →
  ∃ st', run_uploads h [EvFinish 1; EvFinish 2] st = Some st' ∧
    ups st' !! 1%nat = Some (Answered (StatusOK, inr r1) [r1]) ∧
    ups st' !! 2%nat = Some (Answered (StatusOK, inr r2) [r2]) ∧
    nodes (ups_fs st') !! resolve g2 = None.
Proof.
  intros Hdir Hcap Hmax Hf Hok Hb Hrnd1 Hrnd2 Hrun H1 H2 Hne Hover. cbn [run_uploads] in Hrun.
  destruct (upload_step h (EvStore 1 u1 t1) _) as [st1|] eqn:S1; [|done].
  destruct (upload_step h (EvStore 2 u2 t2) st1) as [st2|] eqn:S2; [|done]. injection Hrun as ->.
  destruct (run_uploads_capped h Hdir Hcap [EvStore 1 u1 t1; EvStore 2 u2 t2] (mkUploads ∅ fs) st) as [[Hf2 Hok2 Hb2 Hw2 _] Hp2].
  { split; try done. change (pending (mkUploads ∅ fs)) with 0. simpl. lia. }
  { by repeat constructor. }
  { change (pending (mkUploads ∅ fs)) with 0. change (zlen _) with 2. lia. }
  { cbn [run_uploads]. by rewrite S1, S2. }
  change (pending (mkUploads ∅ fs)) with 0 in Hp2. change (zlen _) with 2 in Hp2.
  rewrite (store_others _ _ _ _ _ _ 1%nat S2) in H1 by done.
  destruct (store_inv _ _ _ _ _ _ _ _ S1 H1) as (fs1 & -> & E1).
  destruct (store_inv _ _ _ _ _ _ _ _ S2 H2) as (fs2 & -> & E2). cbn [ups ups_fs] in *.
  destruct (store_capped h Hdir Hcap _ _ _ (set_clock t1 fs) _ _ Hf Hok Hrnd1 E1) as [_ Hok1 _ _ _].
  destruct (store_file h _ _ _ (set_clock t1 fs) _ _ _ Hdir Hok Hrnd1 E1) as (n1 & -> & Hn1 & Hs1 & _).
  destruct (store_file h _ _ _ (set_clock t2 fs1) _ _ _ Hdir Hok1 Hrnd2 E2) as (n2 & -> & Hn2 & Hs2 & Hsame).
  assert (n1 ≠ n2) as Hn by congruence. specialize (Hsame n1 Hn).
  change (fsize _ (set_clock t2 fs1) n1) with (fsize (h_Dir h) fs1 n1) in Hsame.
  destruct (safe_name_ordinary n1 Hn1), (safe_name_ordinary n2 Hn2).
  destruct (finish_capped h Hdir Hcap (Join (h_Dir h) n1) r1 fs2) as (fs3 & F1 & [Hb3 Hok3 Hd3 Hf3 Hk3 Hr3] & _);
    [done|done|nia|by apply (Hw2 1%nat _ r1)|]. rewrite resolve_Join in Hk3 by done.
  assert (nodes fs3 !! child (resolve (h_Dir h)) n2 = None) as Hgone.
  { destruct (Hr3 (child (resolve (h_Dir h)) n2)) as [Hr|]; [exfalso|done].
    pose proof (bytes_stored_two (h_Dir h) Hdir fs3 n1 n2 Hn) as Htwo. unfold fsize in *. rewrite Hr, Hk3 in Htwo. lia. }
  destruct (finish_capped h Hdir Hcap (Join (h_Dir h) n2) r2 fs3) as (fs4 & F2 & [_ _ _ _ Hk4 _] & _); [done|done|lia| |].
  { split; [done|]. exists n2. split_and!; [done|done|]. unfold fsize. rewrite Hgone. lia. }
  rewrite resolve_Join in * by done.
  assert (∀ m : gmap nat upload_pc, m !! 1%nat = Some (Storing (Join (h_Dir h) n1) r1) →
    m !! 2%nat = Some (Storing (Join (h_Dir h) n2) r2) →
    run_uploads h [EvFinish 1; EvFinish 2] (mkUploads m fs2) =
      Some (mkUploads (<[2%nat := Answered (StatusOK, inr r2) [r2]]> (<[1%nat := Answered (StatusOK, inr r1) [r1]]> m)) fs4)) as Hrun.
  { intros m Hm1 Hm2. cbn [run_uploads upload_step ups ups_fs]. rewrite Hm1, F1. cbn [ups ups_fs].
    by rewrite lookup_insert_ne, Hm2, F2 by done. }
  rewrite Hrun by done. eexists. split; [done|]. cbn [ups ups_fs].
  split_and!; [done|done|congruence].
Qed.

(** ** Instances *)

Definition cap_options : Options := mkOptions true true "" None "up" 12 false.
Definition cap_upload (name : string) (body : string) : upload :=
  mkUpload (mkRequest name (Z.of_nat (String.length body)) [bytes_of_string body] BodyEOF) ["123"%string] 9.
Definition cap_events : list upload_event :=
  [EvStore 1 (cap_upload "a" "12345678") 20; EvStore 2 (cap_upload "b" "12345678") 21; EvFinish 2].
Definition cap_start : uploads := mkUploads ∅ (New cap_options 7 None (up_fs [])).2.
Definition cap_srv : Server := mkServer "dev" 7 (up_handler 12) None 0 false.
Definition cap_state : uploads := default cap_start (run_uploads (up_handler 12) cap_events cap_start).

Lemma cap_events_ok : Forall event_ok cap_events.
Proof. apply Forall_forall. intros ev. unfold cap_events. rewrite !elem_of_cons, elem_of_nil. intros [->|[->|[->|[]]]]; try exact digits_no_slash. exact I. Qed.

Lemma storage_capped_witness :
  run_uploads (up_handler 12) cap_events cap_start = Some cap_state ∧ pending cap_state = 1 ∧
  bytes_stored "up" (ups_fs cap_state) ≤ 12 * (1 + pending cap_state) ∧
  ∀ i st', upload_step (up_handler 12) (EvFinish i) cap_state = Some st' → bytes_stored "up" (ups_fs st') ≤ 12.
Proof.
  assert (run_uploads (up_handler 12) cap_events cap_start = Some cap_state) as Hrun by (vm_compute; reflexivity).
  split; [exact Hrun|]. split; [vm_compute; reflexivity|].
  destruct (storage_capped cap_options 7 None (up_fs []) cap_srv (ups_fs cap_start) cap_events cap_state)
    as (_ & H1 & H2 & _);
    [vm_compute; reflexivity|reflexivity|exact (up_entries [])|vm_compute; discriminate|exact cap_events_ok|
     vm_compute; discriminate|exact Hrun|].
  split; [exact H1|exact H2].
Defined.

Definition overlap_events : list upload_event :=
  [EvStore 1 (cap_upload "a" "12345678") 20; EvStore 2 (cap_upload "b" "12345678") 21].
Definition overlap_start : uploads := mkUploads ∅ (up_fs []).
Definition overlap_state : uploads := default overlap_start (run_uploads (up_handler 12) overlap_events overlap_start).
Definition overlap_response : Response := mkResponse 8 (EncodeToString (sha256 (bytes_of_string "12345678"))) 9.

Lemma overlapping_upload_lost_witness :
  ∃ st', run_uploads (up_handler 12) [EvFinish 1; EvFinish 2] overlap_state = Some st' ∧
    ups st' !! 2%nat = Some (Answered (StatusOK, inr overlap_response) [overlap_response]) ∧
    nodes (ups_fs st') !! child up_dir "b" = None.
Proof.
  destruct (overlapping_upload_lost (up_handler 12) (up_fs []) (cap_upload "a" "12345678") (cap_upload "b" "12345678")
    20 21 overlap_state "up/a" "up/b" overlap_response overlap_response)
    as (st' & H1 & _ & H2 & H3);
    [discriminate|reflexivity|vm_compute; discriminate|reflexivity|exact (up_entries [])|vm_compute; discriminate|
     exact digits_no_slash|exact digits_no_slash|vm_compute; reflexivity..|discriminate|vm_compute; reflexivity|].
  exists st'. split; [exact H1|]. split; [exact H2|exact H3].
Defined.
