(* ===== verification/Fleet.v ===== *)
(** * Fleet: the command [cmd/fleet/main.go]

    A fleet of client processes with a targets file for Prometheus: the checks of
    the flags, the identifiers and addresses of the children, the JSON text of the
    targets, its writing by way of a temporary file, and the course of [run]. What
    happens to the processes and to the context is input. *)

From S2P Require Import Prelude Text FS Wire Varint Logging Roles Config Flags.

Record fleetConfig := mkFleet {
  ClientBin : string;
  ServerURL : string;
  CAFile : string;
  Role : string;
  Count : Z;
  StaggerMS : Z;
  MetricsPortBase : Z;
  MetricsHost : string;
  TargetsFile : string;
  LogLevel : string;
  LogFile : string;
  LogMaxBytes : Z;
  LogMaxFiles : Z;
  ChildLogDir : string;
  ChildLogMaxBytes : Z;
  ChildLogMaxFiles : Z;
}.

(** The client binary next to this one, if [os.Executable] knows it. *)
Definition defaultClientBinary (executable : option string) : string :=
  match executable with
  | Some exe => Join (filepath_Dir exe) "client"
  | None => Join "bin" "client"
  end.

Definition defaults (executable : option string) : fleetConfig :=
  mkFleet (defaultClientBinary executable) "https://localhost:4444" "var/certs/ca.pem" "mixed" 10 250 9200
    "127.0.0.1" "deploy/targets/clients.json" "info" "" DefaultFileMaxBytes DefaultFileMaxFiles ""
    DefaultFileMaxBytes DefaultFileMaxFiles.

(** ** The command line *)

(** The flags of [run], with their defaults, and the variables they set. *)
Definition flag_list (def : fleetConfig) : list flag := [
  mkFlag "client-bin" FString (Str (ClientBin def)); mkFlag "server-url" FString (Str (ServerURL def));
  mkFlag "ca-file" FString (Str (CAFile def)); mkFlag "role" FString (Str (Role def));
  mkFlag "count" FInt (Num (Count def)); mkFlag "stagger-ms" FInt (Num (StaggerMS def));
  mkFlag "metrics-port-base" FInt (Num (MetricsPortBase def));
  mkFlag "metrics-host" FString (Str (MetricsHost def)); mkFlag "targets-file" FString (Str (TargetsFile def));
  mkFlag "log-level" FString (Str (LogLevel def)); mkFlag "log-file" FString (Str (LogFile def));
  mkFlag "log-max-bytes" FInt64 (Num (LogMaxBytes def)); mkFlag "log-max-files" FInt (Num (LogMaxFiles def));
  mkFlag "child-log-dir" FString (Str (ChildLogDir def));
  mkFlag "child-log-max-bytes" FInt64 (Num (ChildLogMaxBytes def));
  mkFlag "child-log-max-files" FInt (Num (ChildLogMaxFiles def))
].
Definition flag_values (vs : values) : fleetConfig :=
  mkFleet (str vs "client-bin") (str vs "server-url") (str vs "ca-file") (str vs "role") (num vs "count")
    (num vs "stagger-ms") (num vs "metrics-port-base") (str vs "metrics-host") (str vs "targets-file")
    (str vs "log-level") (str vs "log-file") (num vs "log-max-bytes") (num vs "log-max-files")
    (str vs "child-log-dir") (num vs "child-log-max-bytes") (num vs "child-log-max-files").

(** ** The children *)

Record fleet_child := mkChild { ID : string; MetricsAddr : string; ScrapeAddr : string }.

Definition child_of (cfg : fleetConfig) (i : Z) : fleet_child :=
  let id := ("fleet-" +:+ pad3 i)%string in
  if 0 <? MetricsPortBase cfg then
    let port := wrap64 (MetricsPortBase cfg + i) in
    mkChild id ("127.0.0.1:" +:+ pretty port)%string (MetricsHost cfg +:+ ":" +:+ pretty port)%string
  else mkChild id "" "".
Definition children (cfg : fleetConfig) : list fleet_child := map (child_of cfg) (seqZ 0 (Count cfg)).

Definition child_args (cfg : fleetConfig) (c : fleet_child) : list string :=
  ["--server-url"; ServerURL cfg; "--ca-file"; CAFile cfg; "--client-id"; ID c; "--role"; Role cfg;
   "--metrics-addr"; MetricsAddr c; "--log-level"; LogLevel cfg]%string ++
  (if String.eqb (ChildLogDir cfg) "" then []
   else ["--log-file"; Join (ChildLogDir cfg) (ID c +:+ ".log"); "--log-max-bytes"; pretty (ChildLogMaxBytes cfg);
         "--log-max-files"; pretty (ChildLogMaxFiles cfg)]%string).

(** ** The text of the targets file *)

(** A text in which ['] stands for the quotation mark and [|] for a new line. *)
Definition json_text (s : string) : list byte :=
  map (λ b, if bool_decide (b = x27) then x22 else if bool_decide (b = x7c) then x0a else b) (bytes_of_string s).

Definition lower_hex (n : Z) : byte := byte_of_Z (if n <? 10 then 48 + n else 87 + n).

(** The rune [r], read from the bytes [bs], in a string of [encoding/json]. *)
Definition json_rune (x : Z * list byte) : list byte :=
  let '(r, bs) := x in
  if r <? 0x80 then
    if (r =? 0x22) || (r =? 0x5c) then [x5c; byte_of_Z r]
    else if r =? 8 then bytes_of_string "\b"
    else if r =? 12 then bytes_of_string "\f"
    else if r =? 10 then bytes_of_string "\n"
    else if r =? 13 then bytes_of_string "\r"
    else if r =? 9 then bytes_of_string "\t"
    else if (r <? 0x20) || (r =? 0x26) || (r =? 0x3c) || (r =? 0x3e) then
      bytes_of_string "\u00" ++ [lower_hex (Z.shiftr r 4); lower_hex (Z.land r 15)]
    else bs
  else if (r =? RuneError) && (length bs =? 1)%nat then bytes_of_string "\ufffd"
  else if (r =? 0x2028) || (r =? 0x2029) then bytes_of_string "\u202" ++ [lower_hex (Z.land r 15)]
  else bs.
Definition json_string (s : string) : list byte := [x22] ++ concat (map json_rune (runes s)) ++ [x22].

(** [json.MarshalIndent] of the target of a child; the keys of a map are sorted. *)
Definition target_text (c : fleet_child) : list byte :=
  json_text "  {|    'targets': [|      " ++ json_string (ScrapeAddr c) ++
  json_text "|    ],|    'labels': {|      'client_id': " ++ json_string (ID c) ++
  json_text ",|      'job': 'quixiot-client'|    }|  }".
Definition has_target (c : fleet_child) : bool := negb (String.eqb (ScrapeAddr c) "").
Definition targets_text (cs : list fleet_child) : list byte :=
  match List.filter has_target cs with
  | [] => json_text "[]"
  | entries =>
      json_text "[|" ++ concat (map (λ x : nat * fleet_child,
        (if (x.1 =? 0)%nat then [] else json_text ",|") ++ target_text x.2) (imap pair entries)) ++ json_text "|]"
  end ++ [x0a].

(** ** Writing it *)

(** [os.OpenFile] with [O_WRONLY|O_CREATE|O_TRUNC]. *)
Definition OpenTrunc (s : string) : io path :=
  syscall (λ fs,
    let p := resolve s in
    match node_at fs p with
    | Some (File _ _) => (inr p, set_nodes fs (<[p := File [] (clock fs)]> (nodes fs)))
    | Some Dir => (inl EISDIR, fs)
    | Some Special => (inl ErrInvalid, fs)
    | None =>
        if bool_decide (node_at fs (parent p) = Some Dir)
        then (inr p, set_nodes fs (<[p := File [] (clock fs)]> (nodes fs)))
        else (not_dir fs (parent p), fs)
    end).

(** [os.WriteFile]: the first error of the write and the close. *)
Definition WriteFile (s : string) (d : list byte) : io unit := λ fs,
  match OpenTrunc s fs with
  | (inl e, fs) => (inl e, fs)
  | (inr p, fs) =>
      let '((_, werr), fs) := FileWrite p d fs in
      let '(cerr, fs) := FileClose fs in
      (match werr with Some e => inl e | None => cerr end, fs)
  end.

Inductive targets_error := ErrMkdirTargets (e : os_error) | ErrWriteTargets (e : os_error) | ErrRenameTargets (e : os_error).

Definition writeTargetsFile (path : string) (cs : list fleet_child) (fs : FS) : option targets_error * FS :=
  if String.eqb path "" then (None, fs)
  else
    match MkdirAll (filepath_Dir path) fs with
    | (inl e, fs) => (Some (ErrMkdirTargets e), fs)
    | (inr _, fs) =>
        let tmp := (path +:+ ".tmp")%string in
        match WriteFile tmp (targets_text cs) fs with
        | (inl e, fs) => (Some (ErrWriteTargets e), fs)
        | (inr _, fs) =>
            match Rename tmp path fs with
            | (inl e, fs) => (Some (ErrRenameTargets e), fs)
            | (inr _, fs) => (None, fs)
            end
        end
    end.

(** ** The run *)

Inductive fleet_error :=
| ErrCount
| ErrStagger
| ErrPortBase
| ErrLogging (e : string)
| ErrChildLogDir (e : os_error)
| ErrTargets (e : targets_error)
| ErrStart (id e : string)
| ErrChildExited (id e : string).

(** The start of a child fails, or succeeds and the wait after it is cut short by
    the context or not. *)
Inductive start_event := StartFails (e : string) | Started (cancelled : bool).

(** The loop over the children from the [i]-th on: the arguments of those that were
    started, and how [run] returns if it returns from the loop. *)
Fixpoint start_children (cfg : fleetConfig) (starts : nat → start_event) (i : nat) (cs : list fleet_child)
    (started : list (list string)) : list (list string) * option (option fleet_error) :=
  match cs with
  | [] => (started, None)
  | c :: cs =>
      match starts i with
      | StartFails e => (started, Some (Some (ErrStart (ID c) e)))
      | Started cancelled =>
          let started := started ++ [child_args cfg c] in
          match cs with
          | [] => (started, None)
          | _ => if cancelled then (started, Some None) else start_children cfg starts (S i) cs started
          end
      end
  end.

(** [run] after the flags are parsed. [logging] is the error of [logging.New]; at
    the end the context is done, or a child has exited with an error. *)
Definition run (cfg : fleetConfig) (logging : option string) (starts : nat → start_event)
    (final : option (string * string)) (fs : FS) : option fleet_error * list (list string) * FS :=
  if Count cfg <=? 0 then (Some ErrCount, [], fs)
  else if StaggerMS cfg <? 0 then (Some ErrStagger, [], fs)
  else if (MetricsPortBase cfg <? 0) || (65535 <? MetricsPortBase cfg) then (Some ErrPortBase, [], fs)
  else
    match logging with
    | Some e => (Some (ErrLogging e), [], fs)
    | None =>
        match (if String.eqb (ChildLogDir cfg) "" then (inr tt, fs) else MkdirAll (ChildLogDir cfg) fs) with
        | (inl e, fs) => (Some (ErrChildLogDir e), [], fs)
        | (inr _, fs) =>
            match writeTargetsFile (TargetsFile cfg) (children cfg) fs with
            | (Some e, fs) => (Some (ErrTargets e), [], fs)
            | (None, fs) =>
                let '(started, early) := start_children cfg starts 0 (children cfg) [] in
                let result :=
                  match early with
                  | Some r => r
                  | None => match final with Some (id, e) => Some (ErrChildExited id e) | None => None end
                  end in
                (* the deferred function, whose error is ignored *)
                (result, started,
                 if String.eqb (TargetsFile cfg) "" then fs else (writeTargetsFile (TargetsFile cfg) [] fs).2)
            end
        end
    end.

(** [run]: the flags are parsed first. *)
Definition run_args (ParseDuration : string → option Z) (executable : option string) (args : list string)
    (logging : option string) (starts : nat → start_event) (final : option (string * string)) (fs : FS)
    : flag_error + (option fleet_error * list (list string) * FS) :=
  match Parse ParseDuration (flag_list (defaults executable)) args with
  | inl e => inl e
  | inr (vs, _) => inr (run (flag_values vs) logging starts final fs)
  end.
