(* ===== verification/FleetTheorems.v ===== *)
(** * FleetTheorems: the targets file and the children of a fleet *)

From S2P Require Import Prelude Text FS Wire Varint Logging LoggingProofs Upload UploadNames UploadProofs UploadServe Roles RolesTheorems Certs CertsTheorems Config Flags FlagsTheorems ClientCmd CommandsTheorems Fleet.

#[local] Arguments resolve : simpl never.

(** ** Calls *)

(** All directories on the way have been made. *)
Lemma mkdirs_all segs : ∀ q fs fs', mkdirs q segs fs = (inr tt, fs') → node_at fs q = Some Dir →
  ∀ k, node_at fs' (q.1, q.2 ++ take k segs) = Some Dir.
Proof.
  induction segs as [|y segs IH]; intros q fs fs' H Hq k.
  { destruct (mkdirs_inv [] _ _ _ _ H) as (_ & Hm & _). rewrite take_nil, app_nil_r. destruct q. by apply Hm. }
  destruct (mkdirs_inv (y :: segs) _ _ _ _ H) as (_ & Hm & _).
  destruct k as [|k]; [rewrite take_0, app_nil_r; destruct q; by apply Hm|].
  cbn [mkdirs] in H. simpl take.
  assert ((q.1, q.2 ++ y :: take k segs) = ((child q y).1, (child q y).2 ++ take k segs)) as ->
    by (unfold child; simpl; by rewrite <-app_assoc).
  destruct (node_at fs (child q y)) as [[| |]|] eqn:E; [done|by apply (IH _ _ _ H)|done|].
  apply (IH _ _ _ H). rewrite node_at_child. apply lookup_insert_eq.
Qed.

Lemma MkdirAll_all s fs fs' : MkdirAll s fs = (inr tt, fs') → dir_exists fs' (resolve s).
Proof.
  intros H k. apply syscall_cases in H as (fs1 & _ & _ & [(e & [=] & _)|H]).
  by apply (mkdirs_all _ _ _ _ H eq_refl k).
Qed.

Lemma OpenTrunc_cases s d y fs r fs' :
  resolve s = child d y → OpenTrunc s fs = (r, fs') →
  (faults fs = [] → faults fs' = []) ∧
  match r with
  | inl _ => nodes fs' = nodes fs
  | inr p => p = child d y ∧ ∃ m, nodes fs' = <[child d y := File [] m]> (nodes fs)
  end.
Proof.
  intros Hs H. apply syscall_cases in H as (fs1 & Hn & Hf & [(e & -> & -> & _)|H]); [done|].
  cbv zeta in H. rewrite Hs in H. unfold not_dir in H.
  repeat case_match; simplify_eq; simpl; (split; [done|]); rewrite <-?Hn; eauto.
Qed.

Lemma WriteFile_cases s d y data fs r fs' :
  resolve s = child d y → WriteFile s data fs = (r, fs') →
  same_but (child d y) (nodes fs) (nodes fs') ∧ (faults fs = [] → faults fs' = []) ∧
  (r = inr tt → ∃ m, nodes fs' !! child d y = Some (File data m)).
Proof.
  intros Hs. unfold WriteFile. destruct (OpenTrunc s fs) as [[e|p] fs1] eqn:E1;
    apply (OpenTrunc_cases _ _ _ _ _ _ Hs) in E1 as [Hf1 H1].
  { intros [= <- <-]. split_and!; [intros q _; by rewrite H1|done|done]. }
  destruct H1 as [-> [m0 H1]].
  assert (nodes fs1 !! child d y = Some (File [] m0)) as Hc by (rewrite H1; apply lookup_insert_eq).
  destruct (FileWrite (child d y) data fs1) as [[n werr] fs2] eqn:E2.
  destruct (FileWrite_inv _ _ _ _ _ _ _ _ Hc (eq_trans (node_at_child _ _ _) eq_refl) E2) as (Hs2 & Hf2 & _ & Hok2).
  destruct (FileClose fs2) as [cerr fs3] eqn:E3. apply FileClose_nodes in E3 as [Hn3 Hf3].
  intros [= <- <-]. split_and!; [|auto|].
  - intros q Hq. rewrite Hn3, Hs2, H1 by done. by apply lookup_insert_ne.
  - destruct werr; [done|]. intros _. rewrite Hn3. by apply Hok2.
Qed.

(** ** Writing the targets *)

Section targets.
Context (file : string) (ss : list string) (x : string).
Hypothesis (Hfile : log_path file ss x).
Let d : path := log_dir file ss.
Abbreviation q := (child d x).
Abbreviation t := (child d (x +:+ ".tmp")).

Lemma resolve_target_tmp : resolve (file +:+ ".tmp") = t.
Proof.
  destruct Hfile as (Hp & Hs & Hx). apply resolve_snoc.
  - by apply is_rooted_app.
  - apply Split_append; [|done]. intros Hin.
    by repeat (apply elem_of_cons in Hin as [?|Hin]; [done|]); apply elem_of_nil in Hin.
  - assert (4 ≤ String.length (x +:+ ".tmp"))%nat by (rewrite string_length_app; simpl; lia).
    split_and!; apply string_length_ne; simpl; lia.
Qed.

Lemma tmp_ne : t ≠ q.
Proof. intros E%child_inj. apply (f_equal String.length) in E. rewrite string_length_app in E. simpl in E. lia. Qed.

(** What a call leaves: the targets of [cs], or what was there. *)
Lemma writeTargetsFile_cases cs fs r fs' :
  writeTargetsFile file cs fs = (r, fs') →
  (faults fs = [] → faults fs' = []) ∧
  (∀ z, z ≠ q → z ≠ t → nodes fs' !! z = nodes fs !! z ∨ (nodes fs !! z = None ∧ nodes fs' !! z = Some Dir)) ∧
  ((r ≠ None ∧ nodes fs' !! q = nodes fs !! q) ∨
   (r = None ∧ (∃ m, nodes fs' !! q = Some (File (targets_text cs) m)) ∧ nodes fs' !! t = None ∧ dir_exists fs' d)).
Proof.
  unfold writeTargetsFile. destruct (String.eqb_spec file ""); [by destruct Hfile as [? _]|].
  destruct (MkdirAll (filepath_Dir file) fs) as [r1 fs1] eqn:E1.
  pose proof (MkdirAll_grows _ _ _ _ E1) as [Hg Hf1].
  pose proof (MkdirAll_on_path _ _ _ _ q E1) as Hq1. rewrite (resolve_Dir _ _ _ Hfile) in Hq1.
  specialize (Hq1 (child_not_on_path _ _)).
  destruct r1 as [e|[]]; [intros [= <- <-]; split_and!; auto|].
  apply MkdirAll_all in E1. rewrite (resolve_Dir _ _ _ Hfile) in E1. fold d in E1.
  destruct (WriteFile (file +:+ ".tmp") (targets_text cs) fs1) as [r2 fs2] eqn:E2.
  apply (WriteFile_cases _ _ _ _ _ _ _ resolve_target_tmp) in E2 as (Hs2 & Hf2 & Hok2).
  destruct r2 as [e|[]].
  { intros [= <- <-]. split_and!; [auto|intros z _ Hz; rewrite Hs2 by done; apply Hg|].
    left. split; [done|]. rewrite Hs2; [done|]. apply not_eq_sym, tmp_ne. }
  destruct (Hok2 eq_refl) as [m2 Hm2]. destruct (Rename _ file fs2) as [r3 fs3] eqn:E3.
  destruct (Rename_cases (file +:+ ".tmp") file d x _ _ _ fs2 r3 fs3 resolve_target_tmp (resolve_file_path _ _ _ Hfile) Hm2 E3)
    as [Hf3 H3]. destruct r3 as [e|u]; intros [= <- <-].
  { split_and!; [auto|intros z _ Hz; rewrite H3, Hs2 by done; apply Hg|].
    left. split; [done|]. rewrite H3, Hs2; [done|]. apply not_eq_sym, tmp_ne. }
  split_and!; [auto|intros z Hz Hzt; rewrite H3, lookup_insert_ne, lookup_delete_ne, Hs2 by done; apply Hg|].
  right. split_and!; [done|exists m2; by rewrite H3, lookup_insert_eq| |].
  - rewrite H3, lookup_insert_ne by (apply not_eq_sym, tmp_ne). apply lookup_delete_eq.
  - eapply dir_exists_agree; [|exact E1]. intros z Hz. rewrite H3, lookup_insert_ne, lookup_delete_ne by done. by apply Hs2.
Qed.

(** Once the targets have been written, they can be written again. *)
Lemma writeTargetsFile_again cs fs c m :
  faults fs = [] → dir_exists fs d → nodes fs !! q = Some (File c m) → nodes fs !! t = None →
  ∃ fs', writeTargetsFile file cs fs = (None, fs').
Proof.
  intros Hf Hd Hq Ht. unfold writeTargetsFile. destruct (String.eqb_spec file ""); [by eexists|].
  rewrite MkdirAll_exists; [|done|by rewrite (resolve_Dir _ _ _ Hfile)].
  pose proof (dir_exists_node _ _ Hd) as Hdir. unfold WriteFile, OpenTrunc.
  rewrite syscall_no_fault by done. cbv zeta. rewrite resolve_target_tmp, node_at_child, Ht, parent_of_child.
  rewrite bool_decide_true by done. set (fs1 := set_nodes fs _).
  assert (holds fs1 t (Some [])) as Hh1 by (exists (clock fs); apply lookup_insert_eq).
  destruct (FileWrite_entry fs1 d Hf _ _ (targets_text cs) Hh1) as [m1 E1]. rewrite E1.
  unfold FileClose. rewrite syscall_no_fault by done. cbv iota.
  set (fs2 := set_nodes fs1 _).
  rewrite (Rename_file fs2 d Hf) with (p := t) (y := x) (n := File ([] ++ targets_text cs) m1);
    [by eexists| |apply resolve_target_tmp|by apply resolve_file_path|apply lookup_insert_eq|done|].
  - eapply dir_exists_node, dir_exists_agree; [|exact Hd]. intros z Hz. simpl. by rewrite !lookup_insert_ne.
  - rewrite node_at_child. simpl. rewrite !lookup_insert_ne by apply tmp_ne. by rewrite Hq.
Qed.
End targets.

(** The targets file of a fleet. Whatever calls fail and however the children
    fare, the file is as before, or it lists in full the targets of all children, or
    none; when children have been started it had their targets; and when no call
    fails, the list is empty again once [run] has returned. *)
Theorem fleet_targets cfg logging starts final fs ss x err started fs' (q := child (log_dir (TargetsFile cfg) ss) x) :
  log_path (TargetsFile cfg) ss x →
  (∀ k, q ≠ ((resolve (ChildLogDir cfg)).1, take k (resolve (ChildLogDir cfg)).2)) →
  Fleet.run cfg logging starts final fs = (err, started, fs') →
  (nodes fs' !! q = nodes fs !! q ∧ started = [] ∨
   ∃ m cs, nodes fs' !! q = Some (File (targets_text cs) m) ∧ (cs = children cfg ∨ cs = [])) ∧
  (faults fs = [] → started ≠ [] → ∃ m, nodes fs' !! q = Some (File (bytes_of_string "[]" ++ [x0a]) m)).
Proof.
  intros Hfile Hlog. subst q. set (q := child _ x) in *. unfold Fleet.run.
  destruct (_ <=? 0); [intros [= <- <- <-]; split; [by left|done]|].
  destruct (_ <? 0); [intros [= <- <- <-]; split; [by left|done]|].
  destruct (_ || _); [intros [= <- <- <-]; split; [by left|done]|].
  destruct logging; [intros [= <- <- <-]; split; [by left|done]|].
  destruct (if String.eqb (ChildLogDir cfg) "" then _ else _) as [r1 fs1] eqn:E1.
  assert (nodes fs1 !! q = nodes fs !! q ∧ (faults fs = [] → faults fs1 = [])) as [Hq1 Hf1].
  { destruct (String.eqb (ChildLogDir cfg) ""); [by injection E1 as _ <-|].
    split; [by eapply MkdirAll_on_path|by eapply MkdirAll_grows]. }
  destruct r1; [intros [= <- <- <-]; split; [by left|done]|].
  destruct (writeTargetsFile _ (children cfg) fs1) as [r2 fs2] eqn:E2.
  apply (writeTargetsFile_cases _ _ _ Hfile) in E2 as (Hf2 & _ & Hc2).
  destruct r2 as [e|].
  { intros [= <- <- <-]. fold q in Hc2. destruct Hc2 as [[_ ->]|[? _]]; [|done]. split; [by left|done]. }
  fold q in Hc2. destruct Hc2 as [[? _]|(_ & [m2 Hm2] & Ht2 & Hd2)]; [done|].
  destruct (start_children _ _ _ _ _) as [started' early]. intros [= _ -> <-].
  destruct (String.eqb_spec (TargetsFile cfg) ""); [by destruct Hfile as [? _]|].
  destruct (writeTargetsFile (TargetsFile cfg) [] fs2) as [r3 fs3] eqn:E3. simpl.
  pose proof (writeTargetsFile_cases _ _ _ Hfile _ _ _ _ E3) as (_ & _ & Hc3). fold q in Hc3. split.
  - right. destruct Hc3 as [[_ ->]|(_ & [m3 ->] & _)]; eauto.
  - intros Hf _. destruct (writeTargetsFile_again _ _ _ Hfile [] fs2 _ m2 (Hf2 (Hf1 Hf)) Hd2 Hm2 Ht2) as [fs4 E4].
    rewrite E3 in E4. injection E4 as -> _. destruct Hc3 as [[? _]|(_ & [m3 Hm3] & _)]; [done|]. by exists m3.
Qed.

(** ** The children *)

Lemma pad3_inj i j : 0 ≤ i → 0 ≤ j → pad3 i = pad3 j → i = j.
Proof.
  intros Hi Hj E. destruct (pad3_digits i Hi) as [_ <-], (pad3_digits j Hj) as [_ <-]. by rewrite E.
Qed.

Lemma children_lookup cfg i c : children cfg !! i = Some c → c = child_of cfg (Z.of_nat i) ∧ 0 ≤ Z.of_nat i < Count cfg.
Proof.
  unfold children. intros H. apply list_lookup_fmap_Some in H as (z & -> & Hz).
  apply lookup_seqZ in Hz as [-> ?]. split; [by rewrite Z.add_0_l|lia].
Qed.

Lemma child_port cfg i : 0 < MetricsPortBase cfg ≤ 65535 → 0 ≤ i → Count cfg ≤ 2 ^ 31 → i < Count cfg →
  Fleet.MetricsAddr (child_of cfg i) = ("127.0.0.1:" +:+ pretty (MetricsPortBase cfg + i))%string.
Proof.
  intros Hb Hi Hc Hic. unfold child_of. destruct (Z.ltb_spec 0 (MetricsPortBase cfg)); [|lia]. simpl.
  rewrite wrap64_small; [done|]. unfold min_int64, max_int64. lia.
Qed.

(** The configuration of the client that is a child. *)
Definition child_config (cfg : fleetConfig) (c : fleet_child) : clientConfig :=
  let log {A} (x d : A) := if String.eqb (ChildLogDir cfg) "" then d else x in
  let d := ClientCmd.defaults in
  ClientCmd.mk (Fleet.ServerURL cfg) (Fleet.CAFile cfg) (ID c) (Fleet.Role cfg)
    (PollInterval d) (UploadInterval d) (UploadSize d) (TelemetryInterval d) (CommandInterval d) (PubSubPayloadSize d)
    "" "" "" (Fleet.MetricsAddr c) (Fleet.LogLevel cfg) (log (Join (ChildLogDir cfg) (ID c +:+ ".log")) ""%string)
    (log (ChildLogMaxBytes cfg) DefaultFileMaxBytes) (log (ChildLogMaxFiles cfg) DefaultFileMaxFiles).

(** The flags of a child, with those of its own log file or without. *)
Definition child_flags : list string := ["server-url"; "ca-file"; "client-id"; "role"; "metrics-addr"; "log-level"].
Definition child_log_flags : list string := child_flags ++ ["log-file"; "log-max-bytes"; "log-max-files"].

Lemma overlay_child p d :
  overlay p child_flags d = ClientCmd.mk (ClientCmd.ServerURL p) (ClientCmd.CAFile p) (ClientID p) (ClientCmd.Role p)
    (PollInterval d) (UploadInterval d) (UploadSize d) (TelemetryInterval d) (CommandInterval d) (PubSubPayloadSize d)
    (TelemetryTopic d) (CommandTopic d) (SubscribeTopics d) (ClientCmd.MetricsAddr p) (ClientCmd.LogLevel p)
    (ClientCmd.LogFile d) (ClientCmd.LogMaxBytes d) (ClientCmd.LogMaxFiles d) ∧
  overlay p child_log_flags d = ClientCmd.mk (ClientCmd.ServerURL p) (ClientCmd.CAFile p) (ClientID p) (ClientCmd.Role p)
    (PollInterval d) (UploadInterval d) (UploadSize d) (TelemetryInterval d) (CommandInterval d) (PubSubPayloadSize d)
    (TelemetryTopic d) (CommandTopic d) (SubscribeTopics d) (ClientCmd.MetricsAddr p) (ClientCmd.LogLevel p)
    (ClientCmd.LogFile p) (ClientCmd.LogMaxBytes p) (ClientCmd.LogMaxFiles p).
Proof. split; reflexivity. Qed.

(** The flags of a child with the text and the value of each. *)
Definition child_pairs (cfg : fleetConfig) (c : fleet_child) : list (string * string * setting) :=
  let text (name s : string) := (name, s, Str s) in
  let number (name : string) (z : Z) := (name, pretty z, Num z) in
  [text "server-url" (Fleet.ServerURL cfg); text "ca-file" (Fleet.CAFile cfg); text "client-id" (ID c);
   text "role" (Fleet.Role cfg); text "metrics-addr" (Fleet.MetricsAddr c); text "log-level" (Fleet.LogLevel cfg)]%string ++
  (if String.eqb (ChildLogDir cfg) "" then []
   else [text "log-file" (Join (ChildLogDir cfg) (ID c +:+ ".log")); number "log-max-bytes" (ChildLogMaxBytes cfg);
         number "log-max-files" (ChildLogMaxFiles cfg)])%string.

Lemma child_loads ParseDuration ReadFile Decode cfg c :
  min_int64 ≤ ChildLogMaxBytes cfg ≤ max_int64 → min_int64 ≤ ChildLogMaxFiles cfg ≤ max_int64 →
  ∃ vs, load_args ParseDuration ReadFile Decode ClientCmd.defaults (child_args cfg c) = inr (child_config cfg c, vs).
Proof.
  intros Hb Hf. assert (child_args cfg c = pair_args (child_pairs cfg c)) as ->.
  { unfold child_args, child_pairs. by destruct (String.eqb (ChildLogDir cfg) ""). }
  unfold load_args, Parse. rewrite parse_pairs.
  - set (vs0 := default_values _). assert (str vs0 "config" = ""%string) as Hpath by (vm_compute; reflexivity).
    unfold load_config, LoadFile, child_config, child_pairs.
    destruct (String.eqb (ChildLogDir cfg) ""); eexists; cbn [app set_pairs foldl map fst snd]; look_up; rewrite Hpath; cbn [String.eqb].
    + fold child_flags. rewrite (proj1 (overlay_child _ _)). cbn [of_values ClientCmd.command_line ClientCmd.flag_values
        ClientCmd.ServerURL ClientCmd.CAFile ClientID ClientCmd.Role ClientCmd.MetricsAddr ClientCmd.LogLevel]. by look_up.
    + fold child_log_flags. rewrite (proj2 (overlay_child _ _)). cbn [of_values ClientCmd.command_line ClientCmd.flag_values
        ClientCmd.ServerURL ClientCmd.CAFile ClientID ClientCmd.Role ClientCmd.MetricsAddr ClientCmd.LogLevel
        ClientCmd.LogFile ClientCmd.LogMaxBytes ClientCmd.LogMaxFiles]. by look_up.
  - unfold child_pairs. apply Forall_app. split; [|destruct (String.eqb _ _); [done|]]; repeat constructor;
      eexists; (split_and!; [reflexivity|reflexivity|discriminate|simpl; by rewrite ?ParseInt0_pretty]).
Qed.

(** C39: the children of a fleet. Their identifiers are pairwise different, and so are
    their metrics addresses if they have any; those stay within the range of ports
    exactly if the base and the count allow it, which nothing checks. The command line
    of every child is accepted by the client, whatever the strings in it, and gives it
    the identifier, role, server, addresses and log of the fleet, and its own defaults
    for the rest. *)
Theorem fleet_children cfg :
  0 < Count cfg ≤ 2 ^ 31 → 0 ≤ MetricsPortBase cfg ≤ 65535 →
  let cs := children cfg in
  NoDup (map ID cs) ∧ Z.of_nat (length cs) = Count cfg ∧
  (0 < MetricsPortBase cfg → NoDup (map Fleet.MetricsAddr cs) ∧
     ((∀ c, c ∈ cs → ∃ port, Fleet.MetricsAddr c = ("127.0.0.1:" +:+ pretty port)%string ∧ port ≤ 65535) ↔
      MetricsPortBase cfg + Count cfg ≤ 65536)) ∧
  (min_int64 ≤ ChildLogMaxBytes cfg ≤ max_int64 → min_int64 ≤ ChildLogMaxFiles cfg ≤ max_int64 →
   ∀ c, c ∈ cs → default_topics (child_config cfg c) ∧
     ∀ ParseDuration ReadFile Decode, ∃ vs,
       load_args ParseDuration ReadFile Decode ClientCmd.defaults (child_args cfg c) = inr (child_config cfg c, vs)).
Proof.
  intros Hc Hb cs.
  assert (Hlen : Z.of_nat (length cs) = Count cfg) by (unfold cs, children; rewrite length_map, length_seqZ; lia).
  split_and!; [|done|intros Hpos; split|].
  - apply NoDup_alt. intros i j id Hi Hj. apply list_lookup_fmap_Some in Hi as (c & -> & Hi), Hj as (c' & Hid & Hj).
    apply children_lookup in Hi as [-> Hi], Hj as [-> Hj]. unfold child_of in Hid.
    assert (pad3 (Z.of_nat i) = pad3 (Z.of_nat j)) as Hp.
    { apply (string_app_inj_l "fleet-"). by destruct (0 <? MetricsPortBase cfg). }
    apply pad3_inj in Hp; lia.
  - apply NoDup_alt. intros i j addr Hi Hj. apply list_lookup_fmap_Some in Hi as (c & -> & Hi), Hj as (c' & Hid & Hj).
    apply children_lookup in Hi as [-> Hi], Hj as [-> Hj]. rewrite !child_port in Hid by lia.
    apply string_app_inj_l, (inj pretty) in Hid. lia.
  - split.
    + intros Hall. assert (Hn : (Z.to_nat (Count cfg - 1) < length cs)%nat) by lia.
      apply lookup_lt_is_Some_2 in Hn as [c Hl]. destruct (Hall c (list_elem_of_lookup_2 _ _ _ Hl)) as (port & Hp & Hle).
      apply children_lookup in Hl as [-> Hl]. rewrite child_port in Hp by lia.
      apply string_app_inj_l, (inj pretty) in Hp. lia.
    + intros Hle c Hin. apply list_elem_of_lookup in Hin as [i Hi]. apply children_lookup in Hi as [-> Hi].
      exists (MetricsPortBase cfg + Z.of_nat i). split; [apply child_port|]; lia.
  - intros Hbytes Hfiles c _. split; [done|]. intros. by apply child_loads.
Qed.

(** ** Instances *)

Definition fleet_cfg : fleetConfig :=
  mkFleet "bin/client" "https://localhost:4444" "var/certs/ca.pem" "mixed" 2 250 9200 "127.0.0.1"
    "targets/clients.json" "info" "" 1 1 "" 1 1.
Definition fleet_start : FS := mkFS ∅ 7 [].
(** The second child cannot be started. *)
Definition fleet_result : option fleet_error * list (list string) * FS :=
  Fleet.run fleet_cfg None (λ i, if (i =? 0)%nat then Started false else StartFails "no") None fleet_start.

Lemma fleet_targets_witness :
  fleet_result.1.1 = Some (ErrStart "fleet-001" "no") ∧ length fleet_result.1.2 = 1%nat ∧
  ∃ m, nodes fleet_result.2 !! (false, ["targets"; "clients.json"]%string) = Some (File (bytes_of_string "[]" ++ [x0a]) m).
Proof.
  assert (log_path (TargetsFile fleet_cfg) ["targets"]%string "clients.json") as Hp.
  { split_and!; [done|vm_compute; reflexivity|done..]. }
  destruct (fleet_targets fleet_cfg None (λ i, if (i =? 0)%nat then Started false else StartFails "no") None fleet_start
    ["targets"]%string "clients.json" fleet_result.1.1 fleet_result.1.2 fleet_result.2 Hp) as [_ Hempty].
  - intros k. vm_compute. by destruct k.
  - unfold fleet_result. by destruct (Fleet.run _ _ _ _ _) as [[? ?] ?].
  - split; [vm_compute; reflexivity|]. split; [vm_compute; reflexivity|].
    apply Hempty; [reflexivity|vm_compute; discriminate].
Defined.

Lemma fleet_children_witness :
  0 < Count fleet_cfg ≤ 2 ^ 31 ∧ NoDup (map ID (children fleet_cfg)) ∧ NoDup (map Fleet.MetricsAddr (children fleet_cfg)).
Proof.
  split; [done|]. destruct (fleet_children fleet_cfg) as (H1 & _ & H2 & _); [done|done|].
  split; [exact H1|]. apply H2. reflexivity.
Defined.
