(* ===== verification/Ctl.v ===== *)
(** * Ctl: the helper of the scripts ([scripts/quixiotctl.go])

    The command [quixiotctl] fetches a URL over HTTP/3, and computes the digest that
    an upload should have with a generator of its own, which [scripts/verify.sh]
    compares with the stored files. The client of package [http] is a parameter. *)

From S2P Require Import Prelude Text Sha256 Roles ClientHTTP.

(** ** The generator *)

Section reader.
Context `{RandSource}.

Record deterministicReader := mkReader { remaining : Z; rnd : Rand }.
Definition newDeterministicReader (size seed : Z) : deterministicReader := mkReader size (rand_New seed).

(** [Read] into a slice of [n] bytes. *)
Definition Read (n : Z) (r : deterministicReader) : exec (list byte * bool * deterministicReader) :=
  if remaining r =? 0 then Ok ([], true, r)
  else
    let! n :=
      if remaining r <? n then (if 0 <=? remaining r then Ok (remaining r) else Panic) else Ok n in
    let '(bs, rnd) := rand_Read (Z.to_nat n) (rnd r) in
    let r := mkReader (wrap64 (remaining r - n)) rnd in
    Ok (bs, remaining r =? 0, r).

(** [io.Copy] to the hash. *)
Fixpoint Copy (fuel : nat) (h : list byte) (r : deterministicReader) : option (exec (list byte)) :=
  match fuel with
  | O => None
  | S fuel =>
      match Read copy_buffer r with
      | Panic => Some Panic
      | Err e => Some (Err e)
      | Ok (bs, eof, r) => if eof then Some (Ok (h ++ bs)) else Copy fuel (h ++ bs) r
      end
  end.

Definition deterministicSHA256 (fuel : nat) (size seed : Z) : option (exec string) :=
  match Copy fuel [] (newDeterministicReader size seed) with
  | None => None
  | Some m => Some (let! h := m in Ok (EncodeToString (sha256 h)))
  end.

(** ** The subcommands *)

Inductive ctl_error :=
| ErrUsage
| ErrUnknown (subcommand : string)
| ErrURLRequired
| ErrCARequired
| ErrTrust (e : string)
| ErrGet (url e : string)
| ErrStatus (url status body : string)
| ErrOutput (e : string)
| ErrNegativeSize.

(** The error, or what is printed. *)
Definition runExpectedUploadSHA (fuel : nat) (size seed : Z) : option (exec (ctl_error + string)) :=
  if size <? 0 then Some (Ok (inl ErrNegativeSize))
  else
    match deterministicSHA256 fuel size seed with
    | None => None
    | Some m => Some (let! sum := m in Ok (inr (sum +:+ string_of_bytes [x0a])%string))
    end.

(** [trust] is the error of [LoadClientTrust], [get] the answer of [httpClient.Get],
    and the result the bytes copied to the standard output. *)
Definition runH3Get (url caFile : string) (trust : option string) (get : string → string + http_response)
    (stdout : list byte → option string) : ctl_error + list byte :=
  if String.eqb url "" then inl ErrURLRequired
  else if String.eqb caFile "" then inl ErrCARequired
  else
    match trust with
    | Some e => inl (ErrTrust e)
    | None =>
        match get url with
        | inl e => inl (ErrGet url e)
        | inr resp =>
            if negb (StatusCode resp =? 200) then
              inl (ErrStatus url (Status resp) (body_text resp))
            else match stdout (resp_Body resp) with Some e => inl (ErrOutput e) | None => inr (resp_Body resp) end
        end
    end.
End reader.

(** The subcommand that [run] passes the rest of the arguments to. *)
Inductive subcommand := H3Get (args : list string) | ExpectedUploadSHA (args : list string).
Definition run (args : list string) : ctl_error + subcommand :=
  match args with
  | [] => inl ErrUsage
  | cmd :: args =>
      if String.eqb cmd "h3get" then inr (H3Get args)
      else if String.eqb cmd "expected-upload-sha" then inr (ExpectedUploadSHA args)
      else inl (ErrUnknown cmd)
  end.

(** The seed that [verify_upload_hashes] of [scripts/verify.sh] takes from the name
    of a stored file: the digits after its last dash, and one. *)
Definition verify_seed (base : string) : option Z :=
  let stem := TrimSuffix base ".bin" in
  match last (split_on x2d (bytes_of_string stem)) with
  | Some seq => if (zlen seq =? 0) || negb (forallb is_digit seq) then None else Some (wrap64 (digits_value seq + 1))
  | None => None
  end.
