(* ===== verification/CtlTheorems.v ===== *)
(** * CtlTheorems: the script checks the uploads for what they should be *)

From S2P Require Import Prelude Text FS Sha256 Upload UploadNames UploadProofs UploadTheorems UploadServe Roles RolesTheorems ClientHTTP ClientHTTPTheorems Ctl.

(** ** The two generators *)

Section readers.
Context `{RandSource}.

(** The reader of the client in the same state. *)
Definition client_reader (r : Ctl.deterministicReader) : ClientHTTP.deterministicReader :=
  ClientHTTP.mkReader (Ctl.remaining r) (Ctl.rnd r).

Lemma Read_client n r :
  ClientHTTP.Read n (client_reader r) =
    let! (bs, eof, r) := Ctl.Read n r in Ok (bs, eof, client_reader r).
Proof.
  unfold ClientHTTP.Read, Ctl.Read, client_reader. cbn [ClientHTTP.remaining ClientHTTP.rnd].
  destruct (Ctl.remaining r =? 0); [by destruct r|].
  destruct (if Ctl.remaining r <? n then _ else _) as [k|e|]; cbn [obind]; [|done|done].
  by destruct (rand_Read (Z.to_nat k) (Ctl.rnd r)).
Qed.

Lemma Copy_client fuel : ∀ h r, ClientHTTP.Copy fuel h (client_reader r) = Ctl.Copy fuel h r.
Proof.
  induction fuel as [|fuel IH]; intros h r; [done|]. cbn [ClientHTTP.Copy Ctl.Copy]. rewrite Read_client.
  destruct (Ctl.Read copy_buffer r) as [[[bs eof] r']|e|]; cbn [obind]; [|done|done].
  destruct eof; [done|apply IH].
Qed.

Lemma deterministicSHA256_client fuel size seed :
  ClientHTTP.deterministicSHA256 fuel size seed = Ctl.deterministicSHA256 fuel size seed.
Proof.
  unfold ClientHTTP.deterministicSHA256, Ctl.deterministicSHA256.
  by rewrite <-(Copy_client fuel [] (Ctl.newDeterministicReader size seed)).
Qed.
End readers.

(** ** The seed in the name *)

Lemma TrimSuffix_app s p : TrimSuffix (s +:+ p) p = s.
Proof.
  unfold TrimSuffix, strip_suffix. rewrite bytes_of_string_app, reverse_app.
  destruct (strip_prefix (reverse (bytes_of_string p)) _) as [l|] eqn:E; simpl.
  - apply strip_prefix_spec in E. apply app_inv_head in E as <-. rewrite reverse_involutive.
    apply string_of_bytes_of_string.
  - assert (strip_prefix (reverse (bytes_of_string p)) (reverse (bytes_of_string p) ++ reverse (bytes_of_string s)) =
      Some (reverse (bytes_of_string s))) as E' by (by apply strip_prefix_spec). by rewrite E in E'.
Qed.

Lemma digits_no_dash l : Forall is_digit l → x2d ∉ l.
Proof. intros Hl Hin. by eapply (proj1 (Forall_forall _ _)) in Hin; [|exact Hl]. Qed.

Lemma verify_seed_upload id seq : 0 ≤ seq < max_int64 → verify_seed (upload_name id seq) = Some (seq + 1).
Proof.
  intros Hs. destruct (pad3_digits seq ltac:(lia)) as [Hd Hv].
  assert (bytes_of_string (pad3 seq) ≠ []) as Hne.
  { unfold pad3. destruct (Z.ltb_spec seq 0); [lia|]. rewrite bytes_of_string_app.
    destruct (pretty_Z_digits seq ltac:(lia)) as [_ Hl]. rewrite <-bytes_of_string_length in Hl.
    intros [_ E]%app_nil. rewrite E in Hl. simpl in Hl. lia. }
  unfold verify_seed, upload_name.
  assert (safeID id +:+ "-" +:+ pad3 seq +:+ ".bin" = (safeID id +:+ "-" +:+ pad3 seq) +:+ ".bin")%string as ->.
  { apply (inj bytes_of_string). rewrite !bytes_of_string_app. by rewrite !app_assoc. }
  rewrite TrimSuffix_app, !bytes_of_string_app. change (bytes_of_string "-") with [x2d]. simpl app at 2.
  rewrite split_on_app, (split_on_none _ (bytes_of_string (pad3 seq))) by by apply digits_no_dash.
  rewrite last_snoc. assert (forallb is_digit (bytes_of_string (pad3 seq)) = true) as ->.
  { apply forallb_forall. intros b Hb%list_elem_of_In. rewrite Forall_forall in Hd. by apply Is_true_true, Hd. }
  destruct (Z.eqb_spec (zlen (bytes_of_string (pad3 seq))) 0) as [E|_].
  { unfold zlen in E. destruct (bytes_of_string (pad3 seq)); [done|simpl in E; lia]. }
  simpl. rewrite Hv, wrap64_small; [done|]. unfold min_int64, max_int64 in *. lia.
Qed.

(** C16: the script verifies what the client meant to send. When an uploader's upload
    through the handler has succeeded, whatever slices its body was read in and
    whatever calls failed, then the digest that the script computes with its own
    generator, from the size and from the seed in the name of the stored file, is
    that of the file; and computing it takes no more reads than the client's own. *)
Theorem verification_agrees `{RandSource} h id seq ns randoms elapsed render status_text refusal
    baseURL new_request decode fuel size fs out fs' :
  0 ≤ seq < max_int64 → 0 ≤ size ≤ max_int64 →
  Forall (λ n, 0 ≤ n) ns → size ≤ total ns → size ≤ Z.of_nat fuel * copy_buffer → fuel ≠ 0%nat →
  (∀ url, new_request url = None) →
  (∀ resp, decode (render resp) =
     inr (mkUploadResult (rs_Bytes resp) (rs_SHA256 resp) (rs_DurationMillis resp))) →
  Forall no_slash randoms → entries_ok fs (resolve (h_Dir h)) →
  ClientHTTP.UploadDeterministic baseURL new_request
    (serve h (upload_name id seq) ns randoms elapsed render status_text refusal) decode fuel
    (upload_name id seq) size (wrap64 (seq + 1)) fs = Some (Ok (inr out, fs')) →
  ∃ content m seed, nodes fs' !! child (resolve (h_Dir h)) (upload_name id seq) = Some (File content m) ∧
    zlen content = size ∧ verify_seed (upload_name id seq) = Some seed ∧
    runExpectedUploadSHA fuel size seed = Some (Ok (inr (EncodeToString (sha256 content) +:+ string_of_bytes [x0a])%string)).
Proof.
  intros Hseq Hsize Hns Htot Hfuel Hf0 Hnew Hdec Hrnd Hok Hup.
  destruct (upload_names_accepted id seq seq Hseq Hseq) as [Hsan _].
  assert (upload_name id seq ≠ ""%string) as Hne.
  { intros E. apply (f_equal String.length) in E. unfold upload_name in E. rewrite !string_length_app in E. simpl in E. lia. }
  destruct (upload_end_to_end_lemma h (upload_name id seq) ns randoms elapsed render status_text refusal baseURL
    new_request decode fuel size (wrap64 (seq + 1)) fs Hne Hsize Hns Htot Hfuel Hf0 Hnew Hdec Hrnd Hok)
    as (res & fs1 & Hup' & Hres).
  rewrite Hup in Hup'. injection Hup' as <- <-. destruct Hres as (_ & _ & stored & m & Hst & Hfile).
  rewrite Hsan in Hst. injection Hst as <-.
  assert (wrap64 (seq + 1) = seq + 1) as Hw by (apply wrap64_small; unfold min_int64, max_int64 in *; lia).
  rewrite Hw in Hfile. exists (rand_bytes size (seq + 1)), m, (seq + 1).
  split_and!; [done|apply zlen_rand_bytes; lia|by apply verify_seed_upload|].
  unfold runExpectedUploadSHA. destruct (Z.ltb_spec size 0); [lia|].
  rewrite <-deterministicSHA256_client, deterministicSHA256_at, bool_decide_true by done. done.
Qed.

(** ** An instance *)

Definition zero_source : RandSource := {| source := unit; NewSource _ := tt; Int63 _ := (0, tt) |}.
Definition ctl_upload : option (exec (reply UploadResult * FS)) :=
  @ClientHTTP.UploadDeterministic zero_source FS "https://h" (λ _, None)
    (@serve zero_source (up_handler 12) (upload_name "dev" 4) [4; 0; 9] ["123"%string] 9 demo_render (λ _, ""%string) (λ _, []))
    demo_decode 1 (upload_name "dev" 4) 10 (wrap64 (4 + 1)) (up_fs []).
Definition ctl_succeeds : bool := match ctl_upload with Some (Ok (inr _, _)) => true | _ => false end.

Lemma verification_agrees_witness :
  match ctl_upload with
  | Some (Ok (inr _, fs')) =>
      ∃ content m seed, nodes fs' !! child up_dir "dev-004.bin" = Some (File content m) ∧ zlen content = 10 ∧
        verify_seed "dev-004.bin" = Some seed ∧
        @runExpectedUploadSHA zero_source 1 10 seed =
          Some (Ok (inr (EncodeToString (sha256 content) +:+ string_of_bytes [x0a])%string))
  | _ => False
  end.
Proof.
  assert (ctl_succeeds = true) as Hok by (vm_compute; reflexivity). unfold ctl_succeeds in Hok.
  destruct ctl_upload as [[[[e|out] fs']|e|]|] eqn:E; try discriminate Hok.
  unfold ctl_upload in E.
  assert (∀ url : string, (λ _ : string, None) url = @None string) as Hnew by reflexivity.
  assert (∀ resp, demo_decode (demo_render resp) =
    inr (mkUploadResult (rs_Bytes resp) (rs_SHA256 resp) (rs_DurationMillis resp))) as Hdec.
  { intros resp. unfold demo_decode, demo_render. rewrite bytes_pos_bytes, decode_encode. reflexivity. }
  assert (0 ≤ 4 < max_int64 ∧ 0 ≤ 10 ≤ max_int64) as [H1 H2] by (unfold max_int64; lia).
  assert (Forall (λ n, 0 ≤ n) [4; 0; 9]) as H3 by (by repeat (constructor; [lia|])).
  assert (10 ≤ total [4; 0; 9]) as H4 by (vm_compute; discriminate).
  assert (10 ≤ Z.of_nat 1 * copy_buffer) as H5 by (vm_compute; discriminate).
  assert (1%nat ≠ 0%nat) as H6 by discriminate.
  assert (upload_name "dev" 4 = "dev-004.bin"%string) as Hname by (vm_compute; reflexivity).
  assert (resolve (h_Dir (up_handler 12)) = up_dir) as Hdir by (vm_compute; reflexivity).
  pose proof (@verification_agrees zero_source (up_handler 12) "dev" 4 [4; 0; 9] ["123"%string] 9 demo_render
    (λ _, ""%string) (λ _, []) "https://h" (λ _, None) demo_decode 1 10 (up_fs []) out fs'
    H1 H2 H3 H4 H5 H6 Hnew Hdec digits_no_slash (up_entries []) E) as Hv.
  rewrite Hname, Hdir in Hv. exact Hv.
Defined.
