(* ===== verification/CertsLoad.v ===== *)
(** * CertsLoad: loading the certificates ([internal/tlsutil/tlsutil.go])

    The configurations for server and client that are made of the generated files,
    and that what is generated can be loaded. Parsing PEM text and matching a
    certificate with its key are the work of packages [crypto/x509] and
    [crypto/tls]: parameters, with what is relied on as hypotheses of the theorem. *)

From S2P Require Import Prelude Text FS Upload UploadNames UploadProofs UploadServe Certs CertsTheorems.

#[local] Arguments resolve : simpl never.

Definition ALPN : string := "h3".
Definition VersionTLS13 : Z := 0x0304.

(** [os.ReadFile] *)
Definition ReadFile (s : string) : io (list byte) :=
  syscall (λ fs,
    match node_at fs (resolve s) with
    | Some (File c _) => (inr c, fs)
    | Some Dir => (inl EISDIR, fs)
    | Some Special => (inl ErrInvalid, fs)
    | None => (inl ErrNotExist, fs)
    end).

Inductive load_error :=
| ErrReadCert (e : os_error)
| ErrReadKey (e : os_error)
| ErrKeyPair (e : string)
| ErrReadCA (file : string) (e : os_error)
| ErrNoCertificates (file : string).

Section load.
(** A parsed pair of certificate and key, and a pool of certificates;
    [tls.X509KeyPair] of two PEM texts, and [AppendCertsFromPEM] to an empty pool. *)
Context {pair pool : Type}.
Context (X509KeyPair : list byte → list byte → string + pair) (AppendCertsFromPEM : list byte → option pool).

(** The fields of a [tls.Config] that are set. *)
Record tls_Config := mkTLS {
  Certificates : list pair;
  RootCAs : option pool;
  NextProtos : list string;
  MinVersion : Z;
}.

(** [tls.LoadX509KeyPair] *)
Definition LoadX509KeyPair (certFile keyFile : string) (fs : FS) : (load_error + pair) * FS :=
  match ReadFile certFile fs with
  | (inl e, fs) => (inl (ErrReadCert e), fs)
  | (inr certPEM, fs) =>
      match ReadFile keyFile fs with
      | (inl e, fs) => (inl (ErrReadKey e), fs)
      | (inr keyPEM, fs) =>
          (match X509KeyPair certPEM keyPEM with inl e => inl (ErrKeyPair e) | inr p => inr p end, fs)
      end
  end.

Definition LoadServerTLS (certFile keyFile : string) (fs : FS) : (load_error + tls_Config) * FS :=
  match LoadX509KeyPair certFile keyFile fs with
  | (inl e, fs) => (inl e, fs)
  | (inr cert, fs) => (inr (mkTLS [cert] None [ALPN] VersionTLS13), fs)
  end.

Definition LoadClientTrust (caFile : string) (fs : FS) : (load_error + tls_Config) * FS :=
  match ReadFile caFile fs with
  | (inl e, fs) => (inl (ErrReadCA caFile e), fs)
  | (inr d, fs) =>
      match AppendCertsFromPEM d with
      | None => (inl (ErrNoCertificates caFile), fs)
      | Some p => (inr (mkTLS [] (Some p) [ALPN] VersionTLS13), fs)
      end
  end.
End load.

Lemma ReadFile_entry fs dir x c :
  faults fs = [] → dir ≠ ""%string → ordinary x → no_slash x →
  holds fs (child (resolve dir) x) (Some c) → ReadFile (Join dir x) fs = (inr c, fs).
Proof.
  intros Hf Hdir Hx Hs [m Hc]. unfold ReadFile. rewrite syscall_no_fault by done.
  by rewrite resolve_Join, node_at_child, Hc by done.
Qed.

Lemma certs_load_lemma {key cert} is_IP GenerateKey randomSerial CreateCertificate ParseCertificate
    MarshalECPrivateKey pem_chunks X509KeyPair AppendCertsFromPEM outDir sans validFor now randoms fs paths fs' t :
  outDir ≠ ""%string → Forall no_slash randoms →
  (∀ der c, ParseCertificate der = inr c → AppendCertsFromPEM (concat (pem_chunks "CERTIFICATE" der)) = Some [der]) →
  (∀ tm parent pub signer der kder, CreateCertificate tm parent pub signer = inr der → MarshalECPrivateKey pub = inr kder →
     X509KeyPair (concat (pem_chunks "CERTIFICATE" der)) (concat (pem_chunks "EC PRIVATE KEY" kder)) = inr (der, pub)) →
  @GenerateLocal key cert is_IP GenerateKey randomSerial CreateCertificate ParseCertificate
    MarshalECPrivateKey pem_chunks outDir sans validFor now randoms fs = (inr paths, fs') →
  let fs1 := mkFS (nodes fs') t [] in
  let names := filter (λ s, s ≠ ""%string) (map TrimSpace sans) in
  ∃ caDER leafDER caCert caKey leafKey,
    LoadClientTrust (pair := list byte * key) AppendCertsFromPEM (CA paths) fs1 =
      (inr (mkTLS [] (Some [caDER]) [ALPN] VersionTLS13), fs1) ∧
    LoadServerTLS (pool := list (list byte)) X509KeyPair (Server paths) (ServerKey paths) fs1 =
      (inr (mkTLS [(leafDER, leafKey)] None [ALPN] VersionTLS13), fs1) ∧
    CreateCertificate (ca_template now validFor) None caKey caKey = inr caDER ∧
    ParseCertificate caDER = inr caCert ∧
    CreateCertificate (leaf_template is_IP now validFor names) (Some caCert) leafKey caKey = inr leafDER.
Proof.
  intros Hdir Hrnd Hpool Hpair H fs1 names.
  destruct (certs_generated_lemma _ _ _ _ _ _ _ _ _ _ _ _ _ _ _ Hdir Hrnd H) as [_ Hok].
  destruct (Hok paths eq_refl) as (-> & _ & _ & caDER & caKey & leafDER & leafKey &
    (_ & _ & caCert & Hcac & Hparse & Hleafc) & Hca & _ & Hsrv & kd & Hk & Hkey).
  assert (Forall (λ x, ordinary x ∧ no_slash x) [CAFile; ServerFile; ServerKeyFile]) as Hn.
  { pose proof cert_names as Hn. rewrite !Forall_cons in Hn. destruct Hn as ([? [? _]] & _ & [? [? _]] & [? [? _]] & _).
    by repeat apply Forall_cons_2. }
  rewrite !Forall_cons in Hn. destruct Hn as ([? ?] & [? ?] & [? ?] & _).
  assert (∀ x c, holds fs' (child (resolve outDir) x) (Some c) → holds fs1 (child (resolve outDir) x) (Some c)) as Hh by done.
  exists caDER, leafDER, caCert, caKey, leafKey. split_and!; [| |done..].
  - unfold LoadClientTrust. simpl. erewrite ReadFile_entry; [|done..|by apply Hh]. by erewrite Hpool.
  - unfold LoadServerTLS, LoadX509KeyPair. simpl. erewrite ReadFile_entry; [|done..|by apply Hh].
    erewrite ReadFile_entry; [|done..|by apply Hh]. by erewrite Hpair.
Qed.

(** C19: what is generated can be loaded. After GenerateLocal has succeeded, whatever
    calls failed before, a client that loads the authority's file trusts just the
    authority, and a server that loads its pair presents a leaf for the names asked
    for, signed by that authority's key, with the key it was made for; both speak
    HTTP/3 over TLS 1.3 only. Relied on are that a pool takes the PEM text of a
    certificate that can be parsed, and that a certificate goes with the key it
    certifies. *)
Theorem certs_load {key cert} is_IP GenerateKey randomSerial CreateCertificate ParseCertificate
    MarshalECPrivateKey pem_chunks X509KeyPair AppendCertsFromPEM outDir sans validFor now randoms fs paths fs' t :
  outDir ≠ ""%string → Forall no_slash randoms →
  (∀ der c, ParseCertificate der = inr c → AppendCertsFromPEM (concat (pem_chunks "CERTIFICATE" der)) = Some [der]) →
  (∀ tm parent pub signer der kder, CreateCertificate tm parent pub signer = inr der → MarshalECPrivateKey pub = inr kder →
     X509KeyPair (concat (pem_chunks "CERTIFICATE" der)) (concat (pem_chunks "EC PRIVATE KEY" kder)) = inr (der, pub)) →
  @GenerateLocal key cert is_IP GenerateKey randomSerial CreateCertificate ParseCertificate
    MarshalECPrivateKey pem_chunks outDir sans validFor now randoms fs = (inr paths, fs') →
  let fs1 := mkFS (nodes fs') t [] in
  let names := filter (λ s, s ≠ ""%string) (map TrimSpace sans) in
  ∃ caDER leafDER caCert caKey leafKey,
    LoadClientTrust (pair := list byte * key) AppendCertsFromPEM (CA paths) fs1 =
      (inr (mkTLS [] (Some [caDER]) [ALPN] VersionTLS13), fs1) ∧
    LoadServerTLS (pool := list (list byte)) X509KeyPair (Server paths) (ServerKey paths) fs1 =
      (inr (mkTLS [(leafDER, leafKey)] None [ALPN] VersionTLS13), fs1) ∧
    CreateCertificate (ca_template now validFor) None caKey caKey = inr caDER ∧
    ParseCertificate caDER = inr caCert ∧
    CreateCertificate (leaf_template is_IP now validFor names) (Some caCert) leafKey caKey = inr leafDER.
Proof. apply certs_load_lemma. Qed.

(** ** An instance *)

(** Keys are booleans; a certificate has two bytes, which follow the type in its
    text. *)
Definition load_create (t : template) (parent : option unit) (pub signer : bool) : string + list byte :=
  inr [if IsCA t then x01 else x02; if pub then x03 else x04].
Definition load_marshal (k : bool) : string + list byte := inr [if k then x05 else x06].
Definition load_pair (c k : list byte) : string + (list byte * bool) :=
  match drop 11 c with
  | [a; b] => inr ([a; b], bool_decide (b = x03))
  | _ => inl "no pair"%string
  end.
Definition load_parse (der : list byte) : string + unit :=
  match der with [_; _] => inr tt | _ => inl "malformed certificate"%string end.
Definition load_pool (c : list byte) : option (list (list byte)) :=
  match load_parse (drop 11 c) with inl _ => None | inr _ => Some [drop 11 c] end.
Definition load_generate : (gen_error + Paths) * FS :=
  GenerateLocal (λ s, String.eqb s "127.0.0.1") (λ i, inr (i =? 0)%nat) (λ _, inr true) load_create load_parse
    load_marshal demo_chunks "certs" [" localhost "; ""; "127.0.0.1"]%string 5 0 ["1"%string; "2"%string] (demo_fs []).

Lemma demo_pool_law der c : load_parse der = inr c → load_pool (concat (demo_chunks "CERTIFICATE" der)) = Some [der].
Proof. intros Hp. unfold load_pool. assert (drop 11 (concat (demo_chunks "CERTIFICATE" der)) = der) as ->.
  { unfold demo_chunks. simpl. apply app_nil_r. }
  by rewrite Hp.
Qed.

Lemma certs_load_witness :
  load_generate.1 = inr (PathsIn "certs") ∧
  ∃ caDER leafDER leafKey,
    (LoadClientTrust (pair := list byte * bool) load_pool (CA (PathsIn "certs")) (mkFS (nodes load_generate.2) 10 [])).1 =
      inr (mkTLS [] (Some [caDER]) [ALPN] VersionTLS13) ∧
    (LoadServerTLS (pool := list (list byte)) load_pair (Server (PathsIn "certs")) (ServerKey (PathsIn "certs"))
       (mkFS (nodes load_generate.2) 10 [])).1 = inr (mkTLS [(leafDER, leafKey)] None [ALPN] VersionTLS13) ∧
    load_marshal leafKey = inr [x06].
Proof.
  split; [vm_compute; reflexivity|].
  destruct (certs_load (λ s, String.eqb s "127.0.0.1") (λ i, inr (i =? 0)%nat) (λ _, inr true) load_create load_parse
    load_marshal demo_chunks load_pair load_pool "certs" [" localhost "; ""; "127.0.0.1"]%string 5 0
    ["1"%string; "2"%string] (demo_fs []) (PathsIn "certs") load_generate.2 10)
    as (caDER & leafDER & caCert & caKey & leafKey & H1 & H2 & _ & _ & H3).
  - discriminate.
  - exact demo_no_slash.
  - exact demo_pool_law.
  - intros tm parent pub signer der kder [= <-] [= <-]. destruct (IsCA tm), pub; reflexivity.
  - vm_compute. reflexivity.
  - exists caDER, leafDER, leafKey. split; [by rewrite H1|]. split; [by rewrite H2|].
    assert ((LoadServerTLS (pool := list (list byte)) load_pair (Server (PathsIn "certs")) (ServerKey (PathsIn "certs"))
       (mkFS (nodes load_generate.2) 10 [])).1 = inr (mkTLS [([x02; x04], false)] None [ALPN] VersionTLS13)) as E
      by (vm_compute; reflexivity).
    rewrite H2 in E. by injection E as _ ->.
Defined.
