(* ===== verification/ClientConnect.v ===== *)
(** * ClientConnect: opening a pub/sub session
    ([ConnectPubSub] of [internal/client/pubsub.go], [connectPubSub] and the closing
    of sessions of [shared_conn.go])

    A session is an extended CONNECT request whose stream stays open; besides it the
    session is registered with its connection and opens a control stream. Sessions
    and connections are those of [SharedConn]; added here are the request streams with
    the calls made on them. What the transport answers is input. *)

From S2P Require Import Prelude SharedConn.

(** Whether [Close] and [CancelRead] have been called on a request stream. *)
Record request := mkRequest { req_closed : bool; req_cancelled : bool }.
Definition open_request : request := mkRequest false false.
Definition closed_request : request := mkRequest true true.

(** Request streams by connection and stream id. *)
Record client := mkClient {
  net : SharedConn.state;
  requests : gmap (nat * Z) request;
}.
Definition set_net (w : client) (s : SharedConn.state) : client := mkClient s (requests w).
Definition set_request (w : client) (k : nat * Z) (r : request) : client :=
  mkClient (net w) (<[k := r]> (requests w)).

Inductive dial_error :=
| ErrGetConn
| ErrProtocolHeader (e : string)
| ErrParseURL (e : string)
| ErrOpenRequest (e : string)
| ErrSendHeader (e : string)
| ErrReadResponse (e : string)
| ErrRegister.
Inductive connect_error :=
| ErrClientIDRequired
| ErrDial (e : dial_error)
| ErrPubSubStatus (status : Z)
| ErrControlStream (e : string).

(** What the calls answer, in their order. *)
Record answers := mkAnswers {
  an_conn : get_result;               (* getSharedConn *)
  an_header : option string;          (* addWTProtocolHeader *)
  an_url : option string;             (* url.Parse *)
  an_open : string + Z;               (* OpenRequestStream: the id of the stream *)
  an_send : option string;            (* SendRequestHeader *)
  an_response : string + Z;           (* ReadResponse: the status *)
  an_control : option string;         (* conn.OpenStreamSync *)
  an_control_header : option string;  (* writeWebTransportStreamHeader *)
}.

(** [pubsubTransportSessionImpl.closeWithCause] and [Close]: of all calls of the two,
    only the first acts. *)
Definition end_session (o : nat) (w : client) : client := set_net w (closeWithCause o (net w)).
Definition close_session (o : nat) (w : client) : client :=
  match objs (net w) !! o with
  | Some x => if ss_closed x then w else set_request (end_session o w) (ss_conn x, ss_id x) closed_request
  | None => w
  end.

(** Whether the session [o] has been closed, as it is when it cannot be registered. *)
Definition session_closed (s : SharedConn.state) (o : nat) : bool := default true (ss_closed <$> objs s !! o).

Definition is_2xx (status : Z) : bool := (200 <=? status) && (status <? 300).

(** [sharedConn.connectPubSub]: an error, or the status with the session if there is
    one. *)
Definition connectPubSub (a : answers) (c : nat) (w : client) : (dial_error + Z * option nat) * client :=
  match an_header a with
  | Some e => (inl (ErrProtocolHeader e), w)
  | None =>
      match an_url a with
      | Some e => (inl (ErrParseURL e), w)
      | None =>
          match an_open a with
          | inl e => (inl (ErrOpenRequest e), w)
          | inr id =>
              let opened := set_request w (c, id) open_request in
              let dropped := set_request opened (c, id) closed_request in
              match an_send a with
              | Some e => (inl (ErrSendHeader e), dropped)
              | None =>
                  match an_response a with
                  | inl e => (inl (ErrReadResponse e), dropped)
                  | inr status =>
                      if negb (is_2xx status) then (inr (status, None), dropped)
                      else
                        match connect_session c id (net opened) with
                        | Some s =>
                            let o := length (objs (net opened)) in
                            if session_closed s o
                            then (inl ErrRegister, set_request (set_net opened s) (c, id) closed_request)
                            else (inr (status, Some o), set_net opened s)
                        | None => (inl ErrRegister, dropped)
                        end
                  end
              end
          end
      end
  end.

(** [ConnectPubSub]: an error, or the session that goes with its connection. *)
Definition ConnectPubSub (clientID : string) (a : answers) (w : client) : (connect_error + nat) * client :=
  if String.eqb clientID "" then (inl ErrClientIDRequired, w)
  else
    match an_conn a with
    | GotConn c =>
        match connectPubSub a c w with
        | (inl e, w) => (inl (ErrDial e), w)
        | (inr (status, None), w) => (inl (ErrPubSubStatus status), w)
        | (inr (_, Some o), w) =>
            match an_control a with
            | Some e => (inl (ErrControlStream e), close_session o w)
            | None =>
                match an_control_header a with
                | Some e => (inl (ErrControlStream e), close_session o w)
                | None => (inr o, w)
                end
            end
        end
    | _ => (inl (ErrDial ErrGetConn), w)
    end.

(** ** Causes and streams of a session *)

(** The cause of a cancelled context. *)
Inductive cause := Canceled | CauseError (e : string).
#[global] Instance cause_eq_dec : EqDecision cause.
Proof. solve_decision. Defined.

(** How reading ends: without an error, at the end of the stream, or with an error. *)
Inductive read_end := ReadNil | ReadEOF | ReadError (e : string).

(** The cause that [closeWithCause] gives to the context. *)
Definition close_cause (e : read_end) : cause :=
  match e with ReadNil | ReadEOF => Canceled | ReadError e => CauseError e end.
(** [monitorRequestStream]: the call of [closeWithCause] once the request stream has
    been read to its end. *)
Definition monitorRequestStream (copied : read_end) : cause :=
  match copied with
  | ReadError e => close_cause (ReadError e)
  | _ => Canceled
  end.
(** [sessionCause] of a context with the cause [c], if it is done. *)
Definition sessionCause (c : option cause) : cause := default Canceled c.

(** A stream of a session: what was written to it, whether its reliable part is
    marked, and whether it was cancelled. *)
Record stream := mkStream { str_written : list byte; str_boundary : bool; str_cancelled : bool }.

Definition writeWebTransportStreamHeader (hdr : list byte) (write : option string) (s : stream) : option string * stream :=
  match write with
  | Some e => (Some e, s)
  | None => (None, mkStream (str_written s ++ hdr) true (str_cancelled s))
  end.

(** [OpenStreamSync]: [opened] is the error of the connection, [write] that of writing
    the header. *)
Definition OpenStreamSync (hdr : list byte) (ctx : option cause) (opened write : option string)
    : (cause * option stream) + stream :=
  match opened with
  | Some e => inl (match ctx with Some c => c | None => CauseError e end, None)
  | None =>
      match writeWebTransportStreamHeader hdr write (mkStream [] false false) with
      | (Some e, s) => inl (CauseError e, Some (mkStream (str_written s) (str_boundary s) true))
      | (None, s) => inr s
      end
  end.
