(* ===== verification/ClientConnectTheorems.v ===== *)
(** * ClientConnectTheorems: what becomes of the streams of a session *)

From S2P Require Import Prelude SharedConn ClientConnect.

(** A new session, registered and closed again, leaves the connections as they were. *)
Lemma connect_then_close c id s s' k :
  conns s !! c = Some k → lookupSession (conn_sessions k) id = None →
  connect_session c id s = Some s' → session_closed s' (length (objs s)) = false →
  objs s' = objs s ++ [mkSess c id false] ∧
  (∃ k', conns s' !! c = Some k' ∧ lookupSession (conn_sessions k') id = Some (length (objs s))) ∧
  let s2 := closeWithCause (length (objs s)) s' in
  conns s2 = conns s ∧ objs s2 = objs s ++ [mkSess c id true].
Proof.
  intros Hk Hid. unfold connect_session. rewrite Hk. destruct k as [kd ko [m|]]; cbn [conn_sessions registerSession fmap option_fmap option_map].
  2: { intros [= <-]. unfold session_closed. cbn [set_objs objs]. by rewrite lookup_app_r, Nat.sub_diag by lia. }
  intros [= <-] _. cbn [set_objs set_conn objs conns].
  assert (c < length (conns s))%nat by by eapply lookup_lt_Some.
  split; [done|]. split.
  - eexists. rewrite list_lookup_insert_eq by done. split; [done|]. cbn. by rewrite lookup_insert_eq.
  - cbv zeta. unfold closeWithCause. cbn [set_objs set_conn objs].
    rewrite lookup_app_r, Nat.sub_diag by lia. cbn [lookup list_lookup ss_closed ss_conn ss_id set_objs set_conn conns].
    rewrite list_lookup_insert_eq by done. cbn [set_conn set_objs conns objs conn_done conn_once conn_sessions].
    rewrite list_insert_insert_eq, insert_app_r_alt, Nat.sub_diag by lia. split; [|done].
    unfold unregisterSession. cbn [lookupSession mbind option_bind]. rewrite lookup_insert_eq.
    rewrite bool_decide_true by done. cbn [fmap option_fmap option_map].
    cbn in Hid. rewrite delete_insert_id by done. by rewrite list_insert_id.
Qed.

(** The calls of the closing of a session: [Close], or its end by the server or with
    the connection. *)
Definition closing (o : nat) (w : client) (by_caller : bool) : client :=
  if by_caller then close_session o w else end_session o w.

Lemma closed_stays o w x calls :
  objs (net w) !! o = Some x → ss_closed x = true → foldl (closing o) w calls = w.
Proof.
  intros Hx Hc. assert (∀ b, closing o w b = w) as Hone.
  { intros []; unfold closing, close_session, end_session, set_net, closeWithCause; rewrite Hx, Hc; [done|].
    by destruct w. }
  induction calls as [|b calls IH]; [done|]. simpl. by rewrite Hone.
Qed.

Lemma closeWithCause_closes o s x : objs s !! o = Some x → ss_closed x = false →
  objs (closeWithCause o s) !! o = Some (mkSess (ss_conn x) (ss_id x) true).
Proof.
  intros Hx Hc. unfold closeWithCause. rewrite Hx, Hc. cbv zeta.
  assert (o < length (objs s))%nat by by eapply lookup_lt_Some.
  destruct (conns _ !! ss_conn x); cbn [set_conn set_objs objs]; by rewrite list_lookup_insert_eq.
Qed.

(** The request stream of an open session under any such calls. *)
Lemma closing_request o w x calls (key := (ss_conn x, ss_id x)) :
  objs (net w) !! o = Some x → ss_closed x = false → requests w !! key = Some open_request →
  requests (foldl (closing o) w calls) !! key =
    Some (match calls with true :: _ => closed_request | _ => open_request end).
Proof.
  intros Hx Hc Hr. destruct calls as [|b calls]; [done|]. simpl.
  pose proof (closeWithCause_closes _ _ _ Hx Hc) as Hcl.
  rewrite (closed_stays o _ (mkSess (ss_conn x) (ss_id x) true)); [|destruct b|done].
  - destruct b; [|done]. unfold closing, close_session. rewrite Hx, Hc. apply lookup_insert_eq.
  - unfold closing, close_session. by rewrite Hx, Hc.
  - done.
Qed.

(** The client before opens the stream [an_open] for the first time. *)
Definition fresh_stream (a : answers) (w : client) : Prop :=
  ∀ c id, an_conn a = GotConn c → an_open a = inr id →
    requests w !! (c, id) = None ∧ ∃ k, conns (net w) !! c = Some k ∧ lookupSession (conn_sessions k) id = None.

(** What a failure leaves: the connections as they were, no session open that was
    not, and no request stream open that was not. *)
Definition released (w w' : client) : Prop :=
  conns (net w') = conns (net w) ∧
  (∀ o x, objs (net w') !! o = Some x → ss_closed x = false → objs (net w) !! o = Some x) ∧
  (∀ key rq, requests w' !! key = Some rq → requests w !! key = Some rq ∨ rq = closed_request).

Lemma released_refl w : released w w.
Proof. split_and!; auto. Qed.

Lemma released_request w w' key : 
  conns (net w') = conns (net w) → (∀ o x, objs (net w') !! o = Some x → ss_closed x = false → objs (net w) !! o = Some x) →
  (∀ k rq, requests w' !! k = Some rq → k ≠ key → requests w !! k = Some rq) →
  requests w' !! key = Some closed_request → released w w'.
Proof.
  intros Hc Ho Hr Hk. split_and!; [done|done|]. intros k rq Hrq.
  destruct (decide (k = key)) as [->|Hne]; [right; congruence|left; by eapply Hr].
Qed.

(** A session that has just been made. *)
Definition connected (a : answers) (o : nat) (w' : client) : Prop :=
  ∃ c id k, an_conn a = GotConn c ∧ an_open a = inr id ∧
    objs (net w') !! o = Some (mkSess c id false) ∧ requests w' !! (c, id) = Some open_request ∧
    conns (net w') !! c = Some k ∧ lookupSession (conn_sessions k) id = Some o.

Lemma connectPubSub_cases a c w r w' :
  an_conn a = GotConn c → fresh_stream a w → connectPubSub a c w = (r, w') →
  match r with
  | inl _ | inr (_, None) => released w w'
  | inr (_, Some o) => connected a o w' ∧ released w (close_session o w')
  end.
Proof.
  intros Hc Hfresh. unfold connectPubSub. cbv zeta.
  destruct (an_header a); [intros [= <- <-]; apply released_refl|].
  destruct (an_url a); [intros [= <- <-]; apply released_refl|].
  destruct (an_open a) as [e|id] eqn:Hopen; [intros [= <- <-]; apply released_refl|].
  destruct (Hfresh c id Hc Hopen) as (Hnew & k & Hk & Hid).
  set (opened := set_request w (c, id) open_request).
  assert (∀ s, conns s = conns (net w) → (∀ o x, objs s !! o = Some x → ss_closed x = false → objs (net w) !! o = Some x) →
    released w (set_request (set_net opened s) (c, id) closed_request)) as Hdrop.
  { intros s Hs Ho. apply (released_request _ _ (c, id)); [done|done| |apply lookup_insert_eq].
    intros k' rq. cbn [requests set_request set_net opened]. intros Hrq Hne. by rewrite !lookup_insert_ne in Hrq. }
  assert (released w (set_request opened (c, id) closed_request)) as Hdrop0 by (by apply (Hdrop (net w))).
  destruct (an_send a); [by intros [= <- <-]|]. destruct (an_response a) as [e|status]; [by intros [= <- <-]|].
  destruct (is_2xx status); simpl; [|by intros [= <- <-]].
  destruct (connect_session c id (net w)) as [s|] eqn:Hs; [|by intros [= <- <-]].
  change (net opened) with (net w). destruct (session_closed s (length (objs (net w)))) eqn:Hcl; intros [= <- <-].
  - unfold connect_session in Hs. rewrite Hk in Hs. destruct (conn_sessions k) as [m|]; cbn in Hs; simplify_eq.
    { exfalso. unfold session_closed in Hcl. cbn in Hcl. by rewrite lookup_app_r, Nat.sub_diag in Hcl by lia. }
    apply Hdrop; [done|]. cbn [set_objs objs]. intros o x Hx Hx'. apply lookup_app_Some in Hx as [|[_ Hx]]; [done|].
    apply list_lookup_singleton_Some in Hx as [_ <-]. done.
  - destruct (connect_then_close c id _ _ _ Hk Hid Hs Hcl) as (Ho & (k' & Hk' & Hl) & Hconns & Hobjs).
    assert (objs s !! length (objs (net w)) = Some (mkSess c id false)) as Hlast
      by (by rewrite Ho, lookup_app_r, Nat.sub_diag by lia).
    split.
    + exists c, id, k'. split_and!; try done. apply lookup_insert_eq.
    + unfold close_session. cbn [net set_net]. rewrite Hlast. cbn [ss_closed ss_conn ss_id].
      apply (Hdrop (closeWithCause (length (objs (net w))) s)); [done|]. rewrite Hobjs.
      intros o x Hx Hx'. apply lookup_app_Some in Hx as [|[_ Hx]]; [done|].
      apply list_lookup_singleton_Some in Hx as [_ <-]. done.
Qed.

(** C18: the request stream of a session. When ConnectPubSub fails, at whatever call,
    it leaves the connections as they were, no new session open, and every request
    stream it opened closed and cancelled. When it succeeds, the session is open and
    registered under the id of its stream; but that stream is closed only if the
    first to close the session is its user: once the server or the connection has
    ended it, no later Close ever closes the stream. *)
Theorem session_request_stream clientID a w r w' :
  fresh_stream a w → ConnectPubSub clientID a w = (r, w') →
  match r with
  | inl _ => released w w'
  | inr o => connected a o w' ∧
      ∀ c id calls, an_conn a = GotConn c → an_open a = inr id →
        requests (foldl (closing o) w' calls) !! (c, id) =
          Some (match calls with true :: _ => closed_request | _ => open_request end)
  end.
Proof.
  intros Hfresh. unfold ConnectPubSub. destruct (String.eqb clientID ""); [intros [= <- <-]; apply released_refl|].
  destruct (an_conn a) as [c| |] eqn:Hc; try (intros [= <- <-]; apply released_refl).
  destruct (connectPubSub a c w) as [[e|[status [o|]]] w1] eqn:E;
    apply connectPubSub_cases in E; try done; try (by intros [= <- <-]).
  destruct E as [Hcon Hrel]. destruct (an_control a); [by intros [= <- <-]|].
  destruct (an_control_header a); [by intros [= <- <-]|]. intros [= <- <-]. split; [done|].
  intros c0 id0 calls [= <-] Hid. destruct Hcon as (c1 & id & k & Hc1 & Hid1 & Ho & Hr & _).
  rewrite Hc in Hc1. injection Hc1 as <-. rewrite Hid in Hid1. injection Hid1 as <-.
  by apply (closing_request o w1 (mkSess c id0 false)).
Qed.

(** ** An instance *)

Definition connect_answers : answers := mkAnswers (GotConn 0) None None (inr 4) None (inr 200) None None.
Definition connect_before : client := mkClient (mkState None (Some 0%nat) false [mkConn false Fresh (Some ∅)] [] []) ∅.

(** The server ends the session, then its user closes it. *)
Lemma session_request_stream_witness :
  ∃ w', ConnectPubSub "dev" connect_answers connect_before = (inr 0%nat, w') ∧
    connected connect_answers 0 w' ∧
    requests (foldl (closing 0) w' [false; true]) !! (0%nat, 4) = Some open_request ∧
    requests (foldl (closing 0) w' [true; false]) !! (0%nat, 4) = Some closed_request.
Proof.
  assert (fresh_stream connect_answers connect_before) as Hfresh.
  { intros c id [= <-] [= <-]. split; [reflexivity|]. exists (mkConn false Fresh (Some ∅)). split; reflexivity. }
  destruct (ConnectPubSub "dev" connect_answers connect_before) as [r w'] eqn:E.
  assert (r = inr 0%nat) as Hr by (vm_compute in E; by injection E as <- _). rewrite Hr in E |- *.
  destruct (session_request_stream "dev" connect_answers connect_before (inr 0%nat) w' Hfresh E) as [Hcon Hcalls].
  exists w'. split; [reflexivity|]. split; [exact Hcon|].
  split; [exact (Hcalls 0%nat 4 [false; true] eq_refl eq_refl)|exact (Hcalls 0%nat 4 [true; false] eq_refl eq_refl)].
Defined.

(** A stream that is handed out begins with the header and nothing more, of which all is
    delivered even if the stream is reset; one that is not handed out is cancelled. *)
Lemma OpenStreamSync_cases hdr ctx opened write :
  match OpenStreamSync hdr ctx opened write with
  | inr s => s = mkStream hdr true false ∧ opened = None ∧ write = None
  | inl (_, Some s) => str_cancelled s = true ∧ opened = None
  | inl (c, None) => opened ≠ None ∧ (∀ c', ctx = Some c' → c = c')
  end.
Proof. destruct opened, write, ctx; simpl; repeat split; congruence. Qed.
