(* ===== verification/ClientNew.v ===== *)
(** * ClientNew: making a client ([New] of [internal/client/client.go])

    The base URL is normalized once, and every request of the client goes to a path
    put behind it: [New], [normalizeBaseURL], the URLs of the requests, the TLS and
    QUIC configurations of the connection, and the CONNECT request of a session with
    the header of its streams. Parsing hosts and certificates, [httpsfv] and the
    connection are parameters. *)

From S2P Require Import Prelude Text Url Profile FS CertsLoad Wire SharedConn ClientHTTP.

(** ** Constants *)

Definition defaultMaxIdleTimeout : Z := 45 * Second.
Definition defaultKeepAlivePeriod : Z := 15 * Second.
Definition defaultInitialStreamReceiveWindow : Z := 512 * 1024.
Definition defaultMaxStreamReceiveWindow : Z := 8 * 1024 * 1024.
Definition defaultInitialConnReceiveWindow : Z := 1024 * 1024.
Definition defaultMaxConnReceiveWindow : Z := 16 * 1024 * 1024.

Record quic_Config := mkQUIC {
  MaxIdleTimeout : Z;
  KeepAlivePeriod : Z;
  InitialStreamReceiveWindow : Z;
  MaxStreamReceiveWindow : Z;
  InitialConnectionReceiveWindow : Z;
  MaxConnectionReceiveWindow : Z;
  EnableDatagrams : bool;
  EnableStreamResetPartialDelivery : bool;
  DisablePathMTUDiscovery : bool;
}.
Definition quicConfig : quic_Config :=
  mkQUIC defaultMaxIdleTimeout defaultKeepAlivePeriod defaultInitialStreamReceiveWindow
    defaultMaxStreamReceiveWindow defaultInitialConnReceiveWindow defaultMaxConnReceiveWindow true true true.

(** ** Addresses *)

(** [net.SplitHostPort]: host and port; [None] is an error. *)
Definition SplitHostPort (hostport : text) : option (text * text) :=
  match CutLast x3a hostport with
  | None => None
  | Some (before, port) =>
      if bool_decide (head hostport = Some x5b) then
        match Cut x5d hostport with
        | (_, None) => None
        | (open, Some rest) =>
            if bool_decide (rest = x3a :: port) then
              if bool_decide (x5b ∈ tail hostport) || bool_decide (x5d ∈ rest) then None
              else Some (tail open, port)
            else None
        end
      else if bool_decide (x3a ∈ before) then None
      else if bool_decide (x5b ∈ hostport) || bool_decide (x5d ∈ hostport) then None
      else Some (before, port)
  end.

(** ** The base URL *)

Inductive base_error :=
| ErrParseBase (e : url_error)
| ErrNotHTTPS (scheme : text)
| ErrMissingHost.
#[global] Instance base_error_eq_dec : EqDecision base_error.
Proof. solve_decision. Defined.

Inductive new_error :=
| ErrBaseURLRequired
| ErrCAFileRequired
| ErrBaseURL (e : base_error)
| ErrParseNormalized (e : url_error)
| ErrTrust (e : load_error).

(** [strings.Contains] *)
Fixpoint Contains (sub s : text) : bool :=
  (if decide (take (length sub) s = sub) then true else false) || match s with [] => false | _ :: s => Contains sub s end.

Section client.
Context `{HostParser}.

Definition with_scheme (raw : text) : text := if Contains (lit "://") raw then raw else lit "https://" ++ raw.

(** The URL that is kept of the one that was parsed. *)
Definition keep (u : URL) : URL :=
  mkURL (Scheme u) (Opaque u) (User u) (Host u) (TrimRight x2f (Path u)) (RawPath u) (OmitHost u) (ForceQuery u) [] [].

Definition normalizeBaseURL (raw : text) : base_error + text :=
  match Parse (with_scheme raw) with
  | inl e => inl (ErrParseBase e)
  | inr u =>
      if negb (bool_decide (Scheme u = lit "https")) then inl (ErrNotHTTPS (Scheme u))
      else if bool_decide (Host u = []) then inl ErrMissingHost
      else inr (TrimRight x2f (URL_String (keep u)))
  end.

Context {pair pool : Type} (AppendCertsFromPEM : list byte → option pool).

(** A [tls.Config] with the name that is expected of the server. *)
Record client_TLS := mkClientTLS { tls : @tls_Config pair pool; ServerName : text }.

Record Options := mkOptions { BaseURL : text; opt_CAFile : string }.
Record Client := mkClient { client_baseURL : text; client_authority : text; tlsConfig : option client_TLS }.

Definition New (opts : Options) (fs : FS) : (new_error + Client) * FS :=
  if bool_decide (BaseURL opts = []) then (inl ErrBaseURLRequired, fs)
  else if String.eqb (opt_CAFile opts) "" then (inl ErrCAFileRequired, fs)
  else
    match normalizeBaseURL (BaseURL opts) with
    | inl e => (inl (ErrBaseURL e), fs)
    | inr baseURL =>
        match Parse baseURL with
        | inl e => (inl (ErrParseNormalized e), fs)
        | inr u =>
            match LoadClientTrust AppendCertsFromPEM (opt_CAFile opts) fs with
            | (inl e, fs) => (inl (ErrTrust e), fs)
            | (inr conf, fs) => (inr (mkClient baseURL (Host u) (Some (mkClientTLS conf []))), fs)
            end
        end
    end.

(** [sharedTLSConfig]; [None] is the error of a missing configuration. *)
Definition sharedTLSConfig (c : Client) : option client_TLS :=
  match tlsConfig c with
  | None => None
  | Some conf =>
      let serverName := match SplitHostPort (client_authority c) with Some (host, _) => host | None => client_authority c end in
      let t := tls conf in
      Some (mkClientTLS (mkTLS (Certificates t) (RootCAs t) [ALPN] (MinVersion t))
              (if bool_decide (ServerName conf = []) then serverName else ServerName conf))
  end.

(** ** Dialling *)

(** What the goroutine of [dialQUIC] sees of its connection. *)
Inductive watch_event := WatchHandshake | WatchDone | WatchTick (rtt : Z).
(** Its metrics: whether the handshake was observed, and the round-trip times set. *)
Fixpoint watch_rtt (evs : list watch_event) : list Z :=
  match evs with
  | WatchTick rtt :: evs => rtt :: watch_rtt evs
  | WatchHandshake :: evs => watch_rtt evs
  | WatchDone :: _ | [] => []
  end.
Fixpoint watch (rtt : Z) (evs : list watch_event) : bool * list Z :=
  match evs with
  | WatchHandshake :: evs => (true, rtt :: watch_rtt evs)
  | WatchTick _ :: evs => watch rtt evs
  | WatchDone :: _ | [] => (false, [])
  end.

(** [dialQUIC] of the client: the error of [quic.DialAddrEarly], or the connection with
    what its metrics see. *)
Definition dialQUIC {conn : Type} (DialAddrEarly : text → option client_TLS → quic_Config → string + conn)
    (c : Client) (metrics : bool) (rtt : Z) (evs : list watch_event) : string + (conn * (bool * list Z)) :=
  match DialAddrEarly (client_authority c) (sharedTLSConfig c) quicConfig with
  | inl e => inl e
  | inr k => inr (k, if metrics then watch rtt evs else (false, []))
  end.

(** ** Requests *)

Inductive call :=
| CallState
| CallPubSub
| CallConfig (clientID : string)
| CallUpload (name : string).

(** What a call puts behind the base URL, and the path this stands for. *)
Definition call_path (k : call) : text :=
  match k with
  | CallState => lit "/state"
  | CallPubSub => lit "/pubsub"
  | CallConfig clientID => lit ("/config/" +:+ PathEscape clientID)
  | CallUpload name => lit ("/files/" +:+ PathEscape name)
  end.
Definition call_target (k : call) : text :=
  match k with
  | CallState => lit "/state"
  | CallPubSub => lit "/pubsub"
  | CallConfig clientID => lit ("/config/" +:+ clientID)
  | CallUpload name => lit ("/files/" +:+ name)
  end.

Definition request_url (c : Client) (k : call) : url_error + URL := Parse (client_baseURL c ++ call_path k).

(** [clientRoundTripper.RoundTrip] over the connection that [getSharedConn] returns. *)
Definition RoundTrip {req resp W : Type} (raw_RoundTrip : nat → req → W → (string + resp) * W)
    (shared : get_result) (r : req) (w : W) : (get_result + (string + resp)) * W :=
  match shared with
  | GotConn c => let '(x, w) := raw_RoundTrip c r w in (inr x, w)
  | e => (inl e, w)
  end.

(** The CONNECT request of a session; [httpsfv.Marshal] of the list of one protocol is
    a parameter. *)
Definition clientIDHeader : string := "X-Client-ID".
Definition wtAvailableProtocolsHeader : string := "WT-Available-Protocols".
Definition pubsubProtocol : string := "quixiot-pubsub-v1".
Record connect_request := mkConnect {
  cr_Header : list (string * string);
  cr_Proto : string;
  cr_Host : text;
  cr_URL : URL;
}.

Definition addWTProtocolHeader (Marshal : string → string + string) (hdr : list (string * string)) (protocol : string)
    : string + list (string * string) :=
  match Marshal protocol with
  | inl e => inl e
  | inr value => inr (hdr ++ [(wtAvailableProtocolsHeader, value)])
  end.

Definition pubsub_request (Marshal : string → string + string) (c : Client) (clientID : string)
    : (string + url_error) + connect_request :=
  let hdr := if String.eqb clientID "" then [] else [(clientIDHeader, clientID)] in
  match addWTProtocolHeader Marshal hdr pubsubProtocol with
  | inl e => inl (inl e)
  | inr hdr =>
      match request_url c CallPubSub with
      | inl e => inl (inr e)
      | inr u => inr (mkConnect hdr "webtransport" (Host u) u)
      end
  end.
End client.
