(* ===== verification/ClientNewTheorems.v ===== *)
(** * ClientNewTheorems: what a client makes of its base URL

    A base URL is normalized to a fixpoint, and what the calls of the client put
    behind it extends its path, with one exception: a question mark at its end is
    kept, and the path of every request becomes its query. *)

From S2P Require Import Prelude Text Url UrlProofs FS CertsLoad Wire SharedConn ClientHTTP ClientNew.

Lemma lit_app s t : lit (s +:+ t) = lit s ++ lit t.
Proof. induction s as [|a s IH]; [done|]. change (lit (String a s +:+ t)) with (Ascii.byte_of_ascii a :: lit (s +:+ t)). by rewrite IH. Qed.

Lemma Contains_head sub s t : sub ≠ [] → Contains sub (sub ++ t) = true ∧ (Contains sub t = true → Contains sub (s ++ t) = true).
Proof.
  intros Hsub. split.
  - destruct sub as [|b sub]; [done|]. cbn [app Contains]. rewrite decide_True; [done|].
    exact (take_app_length (b :: sub) t).
  - intros Ht. induction s as [|c s IH]; [done|]. cbn [app Contains]. rewrite IH. apply orb_true_r.
Qed.

Section base.
Context `{HostParserLaws}.

Lemma Path_trimmed u : rooted u → Path (keep u) = [] ∨ head (Path (keep u)) = Some x2f.
Proof. intros Hu. destruct (r_path u Hu) as [Hp|Hp]; simpl; [rewrite Hp; by left|by apply TrimRight_head]. Qed.

Lemma keep_kept u : rooted u → Scheme u = lit "https" → Host u ≠ [] → kept (keep u).
Proof.
  intros Hu Hs Hh. split; try done.
  - exact (r_opaque u Hu).
  - exact (r_parsed u Hu).
  - by apply Path_trimmed.
  - exact (r_raw u Hu).
  - apply TrimRight_last.
Qed.

(** The base URL is the text of what was kept. *)
Lemma normalize_kept raw b : normalizeBaseURL raw = inr b →
  ∃ r, Parse (with_scheme raw) = inr r ∧ kept (keep r) ∧ b = base_text (keep r).
Proof.
  unfold normalizeBaseURL. destruct (Parse (with_scheme raw)) as [|r] eqn:Hr; [done|].
  destruct (bool_decide (Scheme r = _)) eqn:Hs; [|done]. apply bool_decide_eq_true in Hs.
  destruct (bool_decide (Host r = _)) eqn:Hh; [done|]. apply bool_decide_eq_false in Hh. intros [= <-].
  assert (kept (keep r)) as Hk by (apply keep_kept; [by eapply Parse_rooted|done..]).
  exists r. split_and!; [done..|]. by rewrite URL_String_kept, base_text_trimmed.
Qed.

Lemma with_scheme_base u : with_scheme (base_text u) = base_text u.
Proof.
  unfold with_scheme, base_text. change (lit "https://") with (lit "https" ++ lit "://").
  rewrite <- app_assoc. destruct (Contains_head (lit "://") (lit "https") (authority u ++ EscapedPath u ++ query_text (if ForceQuery u then Some [] else None))) as [H1 _]; [done|].
  destruct (Contains_head (lit "://") (lit "https") (lit "://" ++ authority u ++ EscapedPath u ++ query_text (if ForceQuery u then Some [] else None))) as [_ H2]; [done|].
  by rewrite H2.
Qed.

(** The base URL that is read back has the same text. *)
Lemma read_back_base u : kept u →
  let v := read_back u (EscapedPath u) (Path u) (ForceQuery u) [] in
  kept v ∧ EscapedPath v = EscapedPath u ∧ base_text v = base_text u.
Proof.
  intros Hu v. pose proof (kept_path_star u Hu) as Hs.
  assert (EscapedPath v = EscapedPath u) as He.
  { apply EscapedPath_read; [by apply EscapedPath_valid|by apply EscapedPath_decodes|done]. }
  split_and!; [|done|].
  - destruct Hu as [? ? ? ? ? ? ? ? ?]. split; try done. simpl.
    destruct (decide _); [by left|]. apply kept_rooted. by split.
  - unfold base_text. by rewrite He.
Qed.

Lemma keep_read_back u : kept u → keep (read_back u (EscapedPath u) (Path u) (ForceQuery u) []) =
  read_back u (EscapedPath u) (Path u) (ForceQuery u) [].
Proof. intros Hu. unfold keep, read_back. simpl. by rewrite TrimRight_id by apply (k_trimmed u Hu). Qed.

Lemma normalize_base u : kept u → normalizeBaseURL (base_text u) = inr (base_text u).
Proof.
  intros Hu. unfold normalizeBaseURL. rewrite with_scheme_base, Parse_base by done.
  rewrite bool_decide_true by done. simpl negb. cbv iota. rewrite bool_decide_false by apply (k_host u Hu).
  rewrite keep_read_back by done. destruct (read_back_base u Hu) as (Hv & _ & Hb).
  by rewrite URL_String_kept, Hb, base_text_trimmed.
Qed.

(** ** The paths of the calls *)

Lemma call_path_head k : head (call_path k) = Some x2f.
Proof. by destruct k. Qed.

Lemma lit_PathEscape s : lit (PathEscape s) = escape encodePathSegment (lit s).
Proof. apply bytes_of_string_of_bytes. Qed.

Lemma segment_byte c : c = x25 ∨ shouldEscape encodePathSegment c = false → in_path c ∧ (one_of "!$&'()*+,;=:@[]%" c || negb (shouldEscape encodePath c) = true).
Proof. intros [-> |Hc]; [done|]. revert Hc. destruct c; vm_compute; done. Qed.

Lemma call_path_plain k : Forall in_path (call_path k) ∧ validEncoded (call_path k) = true.
Proof.
  assert (∀ p s, Forall in_path p → validEncoded p = true →
    Forall in_path (p ++ escape encodePathSegment s) ∧ validEncoded (p ++ escape encodePathSegment s) = true) as Hseg.
  { intros p s Hp Hv. rewrite Forall_app, validEncoded_app, Hv. split; [split; [done|]|].
    - apply Forall_forall. intros c Hc%escape_elem. by apply segment_byte.
    - apply forallb_forall. intros c Hc%list_elem_of_In%escape_elem. by apply segment_byte. }
  destruct k as [| |s|s]; unfold call_path.
  1, 2: by split; [repeat constructor|].
  all: rewrite lit_app, lit_PathEscape; apply Hseg; [repeat constructor|done].
Qed.

Lemma unescape_segment mode s : mode ≠ encodeHost → unescape mode (escape encodePathSegment s) = inr s.
Proof.
  intros Hm. induction s as [|c s IH]; [done|]. rewrite escape_cons. unfold escape_byte.
  destruct (shouldEscape encodePathSegment c) eqn:E; cbn [app].
  - by rewrite unescape_escaped, IH.
  - rewrite unescape_plain, IH; [done| |done]. by intros ->.
Qed.

Lemma call_path_target k : unescape encodePath (call_path k) = inr (call_target k).
Proof.
  destruct k as [| |s|s]; [done|done|..]; unfold call_path, call_target; rewrite !lit_app, lit_PathEscape;
    (erewrite unescape_app; [by rewrite unescape_segment|done|done]).
Qed.

(** The URL of a call to the base URL of [u]. *)
Lemma Parse_call u k : kept u → ∃ v, Parse (base_text u ++ call_path k) = inr v ∧
  (Scheme v = lit "https" ∧ User v = User u ∧ Host v = Host u ∧ ForceQuery v = false ∧ Fragment v = []) ∧
  if ForceQuery u then EscapedPath v = EscapedPath u ∧ RawQuery v = call_path k
  else EscapedPath v = EscapedPath u ++ call_path k ∧ Path v = Path u ++ call_target k ∧ RawQuery v = [].
Proof.
  intros Hu. destruct (call_path_plain k) as [Hin Hv]. pose proof (kept_path_star u Hu) as Hs.
  assert (validEncoded (EscapedPath u) = true) as Hev by by apply EscapedPath_valid.
  assert (unescape encodePath (EscapedPath u) = inr (Path u)) as Hd by by apply EscapedPath_decodes.
  destruct (ForceQuery u) eqn:Hf.
  - pose proof (call_path_head k) as Hh. destruct (call_path k) as [|c p]; [done|].
    eexists. split; [by apply Parse_base_query|]. split; [done|]. split; [|done]. by apply EscapedPath_read.
  - eexists. split; [by apply Parse_base_path; [..|apply call_path_head| |apply call_path_target]|].
    split; [done|]. split; [|done]. apply EscapedPath_read.
    + by rewrite validEncoded_app, Hev, Hv.
    + erewrite unescape_app by done. by rewrite call_path_target.
    + destruct (k_path u Hu) as [->|Hp]; [by destruct k|]. by destruct (Path u); [|injection Hp as ->].
Qed.
End base.

Lemma client_base_url_lemma `{HostParserLaws} {pair pool} (AppendCertsFromPEM : list byte → option pool) opts fs r fs' :
  New (pair := pair) AppendCertsFromPEM opts fs = (r, fs') →
  (∀ e, r ≠ inl (ErrParseNormalized e)) ∧
  ∀ c, r = inr c → ∃ given u,
    Parse (with_scheme (BaseURL opts)) = inr given ∧ Parse (client_baseURL c) = inr u ∧
    normalizeBaseURL (client_baseURL c) = inr (client_baseURL c) ∧
    (Scheme u = lit "https" ∧ User u = User given ∧ Host u = Host given ∧ Host u ≠ [] ∧ client_authority c = Host u ∧
     Path u = TrimRight x2f (Path given)) ∧
    ∀ k, ∃ v, request_url c k = inr v ∧
      (Scheme v = Scheme u ∧ User v = User u ∧ Host v = Host u ∧ ForceQuery v = false ∧ Fragment v = []) ∧
      if ForceQuery given then EscapedPath v = EscapedPath u ∧ RawQuery v = call_path k
      else EscapedPath v = EscapedPath u ++ call_path k ∧ Path v = Path u ++ call_target k ∧ RawQuery v = [].
Proof.
  unfold New. destruct (bool_decide (BaseURL opts = [])); [by intros [= <- <-]|].
  destruct (String.eqb _ _); [by intros [= <- <-]|].
  destruct (normalizeBaseURL (BaseURL opts)) as [e|b] eqn:Hn; [by intros [= <- <-]|].
  apply normalize_kept in Hn as (given & Hg & Hk & ->). rewrite Parse_base by done.
  destruct (read_back_base _ Hk) as (Hkv & He & Hb).
  destruct (LoadClientTrust _ _ _) as [[e|conf] fs1]; intros [= <- <-]; [done|].
  split; [done|]. intros c [= <-]. eexists given, _.
  split_and!; [done|by apply Parse_base|by apply normalize_base|done|done|done|by apply (k_host _ Hk)|done|done|].
  intros k. destruct (Parse_call _ k Hk) as (v & Hv & Hsame & Hpath). exists v. split_and!; [done|by apply Hsame..|].
  rewrite He. exact Hpath.
Qed.

(** C20: the base URL of a client. New never fails to read back the base URL it has
    normalized. The base URL it keeps is a fixpoint of the normalization; it names the
    user and host that were given, with the slashes at the end of the path removed, and
    the authority that is dialled is its host. The URL of every call has the scheme,
    user and host of the base URL, and as its path the one of the base URL followed by
    the path of the call, in which identifiers and names stand for themselves; only
    when the URL that was given ends in a question mark is the path of every call that
    of the base URL, with the path of the call as query. *)
Theorem client_base_url `{HostParserLaws} {pair pool} (AppendCertsFromPEM : list byte → option pool) opts fs r fs' :
  New (pair := pair) AppendCertsFromPEM opts fs = (r, fs') →
  (∀ e, r ≠ inl (ErrParseNormalized e)) ∧
  ∀ c, r = inr c → ∃ given u,
    Parse (with_scheme (BaseURL opts)) = inr given ∧ Parse (client_baseURL c) = inr u ∧
    normalizeBaseURL (client_baseURL c) = inr (client_baseURL c) ∧
    (Scheme u = lit "https" ∧ User u = User given ∧ Host u = Host given ∧ Host u ≠ [] ∧ client_authority c = Host u ∧
     Path u = TrimRight x2f (Path given)) ∧
    ∀ k, ∃ v, request_url c k = inr v ∧
      (Scheme v = Scheme u ∧ User v = User u ∧ Host v = Host u ∧ ForceQuery v = false ∧ Fragment v = []) ∧
      if ForceQuery given then EscapedPath v = EscapedPath u ∧ RawQuery v = call_path k
      else EscapedPath v = EscapedPath u ++ call_path k ∧ Path v = Path u ++ call_target k ∧ RawQuery v = [].
Proof. apply client_base_url_lemma. Qed.

(** ** The name expected of the server *)

Lemma SplitHostPort_name h p : Forall (λ c, c ∉ lit ":[]") h → Forall (λ c, c ∉ lit ":[]") p →
  SplitHostPort (h ++ x3a :: p) = Some (h, p).
Proof.
  intros Hh Hp.
  assert (∀ c s, c ∈ lit ":[]" → Forall (λ c, c ∉ lit ":[]") s → c ∉ s) as Hno.
  { intros c s Hc Hs Hin. rewrite Forall_forall in Hs. by apply (Hs c). }
  unfold SplitHostPort. rewrite CutLast_app by (apply Hno; [by_computation|done]).
  rewrite (bool_decide_false (head _ = _)).
  - rewrite (bool_decide_false (x3a ∈ h)) by (apply Hno; [by_computation|done]).
    rewrite !bool_decide_false; [done|..]; rewrite not_elem_of_app, not_elem_of_cons; split_and!; try done; (apply Hno; [by_computation|done]).
  - destruct h as [|c h]; [done|]. intros [= ->]. apply Forall_cons in Hh as [Hc _]. apply Hc. by_computation.
Qed.

Lemma SplitHostPort_literal h p : Forall (λ c, c ∉ lit "[]") h → Forall (λ c, c ∉ lit ":[]") p →
  SplitHostPort (x5b :: h ++ x5d :: x3a :: p) = Some (h, p).
Proof.
  intros Hh Hp.
  assert (∀ c l s, c ∈ lit l → Forall (λ c, c ∉ lit l) s → c ∉ s) as Hno.
  { intros c l s Hc Hs Hin. rewrite Forall_forall in Hs. by apply (Hs c). }
  assert (x5d ∉ h) as H1 by (eapply Hno; [|done]; by_computation).
  assert (x5b ∉ h) as H2 by (eapply Hno; [|done]; by_computation).
  assert (x5d ∉ p) as H3 by (eapply Hno; [|done]; by_computation).
  assert (x5b ∉ p) as H4 by (eapply Hno; [|done]; by_computation).
  unfold SplitHostPort. change (x5b :: h ++ x5d :: x3a :: p) with ((x5b :: h) ++ x5d :: x3a :: p).
  rewrite (Cut_app x5d (x5b :: h)) by (by apply not_elem_of_cons).
  assert (CutLast x3a ((x5b :: h) ++ x5d :: x3a :: p) = Some (x5b :: h ++ [x5d], p)) as ->.
  { replace ((x5b :: h) ++ x5d :: x3a :: p) with ((x5b :: h ++ [x5d]) ++ x3a :: p) by by rewrite app_comm_cons, <- app_assoc.
    apply CutLast_app. eapply Hno; [|done]; by_computation. }
  rewrite bool_decide_true by done. rewrite (bool_decide_true (x3a :: p = _)) by done.
  rewrite !bool_decide_false; [done|..]; cbn [tail]; set_solver.
Qed.

(** The connection of a client expects the host of its authority, the port and the
    brackets of an IPv6 address removed, and speaks HTTP/3. *)
Lemma sharedTLSConfig_New `{HostParser} {pair pool} (AppendCertsFromPEM : list byte → option pool) opts fs c fs' :
  New (pair := pair) AppendCertsFromPEM opts fs = (inr c, fs') →
  ∃ roots, sharedTLSConfig c = Some (mkClientTLS (mkTLS [] (Some roots) [ALPN] VersionTLS13)
    match SplitHostPort (client_authority c) with Some (host, _) => host | None => client_authority c end).
Proof.
  unfold New, LoadClientTrust. destruct (bool_decide _); [done|]. destruct (String.eqb _ _); [done|].
  destruct (normalizeBaseURL _); [done|]. destruct (Parse _); [done|]. destruct (ReadFile _ _) as [[|d] fs1]; [done|].
  destruct (AppendCertsFromPEM d) as [roots|]; [|done]. intros [= <- _]. by exists roots.
Qed.

(** ** An instance *)

(** Hosts are names, with a port or without. *)
#[local] Instance name_host : HostParser := λ raw,
  let name (s : text) := forallb (λ c, is_letter c || is_digit c || one_of ".-" c) s in
  match CutLast x3a raw with
  | Some (s, port) => if name s && forallb is_digit port then inr raw else inl ErrInvalidHost
  | None => if name raw then inr raw else inl ErrInvalidHost
  end.

Lemma name_plain s : forallb (λ c, is_letter c || is_digit c || one_of ".-" c) s = true → escape encodeHost s = s.
Proof.
  induction s as [|c s IH]; [done|]. simpl. rewrite andb_true_iff. intros [Hc Hs]. rewrite escape_cons, IH by done.
  revert Hc. by destruct c.
Qed.
Lemma digits_plain s : forallb is_digit s = true → escape encodeHost s = s.
Proof.
  induction s as [|c s IH]; [done|]. simpl. rewrite andb_true_iff. intros [Hc Hs]. rewrite escape_cons, IH by done.
  revert Hc. by destruct c.
Qed.
Lemma CutLast_some c s x y : CutLast c s = Some (x, y) → s = x ++ c :: y.
Proof.
  revert x. induction s as [|b s IH]; [done|]. intros x. simpl. destruct (CutLast c s) as [[x' y']|].
  - intros [= <- <-]. by rewrite (IH x').
  - destruct (decide (b = c)) as [->|]; [|done]. by intros [= <- <-].
Qed.

#[local] Instance name_host_laws : HostParserLaws.
Proof.
  intros raw h E. assert (escape encodeHost h = h ∧ raw = h) as [-> ->]; [|done].
  unfold parseHost, name_host in E. destruct (CutLast x3a raw) as [[s port]|] eqn:Hc.
  - destruct (forallb _ s && _) eqn:F; [|done]. injection E as <-. split; [|done].
    apply CutLast_some in Hc as ->. apply andb_true_iff in F as [F1 F2].
    by rewrite escape_app, escape_cons, name_plain, digits_plain.
  - destruct (forallb _ raw) eqn:F; [|done]. injection E as <-. split; [|done]. by apply name_plain.
Qed.

Definition demo_pem (c : list byte) : option (list byte) := Some c.
Definition demo_ca : FS := mkFS {[(false, ["ca.pem"%string]) := File [x01] 0]} 10 [].
Definition demo_new (url : string) : (new_error + @Client unit (list byte)) * FS :=
  New demo_pem (mkOptions (lit url) "ca.pem") demo_ca.

Lemma client_base_url_witness :
  (∃ c u v, (demo_new "gw.lan:4433/edge//?x=1#top").1 = inr c ∧ client_baseURL c = lit "https://gw.lan:4433/edge" ∧
     Parse (client_baseURL c) = inr u ∧ request_url c (CallConfig "a b/1") = inr v ∧
     EscapedPath v = lit "/edge/config/a%20b%2F1" ∧ Path v = Path u ++ lit "/config/a b/1") ∧
  ∃ c v, (demo_new "https://gw.lan/edge?").1 = inr c ∧ request_url c CallState = inr v ∧
    EscapedPath v = lit "/edge" ∧ RawQuery v = lit "/state".
Proof.
  split.
  - destruct (client_base_url demo_pem (mkOptions (lit "gw.lan:4433/edge//?x=1#top") "ca.pem") demo_ca
      (demo_new "gw.lan:4433/edge//?x=1#top").1 (demo_new "gw.lan:4433/edge//?x=1#top").2) as [_ Hok];
      [by rewrite <- surjective_pairing|].
    eexists. destruct (Hok _ ltac:(vm_compute; reflexivity)) as (given & u & Hg & Hu & _ & _ & Hcall).
    destruct (Hcall (CallConfig "a b/1")) as (v & Hv & _ & Hp). vm_compute in Hg. injection Hg as <-.
    cbn [ForceQuery] in Hp. destruct Hp as (He & Hp & _). exists u, v.
    split_and!; [vm_compute; reflexivity|reflexivity|exact Hu|exact Hv| |exact Hp].
    rewrite He. vm_compute in Hu. injection Hu as <-. vm_compute. reflexivity.
  - destruct (client_base_url demo_pem (mkOptions (lit "https://gw.lan/edge?") "ca.pem") demo_ca
      (demo_new "https://gw.lan/edge?").1 (demo_new "https://gw.lan/edge?").2) as [_ Hok];
      [by rewrite <- surjective_pairing|].
    eexists. destruct (Hok _ ltac:(vm_compute; reflexivity)) as (given & u & Hg & Hu & _ & _ & Hcall).
    destruct (Hcall CallState) as (v & Hv & _ & Hp). vm_compute in Hg. injection Hg as <-.
    cbn [ForceQuery] in Hp. destruct Hp as [He Hp]. exists v.
    split_and!; [vm_compute; reflexivity|exact Hv| |exact Hp].
    rewrite He. vm_compute in Hu. injection Hu as <-. vm_compute. reflexivity.
Defined.

(** Removing a slash at the end of the path drops the form in which the path was
    given: an escaped slash in it becomes one that separates. *)
Example escaped_slash_lost :
  normalizeBaseURL (lit "https://gw.lan/a%2Fb") = inr (lit "https://gw.lan/a%2Fb") ∧
  normalizeBaseURL (lit "https://gw.lan/a%2Fb/") = inr (lit "https://gw.lan/a/b").
Proof. split; vm_compute; reflexivity. Qed.

(** A base URL without a port is accepted, but its authority is no address. *)
Example port_missing :
  ∃ c, (demo_new "https://gw.lan").1 = inr c ∧ client_authority c = lit "gw.lan" ∧
    SplitHostPort (client_authority c) = None.
Proof. eexists. split; [vm_compute; reflexivity|]. by split. Qed.
