(* ===== verification/Lifecycle.v ===== *)
(** * Lifecycle: what a command holds while it runs

    The [run] functions of the binaries acquire sockets and handles one after the other
    and leave their release to deferred calls. A step of such a function acts on the
    trace of what was acquired and released, and on a state of its own; it returns, or
    goes on running, or panics. What goroutines do that [run] starts and does not wait
    for is not part of its trace, but may come in between ([shuts_down]). *)

From S2P Require Import Prelude FS Logging.

Inductive resource :=
| ListenSocket        (* the UDP socket *)
| ServerHandle        (* server.Server *)
| ProxyHandle         (* proxy.Proxy *)
| ClientHandle        (* client.Client *)
| SessionHandle       (* client.PubSubSession *)
| SignalContext       (* signal.NotifyContext *)
| MetricsEndpoint     (* the listener of the metrics server *)
| LoggerFile.            (* the file of the logger *)
#[global] Instance resource_eq_dec : EqDecision resource.
Proof. solve_decision. Defined.

Inductive event := Acquired (r : resource) | Released (r : resource).
#[global] Instance event_eq_dec : EqDecision event.
Proof. solve_decision. Defined.
Abbreviation trace := (list event).

Inductive status (E : Type) := Running | Returned (e : option E) | Panicked.
Arguments Running {E}.
Arguments Returned {E} e.
Arguments Panicked {E}.

(** What is acquired and not yet released, the last one first. *)
Definition live_step (live : list resource) (e : event) : list resource :=
  match e with Acquired r => r :: live | Released r => List.filter (λ x, negb (bool_decide (x = r))) live end.
Definition live (tr : trace) : list resource := foldl live_step [] tr.

(** Nothing is released that is not held, or acquired twice. *)
Fixpoint disciplined (held : list resource) (tr : trace) : bool :=
  match tr with
  | [] => true
  | Acquired r :: tr => negb (bool_decide (r ∈ held)) && disciplined (live_step held (Acquired r)) tr
  | Released r :: tr => bool_decide (r ∈ held) && disciplined (live_step held (Released r)) tr
  end.

(** The goroutine that comes with the metrics endpoint waits for the context of [run],
    which a signal or [stop] ends, and then shuts the endpoint down. Nothing waits for
    it: it may do so at any time while the endpoint is open, before or after [run]
    returns, or not at all if the process ends first. *)
Inductive shuts_down : trace → trace → Prop :=
| shuts_down_after tr1 tr2 :
    MetricsEndpoint ∈ live tr1 → shuts_down (tr1 ++ tr2) (tr1 ++ Released MetricsEndpoint :: tr2).

Section command.
Context {E S : Type}.

Definition command : Type := trace * S → status E * (trace * S).

Definition return_error (e : E) : command := λ s, (Returned (Some e), s).
Definition return_nil : command := λ s, (Returned None, s).
Definition acquire (r : resource) (k : command) : command := λ s, k (s.1 ++ [Acquired r], s.2).
Definition release (r : resource) (s : trace * S) : trace * S := (s.1 ++ [Released r], s.2).

(** A call that changes the state and may fail. *)
Definition call {A e} (f : S → (e + A) * S) (wrap : e → E) (k : A → command) : command := λ s,
  match f s.2 with
  | (inl x, st) => (Returned (Some (wrap x)), (s.1, st))
  | (inr a, st) => k a (s.1, st)
  end.

(** [defer f()]: when the rest returns. *)
Definition defer (f : trace * S → trace * S) (k : command) : command := λ s,
  match k s with
  | (Returned e, s) => (Returned e, f s)
  | r => r
  end.

(** [stop] of [signal.NotifyContext]. *)
Definition stop (s : trace * S) : trace * S := release SignalContext s.

(** What [logging.New] has opened when it returns. *)
Definition open_log (s : sink) (k : command) : command :=
  match s with SinkFile _ => acquire LoggerFile k | _ => k end.

(** [serveMetrics] (also [servePlainMetrics] and [startMetricsServer]): an empty address
    disables the endpoint; [listen] is the error of [net.Listen]. *)
Definition serve_metrics (addr : string) (listen : option string) (wrap : string → E) (k : command) : command :=
  if String.eqb addr "" then k
  else match listen with
       | Some e => return_error (wrap e)
       | None => acquire MetricsEndpoint k
       end.
End command.
