(* ===== verification/LifecycleProofs.v ===== *)
(** * LifecycleProofs: rules for commands

    How the constructions of [Lifecycle] handle what is acquired and released, and what
    is left when a command has returned. *)

From S2P Require Import Prelude FS Logging Lifecycle.

(** ** Traces *)

Lemma live_snoc tr e : live (tr ++ [e]) = live_step (live tr) e.
Proof. unfold live. by rewrite foldl_app. Qed.

Lemma disciplined_app tr tr' : ∀ held,
  disciplined held (tr ++ tr') = disciplined held tr && disciplined (foldl live_step held tr) tr'.
Proof.
  induction tr as [|[r|r] tr IH]; intros held; simpl; [done|..]; rewrite IH; by rewrite andb_assoc.
Qed.

Lemma elem_of_live_step held e r :
  r ∈ live_step held e ↔ e = Acquired r ∨ (r ∈ held ∧ e ≠ Released r).
Proof.
  destruct e as [r'|r']; simpl.
  - rewrite elem_of_cons. naive_solver.
  - rewrite !list_elem_of_In, filter_In, negb_true_iff, bool_decide_eq_false. naive_solver.
Qed.

(** What is held was acquired; what was acquired is held or was released. *)
Lemma live_acquired tr r : r ∈ live tr → Acquired r ∈ tr.
Proof.
  induction tr as [|e tr IH] using rev_ind; [by intros ?%elem_of_nil|].
  rewrite live_snoc, elem_of_live_step, elem_of_app, list_elem_of_singleton. naive_solver.
Qed.

Lemma acquired_live tr r : Acquired r ∈ tr → r ∈ live tr ∨ Released r ∈ tr.
Proof.
  induction tr as [|e tr IH] using rev_ind; [by intros ?%elem_of_nil|].
  rewrite live_snoc, elem_of_live_step, !elem_of_app, !list_elem_of_singleton.
  intros [Hr|Hr]; [|auto]. destruct (IH Hr); [|auto]. destruct (decide (e = Released r)); auto.
Qed.

Lemma held_stays tr1 tr2 r : r ∈ live tr1 → r ∈ live (tr1 ++ tr2) ∨ Released r ∈ tr2.
Proof.
  intros Hr. induction tr2 as [|e tr2 IH] using rev_ind; [by rewrite app_nil_r; left|].
  rewrite app_assoc, live_snoc, elem_of_live_step, elem_of_app, list_elem_of_singleton.
  destruct IH; [|auto]. destruct (decide (e = Released r)); auto.
Qed.

(** *** A release by somebody else *)

Definition without (r : resource) : list resource → list resource :=
  List.filter (λ x, negb (bool_decide (x = r))).

Lemma without_comm r r' l : without r (without r' l) = without r' (without r l).
Proof.
  unfold without. induction l as [|x l IH]; [done|]. simpl.
  destruct (negb (bool_decide (x = r'))) eqn:E1, (negb (bool_decide (x = r))) eqn:E2; simpl; rewrite ?E1, ?E2, IH; done.
Qed.

Lemma elem_of_without r r' l : r' ∈ without r l ↔ r' ∈ l ∧ r' ≠ r.
Proof. unfold without. rewrite !list_elem_of_In, filter_In, negb_true_iff, bool_decide_eq_false. done. Qed.

(** An early release of [r] does not disturb a trace that neither releases it nor
    acquires it again. *)
Lemma without_disciplined r tr : ∀ held, r ∈ held → Released r ∉ tr → disciplined held tr = true →
  disciplined (without r held) tr = true ∧ foldl live_step (without r held) tr = without r (foldl live_step held tr).
Proof.
  induction tr as [|[x|x] tr IH]; intros held Hr Hrel Hd; cbn [disciplined foldl] in *; [done|..];
    apply not_elem_of_cons in Hrel as [Hx Hrel]; apply andb_true_iff in Hd as [Hd1 Hd].
  - apply negb_true_iff, bool_decide_eq_false in Hd1. assert (x ≠ r) as Hne by congruence.
    assert (without r (live_step held (Acquired x)) = live_step (without r held) (Acquired x)) as Hs.
    { simpl. unfold without. simpl. by rewrite bool_decide_false. }
    rewrite <-Hs. destruct (IH (live_step held (Acquired x))) as [-> ->]; [by right|done..|].
    rewrite bool_decide_false; [done|]. rewrite elem_of_without. tauto.
  - apply bool_decide_eq_true in Hd1. assert (x ≠ r) as Hne by congruence.
    assert (without r (live_step held (Released x)) = live_step (without r held) (Released x)) as Hs
      by apply without_comm.
    rewrite <-Hs. destruct (IH (live_step held (Released x))) as [-> ->]; [|done..|].
    + apply elem_of_live_step. right. split; [done|congruence].
    + rewrite bool_decide_true; [done|]. by apply elem_of_without.
Qed.

(** ** Orderly traces

    Nothing is released that is not held, or acquired twice; the function itself closes
    neither the log file nor the metrics endpoint; and it opens the latter only under
    the context whose end will close it. *)
Record orderly (tr : trace) : Prop := {
  od_disciplined : disciplined [] tr = true;
  od_log : Released LoggerFile ∉ tr;
  od_endpoint : Released MetricsEndpoint ∉ tr;
  od_context tr1 tr2 : tr = tr1 ++ Acquired MetricsEndpoint :: tr2 → SignalContext ∈ live tr1;
}.

Lemma orderly_nil : orderly [].
Proof. split; [done|by intros ?%elem_of_nil..|]. by intros [|??]. Qed.

Lemma snoc_split {A} (l l1 l2 : list A) x y : l ++ [x] = l1 ++ y :: l2 → (l = l1 ∧ x = y) ∨ ∃ l2', l = l1 ++ y :: l2'.
Proof.
  destruct l2 as [|z l2 _] using rev_ind.
  - intros H. apply app_inj_tail in H. auto.
  - rewrite app_comm_cons, app_assoc. intros H. apply app_inj_tail in H as [-> _]. eauto.
Qed.

Lemma orderly_acquire tr r :
  orderly tr → r ∉ live tr → (r = MetricsEndpoint → SignalContext ∈ live tr) → orderly (tr ++ [Acquired r]).
Proof.
  intros [H1 H2 H3 H4] Hr Hc. split.
  - rewrite disciplined_app, H1. simpl. by rewrite bool_decide_false.
  - by rewrite elem_of_app, list_elem_of_singleton; intros [?|?].
  - by rewrite elem_of_app, list_elem_of_singleton; intros [?|?].
  - intros tr1 tr2 [[-> [= ->]]|[tr2' ->]]%snoc_split; eauto.
Qed.

Lemma orderly_release tr r :
  orderly tr → r ∈ live tr → r ≠ LoggerFile → r ≠ MetricsEndpoint → orderly (tr ++ [Released r]).
Proof.
  intros [H1 H2 H3 H4] Hr Hl Hm. split.
  - rewrite disciplined_app, H1. simpl. by rewrite bool_decide_true.
  - rewrite elem_of_app, list_elem_of_singleton. intros [?|[=]]; congruence.
  - rewrite elem_of_app, list_elem_of_singleton. intros [?|[=]]; congruence.
  - intros tr1 tr2 [[_ [=]]|[tr2' ->]]%snoc_split; eauto.
Qed.

(** ** What is left of a command *)

(** Perhaps the metrics endpoint is still open besides what is held. *)
Definition endpoint_or_not (held l : list resource) : Prop := l = held ∨ l = MetricsEndpoint :: held.
(** Perhaps the log is a file. *)
Definition log_or_not (base : list resource) : Prop := base = [] ∨ base = [LoggerFile].
(** A command that serves holds [h], and perhaps these two. *)
Definition serving (h l : list resource) : Prop := ∃ base, log_or_not base ∧ endpoint_or_not (h ++ base) l.

(** A command has returned. It holds just the log file and the metrics endpoint if it
    opened them; the goroutine of an endpoint that is still open has been told to close
    it; and if that goroutine runs, before or after the return, all releases are in
    order and the log file alone is left. *)
Definition ended (tr : trace) : Prop :=
  (∀ r, r ∈ live tr ↔ Acquired r ∈ tr ∧ (r = LoggerFile ∨ r = MetricsEndpoint)) ∧
  (MetricsEndpoint ∈ live tr → Released SignalContext ∈ tr) ∧
  ∀ tr', shuts_down tr tr' → disciplined [] tr' = true ∧ ∀ r, r ∈ live tr' ↔ Acquired r ∈ tr ∧ r = LoggerFile.

Lemma shuts_down_live tr tr' : orderly tr → shuts_down tr tr' →
  disciplined [] tr' = true ∧ live tr' = without MetricsEndpoint (live tr).
Proof.
  intros [Hd _ He _] Hs. destruct Hs as [tr1 tr2 Hm]. rewrite disciplined_app in Hd. apply andb_true_iff in Hd as [Hd1 Hd2].
  change (foldl live_step [] tr1) with (live tr1) in Hd2.
  destruct (without_disciplined MetricsEndpoint tr2 (live tr1) Hm) as [Hd' Hl]; [set_solver|done|].
  split.
  - rewrite disciplined_app, Hd1. change (foldl live_step [] tr1) with (live tr1). cbn [disciplined andb].
    by rewrite bool_decide_true.
  - unfold live. rewrite !foldl_app. exact Hl.
Qed.

Lemma orderly_ended tr : orderly tr → serving [] (live tr) → ended tr.
Proof.
  intros Ho (base & Hbase & Hl). simpl in Hl.
  assert (∀ r, r ∈ live tr ↔ Acquired r ∈ tr ∧ (r = LoggerFile ∨ r = MetricsEndpoint)) as Hlive.
  { intros r. split.
    - intros Hr. split; [by apply live_acquired|].
      destruct Hbase as [-> | ->], Hl as [Hl|Hl]; rewrite Hl in Hr; set_solver.
    - intros [Ha Hr]. apply acquired_live in Ha as [|Ha]; [done|]. destruct Ho, Hr as [-> | ->]; done. }
  assert (SignalContext ∉ live tr) as Hsig by (rewrite Hlive; by intros [_ [|]]).
  split; [done|]. split.
  - intros [tr1 [tr2 Htr]]%live_acquired%list_elem_of_split. apply (od_context _ Ho) in Htr as Hc.
    destruct (held_stays tr1 (Acquired MetricsEndpoint :: tr2) _ Hc) as [Hin|Hin]; rewrite Htr in *; [done|].
    apply elem_of_app. by right.
  - intros tr' Hs. apply shuts_down_live in Hs as [Hd ->]; [|done]. split; [done|]. intros r.
    rewrite elem_of_without, Hlive. naive_solver.
Qed.

(** ** Rules *)

Section rules.
(** [R] is what a panic would mean. *)
Context {E S : Type} {R : Prop}.
Implicit Types (k : @command E S) (held : list resource) (P Q : list resource → Prop).

(** Run while [held] is held, a command handles its resources in order; it holds what
    [P] says when it returns, and what [Q] says while it goes on running. *)
Definition runs held k P Q : Prop := ∀ tr st r tr' st',
  orderly tr → live tr = held → k (tr, st) = (r, (tr', st')) →
  orderly tr' ∧ match r with Returned _ => P (live tr') | Running => Q (live tr') | Panicked => R end.

(** A deferred call turns what is held. *)
Definition turns (f : trace * S → trace * S) P P' : Prop := ∀ tr st,
  orderly tr → P (live tr) → orderly (f (tr, st)).1 ∧ P' (live (f (tr, st)).1).

Lemma runs_return held e P Q : P held → runs held (λ s, (Returned e, s)) P Q.
Proof. intros HP tr st r tr' st' Ht Hl [= <- <- <-]. by rewrite Hl. Qed.
Lemma runs_running held P Q : Q held → runs held (λ s, (Running, s)) P Q.
Proof. intros HQ tr st r tr' st' Ht Hl [= <- <- <-]. by rewrite Hl. Qed.
Lemma runs_panicked held P Q : R → runs held (λ s, (Panicked, s)) P Q.
Proof. by intros HR tr st r tr' st' Ht Hl [= <- <- <-]. Qed.

Lemma runs_impl held k P P' Q Q' :
  (∀ l, P l → P' l) → (∀ l, Q l → Q' l) → runs held k P Q → runs held k P' Q'.
Proof.
  intros HP HQ Hk tr st r tr' st' Ht Hl H. destruct (Hk _ _ _ _ _ Ht Hl H) as [Ht' Hr].
  split; [done|]. destruct r; auto.
Qed.

Lemma runs_acquire held r k P Q :
  r ∉ held → (r = MetricsEndpoint → SignalContext ∈ held) → runs (r :: held) k P Q → runs held (acquire r k) P Q.
Proof.
  intros Hr Hc Hk tr st x tr' st' Ht Hl H. eapply Hk; [| |exact H].
  - simpl. apply orderly_acquire; [done|by rewrite Hl..].
  - by rewrite live_snoc; simpl; rewrite Hl.
Qed.

Lemma runs_call {A e} (f : S → (e + A) * S) (wrap : e → E) held (k : A → @command E S) P Q :
  P held → (∀ a, runs held (k a) P Q) → runs held (call f wrap k) P Q.
Proof.
  intros HP Hk tr st x tr' st' Ht Hl. unfold call. destruct (f (tr, st).2) as [[e0|a] st1].
  - intros [= <- <- <-]. by rewrite Hl.
  - by apply Hk.
Qed.

Lemma runs_defer held f k P P' Q : turns f P P' → runs held k P Q → runs held (defer f k) P' Q.
Proof.
  intros Hf Hk tr st x tr' st' Ht Hl. unfold defer. destruct (k (tr, st)) as [r [tr1 st1]] eqn:E1.
  destruct (Hk _ _ _ _ _ Ht Hl E1) as [Ht1 HP]. destruct r as [|e|]; [by intros [= <- <- <-]| |by intros [= <- <- <-]].
  destruct (Hf tr1 st1 Ht1 HP) as [H1 H2]. destruct (f (tr1, st1)) as [tr2 st2]. by intros [= <- <- <-].
Qed.

Lemma turns_or f P1 P2 Q1 Q2 : turns f P1 Q1 → turns f P2 Q2 → turns f (λ l, P1 l ∨ P2 l) (λ l, Q1 l ∨ Q2 l).
Proof. intros H1 H2 tr st Ht [Hl|Hl]; [destruct (H1 tr st Ht Hl)|destruct (H2 tr st Ht Hl)]; auto. Qed.

(** What returns at once after a call that releases. *)
Lemma runs_return_after held f e P P' Q : turns f P P' → P held → runs held (λ s, (Returned e, f s)) P' Q.
Proof.
  intros Hf HP tr st x tr' st' Ht Hl H. destruct (Hf tr st Ht) as [H1 H2]; [by rewrite Hl|].
  destruct (f (tr, st)) as [tr2 st2]. by injection H as <- <- <-.
Qed.

Lemma without_none r held : r ∉ held → without r held = held.
Proof.
  unfold without. induction held as [|x held IH]; [done|]. intros [Hx Hr]%not_elem_of_cons. simpl.
  rewrite bool_decide_false by congruence. simpl. f_equal. by apply IH.
Qed.

(** A release by the function itself, with the endpoint still open or not. *)
Lemma turns_release r held :
  r ∉ held → r ≠ LoggerFile → r ≠ MetricsEndpoint →
  turns (release r) (endpoint_or_not (r :: held)) (endpoint_or_not held).
Proof.
  intros Hr Hlog Hm tr st Ht Hl. simpl. pose proof (without_none r held Hr) as Hw. unfold without in Hw.
  assert (r ∈ live tr) as Hin by (destruct Hl as [-> | ->]; set_solver).
  split; [by apply orderly_release|]. rewrite live_snoc.
  destruct Hl as [-> | ->]; cbn [live_step List.filter].
  - rewrite bool_decide_true by done. cbn [negb]. rewrite Hw. by left.
  - rewrite (bool_decide_false (MetricsEndpoint = r)), (bool_decide_true (r = r)) by done. cbn [negb]. rewrite Hw. by right.
Qed.

Lemma runs_metrics held addr listen wrap k P Q :
  MetricsEndpoint ∉ held → SignalContext ∈ held → P held → runs held k P Q → runs (MetricsEndpoint :: held) k P Q →
  runs held (serve_metrics addr listen wrap k) P Q.
Proof.
  intros Hm Hc HP Hk Hk'. unfold serve_metrics. destruct (String.eqb addr ""); [done|].
  destruct listen; [by apply runs_return|by apply runs_acquire].
Qed.

(** The logger is opened first; the rest runs with its file or without one. *)
Lemma runs_open_log_role s k Q :
  (∀ base, log_or_not base → runs base k (endpoint_or_not base) Q) → runs [] (open_log s k) (serving []) Q.
Proof.
  intros Hk. assert (∀ base, log_or_not base → runs base k (serving []) Q) as Hk'.
  { intros base Hb. eapply runs_impl; [| |by apply Hk]; [|done]. intros l Hl. by exists base. }
  destruct s; [by apply Hk'; left..|]. apply runs_acquire; [by_computation|done|]. apply Hk'. by right.
Qed.

Lemma runs_open_log h s k :
  (∀ base, log_or_not base → runs base k (endpoint_or_not base) (endpoint_or_not (h ++ base))) →
  runs [] (open_log s k) (serving []) (serving h).
Proof.
  intros Hk. apply runs_open_log_role. intros base Hb. eapply runs_impl; [| |by apply Hk]; [done|].
  intros l Hl. by exists base.
Qed.
End rules.
