(* ===== verification/ServerRun.v ===== *)
(** * ServerRun: the run of the server command ([cmd/server/main.go])

    From the command line to [Serve]: the configuration, the logger, the branch that
    generates certificates, and the server with its socket and its metrics endpoint.
    The answers of the network are input; files are those of [FS]. *)

From S2P Require Import Prelude Text FS Logging Config Flags Lifecycle Upload Certs CertsLoad Server ServerCmd.

Inductive run_error :=
| ErrArgs (e : args_error)
| ErrLogging (e : log_error)
| ErrGenerate (e : gen_error)
| ErrLoadTLS (e : load_error)
| ErrListen (addr e : string)
| ErrServer (e : new_error)
| ErrPlainMetrics (addr e : string)
| ErrServe (e : string).

(** What the network and the clock answer. *)
Record answers := mkAnswers {
  an_listen : option string;          (* net.ListenPacket *)
  an_listen_early : option string;    (* quic.Transport.ListenEarly *)
  an_metrics : option string;         (* net.Listen of the metrics endpoint *)
  an_accepts : list accept_event;     (* what Serve sees *)
  an_now : Z;
  an_randoms : list string;           (* names of temporary files *)
}.

Section run.
Context {key cert pair pool : Type} (is_IP : string → bool) (GenerateKey randomSerial : nat → string + key)
        (CreateCertificate : template → option cert → key → key → string + list byte)
        (ParseCertificate : list byte → string + cert) (MarshalECPrivateKey : key → string + list byte)
        (pem_chunks : string → list byte → list (list byte)).
Context (X509KeyPair : list byte → list byte → string + pair).
Context (ParseDuration : string → option Z) (ReadConfig : string → string + list byte)
        (DecodeYAML : list byte → serverConfig → string + serverConfig) (buildVersion : string).

Abbreviation server_command := (@command run_error FS).

Definition generate (vs : values) (a : answers) : server_command :=
  call (GenerateLocal is_IP GenerateKey randomSerial CreateCertificate ParseCertificate MarshalECPrivateKey pem_chunks
          (str vs "cert-dir") (splitSANs (str vs "sans")) (num vs "cert-valid-for") (an_now a) (an_randoms a))
    ErrGenerate (λ _, return_nil).

Definition server_options (cfg : serverConfig) : Server.Options :=
  Server.mkOptions true true buildVersion None (UploadDir cfg) (UploadMaxBytes cfg) true.

(** [srv.Serve]: it goes on as long as connections come. *)
Definition serve (a : answers) : server_command := λ s,
  match Serve (an_accepts a) 0 with
  | (None, _) => (Running, s)
  | (Some None, _) => (Returned None, s)
  | (Some (Some e), _) => (Returned (Some (ErrServe e)), s)
  end.

Definition serve_branch (cfg : serverConfig) (a : answers) : server_command :=
  call (LoadServerTLS (pool := pool) X509KeyPair (CertFile cfg) (KeyFile cfg)) ErrLoadTLS (λ _,
  match an_listen a with
  | Some e => return_error (ErrListen (Addr cfg) e)
  | None =>
      acquire ListenSocket (defer (release ListenSocket) (
      call (Server.New (server_options cfg) (an_now a) (an_listen_early a)) ErrServer (λ _,
      acquire ServerHandle (defer (release ServerHandle) (
      acquire SignalContext (defer stop (
      serve_metrics (MetricsPlainAddr cfg) (an_metrics a) (ErrPlainMetrics (MetricsPlainAddr cfg)) (serve a))))))))
  end).

Definition run (args : list string) (a : answers) : server_command :=
  match load_args ParseDuration ReadConfig DecodeYAML defaults args with
  | inl e => return_error (ErrArgs e)
  | inr (cfg, vs) =>
      call (Logging.New (Logging.mkOptions (LogLevel cfg) false (LogFile cfg) (LogMaxBytes cfg) (LogMaxFiles cfg)))
        ErrLogging (λ log, open_log log.2 (if truth vs "gen-certs" then generate vs a else serve_branch cfg a))
  end.
End run.
