(* ===== verification/ProxyRun.v ===== *)
(** * ProxyRun: the run of the proxy command ([cmd/proxy/main.go]) *)

From S2P Require Import Prelude Text FS Logging Collectors Profile Config Flags Lifecycle ProxyCmd.

Inductive run_error :=
| ErrArgs (e : args_error)
| ErrProfile (e : profile_error)
| ErrLogging (e : log_error)
| ErrResolveListen (addr e : string)
| ErrListen (addr e : string)
| ErrResolveUpstream (addr e : string)
| ErrProxy (e : string)
| ErrMetrics (addr e : string)
| ErrServe (e : string).

(** What the network answers; [an_serve] is [None] while the proxy serves. *)
Record answers := mkAnswers {
  an_resolve_listen : option string;
  an_listen : option string;
  an_resolve_upstream : option string;
  an_new : option string;             (* proxy.New *)
  an_metrics : option string;         (* net.Listen of the metrics endpoint *)
  an_serve : option (option string);
}.

Section run.
Context `{Labels} (ParseDuration : string → option Z) (ReadFile : string → string + list byte)
        (DecodeYAML : list byte → proxyConfig → string + proxyConfig)
        (DecodeProfile : list byte → Profile.Profile → string + Profile.Profile).

Abbreviation proxy_command := (@command run_error FS).

(** [p.Close]: the first call closes the socket too. *)
Definition close_proxy (s : trace * FS) : trace * FS :=
  if bool_decide (ProxyHandle ∈ live s.1) then release ListenSocket (release ProxyHandle s) else s.

Definition serve (a : answers) : proxy_command := λ s,
  match an_serve a with
  | None => (Running, s)
  | Some None => (Returned None, s)
  | Some (Some e) => (Returned (Some (ErrServe e)), s)
  end.

(** The end of [run], with the proxy made. *)
Definition run_proxy (cfg : proxyConfig) (a : answers) : proxy_command :=
  acquire ProxyHandle (defer close_proxy (
  acquire SignalContext (defer stop (
  if String.eqb (MetricsAddr cfg) "" then serve a
  else
    match an_metrics a with
    | Some e => λ s, (Returned (Some (ErrMetrics (MetricsAddr cfg) e)), close_proxy s)
    | None => acquire MetricsEndpoint (serve a)
    end)))).

Definition after_listen (cfg : proxyConfig) (profile : Profile.Profile) (a : answers) : proxy_command :=
  match an_resolve_upstream a with
  | Some e => λ s, (Returned (Some (ErrResolveUpstream (Upstream cfg) e)), release ListenSocket s)
  | None =>
      if negb (WithLabelValues (pm_ProfileInfo proxyMetrics) [Name profile]) then λ s, (Panicked, s)
      else
        match an_new a with
        | Some e => λ s, (Returned (Some (ErrProxy e)), release ListenSocket s)
        | None => run_proxy cfg a
        end
  end.

Definition run (args : list string) (a : answers) : proxy_command :=
  match load_args ParseDuration ReadFile DecodeYAML defaults args with
  | inl e => return_error (ErrArgs e)
  | inr (cfg, vs) =>
      match loadProfile ReadFile DecodeProfile (ProxyCmd.Profile cfg) with
      | Panic => λ s, (Panicked, s)
      | Err e => return_error (ErrProfile e)
      | Ok (profile, _) =>
          call (Logging.New (Logging.mkOptions (LogLevel cfg) false (LogFile cfg) (LogMaxBytes cfg) (LogMaxFiles cfg)))
            ErrLogging (λ log, open_log log.2 (
          match an_resolve_listen a with
          | Some e => return_error (ErrResolveListen (Listen cfg) e)
          | None =>
              match an_listen a with
              | Some e => return_error (ErrListen (Listen cfg) e)
              | None => acquire ListenSocket (after_listen cfg profile a)
              end
          end))
      end
  end.
End run.
