(* ===== verification/ClientRun.v ===== *)
(** * ClientRun: the run of the client command ([cmd/client/main.go])

    The choice of the role is that of [ClientCmd]; around it are the client, its
    metrics endpoint and the session of the roles that need one. *)

From S2P Require Import Prelude Text Url FS Logging Roles Config Flags CertsLoad ClientNew ClientCmd Lifecycle.

Inductive run_error :=
| ErrArgs (e : args_error)
| ErrLog (e : log_error)
| ErrNew (e : new_error)
| ErrMetricsAddr (addr e : string)
| ErrRun (e : ClientCmd.run_error)
| ErrRoleRun (e : string).

(** What the network answers, and how the run of the role ends; [None] while it
    runs. *)
Record answers := mkAnswers {
  an_metrics : option string;
  an_get_config : string → string + DeviceConfig;
  an_connect : string → option string;
  an_role : role_run → option (option string);
}.

Section run.
Context `{HostParser} {pair pool : Type} (AppendCertsFromPEM : list byte → option pool)
        (ParseDuration : string → option Z) (ReadConfig : string → string + list byte)
        (DecodeYAML : list byte → clientConfig → string + clientConfig).

Abbreviation client_command := (@command run_error FS).

Definition has_session (r : role_run) : bool := match r with RunPoller _ | RunUploader _ => false | _ => true end.
Definition run_role (r : role_run) (a : answers) : client_command := λ s,
  match an_role a r with
  | None => (Running, s)
  | Some None => (Returned None, s)
  | Some (Some e) => (Returned (Some (ErrRoleRun e)), s)
  end.

Definition role_branch (cfg : clientConfig) (a : answers) : client_command :=
  match ClientCmd.run cfg None None None (an_get_config a) (an_connect a) with
  | inl e => return_error (ErrRun e)
  | inr r =>
      if has_session r then acquire SessionHandle (defer (release SessionHandle) (run_role r a))
      else run_role r a
  end.

Definition client_options (cfg : clientConfig) : ClientNew.Options :=
  ClientNew.mkOptions (lit (ServerURL cfg)) (CAFile cfg).

Definition run (args : list string) (a : answers) : client_command :=
  match load_args ParseDuration ReadConfig DecodeYAML defaults args with
  | inl e => return_error (ErrArgs e)
  | inr (cfg, _) =>
      call (Logging.New (Logging.mkOptions (LogLevel cfg) false (LogFile cfg) (LogMaxBytes cfg) (LogMaxFiles cfg)))
        ErrLog (λ log, open_log log.2 (
      if negb (bool_decide (Role cfg ∈ known_roles)) then return_error (ErrRun (ErrRole (Role cfg)))
      else
        call (ClientNew.New (pair := pair) AppendCertsFromPEM (client_options cfg)) ErrNew (λ _,
        acquire ClientHandle (defer (release ClientHandle) (
        acquire SignalContext (defer stop (
        serve_metrics (MetricsAddr cfg) (an_metrics a) (ErrMetricsAddr (MetricsAddr cfg)) (role_branch cfg a))))))))
  end.
End run.
