(* ===== verification/RunsTheorems.v ===== *)
(** * RunsTheorems: the binaries from start to end

    What a command acquires it releases however it returns, but for the log file and the
    metrics endpoint, which is left to a goroutine; and the commands started
    with their defaults fit together: what one generates the others load, and where
    one listens the other dials. *)

From S2P Require Import Prelude Text Url FS Logging Config Flags FlagsTheorems Certs CertsTheorems CertsLoad Server.
From S2P Require Import ClientNew ClientNewTheorems ClientCmd ProxyCmd ServerCmd ClientRun ProxyRun ServerRun Profile Collectors Roles Lifecycle LifecycleProofs.

(** ** The commands *)

Abbreviation server_holds := [SignalContext; ServerHandle; ListenSocket].
Abbreviation proxy_holds := [SignalContext; ProxyHandle; ListenSocket].
Abbreviation client_holds := [SignalContext; ClientHandle].
(** A client has its session above the rest. *)
Definition role_running (l : list resource) : Prop :=
  ∃ base, log_or_not base ∧
    (endpoint_or_not (client_holds ++ base) l ∨ ∃ l', endpoint_or_not (client_holds ++ base) l' ∧ l = SessionHandle :: l').

Section server.
Context {key cert pair pool : Type} (is_IP : string → bool) (GenerateKey randomSerial : nat → string + key)
        (CreateCertificate : template → option cert → key → key → string + list byte)
        (ParseCertificate : list byte → string + cert) (MarshalECPrivateKey : key → string + list byte)
        (pem_chunks : string → list byte → list (list byte)) (X509KeyPair : list byte → list byte → string + pair)
        (ParseDuration : string → option Z) (ReadConfig : string → string + list byte)
        (DecodeYAML : list byte → serverConfig → string + serverConfig) (buildVersion : string).

Lemma server_serves a held P Q : P held → Q held → runs (R := False) held (ServerRun.serve a) P Q.
Proof.
  intros HP HQ tr st r tr' st' Ht Hl. unfold ServerRun.serve.
  destruct (Serve _ _) as [[[e|]|] n]; intros [= <- <- <-]; by rewrite Hl.
Qed.

Lemma server_runs args a :
  runs (R := False) [] (ServerRun.run (pool := pool) is_IP GenerateKey randomSerial CreateCertificate ParseCertificate
             MarshalECPrivateKey pem_chunks X509KeyPair ParseDuration ReadConfig DecodeYAML buildVersion args a)
    (serving []) (serving server_holds).
Proof.
  assert (serving [] []) as Hnil by (exists []; split; by left).
  unfold ServerRun.run. destruct (load_args _ _ _ _ _) as [e|[cfg vs]]; [by apply runs_return|].
  apply runs_call; [done|]. intros log. apply runs_open_log. intros base Hbase. destruct (truth vs "gen-certs").
  { apply runs_call; [by left|]. intros _. apply runs_return. by left. }
  apply runs_call; [by left|]. intros _. destruct (ServerRun.an_listen a); [by apply runs_return; left|].
  destruct Hbase as [-> | ->];
    (apply runs_acquire; [by_computation|done|]; eapply runs_defer; [by apply turns_release; [by_computation|..]|];
     apply runs_call; [by left|]; intros _;
     apply runs_acquire; [by_computation|done|]; eapply runs_defer; [by apply turns_release; [by_computation|..]|];
     apply runs_acquire; [by_computation|done|]; eapply runs_defer; [by apply turns_release; [by_computation|..]|];
     apply runs_metrics; [by_computation|by left|by left|apply server_serves; by left|apply server_serves; by right]).
Qed.
End server.

Section proxy.
Context `{Labels} (ParseDuration : string → option Z) (ReadFile : string → string + list byte)
        (DecodeYAML : list byte → proxyConfig → string + proxyConfig)
        (DecodeProfile : list byte → Profile.Profile → string + Profile.Profile).

(** Closing the proxy: at the end, or before the context is released; a second call
    does nothing. *)
Lemma turns_close_proxy_early base : log_or_not base →
  turns (S := FS) close_proxy (λ l, l = proxy_holds ++ base) (endpoint_or_not (SignalContext :: base)).
Proof.
  intros Hbase tr st Ht Hl. unfold close_proxy, release. cbn [fst snd]. rewrite Hl, bool_decide_true by (right; left).
  cbn [fst snd]. assert (live (tr ++ [Released ProxyHandle]) = SignalContext :: ListenSocket :: base) as Hl1
    by (rewrite live_snoc, Hl; by destruct Hbase as [-> | ->]).
  split.
  - apply orderly_release; [|rewrite Hl1; right; left|done..]. apply orderly_release; [done|rewrite Hl; right; left|done..].
  - left. rewrite live_snoc, Hl1. by destruct Hbase as [-> | ->].
Qed.

Lemma turns_close_proxy base : log_or_not base →
  turns (S := FS) close_proxy (λ l, endpoint_or_not (ProxyHandle :: ListenSocket :: base) l ∨ endpoint_or_not base l)
    (endpoint_or_not base).
Proof.
  intros Hbase tr st Ht [Hl|Hl]; unfold close_proxy; cbn [fst snd].
  - rewrite bool_decide_true by (destruct Hl as [-> | ->]; set_solver).
    assert ((ProxyHandle ∉ ListenSocket :: base) ∧ (ListenSocket ∉ base)) as [Hp Hs]
      by (destruct Hbase as [-> | ->]; by_computation).
    destruct (turns_release (S := FS) ProxyHandle _ Hp ltac:(done) ltac:(done) tr st Ht Hl) as [H1 H2].
    by apply (turns_release (S := FS) ListenSocket base).
  - rewrite bool_decide_false by (destruct Hl as [-> | ->], Hbase as [-> | ->]; by_computation). done.
Qed.

Lemma proxy_serves a held P Q : P held → Q held → runs (R := True) held (ProxyRun.serve a) P Q.
Proof.
  intros HP HQ tr st r tr' st' Ht Hl. unfold ProxyRun.serve.
  destruct (an_serve a) as [[e|]|]; intros [= <- <- <-]; by rewrite Hl.
Qed.

Lemma run_proxy_runs cfg a base : log_or_not base →
  runs (R := True) (ListenSocket :: base) (ProxyRun.run_proxy cfg a) (endpoint_or_not base)
    (endpoint_or_not (proxy_holds ++ base)).
Proof.
  intros Hbase.
  assert ((ProxyHandle ∉ ListenSocket :: base) ∧ (SignalContext ∉ ProxyHandle :: ListenSocket :: base) ∧
    (SignalContext ∉ base) ∧ (MetricsEndpoint ∉ proxy_holds ++ base)) as (H1 & H2 & H3 & H4)
    by (destruct Hbase as [-> | ->]; by_computation).
  unfold ProxyRun.run_proxy. apply runs_acquire; [done..|]. eapply runs_defer; [by apply turns_close_proxy|].
  apply runs_acquire; [done..|]. eapply runs_defer; [apply turns_or; by apply turns_release|].
  destruct (String.eqb _ _); [apply proxy_serves; [left|]; by left|].
  destruct (ProxyRun.an_metrics a).
  - apply (runs_return_after _ _ _ (λ l, l = proxy_holds ++ base)); [|done]. intros tr st Ht Hl.
    destruct (turns_close_proxy_early base Hbase tr st Ht Hl) as [? ?]. split; [done|]. by right.
  - apply runs_acquire; [done|by left|]. apply proxy_serves; [left|]; by right.
Qed.

Lemma proxy_runs args a :
  runs (R := True) [] (ProxyRun.run ParseDuration ReadFile DecodeYAML DecodeProfile args a)
    (serving []) (serving proxy_holds).
Proof.
  assert (serving [] []) as Hnil by (exists []; split; by left).
  unfold ProxyRun.run. destruct (load_args _ _ _ _ _) as [e|[cfg vs]]; [by apply runs_return|].
  destruct (loadProfile _ _ _) as [[profile source]|e|]; [|by apply runs_return|by apply runs_panicked].
  apply runs_call; [done|]. intros log. apply runs_open_log. intros base Hbase.
  destruct (an_resolve_listen a); [by apply runs_return; left|].
  destruct (ProxyRun.an_listen a); [by apply runs_return; left|].
  assert (ListenSocket ∉ base) as Hb by (destruct Hbase as [-> | ->]; by_computation).
  apply runs_acquire; [done..|]. unfold after_listen. destruct (an_resolve_upstream a).
  { eapply runs_return_after; [by apply turns_release|by left]. }
  destruct (negb _); [by apply runs_panicked|]. destruct (an_new a); [|by apply run_proxy_runs].
  eapply runs_return_after; [by apply turns_release|by left].
Qed.
End proxy.

Section client.
Context `{HostParser} {pair pool : Type} (AppendCertsFromPEM : list byte → option pool)
        (ParseDuration : string → option Z) (ReadConfig : string → string + list byte)
        (DecodeYAML : list byte → clientConfig → string + clientConfig).

Lemma role_runs r a held P Q : P held → Q held → runs (R := False) held (run_role r a) P Q.
Proof.
  intros HP HQ tr st x tr' st' Ht Hl. unfold run_role.
  destruct (an_role a r) as [[e|]|]; intros [= <- <- <-]; by rewrite Hl.
Qed.

Lemma role_branch_runs cfg a base held :
  log_or_not base → endpoint_or_not (client_holds ++ base) held →
  runs (R := False) held (role_branch cfg a) (endpoint_or_not (client_holds ++ base)) role_running.
Proof.
  intros Hbase Hh. unfold role_branch. destruct (ClientCmd.run _ _ _ _ _ _) as [e|r]; [by apply runs_return|].
  destruct (has_session r); [|apply role_runs; [done|exists base; auto]].
  apply runs_acquire; [by destruct Hh as [-> | ->], Hbase as [-> | ->]; by_computation|done|].
  apply (runs_defer _ _ _ (λ l, l = SessionHandle :: held)); [|apply role_runs; [done|exists base; split; [done|]; right; by exists held]].
  assert (SessionHandle ∉ held) as Hs by (destruct Hh as [-> | ->], Hbase as [-> | ->]; by_computation).
  intros tr st Ht Hl. simpl. split; [apply orderly_release; [done|rewrite Hl; by left|done..]|].
  rewrite live_snoc, Hl. simpl. pose proof (without_none _ _ Hs) as Hw. unfold without in Hw. by rewrite Hw.
Qed.

Lemma client_runs args a :
  runs (R := False) [] (ClientRun.run (pair := pair) AppendCertsFromPEM ParseDuration ReadConfig DecodeYAML args a)
    (serving []) role_running.
Proof.
  assert (serving [] []) as Hnil by (exists []; split; by left).
  unfold ClientRun.run. destruct (load_args _ _ _ _ _) as [e|[cfg vs]]; [by apply runs_return|].
  apply runs_call; [done|]. intros log.
  apply runs_open_log_role. intros base Hbase. destruct (negb _); [by apply runs_return; left|].
  apply runs_call; [by left|]. intros _. pose proof (role_branch_runs cfg a base) as Hrole.
  destruct Hbase as [-> | ->];
    (apply runs_acquire; [by_computation|done|]; eapply runs_defer; [by apply turns_release; [by_computation|..]|];
     apply runs_acquire; [by_computation|done|]; eapply runs_defer; [by apply turns_release; [by_computation|..]|];
     apply runs_metrics; [by_computation|by left|by left|apply Hrole|apply Hrole]; unfold log_or_not, endpoint_or_not; auto).
Qed.
End client.

(** ** What the defaults of the commands mean to each other *)

Section all.
Context {key cert pair pool : Type} (is_IP : string → bool) (GenerateKey randomSerial : nat → string + key)
        (CreateCertificate : template → option cert → key → key → string + list byte)
        (ParseCertificate : list byte → string + cert) (MarshalECPrivateKey : key → string + list byte)
        (pem_chunks : string → list byte → list (list byte)) (X509KeyPair : list byte → list byte → string + pair)
        (AppendCertsFromPEM : list byte → option pool)
        (ParseDuration : string → option Z) (ReadConfig : string → string + list byte)
        (DecodeServer : list byte → serverConfig → string + serverConfig)
        (DecodeProxy : list byte → proxyConfig → string + proxyConfig)
        (DecodeClient : list byte → clientConfig → string + clientConfig)
        (DecodeProfile : list byte → Profile.Profile → string + Profile.Profile) (buildVersion : string).
Context `{HostParser} `{Labels}.

Abbreviation run_server := (ServerRun.run (pool := pool) is_IP GenerateKey randomSerial CreateCertificate ParseCertificate
  MarshalECPrivateKey pem_chunks X509KeyPair ParseDuration ReadConfig DecodeServer buildVersion).
Abbreviation run_proxy := (ProxyRun.run ParseDuration ReadConfig DecodeProxy DecodeProfile).
Abbreviation run_client := (ClientRun.run (pair := pair) AppendCertsFromPEM ParseDuration ReadConfig DecodeClient).

(** C23: commands release what they acquire, but for two things that they leave to
    others. However the run of a server, a proxy or a client ends, with whatever
    arguments, files and answers of the network, nothing is acquired twice or released
    without being held. When it has returned, sockets, handles and the context of the
    signals are released. The file of the logger, if there is one, is never closed. The
    metrics endpoint is closed by a goroutine that is waiting for the context: it may
    be open still when the run returns, but then the context has ended; and whenever
    the goroutine closes it, before or after, the releases are in order and only the
    log file is left. While a command goes on running it holds all that it serves
    with. *)
Theorem commands_release args fs :
  (∀ a r tr fs', run_server args a ([], fs) = (r, (tr, fs')) →
     disciplined [] tr = true ∧
     match r with Returned _ => ended tr | Running => serving server_holds (live tr) | Panicked => False end) ∧
  (∀ a r tr fs', run_proxy args a ([], fs) = (r, (tr, fs')) →
     disciplined [] tr = true ∧
     match r with Returned _ => ended tr | Running => serving proxy_holds (live tr) | Panicked => True end) ∧
  (∀ a r tr fs', run_client args a ([], fs) = (r, (tr, fs')) →
     disciplined [] tr = true ∧
     match r with Returned _ => ended tr | Running => role_running (live tr) | Panicked => False end).
Proof.
  split_and!; intros a r tr fs' Hr.
  - destruct (server_runs _ _ _ _ _ _ _ _ _ _ _ _ _ _ _ _ _ _ _ orderly_nil eq_refl Hr) as [Ho Hend].
    split; [apply Ho|]. destruct r; [done|by apply orderly_ended|done].
  - destruct (proxy_runs _ _ _ _ _ _ _ _ _ _ _ orderly_nil eq_refl Hr) as [Ho Hend].
    split; [apply Ho|]. destruct r; [done|by apply orderly_ended|done].
  - destruct (client_runs _ _ _ _ _ _ _ _ _ _ _ orderly_nil eq_refl Hr) as [Ho Hend].
    split; [apply Ho|]. destruct r; [done|by apply orderly_ended|done].
Qed.

(** *** The defaults *)

Lemma no_flags `{CommandLine cfg} Decode def :
  str (default_values (command_flags def)) "config" = ""%string →
  load_args ParseDuration ReadConfig Decode def [] = inr (def, default_values (command_flags def)).
Proof. intros Hpath. unfold load_args, Parse, load_config, LoadFile. cbn [parse_args]. by rewrite Hpath. Qed.

Lemma gen_certs_flags : ∃ vs,
  load_args ParseDuration ReadConfig DecodeServer ServerCmd.defaults ["-gen-certs"%string] = inr (ServerCmd.defaults, vs) ∧
  truth vs "gen-certs" = true ∧ str vs "cert-dir" = "var/certs"%string ∧
  str vs "sans" = "127.0.0.1,localhost,::1"%string ∧ num vs "cert-valid-for" = 365 * 24 * 3600 * 10 ^ 9.
Proof.
  exists (<["gen-certs"%string := Bool true]> (default_values (command_flags ServerCmd.defaults))). split_and!.
  - unfold load_args, Parse.
    change (parse_args ParseDuration (command_flags ServerCmd.defaults) ["-gen-certs"%string]
      (default_values (command_flags ServerCmd.defaults)) [])
      with (@inr flag_error _ (<["gen-certs"%string := Bool true]> (default_values (command_flags ServerCmd.defaults)), ["gen-certs"%string])).
    cbv iota beta. unfold load_config, LoadFile. rewrite str_insert_ne by discriminate.
    assert (str (default_values (command_flags ServerCmd.defaults)) "config" = ""%string) as -> by (vm_compute; reflexivity).
    reflexivity.
  - unfold truth. by rewrite lookup_insert_eq.
  - rewrite str_insert_ne by discriminate. vm_compute. reflexivity.
  - rewrite str_insert_ne by discriminate. vm_compute. reflexivity.
  - rewrite num_insert_ne by discriminate. vm_compute. reflexivity.
Qed.

Definition sans : list string := ["127.0.0.1"; "localhost"; "::1"]%string.

(** A run that generates certificates does just that. *)
Lemma run_gen_certs a fs tr fs' : run_server ["-gen-certs"%string] a ([], fs) = (Returned None, (tr, fs')) →
  ∃ paths, GenerateLocal is_IP GenerateKey randomSerial CreateCertificate ParseCertificate MarshalECPrivateKey pem_chunks
    "var/certs" sans (365 * 24 * 3600 * 10 ^ 9) (ServerRun.an_now a) (ServerRun.an_randoms a) fs = (inr paths, fs').
Proof.
  destruct gen_certs_flags as (vs & Hl & Ht & Hd & Hs & Hv). unfold ServerRun.run. rewrite Hl, Ht. unfold call.
  change (Logging.New _ _) with (@inr log_error (Level * sink) (LevelInfo, SinkStderr), fs). unfold open_log. cbv iota beta. cbn [snd]. unfold generate, call. cbn [fst snd].
  rewrite Hd, Hs, Hv. change (splitSANs "127.0.0.1,localhost,::1") with sans.
  destruct (GenerateLocal _ _ _ _ _ _ _ _ _ _ _ _ _) as [[e|paths] fs1]; [done|]. intros [= _ <-]. by exists paths.
Qed.

(** With the certificate loaded, the server listens. *)
Lemma run_listens a fs conf : ServerRun.an_listen a = None →
  LoadServerTLS (pool := pool) X509KeyPair (CertFile ServerCmd.defaults) (KeyFile ServerCmd.defaults) fs = (inr conf, fs) →
  ∀ r tr fs', run_server [] a ([], fs) = (r, (tr, fs')) →
    head tr = Some (Acquired ListenSocket) ∧ ∀ e, r ≠ Returned (Some (ErrLoadTLS e)).
Proof.
  intros Ha Hload r tr fs'. unfold ServerRun.run. rewrite no_flags by (vm_compute; reflexivity). unfold call at 1.
  change (Logging.New _ _) with (@inr log_error (Level * sink) (LevelInfo, SinkStderr), fs). unfold open_log. cbv iota beta. cbn [snd].
  change (truth _ "gen-certs") with false. unfold serve_branch, call at 1. cbn [fst snd]. rewrite Hload, Ha.
  unfold acquire at 1, defer at 1, call. cbn [fst snd app].
  destruct (Server.New _ _ _ _) as [[e|srv] fs1]; [by intros [= <- <- <-]|].
  unfold acquire at 1, defer at 1, acquire at 1, defer at 1, serve_metrics. cbn [fst snd app].
  destruct (String.eqb _ _); [|destruct (ServerRun.an_metrics a); [by intros [= <- <- <-]|]];
    unfold acquire, ServerRun.serve; cbn [fst snd app]; destruct (Serve _ _) as [[[e|]|] n]; by intros [= <- <- <-].
Qed.
End all.

(** The base URL of a client by default. *)
Definition default_url : text := lit "https://localhost:4444".

Lemma Parse_default `{HostParser} : parseHost (lit "localhost:4444") = inr (lit "localhost:4444") →
  Url.Parse default_url = inr (mkURL (lit "https") [] None (lit "localhost:4444") [] [] false false [] []).
Proof.
  intros Hh. transitivity (match parseHost (lit "localhost:4444") with
    | inl e => inl e
    | inr h => @inr url_error _ (mkURL (lit "https") [] None h [] [] false false [] [])
    end); [vm_compute; by destruct (H _)|by rewrite Hh].
Qed.

Lemma New_default `{HostParser} {pair pool} (AppendCertsFromPEM : list byte → option pool) fs conf :
  parseHost (lit "localhost:4444") = inr (lit "localhost:4444") →
  LoadClientTrust AppendCertsFromPEM (ClientCmd.CAFile ClientCmd.defaults) fs = (inr conf, fs) →
  New (pair := pair) AppendCertsFromPEM (client_options ClientCmd.defaults) fs =
    (inr (mkClient default_url (lit "localhost:4444") (Some (mkClientTLS conf []))), fs).
Proof.
  intros Hh Hload. assert (normalizeBaseURL default_url = inr default_url) as Hn.
  { unfold normalizeBaseURL. change (with_scheme default_url) with default_url. rewrite Parse_default by done.
    vm_compute. reflexivity. }
  unfold New. change (BaseURL (client_options ClientCmd.defaults)) with default_url.
  rewrite Hn, Parse_default by done. change (opt_CAFile _) with (ClientCmd.CAFile ClientCmd.defaults). by rewrite Hload.
Qed.

(** C22: the defaults fit together. After a server has been run with -gen-certs, a server
    run with its defaults finds its certificate and goes on to listen, and a client
    with its defaults trusts just the authority that signed it and dials the port of
    the server, directly as well as by way of the proxy with its defaults; the
    certificate of the server is for the name the client expects. *)
Theorem defaults_meet {key cert} is_IP GenerateKey randomSerial CreateCertificate ParseCertificate MarshalECPrivateKey
    pem_chunks X509KeyPair AppendCertsFromPEM ParseDuration ReadConfig DecodeServer buildVersion `{HostParser} a fs tr fs1 t :
  Forall no_slash (ServerRun.an_randoms a) →
  (∀ der c, ParseCertificate der = inr c → AppendCertsFromPEM (concat (pem_chunks "CERTIFICATE" der)) = Some [der]) →
  (∀ tm parent pub signer der kder, CreateCertificate tm parent pub signer = inr der → MarshalECPrivateKey pub = inr kder →
     X509KeyPair (concat (pem_chunks "CERTIFICATE" der)) (concat (pem_chunks "EC PRIVATE KEY" kder)) = inr (der, pub)) →
  is_IP "localhost"%string = false → parseHost (lit "localhost:4444") = inr (lit "localhost:4444") →
  let run := @ServerRun.run key cert (list byte * key) (list (list byte)) is_IP GenerateKey randomSerial CreateCertificate
    ParseCertificate MarshalECPrivateKey pem_chunks X509KeyPair ParseDuration ReadConfig DecodeServer buildVersion in
  run ["-gen-certs"%string] a ([], fs) = (Returned None, (tr, fs1)) →
  let fs2 := mkFS (nodes fs1) t [] in
  let leaf := leaf_template is_IP (ServerRun.an_now a) (365 * 24 * 3600 * 10 ^ 9) sans in
  ∃ caDER caKey caCert leafDER leafKey c port,
    ParseCertificate caDER = inr caCert ∧ CreateCertificate leaf (Some caCert) leafKey caKey = inr leafDER ∧
    LoadServerTLS X509KeyPair (CertFile ServerCmd.defaults) (KeyFile ServerCmd.defaults) fs2 =
      (inr (mkTLS [(leafDER, leafKey)] (@None (list (list byte))) [ALPN] VersionTLS13), fs2) ∧
    (∀ a' r tr' fs', ServerRun.an_listen a' = None → run [] a' ([], fs2) = (r, (tr', fs')) →
       head tr' = Some (Acquired ListenSocket) ∧ ∀ e, r ≠ Returned (Some (ErrLoadTLS e))) ∧
    New (pair := list byte * key) AppendCertsFromPEM (client_options ClientCmd.defaults) fs2 = (inr c, fs2) ∧
    sharedTLSConfig c = Some (mkClientTLS (mkTLS [] (Some [caDER]) [ALPN] VersionTLS13) (lit "localhost")) ∧
    "localhost"%string ∈ DNSNames leaf ∧
    SplitHostPort (client_authority c) = Some (lit "localhost", port) ∧
    SplitHostPort (lit (Addr ServerCmd.defaults)) = Some ([], port) ∧
    SplitHostPort (lit (Upstream ProxyCmd.defaults)) = Some (lit "127.0.0.1", port).
Proof.
  intros Hrnd Hpool Hpair HIP Hhost run Hrun fs2 leaf.
  apply run_gen_certs in Hrun as [paths Hgen]. assert ("var/certs"%string ≠ ""%string) as Hdir by done.
  destruct (certs_load_lemma _ _ _ _ _ _ _ _ _ _ _ _ _ _ _ _ _ t Hdir Hrnd Hpool Hpair Hgen)
    as (caDER & leafDER & caCert & caKey & leafKey & Hca & Hserver & _ & Hparse & Hleaf).
  destruct (certs_generated_lemma _ _ _ _ _ _ _ _ _ _ _ _ _ _ _ Hdir Hrnd Hgen) as [_ Hok].
  destruct (Hok paths eq_refl) as [-> _].
  eexists caDER, caKey, caCert, leafDER, leafKey, _, (lit "4444"). split_and!.
  - done.
  - exact Hleaf.
  - exact Hserver.
  - intros a' r tr' fs' Ha'. eapply run_listens; [done|exact Hserver].
  - apply New_default; [done|exact Hca].
  - vm_compute; reflexivity.
  - apply list_elem_of_filter. split; [done|]. right. by left.
  - vm_compute; reflexivity.
  - vm_compute; reflexivity.
  - vm_compute; reflexivity.
Qed.

(** ** Instances *)

#[local] Existing Instances prometheus_Labels prometheus_LabelsLaws.

Definition demo_answers : ServerRun.answers := ServerRun.mkAnswers None None None [] 0 ["1"; "2"]%string.
Definition demo_server (args : list string) (fs : FS) : status ServerRun.run_error * (trace * FS) :=
  ServerRun.run (key := bool) (pair := list byte * bool) (pool := list (list byte))
    (λ s, String.eqb s "127.0.0.1") (λ i, inr (i =? 0)%nat) (λ _, inr true) load_create load_parse load_marshal demo_chunks
    load_pair (λ _, None) (λ _, inr []) (λ _ c, inr c) "dev" args demo_answers ([], fs).
Definition demo_generated : status ServerRun.run_error * (trace * FS) := demo_server ["-gen-certs"%string] (mkFS ∅ 9 []).
Definition demo_files : FS := mkFS (nodes demo_generated.2.2) 10 [].

(** A proxy whose metrics endpoint cannot be opened. *)
Definition demo_proxy : status ProxyRun.run_error * (trace * FS) :=
  ProxyRun.run (λ _, None) (λ _, inr []) (λ _ c, inr c) (λ _ p, inr p) []
    (ProxyRun.mkAnswers None None None None (Some "in use"%string) None) ([], demo_files).

Lemma demo_pair_law tm (parent : option unit) (pub signer : bool) der kder :
  load_create tm parent pub signer = inr der → load_marshal pub = inr kder →
  load_pair (concat (demo_chunks "CERTIFICATE" der)) (concat (demo_chunks "EC PRIVATE KEY" kder)) = inr (der, pub).
Proof. intros [= <-] [= <-]. destruct (IsCA tm), pub; reflexivity. Qed.

Lemma defaults_meet_witness :
  (∃ tr fs', demo_generated = (Returned None, (tr, fs'))) ∧
  (∀ r tr fs', demo_server [] demo_files = (r, (tr, fs')) → head tr = Some (Acquired ListenSocket)) ∧
  ∃ c port, New (H := name_host) (pair := list byte * bool) load_pool (client_options ClientCmd.defaults) demo_files = (inr c, demo_files) ∧
    SplitHostPort (client_authority c) = Some (lit "localhost", port).
Proof.
  assert (demo_generated = (Returned None, demo_generated.2)) as Hrun.
  { assert (demo_generated.1 = Returned None) as E by (vm_compute; reflexivity). rewrite <- E. apply surjective_pairing. }
  destruct (defaults_meet (λ s, String.eqb s "127.0.0.1") (λ i, inr (i =? 0)%nat) (λ _, inr true) load_create load_parse
    load_marshal demo_chunks load_pair load_pool (λ _, None) (λ _, inr []) (λ _ c, inr c) "dev" (H := name_host)
    demo_answers (mkFS ∅ 9 []) demo_generated.2.1 demo_generated.2.2 10)
    as (caDER & caKey & caCert & leafDER & leafKey & c & port & _ & _ & _ & Hserver & Hc & _ & _ & Hp & _).
  - exact demo_no_slash.
  - exact demo_pool_law.
  - exact demo_pair_law.
  - reflexivity.
  - vm_compute. reflexivity.
  - rewrite <- surjective_pairing. exact Hrun.
  - split_and!.
    + exists demo_generated.2.1, demo_generated.2.2. rewrite <- surjective_pairing. exact Hrun.
    + intros r tr fs' H. exact (proj1 (Hserver demo_answers r tr fs' eq_refl H)).
    + exists c, port. split; [exact Hc|exact Hp].
Defined.

(** A server that logs to a file, has a metrics endpoint, and whose serving ends. *)
Definition log_args : list string := ["-log-file"; "server.log"; "-metrics-plain-addr"; ":9100"]%string.
Definition ended_answers : ServerRun.answers := ServerRun.mkAnswers None None None [AcceptError false true "context canceled"] 0 [].
Definition ended_server : status ServerRun.run_error * (trace * FS) :=
  ServerRun.run (key := bool) (pair := list byte * bool) (pool := list (list byte))
    (λ s, String.eqb s "127.0.0.1") (λ i, inr (i =? 0)%nat) (λ _, inr true) load_create load_parse load_marshal demo_chunks
    load_pair (λ _, None) (λ _, inr []) (λ _ c, inr c) "dev" log_args ended_answers ([], demo_files).

Lemma commands_release_witness :
  (demo_proxy.1 = Returned (Some (ProxyRun.ErrMetrics "127.0.0.1:9104" "in use")) ∧ live demo_proxy.2.1 = []) ∧
  (∃ tr fs', demo_server [] demo_files = (Running, (tr, fs')) ∧ serving server_holds (live tr)) ∧
  (ended_server.1 = Returned None ∧ live ended_server.2.1 = [MetricsEndpoint; LoggerFile] ∧
   Released SignalContext ∈ ended_server.2.1 ∧
   ∀ tr, shuts_down ended_server.2.1 tr → ∀ r, r ∈ live tr → r = LoggerFile).
Proof.
  pose proof (λ args fs, commands_release (key := bool) (pair := list byte * bool) (pool := list (list byte)) (H := name_host)
    (λ s, String.eqb s "127.0.0.1") (λ i, inr (i =? 0)%nat) (λ _, inr true) load_create load_parse load_marshal demo_chunks
    load_pair load_pool (λ _, None) (λ _, inr []) (λ _ c, inr c) (λ _ c, inr c) (λ _ c, inr c) (λ _ p, inr p) "dev" args fs) as Hall.
  split_and!.
  - vm_compute. reflexivity.
  - vm_compute. reflexivity.
  - destruct (Hall [] demo_files) as (Hs & _). destruct (demo_server [] demo_files) as [r [tr fs']] eqn:Er.
    assert (r = Running) as -> by (transitivity (demo_server [] demo_files).1; [by rewrite Er|vm_compute; reflexivity]).
    exists tr, fs'. split; [reflexivity|]. unfold demo_server in Er. exact (proj2 (Hs _ _ _ _ Er)).
  - vm_compute. reflexivity.
  - vm_compute. reflexivity.
  - by_computation.
  - destruct (Hall log_args demo_files) as (Hs & _).
    assert (ended_server.1 = Returned None) as Er by (vm_compute; reflexivity).
    destruct ended_server as [r [tr fs']] eqn:Ee. simpl in Er. subst r. unfold ended_server in Ee.
    destruct (proj2 (Hs _ _ _ _ Ee)) as (_ & _ & Hshut).
    intros tr' Htr r Hr. exact (proj2 (proj1 (proj2 (Hshut tr' Htr) r) Hr)).
Defined.
