(* ===== verification/ServerHTTP.v ===== *)
(** * ServerHTTP: from a connection to a handler ([internal/server/server.go])

    What [New] puts around the handlers: the QUIC configuration, the counting of
    connections, the routes of the multiplexer, and the wrapper of the response writer
    by which requests are measured. The multiplexer of package [net/http] is modelled as
    far as these routes use it; connections and response writers are those of the
    libraries. *)

From S2P Require Import Prelude Text Url FS Profile Server.

(** ** QUIC *)

Definition defaultMaxIdleTimeout : Z := 45 * Second.
Definition defaultInitialStreamReceiveWindow : Z := 512 * 1024.
Definition defaultMaxStreamReceiveWindow : Z := 8 * 1024 * 1024.
Definition defaultInitialConnReceiveWindow : Z := 1024 * 1024.
Definition defaultMaxConnReceiveWindow : Z := 16 * 1024 * 1024.
Definition defaultMaxIncomingStreams : Z := 1000.
Definition defaultMaxIncomingUniStreams : Z := 1000.

Record quic_Config := mkQUIC {
  MaxIdleTimeout : Z;
  InitialStreamReceiveWindow : Z;
  MaxStreamReceiveWindow : Z;
  InitialConnectionReceiveWindow : Z;
  MaxConnectionReceiveWindow : Z;
  MaxIncomingStreams : Z;
  MaxIncomingUniStreams : Z;
  EnableDatagrams : bool;
  EnableStreamResetPartialDelivery : bool;
}.
Definition quicConfig : quic_Config :=
  mkQUIC defaultMaxIdleTimeout defaultInitialStreamReceiveWindow defaultMaxStreamReceiveWindow
    defaultInitialConnReceiveWindow defaultMaxConnReceiveWindow defaultMaxIncomingStreams defaultMaxIncomingUniStreams
    true true.

(** ** Connections *)

(** A connection: whether its context is done and what became of the goroutine that
    waits for its handshake. *)
Inductive watcher := Waiting | Observed | Ended.
Record connection := mkConnection { cn_done : bool; cn_watcher : watcher }.
Record conn_metrics := mkConnMetrics { ConnectionsActive : Z; ConnectionsTotal : Z; HandshakeDuration : nat }.
Record connections := mkConnections { conn_list : list connection; conn_gauges : conn_metrics }.

Inductive conn_action :=
| ConnContext              (* the server takes a connection *)
| HandshakeComplete (c : nat)
| WatcherEnds (c : nat)    (* the watcher sees that the connection is done *)
| ConnectionDone (c : nat).  (* the context is done: the AfterFunc runs *)

Definition conn_step (act : conn_action) (s : connections) : option connections :=
  let m := conn_gauges s in
  match act with
  | ConnContext =>
      Some (mkConnections (conn_list s ++ [mkConnection false Waiting])
              (mkConnMetrics (ConnectionsActive m + 1) (ConnectionsTotal m + 1) (HandshakeDuration m)))
  | HandshakeComplete c =>
      match conn_list s !! c with
      | Some (mkConnection d Waiting) =>
          Some (mkConnections (<[c := mkConnection d Observed]> (conn_list s))
                  (mkConnMetrics (ConnectionsActive m) (ConnectionsTotal m) (S (HandshakeDuration m))))
      | _ => None
      end
  | WatcherEnds c =>
      match conn_list s !! c with
      | Some (mkConnection true Waiting) => Some (mkConnections (<[c := mkConnection true Ended]> (conn_list s)) m)
      | _ => None
      end
  | ConnectionDone c =>
      match conn_list s !! c with
      | Some (mkConnection false w) =>
          Some (mkConnections (<[c := mkConnection true w]> (conn_list s))
                  (mkConnMetrics (ConnectionsActive m - 1) (ConnectionsTotal m) (HandshakeDuration m)))
      | _ => None
      end
  end.
Fixpoint conn_steps (acts : list conn_action) (s : connections) : option connections :=
  match acts with
  | [] => Some s
  | a :: acts => conn_step a s ≫= conn_steps acts
  end.
Definition no_connections : connections := mkConnections [] (mkConnMetrics 0 0 0).

(** ** The multiplexer *)

Inductive seg_pattern := Lit (s : text) | Wild.
Inductive handler := HState | HConfig (clientID : string) | HUpload (name : string) | HPubSub | HMetrics.
Inductive routed :=
| Handler (pattern : string) (h : handler)
| RedirectTo (path : string)
| MethodNotAllowed
| NotFound.

Definition cleanPath (p : string) : string :=
  if String.eqb p "" then "/"
  else
    let p := if is_rooted p then p else ("/" +:+ p)%string in
    let np := Clean p in
    if bool_decide (last (bytes_of_string p) = Some slash) && negb (String.eqb np "/") then (np +:+ "/")%string else np.

(** The first segment of a path, decoded, and the rest. *)
Definition firstSegment (p : text) : text * text :=
  if decide (p = [x2f]) then ([x2f], [])
  else
    let '(seg, rest) := Cut x2f (tail p) in
    (match unescape encodePathSegment seg with inl _ => seg | inr s => s end,
     match rest with Some r => x2f :: r | None => [] end).

Fixpoint matchPath (pat : list seg_pattern) (p : text) : option (list text) :=
  match pat with
  | [] => if decide (p = []) then Some [] else None
  | sp :: pat =>
      if decide (p = []) then None
      else
        let '(seg, rest) := firstSegment p in
        match sp with
        | Lit l => if decide (seg = l) then matchPath pat rest else None
        | Wild => if decide (seg = [x2f]) then None else cons seg <$> matchPath pat rest
        end
  end.

(** The routes: their method, segments and handler of the values of the wildcards. *)
Record route := mkRoute {
  rt_pattern : string;
  rt_method : option string;
  rt_segments : list seg_pattern;
  rt_handler : list text → handler;
}.
Definition value (ms : list text) : string := string_of_bytes (default [] (head ms)).
Definition routes (metrics : bool) : list route := [
  mkRoute "GET /state" (Some "GET"%string) [Lit (lit "state")] (λ _, HState);
  mkRoute "GET /config/{clientID}" (Some "GET"%string) [Lit (lit "config"); Wild] (λ ms, HConfig (value ms));
  mkRoute "POST /files/{name}" (Some "POST"%string) [Lit (lit "files"); Wild] (λ ms, HUpload (value ms));
  mkRoute "CONNECT /pubsub" (Some "CONNECT"%string) [Lit (lit "pubsub")] (λ _, HPubSub)
] ++ (if metrics then [mkRoute "/metrics" None [Lit (lit "metrics")] (λ _, HMetrics)] else []).

(** A GET pattern also takes HEAD. *)
Definition method_ok (pattern : option string) (method : string) : bool :=
  match pattern with
  | None => true
  | Some m => String.eqb m method || (String.eqb m "GET" && String.eqb method "HEAD")
  end.

Definition find_route (metrics : bool) (method : string) (path : text) : option (route * list text) :=
  head (omap (λ r, if method_ok (rt_method r) method then pair r <$> matchPath (rt_segments r) path else None) (routes metrics)).

(** [ServeMux.Handler] for a request with this method and escaped path. *)
Definition mux (metrics : bool) (method : string) (escaped : text) : routed :=
  let path := if String.eqb method "CONNECT" then escaped else lit (cleanPath (string_of_bytes escaped)) in
  if negb (bool_decide (path = escaped)) then RedirectTo (string_of_bytes path)
  else
    match find_route metrics method path with
    | Some (r, ms) => Handler (rt_pattern r) (rt_handler r ms)
    | None =>
        if existsb (λ r, match matchPath (rt_segments r) path with Some _ => true | None => false end) (routes metrics)
        then MethodNotAllowed else NotFound
    end.

(** ** The wrapper of the response writer *)

(** What can be called on a response writer beyond [Header]. *)
Inductive rw_call :=
| CallWriteHeader (status : Z)
| CallWrite (p : list byte)
| CallFlush
| CallFlushError
| CallSetReadDeadline (deadline : Z)
| CallSetWriteDeadline (deadline : Z)
| CallReceivedSettings
| CallSettings
| CallHTTPStream.
#[global] Instance rw_call_eq_dec : EqDecision rw_call.
Proof. solve_decision. Defined.

(** What a call answers: nothing, the number of bytes written, an error, or something
    of the connection; [AnswerNil] is a nil value, [AnswerClosed] a closed channel. *)
Inductive rw_answer :=
| AnswerDone
| AnswerWritten (n : Z) (e : option string)
| AnswerError (e : option string)
| AnswerValue (x : nat)
| AnswerNil
| AnswerClosed.

(** The optional interfaces of the wrapped writer, which are asserted on each call. *)
Record rw_interfaces := mkInterfaces {
  is_Flusher : bool;
  is_FlushErrorer : bool;
  is_ReadDeadliner : bool;
  is_WriteDeadliner : bool;
  is_Settingser : bool;
  is_HTTPStreamer : bool;
}.

Section recorder.
(** The wrapped writer: its interfaces, its state and how it answers. *)
Context {W : Type} (ifaces : rw_interfaces) (answer : rw_call → W → rw_answer * W).

Definition recorder_call (c : rw_call) (s : statusRecorder * W) : rw_answer * (statusRecorder * W) :=
  let '(r, w) := s in
  let forward (c : rw_call) := let '(a, w) := answer c w in (a, (r, w)) in
  let flush := if is_Flusher ifaces then let '(_, w) := answer CallFlush w in (r, w) else (r, w) in
  match c with
  | CallWriteHeader status => let '(_, w) := answer c w in (AnswerDone, (record_op r (OpWriteHeader status), w))
  | CallWrite p =>
      let '(a, w) := answer c w in
      (a, (match a with AnswerWritten n _ => record_op r (OpWrite n) | _ => r end, w))
  | CallFlush => (AnswerDone, flush)
  | CallFlushError => if is_FlushErrorer ifaces then forward c else (AnswerError None, flush)
  | CallSetReadDeadline _ => if is_ReadDeadliner ifaces then forward c else (AnswerError (Some "feature not supported"%string), s)
  | CallSetWriteDeadline _ => if is_WriteDeadliner ifaces then forward c else (AnswerError (Some "feature not supported"%string), s)
  | CallReceivedSettings => if is_Settingser ifaces then forward c else (AnswerClosed, s)
  | CallSettings => if is_Settingser ifaces then forward c else (AnswerNil, s)
  | CallHTTPStream => if is_HTTPStreamer ifaces then forward c else (AnswerNil, s)
  end.

Fixpoint recorder_calls (cs : list rw_call) (s : statusRecorder * W) : list rw_answer * (statusRecorder * W) :=
  match cs with
  | [] => ([], s)
  | c :: cs =>
      let '(a, s) := recorder_call c s in
      let '(r, s) := recorder_calls cs s in
      (a :: r, s)
  end.

(** [writeJSON]: the encoder writes the text at once. *)
Definition writeJSON (call : rw_call → W → rw_answer * W) (status : Z) (encoded : string + list byte) (w : W)
    : option string * W :=
  let '(_, w) := call (CallWriteHeader status) w in
  match encoded with
  | inl e => (Some ("server: encode JSON: " +:+ e)%string, w)
  | inr d =>
      match call (CallWrite d) w with
      | (AnswerWritten _ (Some e), w) => (Some ("server: encode JSON: " +:+ e)%string, w)
      | (_, w) => (None, w)
      end
  end.
End recorder.
