(* ===== verification/ServerHTTPTheorems.v ===== *)
(** * ServerHTTPTheorems: what clients call reaches its handler *)

From S2P Require Import Prelude Text Url UrlProofs FS CertsLoad Server ServerHTTP ClientHTTP ClientNew ClientNewTheorems.

(** ** Connections *)

Definition counted (s : connections) : Prop :=
  let n (p : connection → bool) := Z.of_nat (length (List.filter p (conn_list s))) in
  ConnectionsActive (conn_gauges s) = n (λ c, negb (cn_done c)) ∧
  ConnectionsTotal (conn_gauges s) = Z.of_nat (length (conn_list s)) ∧
  Z.of_nat (HandshakeDuration (conn_gauges s)) = n (λ c, match cn_watcher c with Observed => true | _ => false end).

Lemma filter_insert {A} (p : A → bool) (l : list A) i x y : l !! i = Some x →
  Z.of_nat (length (List.filter p (<[i := y]> l))) =
  Z.of_nat (length (List.filter p l)) - (if p x then 1 else 0) + (if p y then 1 else 0).
Proof.
  intros Hl. rewrite (insert_take_drop l i y) by by eapply lookup_lt_Some.
  rewrite <- (take_drop_middle l i x Hl) at 3. rewrite !List.filter_app, !length_app. cbn [List.filter].
  destruct (p x), (p y); simpl; lia.
Qed.

Lemma conn_step_counted act s s' : counted s → conn_step act s = Some s' → counted s'.
Proof.
  intros (Ha & Ht & Hh). destruct act as [|c|c|c]; cbn [conn_step].
  { intros [= <-]. unfold counted. cbn [conn_list conn_gauges ConnectionsActive ConnectionsTotal HandshakeDuration].
    rewrite !List.filter_app, !length_app. simpl. lia. }
  all: destruct (conn_list s !! c) as [[d w]|] eqn:E; [|done]; destruct d, w; try done; intros [= <-]; unfold counted;
    cbn [conn_list conn_gauges ConnectionsActive ConnectionsTotal HandshakeDuration]; rewrite length_insert;
    rewrite !(filter_insert _ _ _ _ _ E); cbn [cn_done cn_watcher negb]; lia.
Qed.

(** The gauge counts the open connections, the counter all of them, and a handshake is
    observed once per connection at most. *)
Lemma connections_counted acts s s' : counted s → conn_steps acts s = Some s' → counted s'.
Proof.
  revert s. induction acts as [|a acts IH]; intros s Hs; cbn [conn_steps]; [by intros [= <-]|].
  destruct (conn_step a s) as [s1|] eqn:E; [|done]. simpl. apply IH. by eapply conn_step_counted.
Qed.

(** ** The wrapper *)

Definition all_interfaces : rw_interfaces := mkInterfaces true true true true true true.

(** Around a writer with every interface, as that of HTTP/3 is, the wrapper passes each
    call on and answers as the writer does; it records the last status and the bytes
    written. *)
Lemma recorder_transparent {W} (answer : rw_call → W → rw_answer * W) c r w :
  (∀ w, (answer CallFlush w).1 = AnswerDone) → (∀ status w, (answer (CallWriteHeader status) w).1 = AnswerDone) →
  (recorder_call all_interfaces answer c (r, w)).1 = (answer c w).1 ∧
  (recorder_call all_interfaces answer c (r, w)).2.2 = (answer c w).2.
Proof.
  intros Hf Hs. destruct c; cbn [recorder_call all_interfaces is_Flusher is_FlushErrorer is_ReadDeadliner is_WriteDeadliner
    is_Settingser is_HTTPStreamer]; destruct (answer _ w) as [a w'] eqn:E; try done.
  - split; [|done]. pose proof (Hs status w) as H. by rewrite E in H.
  - split; [|done]. pose proof (Hf w) as H. by rewrite E in H.
Qed.

(** ** Routes *)

Definition call_method (k : call) : string :=
  match k with CallState | CallConfig _ => "GET" | CallUpload _ => "POST" | CallPubSub => "CONNECT" end.

(** Where a call should lead. *)
Definition call_handler (k : call) : string * handler :=
  match k with
  | CallState => ("GET /state", HState)
  | CallPubSub => ("CONNECT /pubsub", HPubSub)
  | CallConfig clientID => ("GET /config/{clientID}", HConfig clientID)
  | CallUpload name => ("POST /files/{name}", HUpload name)
  end%string.

(** What no segment of a path can be. *)
Definition no_segment : list string := [""; "."; ".."; "/"]%string.
Definition routable (k : call) : Prop :=
  match k with CallState | CallPubSub => True | CallConfig x | CallUpload x => x ∉ no_segment end.
#[global] Instance routable_dec k : Decision (routable k).
Proof. destruct k; apply _. Defined.

Lemma PathEscape_ordinary x : x ∉ no_segment → ordinary (PathEscape x) ∧ no_slash (PathEscape x).
Proof.
  intros Hx. assert (∀ y, unescape encodePathSegment (lit y) = inr (lit y) → PathEscape x = y → x = y) as Hinj.
  { intros y Hy E. pose proof (unescape_escape encodePathSegment (lit x) ltac:(done)) as Hu.
    rewrite <- lit_PathEscape, E, Hy in Hu. injection Hu as Hu.
    rewrite <- (string_of_bytes_of_string x), <- (string_of_bytes_of_string y). f_equal. by symmetry. }
  split.
  - split_and!; intros E; apply Hx; apply Hinj in E as ->; try (vm_compute; reflexivity); unfold no_segment; set_solver.
  - unfold no_slash. change (bytes_of_string (PathEscape x)) with (lit (PathEscape x)). rewrite lit_PathEscape.
    by apply escape_not_in.
Qed.

(** A path of one element and a name in it is clean. *)
Lemma cleanPath_segment d x : resolve ("/" +:+ d) = (true, [d]) → ordinary x → no_slash x →
  cleanPath (("/" +:+ d) +:+ "/" +:+ x) = (("/" +:+ d) +:+ "/" +:+ x)%string.
Proof.
  intros Hd Hx Hxs. assert (is_rooted (("/" +:+ d) +:+ "/" +:+ x) = true) as Hroot by done.
  unfold cleanPath. rewrite Hroot. change (String.eqb (("/" +:+ d) +:+ "/" +:+ x) "") with false. cbv iota.
  assert (Clean (("/" +:+ d) +:+ "/" +:+ x) = (("/" +:+ d) +:+ "/" +:+ x)%string) as ->.
  { unfold Clean. rewrite resolve_child, Hd by done. unfold child, render, render_segs. cbn [fst snd map app join_with].
    apply (inj bytes_of_string). rewrite !bytes_of_string_app, bytes_of_string_of_bytes. by rewrite <- app_assoc. }
  rewrite bool_decide_false; [done|]. rewrite !bytes_of_string_app, app_assoc. apply last_not_slash.
  - intros Hl%last_Some_elem_of. by apply Hxs.
  - intros E. destruct Hx as [Hx _]. apply Hx. by apply (inj bytes_of_string).
Qed.

Section routing.
Context (metrics : bool).

(** The path of a call with a name. *)
Lemma matchPath_segment d x : x ∉ no_segment → x2f ∉ lit d → unescape encodePathSegment (lit d) = inr (lit d) →
  lit d ≠ [x2f] →
  matchPath [Lit (lit d); Wild] (x2f :: lit d ++ x2f :: lit (PathEscape x)) = Some [lit x].
Proof.
  intros Hx Hcut Hd Hne. destruct (PathEscape_ordinary x Hx) as [[Hemp _] Hs].
  assert (lit (PathEscape x) ≠ []) as Hne' by (intros E; apply Hemp; by apply (inj bytes_of_string)).
  cbn [matchPath]. rewrite decide_False by done.
  assert (firstSegment (x2f :: lit d ++ x2f :: lit (PathEscape x)) = (lit d, x2f :: lit (PathEscape x))) as ->.
  { unfold firstSegment. rewrite decide_False by by destruct (lit d).
    cbn [tail]. rewrite Cut_app by done. by rewrite Hd. }
  rewrite decide_True by done. rewrite decide_False by done.
  assert (firstSegment (x2f :: lit (PathEscape x)) = (lit x, [])) as ->.
  { unfold firstSegment. rewrite decide_False by (intros [= E]; done). cbn [tail].
    rewrite Cut_none by exact Hs. rewrite lit_PathEscape, unescape_escape by done. done. }
  rewrite decide_False; [by rewrite decide_True|]. intros E. apply Hx. 
  assert (x = "/"%string) as -> by by apply (inj bytes_of_string). unfold no_segment. set_solver.
Qed.

(** The other routes do not match. *)
Lemma matchPath_other y :
  matchPath [Lit (lit "state")] (lit "/config/" ++ y) = None ∧ matchPath [Lit (lit "pubsub")] (lit "/config/" ++ y) = None ∧
  matchPath [Lit (lit "metrics")] (lit "/config/" ++ y) = None ∧ matchPath [Lit (lit "metrics")] (lit "/files/" ++ y) = None.
Proof. split_and!; vm_compute; reflexivity. Qed.

Lemma mux_clean method (p : string) : cleanPath p = p → mux metrics method (lit p) =
  match find_route metrics method (lit p) with
  | Some (r, ms) => Handler (rt_pattern r) (rt_handler r ms)
  | None =>
      if existsb (λ r, match matchPath (rt_segments r) (lit p) with Some _ => true | None => false end) (routes metrics)
      then MethodNotAllowed else NotFound
  end.
Proof.
  intros Hp. assert (string_of_bytes (lit p) = p) as Hl by apply string_of_bytes_of_string. unfold mux. rewrite Hl, Hp.
  destruct (String.eqb method "CONNECT"); by rewrite bool_decide_true.
Qed.


Lemma mux_routes k : routable k → mux metrics (call_method k) (call_path k) = Handler (call_handler k).1 (call_handler k).2.
Proof.
  destruct k as [| |x|x]; intros Hk; [by destruct metrics; vm_compute|by destruct metrics; vm_compute|..];
    destruct (PathEscape_ordinary x Hk) as [Ho Hs]; unfold call_path, call_method.
  - pose proof (cleanPath_segment "config" (PathEscape x) ltac:(vm_compute; reflexivity) Ho Hs) as Hclean.
    rewrite (mux_clean _ ("/config/" +:+ PathEscape x) Hclean). rewrite lit_app.
    pose proof (matchPath_segment "config" x Hk ltac:(by_computation) ltac:(vm_compute; reflexivity) ltac:(done)) as Hm.
    change (x2f :: lit "config" ++ x2f :: lit (PathEscape x)) with (lit "/config/" ++ lit (PathEscape x)) in Hm.
    destruct (matchPath_other (lit (PathEscape x))) as (H1 & H2 & H3 & _).
    unfold find_route, routes. destruct metrics; cbn [app omap list_omap rt_method rt_segments method_ok String.eqb Ascii.eqb Bool.eqb orb andb].
    all: rewrite H1, ?H3, Hm; cbn; do 2 f_equal; apply string_of_bytes_of_string.
  - pose proof (cleanPath_segment "files" (PathEscape x) ltac:(vm_compute; reflexivity) Ho Hs) as Hclean.
    rewrite (mux_clean _ ("/files/" +:+ PathEscape x) Hclean). rewrite lit_app.
    pose proof (matchPath_segment "files" x Hk ltac:(by_computation) ltac:(vm_compute; reflexivity) ltac:(done)) as Hm.
    change (x2f :: lit "files" ++ x2f :: lit (PathEscape x)) with (lit "/files/" ++ lit (PathEscape x)) in Hm.
    destruct (matchPath_other (lit (PathEscape x))) as (_ & _ & _ & H3).
    unfold find_route, routes. destruct metrics; cbn [app omap list_omap rt_method rt_segments method_ok String.eqb Ascii.eqb Bool.eqb orb andb].
    all: rewrite ?H3, Hm; cbn; do 2 f_equal; apply string_of_bytes_of_string.
Qed.

(** The names that are no segment lead to no handler. *)
Lemma mux_no_segment k : ¬ routable k → ∀ pattern h, mux metrics (call_method k) (call_path k) ≠ Handler pattern h.
Proof.
  intros Hk pattern h. destruct k as [| |x|x]; try (exfalso; apply Hk; exact I).
  all: assert (x ∈ no_segment) as Hx by (destruct (decide (x ∈ no_segment)); [done|by destruct Hk]).
  all: unfold no_segment in Hx; rewrite !elem_of_cons, elem_of_nil in Hx; destruct Hx as [->|[->|[->|[->|[]]]]];
    destruct metrics; vm_compute; discriminate.
Qed.
End routing.

(** A path that stands for the empty one is empty. *)
Lemma unescape_nil mode p : unescape mode p = inr [] → p = [].
Proof.
  destruct p as [|c p]; [done|]. simpl. destruct (bool_decide (c = x25)).
  - destruct p as [|a [|b p]]; [done..|]. destruct (unhex a), (unhex b); try done. destruct (_ && _ && _); [done|].
    by destruct (unescape mode p).
  - destruct (_ && _); [done|]. by destruct (unescape mode p).
Qed.

(** C21: what a client calls reaches its handler. When the base URL that was given has no
    path and no question mark at its end, every call of the client leads, through the
    multiplexer of the server, which sees the escaped path of its URL, to the handler
    meant for it, and this one is given the identifier or name of the call, whatever
    bytes it has; except that an identifier or name that is empty, a dot, two dots or a
    slash leads to no handler at all. *)
Theorem client_calls_routed `{HostParserLaws} {pair pool} (AppendCertsFromPEM : list byte → option pool) metrics opts fs c fs' given :
  New (pair := pair) AppendCertsFromPEM opts fs = (inr c, fs') →
  Parse (with_scheme (BaseURL opts)) = inr given → ForceQuery given = false → TrimRight x2f (Path given) = [] →
  ∀ k, ∃ v, request_url c k = inr v ∧
    if decide (routable k) then mux metrics (call_method k) (EscapedPath v) = Handler (call_handler k).1 (call_handler k).2
    else ∀ pattern h, mux metrics (call_method k) (EscapedPath v) ≠ Handler pattern h.
Proof.
  intros Hnew Hgiven Hforce Hpath k.
  destruct (client_base_url_lemma _ _ _ _ _ Hnew) as [_ Hok].
  destruct (Hok c eq_refl) as (given' & u & Hg & Hu & _ & (_ & _ & _ & _ & _ & Hup) & Hcall).
  rewrite Hgiven in Hg. injection Hg as <-. rewrite Hpath in Hup.
  destruct (Hcall k) as (v & Hv & _ & Hp). rewrite Hforce in Hp. destruct Hp as [Hp _].
  assert (EscapedPath u = []) as Hu0.
  { apply (unescape_nil encodePath). rewrite EscapedPath_decodes; [by rewrite Hup|by rewrite Hup]. }
  rewrite Hu0 in Hp. exists v. split; [exact Hv|]. rewrite Hp. cbn [app].
  destruct (decide (routable k)); [by apply mux_routes|by apply mux_no_segment].
Qed.

#[local] Existing Instances name_host name_host_laws.

Lemma client_calls_routed_witness :
  ∃ c v w, (demo_new "gw.lan:4433/").1 = inr c ∧
    request_url c (CallConfig "a b/1") = inr v ∧ mux true "GET" (EscapedPath v) = Handler "GET /config/{clientID}" (HConfig "a b/1") ∧
    request_url c (CallUpload "..") = inr w ∧ ∀ pattern h, mux true "POST" (EscapedPath w) ≠ Handler pattern h.
Proof.
  pose proof (client_calls_routed (pair := unit) demo_pem true (mkOptions (lit "gw.lan:4433/") "ca.pem") demo_ca) as H.
  specialize (H (mkClient (lit "https://gw.lan:4433") (lit "gw.lan:4433")
    (Some (mkClientTLS (mkTLS [] (Some [x01]) [ALPN] VersionTLS13) [])) : @Client unit (list byte)) (demo_new "gw.lan:4433/").2).
  specialize (H (mkURL (lit "https") [] None (lit "gw.lan:4433") (lit "/") [] false false [] [])).
  specialize (H ltac:(vm_compute; reflexivity) ltac:(vm_compute; reflexivity) eq_refl ltac:(vm_compute; reflexivity)).
  destruct (H (CallConfig "a b/1")) as (v & Hv & Hr). destruct (H (CallUpload "..")) as (w & Hw & Hn).
  rewrite decide_True in Hr by by_computation. rewrite decide_False in Hn by (intros Hin; by apply Hin; right; right; left).
  eexists _, v, w. split_and!; [vm_compute; reflexivity|exact Hv|exact Hr|exact Hw|exact Hn].
Defined.
